(* ===== verification/_CoqProject ===== *)
-Q . S2P
Prelude.v
Models.v
Slot.v
SlotFacts.v
ControllerDb.v
ControllerDbFacts.v
Idempotency.v
Readiness.v
Lifecycle.v
Maintenance.v
Dispatch.v
Hoare.v
LeaseFacts.v
JobFacts.v
ProtocolFacts.v
Capability.v
CapabilityFacts.v
CapabilityTheorems.v
Schedule.v
ScheduleFacts.v
Retirement.v
RetirementFacts.v
RetirementTheorems.v
RetentionPlan.v
RetentionPlanFacts.v
Status.v
MaintenanceTick.v
IdleFacts.v
TickFacts.v
Restore.v
RestoreFacts.v
RestoreTheorems.v
Archive.v
ArchiveFacts.v
ArchiveTheorems.v
ArchiveRoundtrip.v
Fault.v
Backups.v
BackupsFacts.v
BackupsTheorems.v
BackupCreate.v
BackupOnline.v
AlertPolicy.v
AlertPolicyFacts.v
AlertWindows.v
Tree.v
Promote.v
PromoteFacts.v
PromoteTheorems.v
PromoteTrees.v
PromoteResume.v
PromoteAttempts.v
Reconcile.v
ReconcileApply.v
ReconcileFacts.v
ReconcilePlan.v
ReconcileSteps.v
ReconcileRun.v
ReconcileDb.v
ReconcileExample.v
ReconcileTheorems.v
ReconcileReport.v
Updates.v
UpdatesTheorems.v
Worlds.v
