(* ===== verification/Prelude.v ===== *)
(** * Helios Horizon game control: a verification development

    Helios Horizon runs one of several game servers at a time on a host.  Its root
    daemon (slotd) owns a single game slot: a controller serves typed RPC requests
    over a Unix socket (start, stop, switch, backups, updates, benchmarks), keeps
    its durable state in SQLite, reserves the slot in a lease file shared with
    other processes, and starts and stops the servers through adapters.  An
    external agent reaches the controller only through capability tokens.
    The models are of Python under [src/src/game_control/], but for the retention plan,
    which is in [src/ops/laptop-backup/].

    ** Files, components and the code they model

    - [Prelude]: Python results and exceptions, exact finite floats, JSON values,
      the tactics, hint databases and generic lemmas of the development.
    - [Models] ([models.py]): profile ids, states, operations and their strings.
    - [Slot], [SlotFacts] ([slot.py]): the reservation file (parser, printer,
      reserve, renew, transfer, release, reconcile, handoff, runner admission) and
      the slot inspector.  A call is a function of what it observes and of the
      file.
    - [ControllerDb], [ControllerDbFacts] ([controller.py], [state_db.py]): jobs,
      audits, confirmations, the generation counter and the boot profile as
      transactions on a record of tables.
    - [Idempotency] ([controller.py]): request ids, claims, replay, restart and
      retention as a step function over a table keyed by request id.
    - [Readiness] ([health.py], the readiness coordinator): tickets, notification,
      waiting and generations.
    - [Lifecycle] ([controller.py]): start, stop, restart, force stop, switch with
      rollback, console commands, and the leases they hold.  [Maintenance]: backup,
      restore, clone, update, retirement, scheduled backup and benchmark jobs.
      [Dispatch]: the request table.  A handler is a computation over database,
      reservation file, readiness coordinator and the locals its exception clauses
      read.
    - [Hoare], [LeaseFacts], [JobFacts], [ProtocolFacts]: rules for handlers and
      the theorems about leases, jobs and command order.
    - [Capability], [CapabilityFacts], [CapabilityTheorems] ([capability.py]): the
      token store and the service for external agents.
    - [Schedule], [ScheduleFacts] ([schedule.py]): cron fields, the next fire time,
      the parser of entries and the schedule book.
    - [Retirement], [RetirementFacts], [RetirementTheorems] ([retirement.py]): the
      trusted manifest, the ledger, and the quarantine, purge and rollback phases
      over a file system that can stop before any effect.
    - [RetentionPlan], [RetentionPlanFacts] ([ops/laptop-backup/retention_plan.py]):
      the plan that proposes archives for removal.
    - [Status] ([status.py], [benchmark_safety.py]): state derivation and the snapshots
      the controller decides on.  [MaintenanceTick], [IdleFacts], [TickFacts]
      ([controller.py], [idle_stop.py]): idle stops and scheduled work of a tick.
    - [Restore], [RestoreFacts], [RestoreTheorems] ([backups.py], [RestoreService]):
      the journal, displacement and publication of a restore and its recovery.
    - [Archive], [ArchiveFacts], [ArchiveTheorems], [ArchiveRoundtrip] ([backups.py]):
      snapshot, manifest, verification, validation and extraction of an archive.
    - [Fault]: the monad of computations whose every effect can fail or be the last,
      with its triples; used by the next components.
    - [Backups], [BackupsFacts], [BackupsTheorems], [BackupCreate], [BackupOnline]
      ([backups.py], [BackupService], [B2ProtectionService], [B2CommandTransport]):
      creating, protecting and pruning backups, and the copies at B2 over the
      interface [B2Transport] with its laws.
    - [AlertPolicy], [AlertPolicyFacts], [AlertWindows] ([alert_policy.py]): the alert
      rules and their evaluator.
    - [Tree], [Promote], [PromoteFacts], [PromoteTheorems], [PromoteTrees],
      [PromoteResume], [PromoteAttempts]
      ([sunlit_promote.py], [activate_release] of [modpack_update.py]): file trees and the
      promotion of a staged release.
    - [Reconcile], [ReconcileApply], [ReconcileFacts], [ReconcilePlan], [ReconcileSteps],
      [ReconcileRun], [ReconcileDb], [ReconcileExample], [ReconcileTheorems],
      [ReconcileReport] ([backup_reconcile.py], [reconcile] of [backup_command.py]): the
      plan that reconciles the catalog and the protection rows with the archives at B2,
      its application over the interface [Transport] with its laws, and its report.
    - [Updates], [UpdatesTheorems] ([updates.py], [UpdateService]): the update of a
      profile by SteamCMD or by a release behind a link.  [Worlds] ([worlds.py],
      [WorldService]): the copy of a world into another profile.

    The files call each other as the code does: [Dispatch] runs the handlers of
    [Lifecycle] and [Maintenance]; these run the transactions of [ControllerDb],
    the lease calls of [Slot] and the tickets of [Readiness]; [Capability] sees
    the controller through its answers.

    ** What the theorems show

    - Leases: a live lease survives every call of other processes, admission is
      exclusive, an expired lease is recovered, the store refines an abstract
      lease machine, and every request releases its leases on every path
      ([SlotFacts], [LeaseFacts]); one handler does not.
    - Jobs: a job of a request that is not cancelled is stored in a final state
      ([JobFacts]); confirmations are used once and are fenced by the generation;
      the boot profile follows the last finished job ([ControllerDbFacts]).
    - Requests: a request id is dispatched at most once and retries are replayed
      ([Idempotency]).
    - Commands: a start is sent only under a lease and on a free slot, a stop only
      after a fresh preflight ([ProtocolFacts]).
    - Capabilities: only a waker's wake starts the approved server on a free slot,
      at most once per request id, within cooldown and budget; revocation is
      final; retention is bounded ([CapabilityTheorems]).
    - Schedules: the next fire time is the earliest matching minute, and every due
      entry is handed out once per minute ([ScheduleFacts]).
    - Retirement: no payload is lost at any crash point except under the purge
      conditions; the phases refine an abstract machine; the ledger is permanent
      ([RetirementTheorems]).
    - Retention plan: a digest is proposed exactly under the rules, and every profile
      keeps its floor ([RetentionPlanFacts]).
    - Ticks: a scheduled fire runs at most once across restarts; an idle stop comes
      once per streak ([TickFacts], [IdleFacts]).
    - Restores: all roots are old or all are new after recovery; a verified archive
      gives back the files it was made of, and extraction stays below the staging
      directory ([RestoreTheorems], [ArchiveTheorems], [ArchiveRoundtrip]).
    - Backups: there with row and archive or not at all; an online backup turns the
      saves on again; a remote copy is deleted only when two newer verified ones are
      there ([BackupCreate], [BackupOnline], [BackupsTheorems]).
    - Alerts: once per incident, with growing generations; the windows are those of
      the samples ([AlertPolicyFacts], [AlertWindows]).
    - Promotion: the active link never dangles, at any crash point; refused
      publications are resumed to the end ([PromoteTheorems], [PromoteAttempts]).
    - Reconciliation: at every point where it can stop the kept generations are not
      lost; when it is complete, the remote, the flags and the protection rows agree
      ([ReconcileTheorems]); the report shows everything but keys and paths
      ([ReconcileReport]).
    - Updates: the link denotes a whole release at every point where an update can
      stop, a failed update is rolled back, nothing happens without a backup, an
      extraction is bounded ([UpdatesTheorems]); a clone never overwrites a world
      ([Worlds]).
    Several theorems are about defects the model exposed: a benchmark request that
    keeps its lease, cooldowns that open early because times are compared as text,
    audit rows that retention never selects, a rollback that the transition table
    forbids, two retirement operations that hold one payload, scheduled benchmarks
    that are never eligible, a stale restore journal that deletes a restored root, a
    legacy prefix that moves files, a failed backup that leaves its row, a failed
    write that blocks a promotion for good, an interrupted activation, a plan of
    reconciliation that is ready and always refused, updates that are offered and never
    applied, and a payload that is published without the right to execute it.

    ** Idealisations, bounds and fuel

    - The event loop is a parameter ([world]): it chooses what other tasks did at
      each [await], how awaited calls end, lost leases, cancellation and failing
      transactions; theorems hold for every choice.  [rworld] does the same for
      retirement, including a fault or crash before any effect.
    - A SQLite transaction is atomic; [flock] is mutual exclusion; floats are exact
      and finite sums are not rounded; strings are ASCII.
    - Microsecond times; ISO texts are compared by [iso_rank], which orders times
      as their texts.
    - The only fuel is that of the day loop of [_find_next_fire]: [days + 2]
      iterations, and [next_fire_is_earliest] shows that they are enough; the stack
      loop of [_walk] has one iteration per directory and one more, and
      [walk_ends_and_misses_nothing] shows that they are enough.
    - Hashes, random ids, JSON decoding and the answers of other services are
      parameters.

    ** Not modelled

    The web tier (HTTP, sessions, push, templates), the adapters (systemd, Crafty,
    RCON), telemetry and metrics, health probes, log following, deployment and
    acceptance tools and migrations are I/O around external programs; the discovery,
    download and staging of a Sunlit release, benchmarks' statistics and profile configuration are left for later.  Read-only
    requests of the controller are not modelled. *)
From stdpp Require Export prelude gmap strings list sorting.
From Stdlib Require Export ZArith Lia.

#[global] Open Scope Z_scope.

(** ** Python exceptions and results *)

(** The exception classes the modelled code raises or catches.  The message is
    kept because several callers forward it to the operator. *)
Inductive exn :=
  | ValueError (msg : string)
  | TypeError (msg : string)
  | KeyError (msg : string)
  | PermissionError (msg : string)
  | BlockingIOError (msg : string)
  | FileNotFoundError (msg : string)
  | OSError (msg : string)
  | OverflowError (msg : string)
  | RuntimeError (msg : string).

#[export] Instance exn_eq_dec : EqDecision exn.
Proof. solve_decision. Defined.

(** A call either returns or raises. *)
Inductive res (A : Type) :=
  | Ret (a : A)
  | Raise (e : exn).
Arguments Ret {A} a.
Arguments Raise {A} e.

Definition rbind {A B} (c : res A) (k : A -> res B) : res B :=
  match c with Ret a => k a | Raise e => Raise e end.

Declare Scope py_scope.
Delimit Scope py_scope with py.
Notation "'let?' x := c 'in' k" := (rbind c (fun x => k))
  (at level 10, x binder, c at level 100, k at level 200) : py_scope.
#[global] Open Scope py_scope.

Definition is_ret {A} (c : res A) : bool :=
  match c with Ret _ => true | Raise _ => false end.

(** ** Finite floats

    Every finite binary64 value is an integer multiple of 2^-1074, so a finite
    float is modelled exactly by that integer.  Sums are taken in exact
    arithmetic (no rounding step). *)
Definition fscale : Z := 2 ^ 1074.

Lemma fscale_pos : 0 < fscale.
Proof. reflexivity. Qed.

#[global] Opaque fscale.

(** [fl n] is the float literal [n.0]. *)
Definition fl (n : Z) : Z := n * fscale.

(** A Python float: finite, infinite or not a number. *)
Inductive pyfloat :=
  | FFin (v : Z)
  | FInf
  | FNegInf
  | FNan.

#[export] Instance pyfloat_eq_dec : EqDecision pyfloat.
Proof. solve_decision. Defined.

(** [float(n)] for an int: [OverflowError] at the binary64 overflow threshold. *)
Definition float_of_int (n : Z) : option Z :=
  if Z.abs n <? 2 ^ 1024 - 2 ^ 970 then Some (fl n) else None.

(** ** JSON values as [json.loads] returns them *)
Inductive json :=
  | JNull
  | JBool (b : bool)
  | JInt (n : Z)
  | JFloat (f : pyfloat)
  | JStr (s : string)
  | JList (l : list json)
  | JObj (l : list (string * json)).

(** [d.get(k)]: the parsed dict has unique keys. *)
Fixpoint assoc {A} (k : string) (l : list (string * A)) : option A :=
  match l with
  | [] => None
  | (k', v) :: l' => if String.eqb k k' then Some v else assoc k l'
  end.

Definition nonempty (s : string) : bool :=
  match s with EmptyString => false | _ => true end.

(** ** Python strings and paths *)

(** The order of Python strings. *)
Fixpoint str_leb (a b : string) : bool :=
  match a, b with
  | EmptyString, _ => true
  | String _ _, EmptyString => false
  | String x a', String y b' =>
      let m := Ascii.nat_of_ascii x in
      let n := Ascii.nat_of_ascii y in
      if (m <? n)%nat then true else if (n <? m)%nat then false else str_leb a' b'
  end.

Definition str_le (a b : string) : Prop := str_leb a b = true.
#[export] Instance str_le_dec a b : Decision (str_le a b).
Proof. unfold str_le. apply _. Defined.

(** ** Automation shared by the components *)

(** Case split on every match or [if] of the goal or of a hypothesis. *)
Ltac split_match :=
  match goal with
  | H : context [match ?x with _ => _ end] |- _ => destruct x eqn:?
  | |- context [match ?x with _ => _ end] => destruct x eqn:?
  end.

Ltac inv_ret :=
  repeat match goal with
  | H : Ret _ = Ret _ |- _ => injection H as H
  | H : Raise _ = Raise _ |- _ => injection H as H
  | H : Ret _ = Raise _ |- _ => discriminate H
  | H : Raise _ = Ret _ |- _ => discriminate H
  | H : Some _ = Some _ |- _ => injection H as H
  | H : (_, _) = (_, _) |- _ => injection H as H
  end.

(** Turn the boolean guards of the code into propositions. *)
Ltac to_prop :=
  repeat match goal with
  | H : (_ && _)%bool = true |- _ => apply andb_true_iff in H; destruct H
  | H : (_ || _)%bool = false |- _ => apply orb_false_iff in H; destruct H
  | H : (_ && _)%bool = false |- _ => apply andb_false_iff in H
  | H : (_ || _)%bool = true |- _ => apply orb_true_iff in H
  | H : negb _ = true |- _ => apply negb_true_iff in H
  | H : negb _ = false |- _ => apply negb_false_iff in H
  | H : (_ =? _) = true |- _ => apply Z.eqb_eq in H
  | H : (_ =? _) = false |- _ => apply Z.eqb_neq in H
  | H : (_ <? _) = true |- _ => apply Z.ltb_lt in H
  | H : (_ <? _) = false |- _ => apply Z.ltb_ge in H
  | H : (_ <=? _) = true |- _ => apply Z.leb_le in H
  | H : (_ <=? _) = false |- _ => apply Z.leb_gt in H
  | H : String.eqb _ _ = true |- _ => apply String.eqb_eq in H
  | H : String.eqb _ _ = false |- _ => apply String.eqb_neq in H
  | H : bool_decide _ = true |- _ => apply bool_decide_eq_true in H
  | H : bool_decide _ = false |- _ => apply bool_decide_eq_false in H
  end.

(** Split the guards of the code, discard the impossible branches. *)
Ltac crush_guards :=
  repeat (split_match; simplify_eq/=; to_prop; try done).

(** ** Rows selected by a unique key *)

Lemma filter_unique {A K} (f : A -> K) (P : A -> bool) l x :
  NoDup (map f l) -> List.In x l -> P x = true -> (forall y, P y = true -> f y = f x) ->
  List.filter P l = [x].
Proof.
  induction l as [|y l IH]; [done|]. simpl. intros Hnd Hin Hp Hu.
  apply NoDup_cons in Hnd as [Hn Hnd]. destruct Hin as [->|Hin].
  - rewrite Hp. f_equal.
    destruct (List.filter P l) as [|z l'] eqn:E; [done|]. exfalso. apply Hn.
    assert (List.In z (List.filter P l)) as Hz by (rewrite E; by left).
    apply filter_In in Hz as [Hz1 Hz2]. rewrite <- (Hu z Hz2).
    apply list_elem_of_In, in_map, Hz1.
  - destruct (P y) eqn:Hy; [|by apply IH]. exfalso. apply Hn.
    rewrite (Hu y Hy). apply list_elem_of_In, in_map, Hin.
Qed.

Lemma filter_key_none {A} (P : A -> bool) l :
  (forall y, List.In y l -> P y = false) -> List.filter P l = [].
Proof.
  induction l as [|y l IH]; [done|]. simpl. intros H. rewrite (H y (or_introl eq_refl)).
  apply IH. intros z Hz. apply H. by right.
Qed.

(** ** Rewriting database of the development *)
(** *** The order of strings is total *)
Lemma str_leb_total a b : str_leb a b = true \/ str_leb b a = true.
Proof.
  revert b; induction a as [|x a IH]; intros [|y b]; simpl; auto.
  repeat case_match; auto.
Qed.

Lemma str_leb_trans a b c : str_leb a b = true -> str_leb b c = true -> str_leb a c = true.
Proof.
  revert b c; induction a as [|x a IH]; intros [|y b] [|z c]; simpl; try done.
  repeat case_match; rewrite ?Nat.ltb_lt, ?Nat.ltb_ge in *; try done; try lia. apply IH.
Qed.

Lemma str_leb_antisym a b : str_leb a b = true -> str_leb b a = true -> a = b.
Proof.
  revert b; induction a as [|x a IH]; intros [|y b]; simpl; try done.
  repeat case_match; try done; intros H1 H2.
  all: rewrite ?Nat.ltb_lt, ?Nat.ltb_ge in *; try lia. f_equal; [|by apply IH].
  rewrite <- (Ascii.ascii_nat_embedding x), <- (Ascii.ascii_nat_embedding y). f_equal. lia.
Qed.

Create HintDb helios.
Create Rewrite HintDb helios_rw.

Lemma assoc_cons_eq {A} k (v : A) l : assoc k ((k, v) :: l) = Some v.
Proof. simpl. by rewrite String.eqb_refl. Qed.

Lemma assoc_cons_ne {A} k k' (v : A) l : k <> k' -> assoc k ((k', v) :: l) = assoc k l.
Proof. intros H. simpl. by apply String.eqb_neq in H as ->. Qed.

#[export] Hint Resolve fscale_pos : helios.
