(* ===== verification/Models.v ===== *)
(** Enumerations of [models.py] shared by every component: profile ids,
    observed states, health states and operation names, with the string values
    the code stores and compares. *)
From S2P Require Import Prelude.

(** ** [ProfileId] *)
Inductive ProfileId :=
  | MINECRAFT
  | MINECRAFT_SUNLIT_COBBLEMON
  | PZ_RISING
  | TERRARIA_VANILLA
  | TERRARIA_TMOD
  | TERRARIA_TMOD_145_CANDIDATE.

#[export] Instance ProfileId_eq_dec : EqDecision ProfileId.
Proof. solve_decision. Defined.

Definition profile_value (p : ProfileId) : string :=
  match p with
  | MINECRAFT => "minecraft"
  | MINECRAFT_SUNLIT_COBBLEMON => "minecraft-sunlit-cobblemon"
  | PZ_RISING => "pz-rising"
  | TERRARIA_VANILLA => "terraria-vanilla"
  | TERRARIA_TMOD => "terraria-tmod"
  | TERRARIA_TMOD_145_CANDIDATE => "terraria-tmod-145-candidate"
  end.

Definition all_profiles : list ProfileId :=
  [MINECRAFT; MINECRAFT_SUNLIT_COBBLEMON; PZ_RISING; TERRARIA_VANILLA;
   TERRARIA_TMOD; TERRARIA_TMOD_145_CANDIDATE].

(** The enum constructor call [ProfileId(s)]; [None] stands for [ValueError]. *)
Definition profile_of_value (s : string) : option ProfileId :=
  List.find (fun p => String.eqb (profile_value p) s) all_profiles.

(** ** [ObservedState], [HealthState] *)
Inductive ObservedState := STOPPED | STARTING | RUNNING | STOPPING | FAILED | BLOCKED.

#[export] Instance ObservedState_eq_dec : EqDecision ObservedState.
Proof. solve_decision. Defined.

Inductive HealthState := HEALTHY | UNHEALTHY | UNKNOWN.

#[export] Instance HealthState_eq_dec : EqDecision HealthState.
Proof. solve_decision. Defined.

(** ** [OperationName] *)
Inductive OperationName :=
  | OpStart | OpStop | OpRestart | OpForceStop | OpCommand | OpBackup | OpRestore
  | OpCloneSource | OpCloneTarget | OpUpdateCheck | OpUpdateApply | OpBenchmark.

#[export] Instance OperationName_eq_dec : EqDecision OperationName.
Proof. solve_decision. Defined.

Definition operation_value (o : OperationName) : string :=
  match o with
  | OpStart => "start" | OpStop => "stop" | OpRestart => "restart"
  | OpForceStop => "force_stop" | OpCommand => "command" | OpBackup => "backup"
  | OpRestore => "restore" | OpCloneSource => "clone_source"
  | OpCloneTarget => "clone_target" | OpUpdateCheck => "update_check"
  | OpUpdateApply => "update_apply" | OpBenchmark => "benchmark"
  end.

(** ** [BackupDestination] *)
Inductive BackupDestination := LOCAL | HORIZON_B2.

#[export] Instance BackupDestination_eq_dec : EqDecision BackupDestination.
Proof. solve_decision. Defined.

Definition destination_value (d : BackupDestination) : string :=
  match d with LOCAL => "local" | HORIZON_B2 => "horizon-b2" end.

Definition destination_of_value (s : string) : option BackupDestination :=
  if String.eqb s "local" then Some LOCAL
  else if String.eqb s "horizon-b2" then Some HORIZON_B2
  else None.

(** ** Enum round trips *)
Lemma profile_of_value_value p : profile_of_value (profile_value p) = Some p.
Proof. by destruct p. Qed.

Lemma profile_of_value_Some s p : profile_of_value s = Some p -> s = profile_value p.
Proof.
  unfold profile_of_value. intros [_ H]%find_some. by apply String.eqb_eq in H.
Qed.

Lemma profile_value_inj p q : profile_value p = profile_value q -> p = q.
Proof.
  intros H. pose proof (profile_of_value_value p) as E.
  rewrite H, profile_of_value_value in E. by simplify_eq.
Qed.

Lemma destination_of_value_value d : destination_of_value (destination_value d) = Some d.
Proof. by destruct d. Qed.

#[export] Hint Rewrite profile_of_value_value destination_of_value_value : helios_rw.
