(* ===== verification/Slot.v ===== *)
(** [slot.py]: the cross-process reservation store guarded by
    [operation.lock], and the slot inspector.  A call is a function of the
    environment it observes (clock readings, process table, euid, lock file)
    and of the reservation file, and returns its result with the file it leaves. *)
From S2P Require Import Prelude Models.

(** ** Files as the code sees them *)

Inductive file_kind := Regular | Symlink | OtherKind.

#[export] Instance file_kind_eq_dec : EqDecision file_kind.
Proof. solve_decision. Defined.

(** The [stat] fields the code reads (mode constants are written in hex:
    0x1B0 is 0o660, 0x180 is 0o600, 0x1A4 is 0o644, 0x12 is 0o022, 0x100 is
    0o400); [st_imode] is [stat.S_IMODE(st_mode)]. *)
Record file_stat := FileStat {
  st_kind : file_kind;
  st_imode : Z;
  st_uid : Z;
  st_gid : Z;
  st_nlink : Z;
  st_size : Z;
}.

(** A path: absent, not [lstat]-able, a dangling symlink, or present with what
    [json.loads(path.read_text())] gives ([None]: unreadable or not JSON). *)
Inductive node :=
  | Absent
  | Unstatable
  | Dangling
  | Node (st : file_stat) (content : option json).

(** Outcome of the write, fsync and rename sequence: success, a failure before
    [os.replace], or a failure after it (directory fsync). *)
Inductive write_outcome :=
  | WriteOk
  | WriteFailedBefore (e : exn)
  | WriteFailedAfter (e : exn).

(** What one call observes.  [clock k] and [start_ticks k] are its successive
    readings of [self.clock()] and [self.pid_start_ticks]; [lock_fd] is what
    [os.open] and [os.fstat] give on the lock path. *)
Record env := Env {
  geteuid : Z;
  getpid : Z;
  clock : nat -> Z;
  start_ticks : nat -> Z -> option Z;
  lock_fd : res file_stat;
  lock_canonical : bool;
  gameslot_gid : option Z;
  json_size : json -> Z;
  write_result : write_outcome;
  unlink_result : option exn;
}.

Definition MAX_RESERVATION_TTL : Z := fl 30.

(** ** Data *)

Record SlotObservation := mkSlotObservation {
  owner : option string;
  obs_pid : option Z;
  obs_ticks : option Z;
  inconsistent : bool;
}.

Record Reservation := mkReservation {
  profile_id : ProfileId;
  operation_id : string;
  state_generation : Z;
  controller_pid : Z;
  controller_start_ticks : Z;
  expires_at : Z;
  operation_kind : string;
  capability_sha256 : option string;
}.

#[export] Instance Reservation_eq_dec : EqDecision Reservation.
Proof. solve_decision. Defined.

(** ** Parsing and validation *)

Definition _profile (value : string) : res ProfileId :=
  match profile_of_value value with
  | Some p => Ret p
  | None => Raise (ValueError "invalid profile id")
  end.

Definition _read_json (n : node) : option (list (string * json)) :=
  match n with
  | Node _ (Some (JObj l)) => Some l
  | _ => None
  end.

Definition hex_char (c : Ascii.ascii) : bool :=
  let n := Z.of_nat (Ascii.nat_of_ascii c) in
  ((48 <=? n) && (n <=? 57)) || ((97 <=? n) && (n <=? 102)).

Fixpoint all_hex (s : string) : bool :=
  match s with
  | EmptyString => true
  | String c s' => hex_char c && all_hex s'
  end.

(** [len(s) == 64] and every character a lower-case hex digit. *)
Definition hex64 (s : string) : bool :=
  (String.length s =? 64)%nat && all_hex s.

Definition kind_ok (k : string) : bool :=
  String.eqb k "lifecycle" || String.eqb k "update".

Definition json_int (j : option json) : option Z :=
  match j with Some (JInt n) => Some n | _ => None end.

Definition json_str (j : option json) : option string :=
  match j with Some (JStr s) => Some s | _ => None end.

(** [float(expires)] of a non-bool number, rejected unless finite. *)
Definition json_expiry (j : option json) : option Z :=
  match j with
  | Some (JInt n) => float_of_int n
  | Some (JFloat (FFin v)) => Some v
  | _ => None
  end.

Definition json_kind (j : option json) : option string :=
  match j with
  | None => Some "lifecycle"%string
  | Some (JStr s) => if kind_ok s then Some s else None
  | Some _ => None
  end.

(** The stored capability: absent or null, or a digest on an update. *)
Definition json_capability (kind : string) (j : option json) : option (option string) :=
  match j with
  | None | Some JNull => Some None
  | Some (JStr s) => if String.eqb kind "update" && hex64 s then Some (Some s) else None
  | Some _ => None
  end.

Definition _reservation_from_json (raw : option (list (string * json))) : option Reservation :=
  raw ← raw;
  profile ← json_str (assoc "profile_id" raw) ≫= profile_of_value;
  op ← json_str (assoc "operation_id" raw);
  gen ← json_int (assoc "state_generation" raw);
  pid ← json_int (assoc "controller_pid" raw);
  ticks ← json_int (assoc "controller_start_ticks" raw);
  kind ← json_kind (assoc "operation_kind" raw);
  cap ← json_capability kind (assoc "capability_sha256" raw);
  if nonempty op && (0 <=? gen) && (0 <? pid) && (0 <=? ticks)
  then (expiry ← json_expiry (assoc "expires_at" raw);
        Some (mkReservation profile op gen pid ticks expiry kind cap))
  else None.

(** ** Locks *)

Definition _lock_open (e : env) : res unit :=
  let? st := lock_fd e in
  if lock_canonical e then
    match gameslot_gid e with
    | None => Raise (ValueError "gameslot group is unavailable")
    | Some gid =>
        if negb (bool_decide (st_kind st = Regular)) || negb (st_uid st =? 0)
           || negb (st_gid st =? gid) || negb (st_imode st =? 0x1B0)
           || negb (st_nlink st =? 1)
        then Raise (ValueError "slot lock is not root:gameslot 0660")
        else Ret tt
    end
  else
    if negb (bool_decide (st_kind st = Regular)) || negb (st_uid st =? 0)
       || negb (Z.land (st_imode st) 0x2 =? 0)
       || negb (Z.land (st_imode st) 0x180 =? 0x180)
    then Raise (ValueError "lock is not root-owned and secure")
    else Ret tt.

(** [with operation_transaction(path): body]: the body runs only under the
    exclusive lock, and an unusable lock raises before it. *)
Definition operation_transaction {A} (e : env) (f : node)
    (body : node -> res A * node) : res A * node :=
  match _lock_open e with
  | Ret _ => body f
  | Raise x => (Raise x, f)
  end.

(** ** Writing *)

Definition kv (k : string) (v : json) : string * json := (k, v).

Definition _reservation_payload (r : Reservation) : json :=
  JObj ([kv "profile_id" (JStr (profile_value (profile_id r)));
         kv "operation_id" (JStr (operation_id r));
         kv "state_generation" (JInt (state_generation r));
         kv "controller_pid" (JInt (controller_pid r));
         kv "controller_start_ticks" (JInt (controller_start_ticks r));
         kv "expires_at" (JFloat (FFin (expires_at r)));
         kv "operation_kind" (JStr (operation_kind r))]
        ++ match capability_sha256 r with
           | Some c => [kv "capability_sha256" (JStr c)]
           | None => []
           end).

(** The file [_atomic_json] leaves: mode 0644, one link, owned by root unless
    the [fchown] was refused.  Reading it back gives the payload. *)
Definition written_node (e : env) (payload : json) : node :=
  Node (FileStat Regular 0x1A4 (geteuid e) (geteuid e) 1 (json_size e payload)) (Some payload).

Definition _atomic_json (e : env) (f : node) (payload : json) : res unit * node :=
  match write_result e with
  | WriteOk => (Ret tt, written_node e payload)
  | WriteFailedBefore x => (Raise x, f)
  | WriteFailedAfter x => (Raise x, written_node e payload)
  end.

Definition commit (e : env) (f : node) (r : Reservation) : res Reservation * node :=
  match _atomic_json e f (_reservation_payload r) with
  | (Ret _, f') => (Ret r, f')
  | (Raise x, f') => (Raise x, f')
  end.

Definition unlink (e : env) (f : node) : res bool * node :=
  match unlink_result e with
  | None => (Ret true, Absent)
  | Some x => (Raise x, f)
  end.

(** ** The reservation store *)

Definition store_read (f : node) : option Reservation :=
  _reservation_from_json (_read_json f).

Definition _read_for_admission (f : node) : res (option Reservation) :=
  match f with
  | Absent => Ret None
  | Unstatable => Raise (ValueError "reservation state is unavailable")
  | Dangling => Raise (ValueError "reservation state is unsafe")
  | Node st _ =>
      if bool_decide (st_kind st = Symlink) || negb (bool_decide (st_kind st = Regular))
         || negb (st_nlink st =? 1) || negb (st_uid st =? 0)
         || negb (Z.land (st_imode st) 0x12 =? 0)
         || (Z.land (st_imode st) 0x100 =? 0)
         || (64 * 1024 <? st_size st)
      then Raise (ValueError "reservation state is unsafe")
      else match store_read f with
           | None => Raise (ValueError "reservation state is malformed")
           | Some r => Ret (Some r)
           end
  end.

Definition _live (e : env) (k : nat) (r : Reservation) : bool :=
  let now := clock e k in
  (now <? expires_at r) && (expires_at r <=? now + MAX_RESERVATION_TTL)
  && bool_decide (start_ticks e (S k) (controller_pid r) = Some (controller_start_ticks r)).

Definition _expected_controller (e : env) (pid ticks : option Z) : res (Z * Z) :=
  let p := default (getpid e) pid in
  match (match ticks with Some t => Some t | None => start_ticks e 0 p end) with
  | Some t => if (p <=? 0) || (t <? 0)
              then Raise (ValueError "controller identity cannot be proven")
              else Ret (p, t)
  | None => Raise (ValueError "controller identity cannot be proven")
  end.

(** Arguments of [reserve] and [reserve_if_available]. *)
Record reserve_args := ReserveArgs {
  a_profile : string;
  a_operation_id : string;
  a_ttl : pyfloat;
  a_generation : Z;
  a_pid : option Z;
  a_ticks : option Z;
  a_kind : string;
  a_capability : option string;
}.

(** The argument checks both methods start with, in their order. *)
Definition check_reserve (e : env) (a : reserve_args) : res (ProfileId * Z * Z * Z) :=
  if negb (geteuid e =? 0) then Raise (PermissionError "only root may create reservations") else
  let? p := _profile (a_profile a) in
  if negb (nonempty (a_operation_id a)) then Raise (ValueError "invalid operation id") else
  match a_ttl a with
  | FFin ttl =>
      if negb ((0 <? ttl) && (ttl <=? MAX_RESERVATION_TTL))
      then Raise (ValueError "reservation ttl must be at most 30 seconds") else
      if a_generation a <? 0 then Raise (ValueError "invalid state generation") else
      if negb (kind_ok (a_kind a)) then Raise (ValueError "invalid operation kind") else
      if match a_capability a with
         | Some c => negb (String.eqb (a_kind a) "update") || negb (hex64 c)
         | None => false
         end
      then Raise (ValueError "invalid handoff capability") else
      let pid := default (getpid e) (a_pid a) in
      match (match a_ticks a with Some t => Some t | None => start_ticks e 0 pid end) with
      | Some ticks => Ret (p, ttl, pid, ticks)
      | None => Raise (ValueError "controller process does not exist")
      end
  | _ => Raise (ValueError "invalid reservation ttl")
  end.

Definition reserve (e : env) (a : reserve_args) (f : node) : res Reservation * node :=
  match check_reserve e a with
  | Raise x => (Raise x, f)
  | Ret (p, ttl, pid, ticks) =>
      operation_transaction e f (fun f =>
        commit e f (mkReservation p (a_operation_id a) (a_generation a) pid ticks
                      (clock e 0 + ttl) (a_kind a) (a_capability a)))
  end.

(** [generation_provider()] of [reserve_if_available], or the given generation. *)
Definition provided_generation (g : option (res json)) (given : Z) : res Z :=
  match g with
  | None => Ret given
  | Some (Raise x) => Raise x
  | Some (Ret (JInt n)) =>
      if n <? 0 then Raise (ValueError "invalid state generation") else Ret n
  | Some (Ret _) => Raise (ValueError "invalid state generation")
  end.

Definition reserve_if_available (e : env) (a : reserve_args)
    (availability_check : option (res bool)) (generation_provider : option (res json))
    (f : node) : res Reservation * node :=
  match check_reserve e a with
  | Raise x => (Raise x, f)
  | Ret (p, ttl, pid, ticks) =>
      operation_transaction e f (fun f =>
        match _read_for_admission f with
        | Raise x => (Raise x, f)
        | Ret current =>
            if match current with Some r => _live e 0 r | None => false end
            then (Raise (BlockingIOError "reservation is already live"), f) else
            match availability_check with
            | Some (Raise x) => (Raise x, f)
            | Some (Ret false) =>
                (Raise (BlockingIOError "reservation precondition is not satisfied"), f)
            | _ =>
                match provided_generation generation_provider (a_generation a) with
                | Raise x => (Raise x, f)
                | Ret gen =>
                    commit e f (mkReservation p (a_operation_id a) gen pid ticks
                                  (clock e 1 + ttl) (a_kind a) (a_capability a))
                end
            end
        end)
  end.

(** The exact-ownership test repeated by release, renew, transfer and owns. *)
Definition owned (current : Reservation) (p : ProfileId) (op : string) (gen : Z)
    (kind : option string) (pid ticks : Z) : bool :=
  bool_decide (profile_id current = p)
  && String.eqb (operation_id current) op
  && (state_generation current =? gen)
  && match kind with Some k => String.eqb (operation_kind current) k | None => true end
  && (controller_pid current =? pid)
  && (controller_start_ticks current =? ticks).

(** The identity a caller presents. *)
Record ident := Ident {
  i_profile : string;
  i_operation_id : string;
  i_generation : Z;
  i_kind : option string;
  i_pid : option Z;
  i_ticks : option Z;
}.

(** [_profile] and [_expected_controller], evaluated before the lock is taken. *)
Definition resolve (e : env) (i : ident) : res (ProfileId * Z * Z) :=
  let? p := _profile (i_profile i) in
  let? pt := _expected_controller e (i_pid i) (i_ticks i) in
  Ret (p, fst pt, snd pt).

Definition owned_by (i : ident) (who : ProfileId * Z * Z) (r : Reservation) : bool :=
  let '(p, pid, ticks) := who in
  owned r p (i_operation_id i) (i_generation i) (i_kind i) pid ticks.

Definition release_locked (e : env) (i : ident) (who : ProfileId * Z * Z) (f : node)
    : res bool * node :=
  match store_read f with
  | Some r => if owned_by i who r then unlink e f else (Ret false, f)
  | None => (Ret false, f)
  end.

Definition release_if_owned (e : env) (i : ident) (f : node) : res bool * node :=
  match resolve e i with
  | Raise x => (Raise x, f)
  | Ret who => operation_transaction e f (release_locked e i who)
  end.

(** Called with [operation.lock] already held. *)
Definition release_if_owned_locked (e : env) (i : ident) (f : node) : res bool * node :=
  match resolve e i with
  | Raise x => (Raise x, f)
  | Ret who => release_locked e i who f
  end.

Definition owns_live (e : env) (i : ident) (f : node) : res bool * node :=
  match resolve e i with
  | Raise x => (Raise x, f)
  | Ret who =>
      operation_transaction e f (fun f =>
        (Ret (match store_read f with
              | Some r => owned_by i who r && _live e 0 r
              | None => false
              end), f))
  end.

Definition with_update_kind (i : ident) : ident :=
  Ident (i_profile i) (i_operation_id i) (i_generation i) (Some "update"%string)
    (i_pid i) (i_ticks i).

(** Takes no lock and requires the update kind. *)
Definition owns_live_locked (e : env) (i : ident) (f : node) : res bool * node :=
  match resolve e i with
  | Raise x => (Raise x, f)
  | Ret who =>
      (Ret (match store_read f with
            | Some r => owned_by (with_update_kind i) who r && _live e 0 r
            | None => false
            end), f)
  end.

Definition transfer_if_owned (e : env) (i : ident) (target_profile target_operation_id : string)
    (ttl : Z) (f : node) : res Reservation * node :=
  match _profile (i_profile i) with
  | Raise x => (Raise x, f)
  | Ret source =>
  match _profile target_profile with
  | Raise x => (Raise x, f)
  | Ret target =>
  match _expected_controller e (i_pid i) (i_ticks i) with
  | Raise x => (Raise x, f)
  | Ret (pid, ticks) =>
      operation_transaction e f (fun f =>
        match store_read f with
        | Some r =>
            if owned r source (i_operation_id i) (i_generation i) None pid ticks
            then commit e f (mkReservation target target_operation_id (i_generation i)
                               (controller_pid r) (controller_start_ticks r) (clock e 0 + ttl)
                               (operation_kind r) (capability_sha256 r))
            else (Raise (BlockingIOError "reservation ownership changed"), f)
        | None => (Raise (BlockingIOError "reservation ownership changed"), f)
        end)
  end end end.

Definition renew_if_owned (e : env) (i : ident) (ttl : Z) (f : node) : res Reservation * node :=
  match resolve e i with
  | Raise x => (Raise x, f)
  | Ret who =>
      operation_transaction e f (fun f =>
        match store_read f with
        | Some r =>
            if owned_by i who r && _live e 0 r
            then commit e f (mkReservation (profile_id r) (operation_id r) (state_generation r)
                               (controller_pid r) (controller_start_ticks r) (clock e 1 + ttl)
                               (operation_kind r) (capability_sha256 r))
            else (Raise (BlockingIOError "reservation ownership changed"), f)
        | None => (Raise (BlockingIOError "reservation ownership changed"), f)
        end)
  end.

(** [sha256] is [hashlib.sha256(...).hexdigest()]. *)
Definition _capability_digest (sha256 : string -> string) (token : string) : res string :=
  if hex64 token then Ret (sha256 token)
  else Raise (ValueError "handoff capability is malformed").

Definition authorize_handoff (sha256 : string -> string) (e : env) (profile token kind : string)
    (f : node) : res Reservation * node :=
  match _profile profile with
  | Raise x => (Raise x, f)
  | Ret p =>
      if negb (kind_ok kind) then (Raise (ValueError "invalid operation kind"), f) else
      match _capability_digest sha256 token with
      | Raise x => (Raise x, f)
      | Ret expected =>
          operation_transaction e f (fun f =>
            match _read_for_admission f with
            | Raise x => (Raise x, f)
            | Ret (Some r) =>
                if _live e 0 r && bool_decide (profile_id r = p)
                   && String.eqb (operation_kind r) kind
                   && match capability_sha256 r with
                      | Some c => String.eqb c expected
                      | None => false
                      end
                then (Ret r, f)
                else (Raise (BlockingIOError
                        "handoff capability does not match the live reservation"), f)
            | Ret None => (Raise (BlockingIOError
                        "handoff capability does not match the live reservation"), f)
            end)
      end
  end.

(** [Some true]: matching lifecycle reservation; [Some false]: live mismatch;
    [None]: absent or stale. *)
Definition valid_for_runner (e : env) (profile : string) (f : node) : res (option bool) :=
  let? requested := _profile profile in
  Ret (match store_read f with
       | Some r =>
           if _live e 0 r
           then Some (bool_decide (profile_id r = requested)
                      && String.eqb (operation_kind r) "lifecycle")
           else None
       | None => None
       end).

Definition live_update (e : env) (profile : option string) (f : node) : option Reservation :=
  match (match profile with
         | None => Ret None
         | Some s => let? p := _profile s in Ret (Some p)
         end) with
  | Raise _ => None
  | Ret requested =>
      r ← store_read f;
      if negb (String.eqb (operation_kind r) "update") then None else
      if match requested with Some p => negb (bool_decide (profile_id r = p)) | None => false end
      then None else
      if _live e 0 r then Some r else None
  end.

Definition exists_path (f : node) : bool :=
  match f with Node _ _ => true | _ => false end.

(** [f0] is the file at the unlocked read, [f] the file when the lock is held. *)
Definition reconcile (e : env) (f0 f : node) : res bool * node :=
  if negb (geteuid e =? 0)
  then (Raise (PermissionError "only root may reconcile reservations"), f) else
  if match store_read f0 with Some r => _live e 0 r | None => false end then (Ret false, f) else
  operation_transaction e f (fun f =>
    if match store_read f with Some r => negb (_live e 1 r) | None => true end
    then if exists_path f then unlink e f else (Ret false, f)
    else (Ret false, f)).

(** ** The slot inspector *)

(** What [flock(LOCK_EX | LOCK_NB)] on the slot lock gives. *)
Inductive flock_result := Acquired | WouldBlock.

Definition observation_free : SlotObservation := mkSlotObservation None None None false.
Definition observation_bad : SlotObservation := mkSlotObservation None None None true.

Definition json_default (a b : option json) : option json :=
  match a with Some j => Some j | None => b end.

(** A bool passes [isinstance(_, int)]; as a pid it names no process. *)
Definition pid_ticks (e : env) (j : option json) : option (Z * option Z) :=
  match j with
  | Some (JInt p) => if p <=? 0 then None else Some (p, start_ticks e 0 p)
  | Some (JBool true) => Some (1, None)
  | _ => None
  end.

Definition int_value (j : option json) : option Z :=
  match j with
  | Some (JInt n) => Some n
  | Some (JBool b) => Some (if b then 1 else 0)
  | _ => None
  end.

Definition _observe_held_slot (e : env) (meta : node) : SlotObservation :=
  match (raw ← _read_json meta;
         o ← json_str (json_default (assoc "profile_id" raw) (assoc "profile" raw))
               ≫= profile_of_value;
         pt ← pid_ticks e (assoc "pid" raw);
         t ← int_value (assoc "proc_start_ticks" raw);
         if (0 <=? t) && bool_decide (snd pt = Some t)
         then Some (mkSlotObservation (Some (profile_value o)) (Some (fst pt)) (Some t) false)
         else None)
  with
  | Some o => o
  | None => observation_bad
  end.

(** [_clear_metadata]: unlink, an already absent file is accepted. *)
Definition _clear_metadata (e : env) (meta : node) : res unit * node :=
  match meta with
  | Absent => (Ret tt, Absent)
  | _ => match unlink_result e with
         | None => (Ret tt, Absent)
         | Some x => (Raise x, meta)
         end
  end.

Definition observe (e : env) (lock : flock_result) (meta : node) : res SlotObservation * node :=
  match _lock_open e with
  | Raise x => (Raise x, meta)
  | Ret _ =>
      match lock with
      | WouldBlock => (Ret (_observe_held_slot e meta), meta)
      | Acquired =>
          match _clear_metadata e meta with
          | (Ret _, meta') => (Ret observation_free, meta')
          | (Raise x, meta') => (Raise x, meta')
          end
      end
  end.
