(* ===== verification/SlotFacts.v ===== *)
(** Theorems about [slot.py]: the stored form of a reservation, exclusive
    admission, exact ownership, stability of a live lease under interference,
    recovery, and a refinement to an abstract lease machine. *)
From S2P Require Import Prelude Models Slot.

(** ** Specification-side definitions *)

(** The invariant of a stored reservation. *)
Definition wf_reservation (r : Reservation) : bool :=
  nonempty (operation_id r) && (0 <=? state_generation r) && (0 <? controller_pid r)
  && (0 <=? controller_start_ticks r) && kind_ok (operation_kind r)
  && match capability_sha256 r with
     | Some c => String.eqb (operation_kind r) "update" && hex64 c
     | None => true
     end.

(** The identity the owner of [r] presents. *)
Definition ident_of (r : Reservation) : ident :=
  Ident (profile_value (profile_id r)) (operation_id r) (state_generation r) None
    (Some (controller_pid r)) (Some (controller_start_ticks r)).

(** Calls other processes may make on the store.  The unconditional [reserve]
    is left out: it has no admission check. *)
Inductive call :=
  | CReserve (a : reserve_args) (chk : option (res bool)) (gen : option (res json))
  | CRelease (i : ident)
  | CReleaseLocked (i : ident)
  | COwns (i : ident)
  | COwnsLocked (i : ident)
  | CTransfer (i : ident) (target op : string) (ttl : Z)
  | CRenew (i : ident) (ttl : Z)
  | CAuthorize (sha256 : string -> string) (profile token kind : string)
  | CReconcile (seen : node).

(** The file a call leaves behind. *)
Definition run_call (e : env) (c : call) (f : node) : node :=
  match c with
  | CReserve a chk gen => snd (reserve_if_available e a chk gen f)
  | CRelease i => snd (release_if_owned e i f)
  | CReleaseLocked i => snd (release_if_owned_locked e i f)
  | COwns i => snd (owns_live e i f)
  | COwnsLocked i => snd (owns_live_locked e i f)
  | CTransfer i t o ttl => snd (transfer_if_owned e i t o ttl f)
  | CRenew i ttl => snd (renew_if_owned e i ttl f)
  | CAuthorize h p t k => snd (authorize_handoff h e p t k f)
  | CReconcile seen => snd (reconcile e seen f)
  end.

Definition presents_ident (e : env) (i : ident) (r : Reservation) : bool :=
  match resolve e i with Ret who => owned_by i who r | Raise _ => false end.

Definition without_kind (i : ident) : ident :=
  Ident (i_profile i) (i_operation_id i) (i_generation i) None (i_pid i) (i_ticks i).

(** Does the call present exactly the identity stored in [r]? *)
Definition presents (e : env) (c : call) (r : Reservation) : bool :=
  match c with
  | CRelease i | CReleaseLocked i | CRenew i _ => presents_ident e i r
  | CTransfer i _ _ _ => presents_ident e (without_kind i) r
  | _ => false
  end.

Definition run_trace (tr : list (env * call)) (f : node) : node :=
  foldl (fun f ec => run_call (fst ec) (snd ec) f) f tr.

(** ** Abstract lease machine *)

Inductive lease :=
  | Free
  | Stale (r : Reservation)
  | Held (r : Reservation).

Definition abs (e : env) (f : node) : lease :=
  match store_read f with
  | None => Free
  | Some r => if _live e 0 r then Held r else Stale r
  end.

Definition record_of (l : lease) : option Reservation :=
  match l with Free => None | Stale r | Held r => Some r end.

(** Same process, generation, kind and capability. *)
Definition same_controller (r r' : Reservation) : Prop :=
  controller_pid r' = controller_pid r
  /\ controller_start_ticks r' = controller_start_ticks r
  /\ state_generation r' = state_generation r
  /\ operation_kind r' = operation_kind r
  /\ capability_sha256 r' = capability_sha256 r.

(** What the store promises: a held lease only moves by its owner, who gives it
    up or rewrites it for the same controller.  When nobody holds it, anything
    may be written. *)
Inductive lease_step : lease -> lease -> Prop :=
  | ls_stutter l : lease_step l l
  | ls_unheld l l' : (forall r, l <> Held r) -> lease_step l l'
  | ls_release r : lease_step (Held r) Free
  | ls_rewrite r r' l' :
      record_of l' = Some r' -> same_controller r r' -> lease_step (Held r) l'.

(** All readings of one call agree: the call is atomic in time. *)
Definition atomic (e : env) : Prop :=
  (forall k, clock e k = clock e 0) /\ (forall k, start_ticks e (S k) = start_ticks e 1).

(** ** Stored form *)

Lemma kv_unfold k v : kv k v = (k, v).
Proof. done. Qed.

Lemma read_written e j : _read_json (written_node e j) =
  match j with JObj l => Some l | _ => None end.
Proof. by destruct j. Qed.

(** Parsing a stored payload gives the reservation back exactly when it
    satisfies the invariant, and nothing otherwise. *)
Lemma from_json_payload r l :
  _reservation_payload r = JObj l ->
  _reservation_from_json (Some l) = if wf_reservation r then Some r else None.
Proof.
  destruct r as [p op g pid t x k c]. unfold _reservation_payload, wf_reservation. simpl.
  intros Hl. injection Hl as <-.
  unfold _reservation_from_json. rewrite !kv_unfold. simpl.
  rewrite profile_of_value_value. simpl.
  destruct (kind_ok k); simpl; [|by rewrite andb_false_r].
  rewrite andb_true_r. destruct c as [c|]; simpl.
  - destruct (String.eqb k "update" && hex64 c); simpl; [|by rewrite andb_false_r].
    by rewrite andb_true_r.
  - by rewrite andb_true_r.
Qed.

Lemma from_json_wf raw r : _reservation_from_json raw = Some r -> wf_reservation r = true.
Proof.
  unfold _reservation_from_json. intros H.
  repeat match goal with
  | H : _ ≫= _ = Some _ |- _ => apply bind_Some in H as (? & ? & H)
  | H : (if ?b then _ else None) = Some _ |- _ => destruct b eqn:?; [|done]
  end.
  simplify_eq. to_prop. unfold wf_reservation. simpl.
  repeat (apply andb_true_iff; split); try (by apply Z.leb_le || apply Z.ltb_lt); try done.
  - unfold json_kind in *. by repeat split_match; simplify_eq.
  - unfold json_capability in *. by repeat split_match; simplify_eq.
Qed.

Lemma store_read_payload e r :
  store_read (written_node e (_reservation_payload r)) =
    if wf_reservation r then Some r else None.
Proof.
  unfold store_read. rewrite read_written.
  destruct (_reservation_payload r) eqn:E; try done. by apply from_json_payload.
Qed.

Lemma store_read_written e r :
  wf_reservation r = true -> store_read (written_node e (_reservation_payload r)) = Some r.
Proof. intros Hw. by rewrite store_read_payload, Hw. Qed.

(** ** Liveness of a lease *)

Lemma live_iff e k r :
  _live e k r = true <->
  clock e k < expires_at r <= clock e k + MAX_RESERVATION_TTL
  /\ start_ticks e (S k) (controller_pid r) = Some (controller_start_ticks r).
Proof.
  unfold _live. rewrite !andb_true_iff, Z.ltb_lt, Z.leb_le, bool_decide_eq_true. tauto.
Qed.

(** A lease live at some reading is dead at any reading 30 s later, whoever
    takes it. *)
Lemma live_bounded e k e' k' r :
  _live e k r = true -> clock e k + MAX_RESERVATION_TTL <= clock e' k' ->
  _live e' k' r = false.
Proof.
  intros [[? ?] _]%live_iff ?. apply not_true_iff_false. intros [[? ?] _]%live_iff. lia.
Qed.

(** ** Effect of each call on the file *)

Lemma transaction_unchanged {A} e f (body : node -> res A * node) :
  snd (body f) = f -> snd (operation_transaction e f body) = f.
Proof. unfold operation_transaction. by destruct (_lock_open e). Qed.

Lemma admission_read f r : _read_for_admission f = Ret (Some r) -> store_read f = Some r.
Proof. unfold _read_for_admission. intros H. crush_guards. Qed.

Lemma admission_none f : _read_for_admission f = Ret None -> f = Absent.
Proof. unfold _read_for_admission. intros H. crush_guards. Qed.

Lemma admission_current f cur r :
  _read_for_admission f = Ret cur -> store_read f = Some r -> cur = Some r.
Proof.
  destruct cur as [r'|].
  - intros ->%admission_read. by intros [= ->].
  - intros ->%admission_none. by intros.
Qed.

Lemma reserve_blocked e a chk gen f r :
  store_read f = Some r -> _live e 0 r = true ->
  snd (reserve_if_available e a chk gen f) = f /\
  is_ret (fst (reserve_if_available e a chk gen f)) = false.
Proof.
  intros Hr Hl. unfold reserve_if_available, operation_transaction.
  destruct (check_reserve e a) as [[[[p ttl] pid] ticks]|x]; [|done].
  destruct (_lock_open e); [|done].
  destruct (_read_for_admission f) as [cur|x] eqn:Ha; [|done].
  by rewrite (admission_current _ _ _ Ha Hr), Hl.
Qed.

Lemma release_unchanged e i f r :
  store_read f = Some r -> presents_ident e i r = false ->
  snd (release_if_owned e i f) = f /\ snd (release_if_owned_locked e i f) = f.
Proof.
  unfold presents_ident, release_if_owned, release_if_owned_locked. intros Hr Hp.
  destruct (resolve e i) as [who|]; [|done].
  split; [apply transaction_unchanged|]; unfold release_locked; by rewrite Hr, Hp.
Qed.

Lemma renew_unchanged e i ttl f r :
  store_read f = Some r -> presents_ident e i r = false ->
  snd (renew_if_owned e i ttl f) = f.
Proof.
  unfold presents_ident, renew_if_owned. intros Hr Hp.
  destruct (resolve e i) as [who|]; [|done].
  apply transaction_unchanged. by rewrite Hr, Hp.
Qed.

Lemma transfer_unchanged e i t o ttl f r :
  store_read f = Some r -> presents_ident e (without_kind i) r = false ->
  snd (transfer_if_owned e i t o ttl f) = f.
Proof.
  unfold presents_ident, transfer_if_owned, resolve. simpl. intros Hr Hp.
  destruct (_profile (i_profile i)) as [p|]; [|done]. simpl in Hp.
  destruct (_profile t) as [q|]; [|done].
  destruct (_expected_controller e (i_pid i) (i_ticks i)) as [[pid ticks]|]; [|done].
  simpl in Hp. apply transaction_unchanged. by rewrite Hr, Hp.
Qed.

Lemma authorize_unchanged h e p t k f : snd (authorize_handoff h e p t k f) = f.
Proof.
  unfold authorize_handoff.
  destruct (_profile p); [|done]. destruct (negb (kind_ok k)); [done|].
  destruct (_capability_digest h t); [|done].
  apply transaction_unchanged. destruct (_read_for_admission f) as [[r|]|]; [|done..].
  by repeat split_match.
Qed.

Lemma owns_unchanged e i f :
  snd (owns_live e i f) = f /\ snd (owns_live_locked e i f) = f.
Proof.
  unfold owns_live, owns_live_locked. destruct (resolve e i); [|done].
  by split; [apply transaction_unchanged|].
Qed.

Lemma reconcile_unchanged e f0 f r :
  store_read f = Some r -> _live e 1 r = true -> snd (reconcile e f0 f) = f.
Proof.
  intros Hr Hl. unfold reconcile. destruct (negb (geteuid e =? 0)); [done|].
  destruct (match store_read f0 with Some r => _live e 0 r | None => false end); [done|].
  apply transaction_unchanged. by rewrite Hr, Hl.
Qed.

Lemma call_unchanged e c f r :
  store_read f = Some r -> (forall k, _live e k r = true) -> presents e c r = false ->
  run_call e c f = f.
Proof.
  intros Hr Hl Hp. destruct c; simpl in *.
  - by apply (reserve_blocked e a chk gen f r).
  - by apply (release_unchanged e i f r).
  - by apply (release_unchanged e i f r).
  - apply owns_unchanged.
  - apply owns_unchanged.
  - by eapply transfer_unchanged.
  - by eapply renew_unchanged.
  - apply authorize_unchanged.
  - by eapply reconcile_unchanged.
Qed.

(** Every call of the trace sees [r] live and does not present its identity. *)
Definition foreign (r : Reservation) (ec : env * call) : Prop :=
  (forall k, _live (fst ec) k r = true) /\ presents (fst ec) (snd ec) r = false.

Lemma trace_unchanged tr f r :
  store_read f = Some r -> Forall (foreign r) tr -> run_trace tr f = f.
Proof.
  intros Hr. induction 1 as [|[e c] tr [Hl Hp] _ IH]; [done|].
  unfold run_trace in *. simpl in *. by rewrite (call_unchanged e c f r Hr Hl Hp).
Qed.

(** ** Acquisition and ownership *)

Lemma commit_ret e f r r' f' :
  commit e f r = (Ret r', f') ->
  r' = r /\ f' = written_node e (_reservation_payload r) /\ write_result e = WriteOk.
Proof. unfold commit, _atomic_json. destruct (write_result e); by intros; simplify_eq. Qed.

Lemma check_reserve_ret e a p ttl pid ticks :
  check_reserve e a = Ret (p, ttl, pid, ticks) ->
  geteuid e = 0 /\ a_profile a = profile_value p /\ a_ttl a = FFin ttl
  /\ 0 < ttl <= MAX_RESERVATION_TTL /\ pid = default (getpid e) (a_pid a)
  /\ nonempty (a_operation_id a) = true /\ 0 <= a_generation a /\ kind_ok (a_kind a) = true
  /\ match a_capability a with
     | Some c => String.eqb (a_kind a) "update" && hex64 c
     | None => true
     end = true.
Proof.
  unfold check_reserve, _profile, rbind. intros H.
  destruct (negb (geteuid e =? 0)) eqn:E1; [done|]. to_prop.
  destruct (profile_of_value (a_profile a)) eqn:E2; [|done].
  apply profile_of_value_Some in E2.
  destruct (negb (nonempty (a_operation_id a))) eqn:E3; [done|].
  destruct (a_ttl a) as [t| | |] eqn:E4; try done.
  destruct (negb ((0 <? t) && (t <=? MAX_RESERVATION_TTL))) eqn:E5; [done|].
  destruct (a_generation a <? 0) eqn:E6; [done|].
  destruct (negb (kind_ok (a_kind a))) eqn:E7; [done|].
  destruct (match a_capability a with Some _ => _ | None => _ end) eqn:E8; [done|].
  destruct (match a_ticks a with Some _ => _ | None => _ end); [|done].
  simplify_eq. to_prop. repeat split; try done || lia.
  destruct (a_capability a); [|done]. to_prop. apply andb_true_iff; split; [|done].
  by apply String.eqb_eq.
Qed.

Lemma provided_generation_ret g given n :
  provided_generation g given = Ret n -> 0 <= given -> 0 <= n.
Proof.
  unfold provided_generation. intros H Hg. crush_guards.
Qed.

(** A successful admission: nobody held the lease, the returned reservation is
    the stored one, bounded by the requested ttl. *)
Lemma reserve_if_available_ret e a chk gen f r f' :
  reserve_if_available e a chk gen f = (Ret r, f') ->
  (forall r0, store_read f = Some r0 -> _live e 0 r0 = false)
  /\ f' = written_node e (_reservation_payload r)
  /\ profile_value (profile_id r) = a_profile a /\ operation_id r = a_operation_id a
  /\ operation_kind r = a_kind a /\ capability_sha256 r = a_capability a
  /\ clock e 1 < expires_at r <= clock e 1 + MAX_RESERVATION_TTL
  /\ (0 < controller_pid r -> 0 <= controller_start_ticks r -> wf_reservation r = true).
Proof.
  unfold reserve_if_available, operation_transaction. intros H.
  destruct (check_reserve e a) as [[[[p ttl] pid] ticks]|x] eqn:Hc; [|done].
  destruct (_lock_open e); [|done].
  destruct (_read_for_admission f) as [cur|] eqn:Ha; [|done].
  destruct (match cur with Some r => _live e 0 r | None => false end) eqn:Hl; [done|].
  assert (exists n, provided_generation gen (a_generation a) = Ret n /\
    commit e f (mkReservation p (a_operation_id a) n pid ticks (clock e 1 + ttl)
      (a_kind a) (a_capability a)) = (Ret r, f')) as (n & Hn & Hcommit).
  { destruct chk as [[[] |]|]; try done;
      (destruct (provided_generation gen (a_generation a)) as [n|]; [by exists n|done]). }
  apply check_reserve_ret in Hc as (_ & Hp & _ & ? & _ & ? & Hg & ? & ?).
  apply provided_generation_ret in Hn; [|done].
  apply commit_ret in Hcommit as (-> & -> & _). simpl.
  split; [|split_and!; try done; try lia].
  - intros r0 Hr0. by rewrite (admission_current _ _ _ Ha Hr0) in Hl.
  - intros ? ?. unfold wf_reservation. simpl.
    repeat (apply andb_true_iff; split); try done; (by apply Z.leb_le) || by apply Z.ltb_lt.
Qed.

Lemma resolve_self e r :
  0 < controller_pid r -> 0 <= controller_start_ticks r ->
  resolve e (ident_of r) =
    Ret (profile_id r, controller_pid r, controller_start_ticks r).
Proof.
  intros ? ?. unfold resolve, ident_of, _profile, _expected_controller. simpl.
  rewrite profile_of_value_value. simpl.
  replace (controller_pid r <=? 0) with false by (symmetry; apply Z.leb_gt; lia).
  by replace (controller_start_ticks r <? 0) with false by (symmetry; apply Z.ltb_ge; lia).
Qed.

Lemma owned_self r :
  owned_by (ident_of r) (profile_id r, controller_pid r, controller_start_ticks r) r = true.
Proof.
  unfold owned_by, owned. simpl. by rewrite bool_decide_eq_true_2, String.eqb_refl, !Z.eqb_refl.
Qed.

Lemma owner_keeps_lease e0 a chk gen f r f1 tr e1 :
  reserve_if_available e0 a chk gen f = (Ret r, f1) ->
  0 < controller_pid r -> 0 <= controller_start_ticks r ->
  Forall (foreign r) tr -> _lock_open e1 = Ret tt ->
  owns_live e1 (ident_of r) (run_trace tr f1) = (Ret (_live e1 0 r), f1)
  /\ (unlink_result e1 = None ->
      release_if_owned e1 (ident_of r) (run_trace tr f1) = (Ret true, Absent)).
Proof.
  intros Ha Hp Ht Htr Hlock.
  apply reserve_if_available_ret in Ha as (_ & -> & _ & _ & _ & _ & _ & Hwf).
  pose proof (store_read_written e0 r (Hwf Hp Ht)) as Hr.
  rewrite (trace_unchanged _ _ _ Hr Htr).
  unfold owns_live, release_if_owned, operation_transaction, release_locked, unlink.
  rewrite (resolve_self e1 r Hp Ht), Hlock, Hr, owned_self. simpl.
  split; [done|]. by intros ->.
Qed.

(** ** Recovery *)

Lemma reconcile_ret_true e f0 f f' :
  reconcile e f0 f = (Ret true, f') ->
  f' = Absent /\ geteuid e = 0 /\ exists_path f = true
  /\ (forall r, store_read f = Some r -> _live e 1 r = false).
Proof.
  unfold reconcile, operation_transaction. intros H.
  destruct (negb (geteuid e =? 0)) eqn:E; [done|]. to_prop.
  destruct (match store_read f0 with Some r => _ | None => _ end); [done|].
  destruct (_lock_open e); [|done].
  destruct (match store_read f with Some r => _ | None => true end) eqn:Hs; [|done].
  destruct (exists_path f) eqn:Hx; [|done].
  unfold unlink in H. destruct (unlink_result e); [done|]. simplify_eq.
  split_and!; try done. intros r Hr. rewrite Hr in Hs. by to_prop.
Qed.

(** Root reconciliation of a file holding no live lease clears it. *)
Lemma reconcile_clears e f :
  geteuid e = 0 -> _lock_open e = Ret tt -> unlink_result e = None ->
  (forall k r, store_read f = Some r -> _live e k r = false) ->
  exists_path f = true -> reconcile e f f = (Ret true, Absent).
Proof.
  intros Hu Hl Hw Hs Hx. unfold reconcile, operation_transaction. rewrite Hu, Hl. simpl.
  destruct (store_read f) as [r|] eqn:Hr.
  - rewrite (Hs 0%nat r eq_refl), (Hs 1%nat r eq_refl), Hx. simpl. unfold unlink. by rewrite Hw.
  - rewrite Hx. unfold unlink. by rewrite Hw.
Qed.

Lemma reserve_absent e a p ttl pid ticks :
  check_reserve e a = Ret (p, ttl, pid, ticks) -> _lock_open e = Ret tt ->
  write_result e = WriteOk ->
  let r := mkReservation p (a_operation_id a) (a_generation a) pid ticks (clock e 1 + ttl)
             (a_kind a) (a_capability a) in
  reserve_if_available e a None None Absent =
    (Ret r, written_node e (_reservation_payload r)).
Proof.
  intros Hc Hl Hw. unfold reserve_if_available, operation_transaction. rewrite Hc, Hl. simpl.
  unfold commit, _atomic_json. by rewrite Hw.
Qed.

(** ** Refinement *)

Lemma abs_not_held e f :
  (forall r, store_read f = Some r -> _live e 0 r = false) -> forall r, abs e f <> Held r.
Proof.
  unfold abs. intros H r. destruct (store_read f) as [r0|]; [|done].
  by rewrite (H r0 eq_refl).
Qed.

Lemma live_atomic e k r : atomic e -> _live e k r = _live e 0 r.
Proof. intros [Hc Ht]. unfold _live. by rewrite (Hc k), (Ht k). Qed.

Lemma abs_written e r0 :
  wf_reservation r0 = true ->
  record_of (abs e (written_node e (_reservation_payload r0))) = Some r0.
Proof. intros Hw. unfold abs. rewrite store_read_written; [|done]. by destruct (_live e 0 r0). Qed.

Lemma commit_file e f r :
  snd (commit e f r) = f \/ snd (commit e f r) = written_node e (_reservation_payload r).
Proof. unfold commit, _atomic_json. destruct (write_result e); simpl; auto. Qed.

(** A rewrite by the owner that keeps the controller, or fails to be stored in
    readable form, is a step of the lease machine. *)
Lemma rewrite_step e f r r' :
  abs e f = Held r -> same_controller r r' ->
  lease_step (abs e f) (abs e (snd (commit e f r'))).
Proof.
  intros Ha Hs. destruct (commit_file e f r') as [-> | ->]; [apply ls_stutter|].
  rewrite Ha. destruct (wf_reservation r') eqn:Hw.
  - eapply ls_rewrite; [by apply abs_written|done].
  - unfold abs. rewrite store_read_payload, Hw. apply ls_release.
Qed.

Lemma held_read e f r : abs e f = Held r -> store_read f = Some r /\ _live e 0 r = true.
Proof.
  unfold abs. destruct (store_read f) as [r0|]; [|done].
  destruct (_live e 0 r0) eqn:?; [|done]. by intros [= ->].
Qed.

Lemma transaction_step {A} e f (body : node -> res A * node) :
  lease_step (abs e f) (abs e (snd (body f))) ->
  lease_step (abs e f) (abs e (snd (operation_transaction e f body))).
Proof. unfold operation_transaction. destruct (_lock_open e); [done|]. intros _. apply ls_stutter. Qed.

Lemma release_locked_step e i who f :
  lease_step (abs e f) (abs e (snd (release_locked e i who f))).
Proof.
  unfold release_locked, unlink. destruct (store_read f) as [r|] eqn:Hr; [|apply ls_stutter].
  destruct (owned_by i who r); [|apply ls_stutter].
  destruct (unlink_result e); [apply ls_stutter|]. simpl.
  unfold abs. rewrite Hr. simpl. destruct (_live e 0 r); [apply ls_release|by apply ls_unheld].
Qed.

(** Rewriting a record that is in the file, whether live or stale. *)
Lemma record_rewrite_step e f r r' :
  store_read f = Some r -> same_controller r r' ->
  lease_step (abs e f) (abs e (snd (commit e f r'))).
Proof.
  intros Hr Hs. destruct (_live e 0 r) eqn:Hl.
  - apply (rewrite_step e f r r'); [|done]. unfold abs. by rewrite Hr, Hl.
  - apply ls_unheld, abs_not_held. intros r0. rewrite Hr. by intros [= <-].
Qed.

Lemma owned_generation r p op gen kind pid ticks :
  owned r p op gen kind pid ticks = true -> state_generation r = gen.
Proof. unfold owned. intros H. by to_prop. Qed.

Lemma call_refines e c f :
  atomic e -> lease_step (abs e f) (abs e (run_call e c f)).
Proof.
  intros Hat. destruct c; simpl.
  - destruct (abs e f) as [|r|r] eqn:Ha; [by apply ls_unheld..|].
    apply held_read in Ha as [Hr Hl].
    destruct (reserve_blocked e a chk gen f r Hr Hl) as [-> _].
    unfold abs. rewrite Hr, Hl. apply ls_stutter.
  - unfold release_if_owned. destruct (resolve e i); [|apply ls_stutter].
    apply transaction_step, release_locked_step.
  - unfold release_if_owned_locked. destruct (resolve e i); [|apply ls_stutter].
    apply release_locked_step.
  - rewrite (proj1 (owns_unchanged e i f)). apply ls_stutter.
  - rewrite (proj2 (owns_unchanged e i f)). apply ls_stutter.
  - unfold transfer_if_owned. destruct (_profile (i_profile i)); [|apply ls_stutter].
    destruct (_profile target); [|apply ls_stutter].
    destruct (_expected_controller _ _ _) as [[pid ticks]|]; [|apply ls_stutter].
    apply transaction_step. destruct (store_read f) as [r|] eqn:Hr; [|apply ls_stutter].
    destruct (owned _ _ _ _ _ _ _) eqn:Ho; [|apply ls_stutter].
    apply (record_rewrite_step e f r); [done|].
    apply owned_generation in Ho. by repeat split.
  - unfold renew_if_owned. destruct (resolve e i); [|apply ls_stutter].
    apply transaction_step. destruct (store_read f) as [r|] eqn:Hr; [|apply ls_stutter].
    destruct (owned_by _ _ _ && _); [|apply ls_stutter].
    by apply (record_rewrite_step e f r).
  - rewrite authorize_unchanged. apply ls_stutter.
  - destruct (abs e f) as [|r|r] eqn:Ha; [by apply ls_unheld..|].
    apply held_read in Ha as [Hr Hl].
    rewrite (reconcile_unchanged e seen f r Hr); [|by rewrite live_atomic].
    unfold abs. rewrite Hr, Hl. apply ls_stutter.
Qed.

Lemma authorize_ret h e p t k f r f' :
  authorize_handoff h e p t k f = (Ret r, f') ->
  f' = f /\ store_read f = Some r /\ _live e 0 r = true /\ profile_value (profile_id r) = p
  /\ operation_kind r = k /\ hex64 t = true /\ capability_sha256 r = Some (h t).
Proof.
  unfold authorize_handoff, operation_transaction, _profile, _capability_digest. intros H.
  destruct (profile_of_value p) as [q|] eqn:Hq; [|done].
  destruct (negb (kind_ok k)); [done|].
  destruct (hex64 t) eqn:Ht; [|done].
  destruct (_lock_open e); [|done].
  destruct (_read_for_admission f) as [[r0|]|] eqn:Ha; [|done..].
  destruct (_live e 0 r0 && _ && _ && _) eqn:Hg; [|done].
  destruct (capability_sha256 r0) as [c|] eqn:Hc; [|by rewrite andb_false_r in Hg].
  simplify_eq. to_prop. subst. apply admission_read in Ha. apply profile_of_value_Some in Hq as ->.
  by split_and!.
Qed.

Lemma valid_for_runner_true e p f :
  valid_for_runner e p f = Ret (Some true) ->
  exists r, store_read f = Some r /\ _live e 0 r = true
    /\ profile_value (profile_id r) = p /\ operation_kind r = "lifecycle"%string.
Proof.
  unfold valid_for_runner, _profile, rbind. intros H.
  destruct (profile_of_value p) as [q|] eqn:Hq; [|done].
  destruct (store_read f) as [r|]; [|done]. destruct (_live e 0 r) eqn:Hl; [|done].
  injection H as H. to_prop. apply profile_of_value_Some in Hq as ->. exists r. by subst.
Qed.

Lemma live_update_Some e q f r :
  live_update e q f = Some r ->
  store_read f = Some r /\ _live e 0 r = true /\ operation_kind r = "update"%string.
Proof.
  unfold live_update. intros H. destruct (match q with Some _ => _ | None => _ end); [|done].
  apply bind_Some in H as (r0 & Hr & H).
  destruct (negb _) eqn:Hk; [done|]. destruct (match a with Some _ => _ | None => _ end); [done|].
  destruct (_live e 0 r0) eqn:Hl; [|done]. simplify_eq. by to_prop.
Qed.

Lemma observe_owner e lock meta o meta' s :
  observe e lock meta = (Ret o, meta') -> owner o = Some s ->
  lock = WouldBlock /\ meta' = meta /\ inconsistent o = false
  /\ exists p pid t, s = profile_value p /\ obs_pid o = Some pid /\ obs_ticks o = Some t
     /\ 0 < pid /\ start_ticks e 0 pid = Some t.
Proof.
  unfold observe, observation_free. intros H Ho.
  destruct (_lock_open e); [|done].
  destruct lock; [destruct (_clear_metadata e meta) as [[]]; by simplify_eq|].
  injection H as <- <-. unfold _observe_held_slot, observation_bad in *.
  destruct (_ ≫= _) as [o0|] eqn:E; [|done].
  repeat match goal with
  | H : _ ≫= _ = Some _ |- _ => apply bind_Some in H as (? & ? & H)
  end.
  destruct ((0 <=? _) && _) eqn:Hg; [|done]. simplify_eq/=. to_prop.
  split_and!; try done.
  unfold pid_ticks in *. repeat (split_match; simplify_eq/=; to_prop).
  eexists _, _, _. split_and!; done || lia.
Qed.

Lemma reserve_raise e a chk gen f x f' :
  reserve_if_available e a chk gen f = (Raise x, f') ->
  f' = f \/ write_result e = WriteFailedAfter x.
Proof.
  unfold reserve_if_available, operation_transaction, commit, _atomic_json. intros H.
  repeat (split_match; simplify_eq/=; auto).
Qed.

(** ** Properties *)



(** Admission is exclusive: while a live reservation is stored,
    [reserve_if_available] raises and leaves the file unchanged, for every
    argument (the same operation id included). *)
Theorem admission_is_exclusive e a chk gen f r :
  store_read f = Some r -> _live e 0 r = true ->
  snd (reserve_if_available e a chk gen f) = f /\
  is_ret (fst (reserve_if_available e a chk gen f)) = false.
Proof. apply reserve_blocked. Qed.

(** C10.  Stored form: reading back a written reservation gives it exactly when
    it satisfies the record invariant (and nothing otherwise), and everything the
    parser accepts satisfies the invariant. *)
Theorem reservation_roundtrip e r :
  store_read (written_node e (_reservation_payload r)) =
    (if wf_reservation r then Some r else None)
  /\ forall f r', store_read f = Some r' -> wf_reservation r' = true.
Proof. split; [apply store_read_payload|]. intros f r' H. by eapply from_json_wf. Qed.

(** C9.  Bounded recovery: a lease seen live at some instant is reclaimable by
    root 30 seconds later, whatever its holder did not do: reconciliation clears
    the file, and a well-formed reservation request is then admitted. *)
Theorem expired_lease_recovered e0 k0 e a p ttl pid ticks f r :
  store_read f = Some r -> _live e0 k0 r = true ->
  (forall k, clock e0 k0 + MAX_RESERVATION_TTL <= clock e k) ->
  _lock_open e = Ret tt -> unlink_result e = None -> write_result e = WriteOk ->
  check_reserve e a = Ret (p, ttl, pid, ticks) ->
  reconcile e f f = (Ret true, Absent)
  /\ let r' := mkReservation p (a_operation_id a) (a_generation a) pid ticks
                 (clock e 1 + ttl) (a_kind a) (a_capability a) in
     reserve_if_available e a None None Absent =
       (Ret r', written_node e (_reservation_payload r')).
Proof.
  intros Hr Hl Ht Hlock Hu Hw Hc. split; [|by apply reserve_absent].
  apply reconcile_clears; try done.
  - by apply check_reserve_ret in Hc as (? & _).
  - intros k r0. rewrite Hr. intros [= <-]. by eapply live_bounded.
  - unfold store_read, _read_json in Hr. by destruct f.
Qed.

(** A handoff is authorized only under the exact live reservation of the
    requested profile and kind whose stored digest is the digest of the
    presented token; authorization never changes the file. *)
Theorem handoff_authorization_sound h e p t k f r f' :
  authorize_handoff h e p t k f = (Ret r, f') ->
  f' = f /\ store_read f = Some r /\ _live e 0 r = true /\ profile_value (profile_id r) = p
  /\ operation_kind r = k /\ hex64 t = true /\ capability_sha256 r = Some (h t).
Proof. apply authorize_ret. Qed.

(** The slot runner and the updater exclude each other: when a runner's
    profile is admitted, no other profile is, no live update is reported, and no
    update handoff can be authorized. *)
Theorem runner_excludes_update e p f :
  valid_for_runner e p f = Ret (Some true) ->
  (forall p', valid_for_runner e p' f = Ret (Some true) -> p' = p)
  /\ (forall q, live_update e q f = None)
  /\ (forall h q t, is_ret (fst (authorize_handoff h e q t "update" f)) = false).
Proof.
  intros (r & Hr & _ & Hp & Hk)%valid_for_runner_true. split_and!.
  - intros p' (r' & Hr' & _ & Hp' & _)%valid_for_runner_true. congruence.
  - intros q. destruct (live_update e q f) as [r'|] eqn:H; [|done].
    apply live_update_Some in H as (? & _ & ?). congruence.
  - intros h q t. destruct (authorize_handoff h e q t "update" f) as [[r'|] f'] eqn:H; [|done].
    apply authorize_ret in H as (_ & ? & _ & _ & ? & _). congruence.
Qed.

(** The inspector names an owner only when the slot lock is held by someone
    else and the metadata names a profile whose process is alive with exactly the
    recorded start time; it then leaves the metadata alone. *)
Theorem observed_owner_is_proven e lock meta o meta' s :
  observe e lock meta = (Ret o, meta') -> owner o = Some s ->
  lock = WouldBlock /\ meta' = meta /\ inconsistent o = false
  /\ exists p pid t, s = profile_value p /\ obs_pid o = Some pid /\ obs_ticks o = Some t
     /\ 0 < pid /\ start_ticks e 0 pid = Some t.
Proof. apply observe_owner. Qed.

(** A refused or failed admission changes nothing: the file is untouched
    unless the failure came after the atomic rename. *)
Theorem failed_admission_keeps_file e a chk gen f x f' :
  reserve_if_available e a chk gen f = (Raise x, f') ->
  f' = f \/ write_result e = WriteFailedAfter x.
Proof. apply reserve_raise. Qed.

(** ** Witnesses *)

Definition demo_lock : file_stat := FileStat Regular 0x1B0 0 42 1 0.

Definition demo_env (now : Z) : env :=
  Env 0 7 (fun _ => now) (fun _ pid => if pid =? 7 then Some 100 else None)
    (Ret demo_lock) true (Some 42) (fun _ => 300) WriteOk None.

Definition demo_args : reserve_args :=
  ReserveArgs "minecraft" "op-1" (FFin (fl 30)) 3 None None "lifecycle" None.

Definition demo_reservation : Reservation :=
  mkReservation MINECRAFT "op-1" 3 7 100 (fl 1030) "lifecycle" None.

Definition demo_file : node :=
  written_node (demo_env (fl 1000)) (_reservation_payload demo_reservation).

Definition demo_digest : string :=
  "00112233445566778899aabbccddeeff00112233445566778899aabbccddeeff".

Definition demo_update : Reservation :=
  mkReservation MINECRAFT_SUNLIT_COBBLEMON "up-1" 3 7 100 (fl 1030) "update" (Some demo_digest).



Lemma admission_is_exclusive_witness :
  snd (reserve_if_available (demo_env (fl 1000)) demo_args None None demo_file) = demo_file.
Proof.
  refine (proj1 (admission_is_exclusive (demo_env (fl 1000)) demo_args None None demo_file
    demo_reservation _ _)); vm_compute; reflexivity.
Defined.

Lemma expired_lease_recovered_witness :
  reconcile (demo_env (fl 1030)) demo_file demo_file = (Ret true, Absent).
Proof.
  refine (proj1 (expired_lease_recovered (demo_env (fl 1000)) 0 (demo_env (fl 1030)) demo_args
    MINECRAFT (fl 30) 7 100 demo_file demo_reservation _ _ _ _ _ _ _));
    try (vm_compute; reflexivity).
  intros k. vm_compute. discriminate.
Defined.

Lemma handoff_authorization_sound_witness :
  capability_sha256 demo_update = Some demo_digest.
Proof.
  refine (proj2 (proj2 (proj2 (proj2 (proj2 (proj2
    (handoff_authorization_sound (fun _ => demo_digest) (demo_env (fl 1000))
      "minecraft-sunlit-cobblemon" demo_digest "update"
      (written_node (demo_env (fl 1000)) (_reservation_payload demo_update)) demo_update
      (written_node (demo_env (fl 1000)) (_reservation_payload demo_update)) _)))))));
    vm_compute; reflexivity.
Defined.

Lemma runner_excludes_update_witness :
  live_update (demo_env (fl 1000)) None demo_file = None.
Proof.
  refine (proj1 (proj2 (runner_excludes_update (demo_env (fl 1000)) "minecraft" demo_file _)) None);
    vm_compute; reflexivity.
Defined.

Definition demo_meta : node :=
  Node (FileStat Regular 0x1A4 0 0 1 60)
    (Some (JObj [kv "profile" (JStr "minecraft"); kv "pid" (JInt 7);
                 kv "proc_start_ticks" (JInt 100)])).

Lemma observed_owner_is_proven_witness :
  start_ticks (demo_env 0) 0 7 = Some 100 /\ WouldBlock = WouldBlock.
Proof.
  split; [vm_compute; reflexivity|].
  refine (proj1 (observed_owner_is_proven (demo_env 0) WouldBlock demo_meta
    (mkSlotObservation (Some "minecraft"%string) (Some 7) (Some 100) false) demo_meta "minecraft"
    _ _)); vm_compute; reflexivity.
Defined.

Lemma failed_admission_keeps_file_witness :
  demo_file = demo_file \/
  write_result (demo_env (fl 1000)) =
    WriteFailedAfter (BlockingIOError "reservation is already live").
Proof.
  refine (failed_admission_keeps_file (demo_env (fl 1000)) demo_args None None demo_file
    (BlockingIOError "reservation is already live") demo_file _); vm_compute; reflexivity.
Defined.
