(* ===== verification/ControllerDb.v ===== *)
(** [controller.py], durable state: the jobs, audit, events and confirmations
    tables, the state generation, and the transactions on them.  A transaction is
    a function from the database to its result and the committed database.
    Timestamps are microseconds; [now] is the transaction's reading of
    [self._clock()]. *)
From S2P Require Import Prelude Models.

(** ** [ErrorCode] of [protocol.py] *)
Inductive ErrorCode :=
  | SLOT_CONFLICT | PROFILE_RESERVED | LOW_DISK | LOW_MEMORY | REQUIRED_FILE_MISSING
  | UPSTREAM_UNAVAILABLE | START_TIMEOUT | HEALTH_FAILED | GRACE_TIMEOUT | BACKUP_FAILED
  | RESTORE_FAILED | UPDATE_FAILED | BENCHMARK_FAILED | CONFIRMATION_EXPIRED
  | CONFIRMATION_MISMATCH | REQUEST_ID_CONFLICT | RETIREMENT_FAILED | RETIREMENT_UNAVAILABLE
  | UNAUTHORIZED_PEER | INVALID_REQUEST | INVALID_STATE | INTERNAL_ERROR.

#[export] Instance ErrorCode_eq_dec : EqDecision ErrorCode.
Proof. solve_decision. Defined.

Definition error_value (c : ErrorCode) : string :=
  match c with
  | SLOT_CONFLICT => "slot_conflict" | PROFILE_RESERVED => "profile_reserved"
  | LOW_DISK => "low_disk" | LOW_MEMORY => "low_memory"
  | REQUIRED_FILE_MISSING => "required_file_missing"
  | UPSTREAM_UNAVAILABLE => "upstream_unavailable" | START_TIMEOUT => "start_timeout"
  | HEALTH_FAILED => "health_failed" | GRACE_TIMEOUT => "grace_timeout"
  | BACKUP_FAILED => "backup_failed" | RESTORE_FAILED => "restore_failed"
  | UPDATE_FAILED => "update_failed" | BENCHMARK_FAILED => "benchmark_failed"
  | CONFIRMATION_EXPIRED => "confirmation_expired"
  | CONFIRMATION_MISMATCH => "confirmation_mismatch"
  | REQUEST_ID_CONFLICT => "request_id_conflict" | RETIREMENT_FAILED => "retirement_failed"
  | RETIREMENT_UNAVAILABLE => "retirement_unavailable"
  | UNAUTHORIZED_PEER => "unauthorized_peer" | INVALID_REQUEST => "invalid_request"
  | INVALID_STATE => "invalid_state" | INTERNAL_ERROR => "internal_error"
  end.

Definition all_error_codes : list ErrorCode :=
  [SLOT_CONFLICT; PROFILE_RESERVED; LOW_DISK; LOW_MEMORY; REQUIRED_FILE_MISSING;
   UPSTREAM_UNAVAILABLE; START_TIMEOUT; HEALTH_FAILED; GRACE_TIMEOUT; BACKUP_FAILED;
   RESTORE_FAILED; UPDATE_FAILED; BENCHMARK_FAILED; CONFIRMATION_EXPIRED;
   CONFIRMATION_MISMATCH; REQUEST_ID_CONFLICT; RETIREMENT_FAILED; RETIREMENT_UNAVAILABLE;
   UNAUTHORIZED_PEER; INVALID_REQUEST; INVALID_STATE; INTERNAL_ERROR].

(** [ErrorCode(s)]; [None] stands for [ValueError]. *)
Definition error_of_value (s : string) : option ErrorCode :=
  List.find (fun c => String.eqb (error_value c) s) all_error_codes.

(** ** Tables *)

Record job := Job {
  j_id : Z;
  j_profile : option ProfileId;
  j_operation : string;
  j_state : string;
  j_created : Z;
  j_finished : option Z;
  j_seq : option Z;
  j_detail : option string;
}.

Record audit_row := Audit {
  au_id : Z;
  au_time : Z;
  au_actor : string;
  au_action : string;
  au_profile : option ProfileId;
  au_result : string;
  au_code : option ErrorCode;
  au_detail : string;
}.

Record event_row := Event {
  ev_id : Z;
  ev_time : Z;
  ev_profile : option ProfileId;
  ev_code : string;
  ev_message : string;
}.

Record confirmation := Confirmation {
  cf_id : Z;
  cf_actor : string;
  cf_action : string;
  cf_profile : ProfileId;
  cf_payload : list (string * json);
  cf_expires : Z;
  cf_consumed : option Z;
  cf_generation : Z;
}.

(** [application_id] holds the state generation; [next_id] is the supply of
    fresh [uuid4()] values. *)
Record db := Db {
  jobs : list job;
  audits : list audit_row;
  events : list event_row;
  confirmations : list confirmation;
  application_id : Z;
  next_id : Z;
}.

Definition set_jobs (d : db) (x : list job) : db :=
  Db x (audits d) (events d) (confirmations d) (application_id d) (next_id d).
Definition set_audits (d : db) (x : list audit_row) : db :=
  Db (jobs d) x (events d) (confirmations d) (application_id d) (next_id d).
Definition set_events (d : db) (x : list event_row) : db :=
  Db (jobs d) (audits d) x (confirmations d) (application_id d) (next_id d).
Definition set_confirmations (d : db) (x : list confirmation) : db :=
  Db (jobs d) (audits d) (events d) x (application_id d) (next_id d).
Definition set_application_id (d : db) (x : Z) : db :=
  Db (jobs d) (audits d) (events d) (confirmations d) x (next_id d).
Definition set_next_id (d : db) (x : Z) : db :=
  Db (jobs d) (audits d) (events d) (confirmations d) (application_id d) x.

Definition cut512 (s : string) : string := String.substring 0 512 s.

(** ** Generation *)

Definition _current_generation (d : db) : Z := Z.max 0 (application_id d).

(** [PRAGMA application_id = n]: SQLite keeps a 32-bit signed integer and stores
    0 for a literal that does not fit. *)
Definition pragma_application_id (n : Z) : Z := if n <=? 2147483647 then n else 0.

Definition _bump_generation (d : db) : db :=
  set_application_id d (pragma_application_id (_current_generation d + 1)).

(** ** Audit, jobs, events *)

Definition _audit (now : Z) (actor action : string) (p : option ProfileId) (result : string)
    (code : option ErrorCode) (detail : string) (d : db) : db :=
  set_next_id
    (set_audits d (audits d ++ [Audit (next_id d) now actor action p result code (cut512 detail)]))
    (next_id d + 1).

Definition _job_intent (now : Z) (actor action : string) (p : option ProfileId) (d : db) : Z * db :=
  let id := next_id d in
  let d1 := set_next_id
              (set_jobs d (jobs d ++ [Job id p action "accepted" now None None None])) (id + 1) in
  (id, _audit now actor action p "accepted" None "job accepted" d1).

(** [SELECT MAX(completion_seq) FROM jobs] *)
Definition max_seq (l : list job) : option Z :=
  foldr (fun j m => match j_seq j, m with
                    | Some s, Some m' => Some (Z.max s m')
                    | Some s, None => Some s
                    | None, _ => m
                    end) None l.

(** [SELECT COALESCE(MAX(completion_seq), 0) + 1 FROM jobs] *)
Definition next_completion_seq (d : db) : Z := default 0 (max_seq (jobs d)) + 1.

Definition finish_row (state : string) (now seq : Z) (detail : string) (j : job) : job :=
  Job (j_id j) (j_profile j) (j_operation j) state (j_created j) (Some now) (Some seq)
    (Some detail).

(** [state or ("succeeded" if ok else "failed")] *)
Definition final_state (state : option string) (ok : bool) : string :=
  let d := if ok then "succeeded"%string else "failed"%string in
  match state with
  | Some EmptyString | None => d
  | Some s => s
  end.

Definition _finish (now : Z) (id : Z) (actor action : string) (p : option ProfileId) (ok : bool)
    (code : option ErrorCode) (detail : string) (state : option string) (d : db) : db :=
  let seq := next_completion_seq d in
  let d1 := set_jobs d (map (fun j => if j_id j =? id
                                      then finish_row (final_state state ok) now seq (cut512 detail) j
                                      else j) (jobs d)) in
  let d2 := _audit now actor action p (if ok then "succeeded" else "failed")%string code
              (if nonempty detail then detail else "completed"%string) d1 in
  _bump_generation d2.

Definition five_minutes : Z := 5 * 60 * 1000000.

(** The five-minute duplicate suppression of [_record_event]; [recent] is the
    SQL comparison of the stored timestamp with the cutoff. *)
Definition _record_event (recent : Z -> Z -> bool) (now : Z) (p : option ProfileId)
    (code message : string) (d : db) : db :=
  if existsb (fun ev => bool_decide (ev_profile ev = p) && String.eqb (ev_code ev) code
                        && String.eqb (ev_message ev) (cut512 message)
                        && recent (ev_time ev) (now - five_minutes)) (events d)
  then d
  else set_next_id
         (set_events d (events d ++ [Event (next_id d) now p code (cut512 message)]))
         (next_id d + 1).

(** ** Confirmations *)

Inductive consume_error :=
  | DoesNotMatch
  | AlreadyConsumed
  | Expired
  | StaleGeneration.

Definition consume_code (e : consume_error) : ErrorCode :=
  match e with Expired => CONFIRMATION_EXPIRED | _ => CONFIRMATION_MISMATCH end.

Definition consume_message (e : consume_error) : string :=
  match e with
  | DoesNotMatch => "confirmation does not match"
  | AlreadyConsumed => "confirmation was already consumed"
  | Expired => "confirmation expired"
  | StaleGeneration => "confirmation is stale"
  end.

(** [now] and [generation] are read before the transaction that inserts the row. *)
Definition _create_confirmation (now generation : Z) (actor action : string) (p : ProfileId)
    (payload : list (string * json)) (d : db) : Z * db :=
  let id := next_id d in
  let row := Confirmation id actor action p
               (("profile_id"%string, JStr (profile_value p)) ::
                List.filter (fun kv => negb (String.eqb (fst kv) "profile_id")) payload)
               (now + five_minutes) None generation in
  (id, set_next_id (set_confirmations d (confirmations d ++ [row])) (id + 1)).

Definition find_confirmation (id : Z) (d : db) : option confirmation :=
  List.find (fun c => cf_id c =? id) (confirmations d).

Definition reject (now : Z) (actor action : string) (p : option ProfileId) (e : consume_error)
    (d : db) : (consume_error + list (string * json)) * db :=
  (inl e, _audit now actor action p "rejected" (Some (consume_code e)) (consume_message e) d).

(** [UPDATE confirmations SET consumed_at=? WHERE id=? AND consumed_at IS NULL
    AND state_generation=?] *)
Definition mark_consumed (now id gen : Z) (c : confirmation) : confirmation :=
  if (cf_id c =? id) && bool_decide (cf_consumed c = None) && (cf_generation c =? gen)
  then Confirmation (cf_id c) (cf_actor c) (cf_action c) (cf_profile c) (cf_payload c)
         (cf_expires c) (Some now) (cf_generation c)
  else c.

Definition would_mark (id gen : Z) (c : confirmation) : bool :=
  (cf_id c =? id) && bool_decide (cf_consumed c = None) && (cf_generation c =? gen).

Definition _consume_confirmation (now : Z) (actor action : string) (id : Z) (d : db)
    : (consume_error + list (string * json)) * db :=
  match find_confirmation id d with
  | None => reject now actor action None DoesNotMatch d
  | Some c =>
      if negb (String.eqb (cf_action c) action) || negb (String.eqb (cf_actor c) actor)
      then reject now actor action None DoesNotMatch d else
      if negb (bool_decide (cf_consumed c = None))
      then reject now actor action (Some (cf_profile c)) AlreadyConsumed d else
      if cf_expires c <=? now
      then reject now actor action (Some (cf_profile c)) Expired d else
      if negb (cf_generation c =? _current_generation d)
      then reject now actor action (Some (cf_profile c)) StaleGeneration d else
      if negb (length (List.filter (would_mark id (cf_generation c)) (confirmations d)) =? 1)%nat
      then reject now actor action (Some (cf_profile c)) AlreadyConsumed
             (set_confirmations d (map (mark_consumed now id (cf_generation c)) (confirmations d)))
      else (inr (cf_payload c),
            set_confirmations d (map (mark_consumed now id (cf_generation c)) (confirmations d)))
  end.

(** ** Startup *)

Definition active_state (s : string) : bool :=
  String.eqb s "accepted" || String.eqb s "running".

(** [mark_incomplete] of [reconcile_startup], jobs part: every accepted or
    running job is failed and, if any was, the generation is bumped. *)
Definition mark_incomplete_jobs (now : Z) (d : db) : Z * db :=
  let n := Z.of_nat (length (List.filter (fun j => active_state (j_state j)) (jobs d))) in
  let d1 := set_jobs d (map (fun j => if active_state (j_state j)
                                      then Job (j_id j) (j_profile j) (j_operation j) "failed"
                                             (j_created j) (Some now) (j_seq j)
                                             (Some "controller restarted"%string)
                                      else j) (jobs d)) in
  (n, if 0 <? n then _bump_generation d1 else d1).

Definition resume_operation (o : string) : bool :=
  String.eqb o "start" || String.eqb o "switch" || String.eqb o "stop" || String.eqb o "force_stop".

(** [SELECT operation, profile_id ... ORDER BY completion_seq DESC LIMIT 1] *)
Definition latest_by_seq (l : list job) : option job :=
  foldl (fun best j => match best with
                       | None => Some j
                       | Some b => if default 0 (j_seq b) <? default 0 (j_seq j) then Some j else best
                       end) None l.

(** The profile to restart at boot. *)
Definition _resume_profile_id (boot_profile : option string) (d : db) : option ProfileId :=
  let fixed := match boot_profile with
               | Some s => nonempty s && negb (String.eqb s "resume")
                           && negb (String.eqb s "resume-last-active")
               | None => false
               end in
  if fixed then boot_profile ≫= profile_of_value else
  if existsb (fun j => resume_operation (j_operation j) && String.eqb (j_state j) "succeeded"
                       && bool_decide (j_seq j = None)) (jobs d)
  then None
  else match latest_by_seq (List.filter (fun j => resume_operation (j_operation j)
                              && String.eqb (j_state j) "succeeded"
                              && bool_decide (j_profile j <> None)) (jobs d)) with
       | Some j => if String.eqb (j_operation j) "start" || String.eqb (j_operation j) "switch"
                   then j_profile j else None
       | None => None
       end.
