(* ===== verification/ControllerDbFacts.v ===== *)
(** Theorems about the controller's durable state: confirmations are
    single-use, actor-bound and generation-fenced; finished jobs are terminal
    and ordered; the boot profile is the last one that was active. *)
From S2P Require Import Prelude Models ControllerDb.

(** ** Specification-side definitions *)

(** Row ids are unique and below the fresh-id supply. *)
Definition wf_db (d : db) : Prop :=
  NoDup (map cf_id (confirmations d)) /\ Forall (fun c => cf_id c < next_id d) (confirmations d)
  /\ NoDup (map j_id (jobs d)) /\ Forall (fun j => j_id j < next_id d) (jobs d).

(** The transactions of the controller that touch these tables. *)
Inductive dbop :=
  | OAudit (now : Z) (actor action : string) (p : option ProfileId) (result : string)
      (code : option ErrorCode) (detail : string)
  | OJobIntent (now : Z) (actor action : string) (p : option ProfileId)
  | OFinish (now id : Z) (actor action : string) (p : option ProfileId) (ok : bool)
      (code : option ErrorCode) (detail : string) (state : option string)
  | OEvent (recent : Z -> Z -> bool) (now : Z) (p : option ProfileId) (code message : string)
  | OCreate (now generation : Z) (actor action : string) (p : ProfileId) (payload : list (string * json))
  | OConsume (now : Z) (actor action : string) (id : Z)
  | ORestart (now : Z).

Definition run_dbop (o : dbop) (d : db) : db :=
  match o with
  | OAudit now actor action p r c detail => _audit now actor action p r c detail d
  | OJobIntent now actor action p => snd (_job_intent now actor action p d)
  | OFinish now id actor action p ok c detail st => _finish now id actor action p ok c detail st d
  | OEvent recent now p code m => _record_event recent now p code m d
  | OCreate now gen actor action p payload => snd (_create_confirmation now gen actor action p payload d)
  | OConsume now actor action id => snd (_consume_confirmation now actor action id d)
  | ORestart now => snd (mark_incomplete_jobs now d)
  end.

(** Is this step a successful consumption of confirmation [id]? *)
Definition consumes (id : Z) (o : dbop) (d : db) : bool :=
  match o with
  | OConsume now actor action id' =>
      (id' =? id) && match fst (_consume_confirmation now actor action id' d) with
                     | inr _ => true
                     | inl _ => false
                     end
  | _ => false
  end.

Fixpoint consumptions (id : Z) (ops : list dbop) (d : db) : nat :=
  match ops with
  | [] => 0
  | o :: ops' => (if consumes id o d then 1 else 0) + consumptions id ops' (run_dbop o d)
  end.

(** ** Confirmations *)

Lemma find_confirmation_Some id d c :
  find_confirmation id d = Some c -> List.In c (confirmations d) /\ cf_id c = id.
Proof. intros [? ?]%find_some. by to_prop. Qed.

Lemma consume_rowcount d c :
  wf_db d -> List.In c (confirmations d) -> cf_consumed c = None ->
  length (List.filter (would_mark (cf_id c) (cf_generation c)) (confirmations d)) = 1%nat.
Proof.
  intros (Hnd & _) Hin Hc. rewrite (filter_unique cf_id _ _ c); try done.
  - unfold would_mark. by rewrite !Z.eqb_refl, bool_decide_eq_true_2.
  - intros y Hy. unfold would_mark in Hy. by to_prop.
Qed.

Definition consumable (now : Z) (actor action : string) (d : db) (c : confirmation) : bool :=
  String.eqb (cf_action c) action && String.eqb (cf_actor c) actor
  && bool_decide (cf_consumed c = None) && negb (cf_expires c <=? now)
  && (cf_generation c =? _current_generation d).

Lemma consume_spec now actor action id d :
  wf_db d ->
  match fst (_consume_confirmation now actor action id d) with
  | inr payload => exists c, find_confirmation id d = Some c
                     /\ consumable now actor action d c = true /\ payload = cf_payload c
  | inl _ => forall c, find_confirmation id d = Some c -> consumable now actor action d c = false
  end.
Proof.
  intros Hwf. unfold _consume_confirmation, consumable.
  destruct (find_confirmation id d) as [c|] eqn:Hf; [|by intros].
  pose proof (find_confirmation_Some _ _ _ Hf) as [Hin <-].
  destruct (String.eqb (cf_action c) action) eqn:E1; simpl; [|by intros ? [= <-]; rewrite E1].
  destruct (String.eqb (cf_actor c) actor) eqn:E2; simpl;
    [|intros ? [= <-]; by rewrite E1, E2].
  destruct (bool_decide (cf_consumed c = None)) eqn:E3; simpl;
    [|intros ? [= <-]; by rewrite E1, E2, E3].
  destruct (cf_expires c <=? now) eqn:E4; simpl; [intros ? [= <-]; by rewrite E1, E2, E3, E4|].
  destruct (cf_generation c =? _current_generation d) eqn:E5; simpl;
    [|intros ? [= <-]; by rewrite E1, E2, E3, E4, E5].
  rewrite consume_rowcount; [|done..|by to_prop]. simpl. exists c.
  by rewrite E1, E2, E3, E4, E5.
Qed.

Lemma audit_tables now actor action p r c detail d :
  let d' := _audit now actor action p r c detail d in
  jobs d' = jobs d /\ confirmations d' = confirmations d /\ next_id d' = next_id d + 1
  /\ application_id d' = application_id d.
Proof. done. Qed.

Lemma consume_tables now actor action id d :
  let d' := snd (_consume_confirmation now actor action id d) in
  jobs d' = jobs d /\ next_id d <= next_id d' /\ application_id d' = application_id d
  /\ (confirmations d' = confirmations d
      \/ exists gen, confirmations d' = map (mark_consumed now id gen) (confirmations d)).
Proof.
  unfold _consume_confirmation, reject. simpl.
  repeat split_match; simpl; split_and!; try done; try lia; (by left) || (right; eauto).
Qed.

Lemma mark_consumed_id now id gen c : cf_id (mark_consumed now id gen c) = cf_id c.
Proof. unfold mark_consumed. by destruct (_ && _ && _). Qed.

Lemma map_mark_ids now id gen l : map cf_id (map (mark_consumed now id gen) l) = map cf_id l.
Proof. rewrite map_map. apply map_ext. intros c. apply mark_consumed_id. Qed.

(** [d'] keeps every confirmation row of [d], except that it may consume some;
    at most one new row, with an id from the supply. *)
Definition rows_step (d d' : db) : Prop :=
  exists f extra, confirmations d' = map f (confirmations d) ++ extra
    /\ (forall c, cf_id (f c) = cf_id c)
    /\ (forall c t, cf_consumed c = Some t -> f c = c)
    /\ Forall (fun c => next_id d <= cf_id c < next_id d') extra
    /\ (length extra <= 1)%nat
    /\ next_id d <= next_id d'.

Lemma rows_same d d' :
  confirmations d' = confirmations d -> next_id d <= next_id d' -> rows_step d d'.
Proof.
  intros Hc Hn. exists id, []. rewrite Hc, app_nil_r, map_id. split_and!; try done. simpl. lia.
Qed.

Lemma step_rows o d : rows_step d (run_dbop o d).
Proof.
  destruct o; unfold run_dbop.
  - apply rows_same; simpl; done || lia.
  - apply rows_same; simpl; done || lia.
  - apply rows_same; simpl; done || lia.
  - unfold _record_event. destruct (existsb _ _); apply rows_same; simpl; done || lia.
  - eexists id, [_]. rewrite map_id. split_and!; try done; [|simpl; lia..].
    constructor; [simpl; lia|constructor].
  - destruct (consume_tables now actor action id d) as (_ & Hn & _ & [Hc|[gen Hc]]);
      [by apply rows_same|].
    exists (mark_consumed now id gen), []. rewrite app_nil_r. split_and!; try done.
    + intros c. apply mark_consumed_id.
    + intros c t Ht. unfold mark_consumed.
      by rewrite (bool_decide_eq_false_2 (cf_consumed c = None)), andb_false_r by congruence.
    + simpl. lia.
  - unfold mark_incomplete_jobs. destruct (0 <? _); apply rows_same; simpl; done || lia.
Qed.

Lemma step_jobs o d :
  exists f extra, jobs (run_dbop o d) = map f (jobs d) ++ extra
    /\ (forall j, j_id (f j) = j_id j)
    /\ Forall (fun j => next_id d <= j_id j < next_id (run_dbop o d)) extra
    /\ (length extra <= 1)%nat.
Proof.
  assert (forall d', jobs d' = jobs d -> exists f extra, jobs d' = map f (jobs d) ++ extra
    /\ (forall j, j_id (f j) = j_id j)
    /\ Forall (fun j => next_id d <= j_id j < next_id d') extra /\ (length extra <= 1)%nat) as Hsame.
  { intros d' Hj. exists id, []. rewrite Hj, app_nil_r, map_id. split_and!; try done. simpl. lia. }
  destruct o; unfold run_dbop.
  - by apply Hsame.
  - eexists id, [_]. rewrite map_id. split_and!; try done.
    constructor; [simpl; lia|constructor].
  - eexists _, []. rewrite app_nil_r. split_and!; [reflexivity| |done|simpl; lia].
    intros j. simpl. by destruct (j_id j =? id).
  - apply Hsame. unfold _record_event. by destruct (existsb _ _).
  - by apply Hsame.
  - apply Hsame. apply consume_tables.
  - unfold mark_incomplete_jobs. simpl.
    exists (fun j => if active_state (j_state j) then Job (j_id j) (j_profile j) (j_operation j)
      "failed" (j_created j) (Some now) (j_seq j) (Some "controller restarted"%string) else j), [].
    rewrite app_nil_r. split_and!; try done; [by destruct (0 <? _)| |simpl; lia].
    intros j. by destruct (active_state (j_state j)).
Qed.

Lemma NoDup_ids_step {A} (key : A -> Z) f l extra n m :
  NoDup (map key l) -> Forall (fun x => key x < n) l -> n <= m ->
  (forall x, key (f x) = key x) -> Forall (fun x => n <= key x < m) extra ->
  (length extra <= 1)%nat ->
  NoDup (map key (map f l ++ extra)) /\ Forall (fun x => key x < m) (map f l ++ extra).
Proof.
  intros Hnd Hlt Hnm Hf Hex Hlen. assert (map key (map f l) = map key l) as Hm.
  { rewrite map_map. by apply map_ext. }
  assert (Forall (fun x => key x < m) (map f l)) as Hl'.
  { apply Forall_map. eapply Forall_impl; [exact Hlt|]. simpl. intros x. rewrite Hf. lia. }
  split; [|by apply Forall_app; split; [|eapply Forall_impl; [exact Hex|simpl; lia]]].
  rewrite map_app, Hm. destruct extra as [|x [|? ?]]; simpl in *; [by rewrite app_nil_r| |lia].
  apply NoDup_app. split_and!; [done| |by apply NoDup_singleton].
  intros k Hk ->%list_elem_of_singleton. apply list_elem_of_In, in_map_iff in Hk as (y & Hy & Hin).
  apply Forall_inv in Hex. rewrite List.Forall_forall in Hlt. specialize (Hlt y Hin). lia.
Qed.

Lemma wf_db_step o d : wf_db d -> wf_db (run_dbop o d).
Proof.
  intros (Hc & Hcl & Hj & Hjl).
  destruct (step_rows o d) as (f & ex & E & Hf & _ & Hex & Hlen & Hn).
  destruct (step_jobs o d) as (g & jx & F & Hg & Hjx & Hjlen).
  unfold wf_db. rewrite E, F.
  destruct (NoDup_ids_step cf_id f (confirmations d) ex _ _ Hc Hcl Hn Hf Hex Hlen).
  by destruct (NoDup_ids_step j_id g (jobs d) jx _ _ Hj Hjl Hn Hg Hjx Hjlen).
Qed.

(** Confirmation [id] can no longer be consumed: it is known and consumed. *)
Definition spent (id : Z) (d : db) : Prop :=
  exists c t, List.In c (confirmations d) /\ cf_id c = id /\ cf_consumed c = Some t.

Lemma spent_step id o d : spent id d -> spent id (run_dbop o d).
Proof.
  intros (c & t & Hin & Hid & Hc). destruct (step_rows o d) as (f & ex & E & Hf & Hk & _).
  exists c, t. split_and!; try done. rewrite E. apply in_or_app. left.
  apply in_map_iff. exists c. split; [|done]. by apply (Hk c t).
Qed.

Lemma find_unique id d c :
  wf_db d -> List.In c (confirmations d) -> cf_id c = id -> find_confirmation id d = Some c.
Proof.
  intros (Hnd & _) Hin Hid. unfold find_confirmation.
  induction (confirmations d) as [|x l IH]; [done|]. simpl in *.
  apply NoDup_cons in Hnd as [Hn Hnd]. destruct Hin as [->|Hin].
  - by rewrite Hid, Z.eqb_refl.
  - destruct (cf_id x =? id) eqn:Hx; [|by apply IH]. exfalso. apply Hn. to_prop.
    rewrite Hx, <- Hid. by apply list_elem_of_In, in_map.
Qed.

Lemma spent_not_consumed id o d : wf_db d -> spent id d -> consumes id o d = false.
Proof.
  intros Hwf (c & t & Hin & Hid & Hc). destruct o; try done. simpl.
  destruct (id0 =? id) eqn:He; [|done]. to_prop. subst id0. simpl.
  pose proof (consume_spec now actor action id d Hwf) as Hs.
  destruct (fst _) as [|pl]; [done|]. destruct Hs as (c' & Hf & Hk & _).
  rewrite (find_unique id d c) in Hf by done. simplify_eq.
  unfold consumable in Hk. to_prop. congruence.
Qed.

Lemma consumes_spent id o d : wf_db d -> consumes id o d = true -> spent id (run_dbop o d).
Proof.
  intros Hwf H. destruct o; try done. simpl in H. to_prop. subst id0. simpl.
  unfold _consume_confirmation in *. destruct (find_confirmation id d) as [c|] eqn:Hf; [|done].
  pose proof (find_confirmation_Some _ _ _ Hf) as [Hin Hid].
  repeat (destruct (_ : bool) eqn:?; [done|]).
  repeat match goal with H : context [if ?b then _ else _] |- _ => destruct b eqn:?; [done|] end.
  to_prop. simpl. exists (mark_consumed now id (cf_generation c) c), now.
  split_and!.
  - by apply in_map.
  - by rewrite mark_consumed_id.
  - unfold mark_consumed. subst id.
    by rewrite !Z.eqb_refl, bool_decide_eq_true_2.
Qed.

Lemma spent_consumptions id ops d : wf_db d -> spent id d -> consumptions id ops d = 0%nat.
Proof.
  revert d. induction ops as [|o ops IH]; [done|]. intros d Hwf Hs. simpl.
  rewrite spent_not_consumed by done. apply IH; [by apply wf_db_step|by apply spent_step].
Qed.

Lemma consumptions_le_1 id ops d : wf_db d -> (consumptions id ops d <= 1)%nat.
Proof.
  revert d. induction ops as [|o ops IH]; [simpl; lia|]. intros d Hwf. simpl.
  destruct (consumes id o d) eqn:Hc.
  - rewrite spent_consumptions; [lia|by apply wf_db_step|by apply consumes_spent].
  - simpl. by apply IH, wf_db_step.
Qed.

(** ** Generation *)

Lemma bump_generation_succ d :
  _current_generation d < 2147483647 ->
  _current_generation (_bump_generation d) = _current_generation d + 1.
Proof.
  intros H. unfold _bump_generation, pragma_application_id, _current_generation in *. simpl.
  destruct (_ <=? _) eqn:E; to_prop; lia.
Qed.

Lemma finish_generation now id actor action p ok code detail st d :
  _current_generation (_finish now id actor action p ok code detail st d) =
  _current_generation (_bump_generation d).
Proof. done. Qed.

Lemma finish_confirmations now id actor action p ok code detail st d :
  confirmations (_finish now id actor action p ok code detail st d) = confirmations d.
Proof. done. Qed.

(** ** Jobs *)

Lemma max_seq_ge l j s :
  List.In j l -> j_seq j = Some s -> exists m, max_seq l = Some m /\ s <= m.
Proof.
  induction l as [|x l IH]; [done|]. simpl. intros [->|Hin] Hs.
  - rewrite Hs. destruct (max_seq l) as [m|]; eexists; split; try done; lia.
  - destruct (IH Hin Hs) as (m & -> & Hm). destruct (j_seq x) as [s'|]; eexists; split; try done; lia.
Qed.

Lemma next_seq_gt d j s : List.In j (jobs d) -> j_seq j = Some s -> s < next_completion_seq d.
Proof.
  intros Hin Hs. destruct (max_seq_ge _ _ _ Hin Hs) as (m & Hm & ?).
  unfold next_completion_seq. rewrite Hm. simpl. lia.
Qed.

Lemma latest_by_seq_max l x :
  List.In x l -> (forall y, List.In y l -> y = x \/ default 0 (j_seq y) < default 0 (j_seq x)) ->
  latest_by_seq l = Some x.
Proof.
  unfold latest_by_seq.
  set (g := fun best j => _). intros Hin Hlt.
  assert (forall best, (best = Some x \/ List.In x l) ->
    (match best with Some b => b = x \/ default 0 (j_seq b) < default 0 (j_seq x) | None => True end) ->
    foldl g best l = Some x) as Hgen; [|by apply Hgen; [right|]].
  clear Hin. induction l as [|y l IH]; simpl.
  - by intros best [->|[]] _.
  - intros best Hb Hbest. specialize (Hlt y (or_introl eq_refl)) as Hy.
    apply IH; [intros; apply Hlt; by right| |].
    + destruct Hb as [->|[->|]]; [|left|by right].
      * left. simpl. destruct (_ <? _) eqn:E; [|done]. to_prop. destruct Hy as [->|]; [done|lia].
      * destruct best as [b|]; simpl; [|done]. destruct (_ <? _) eqn:E; [done|]. to_prop.
        destruct Hbest as [->|]; [done|lia].
    + destruct best as [b|]; simpl; [destruct (_ <? _)|]; try done.
Qed.

(** Every succeeded job carries its completion sequence number. *)
Definition seq_ok (d : db) : Prop :=
  forall j, List.In j (jobs d) -> j_state j = "succeeded"%string -> j_seq j <> None.

Lemma seq_ok_step o d : seq_ok d -> seq_ok (run_dbop o d).
Proof.
  intros H. destruct o; simpl.
  - done.
  - intros j Hin. simpl in Hin. apply in_app_or in Hin as [Hin|[<-|[]]]; [by apply H|done].
  - intros j Hin. simpl in Hin. apply in_map_iff in Hin as (j0 & <- & Hin).
    destruct (j_id j0 =? id); [done|by apply H].
  - unfold _record_event. by destruct (existsb _ _).
  - done.
  - unfold seq_ok. by destruct (consume_tables now actor action id d) as (-> & _).
  - unfold mark_incomplete_jobs. simpl. intros j Hin.
    assert (List.In j (map (fun j => if active_state (j_state j) then Job (j_id j) (j_profile j)
      (j_operation j) "failed" (j_created j) (Some now) (j_seq j)
      (Some "controller restarted"%string) else j) (jobs d))) as Hin'
      by (by destruct (0 <? _)).
    apply in_map_iff in Hin' as (j0 & <- & Hin0).
    destruct (active_state (j_state j0)); [done|by apply H].
Qed.

Definition run_dbops (ops : list dbop) (d : db) : db := foldl (fun d o => run_dbop o d) d ops.

Definition empty_db : db := Db [] [] [] [] 0 1.

Lemma reachable_inv ops d : wf_db d -> seq_ok d -> wf_db (run_dbops ops d) /\ seq_ok (run_dbops ops d).
Proof.
  unfold run_dbops. revert d. induction ops as [|o ops IH]; [done|]. intros d Hw Hs. simpl.
  apply IH; [by apply wf_db_step|by apply seq_ok_step].
Qed.

Lemma empty_db_inv : wf_db empty_db /\ seq_ok empty_db.
Proof. split; [repeat split; constructor|]. by intros j []. Qed.

Lemma finish_jobs now id actor action p ok code detail st d j :
  wf_db d -> List.In j (jobs (_finish now id actor action p ok code detail st d)) ->
  j_id j <> id -> List.In j (jobs d).
Proof.
  intros _ Hin Hne. simpl in Hin. apply in_map_iff in Hin as (j0 & E & Hin).
  destruct (j_id j0 =? id) eqn:Hid; [|by subst]. to_prop. subst. simpl in Hne. done.
Qed.

Lemma job_unique d j j' :
  wf_db d -> List.In j (jobs d) -> List.In j' (jobs d) -> j_id j = j_id j' -> j = j'.
Proof.
  intros (_ & _ & Hnd & _). induction (jobs d) as [|x l IH]; [done|]. simpl in *.
  apply NoDup_cons in Hnd as [Hn Hnd]. intros [->|H1] [->|H2] He; [done|..|by apply IH].
  - exfalso. apply Hn. rewrite He. by apply list_elem_of_In, in_map.
  - exfalso. apply Hn. rewrite <- He. by apply list_elem_of_In, in_map.
Qed.

Lemma resume_after_finish now j actor action prof code detail d p :
  wf_db d -> seq_ok d -> List.In j (jobs d) -> j_profile j = Some p ->
  resume_operation (j_operation j) = true ->
  _resume_profile_id None (_finish now (j_id j) actor action prof true code detail None d) =
    if String.eqb (j_operation j) "start" || String.eqb (j_operation j) "switch"
    then Some p else None.
Proof.
  intros Hw Hs Hin Hp Hop. set (d' := _finish _ _ _ _ _ _ _ _ _ _).
  set (j' := finish_row "succeeded" now (next_completion_seq d) (cut512 detail) j).
  assert (List.In j' (jobs d')) as Hin'.
  { simpl. apply in_map_iff. exists j. by rewrite Z.eqb_refl. }
  assert (wf_db d' /\ seq_ok d') as [Hw' Hs'].
  { split; [apply (wf_db_step (OFinish now (j_id j) actor action prof true code detail None) d Hw)|].
    apply (seq_ok_step (OFinish now (j_id j) actor action prof true code detail None) d Hs). }
  unfold _resume_profile_id. simpl.
  destruct (existsb _ _) eqn:Hex.
  { apply existsb_exists in Hex as (y & Hy & Hc). to_prop. exfalso. by eapply (Hs' y). }
  rewrite (latest_by_seq_max _ j').
  - simpl. by rewrite Hp.
  - apply filter_In. split; [done|]. simpl. rewrite Hop, Hp. done.
  - intros y [Hy Hyc]%filter_In. to_prop.
    destruct (Z.eq_dec (j_id y) (j_id j)) as [He|Hne].
    + left. by apply (job_unique d').
    + right. simpl. destruct (j_seq y) as [s|] eqn:E; [|exfalso; by eapply (Hs' y)].
      eapply next_seq_gt; [|done]. by apply (finish_jobs now (j_id j) actor action prof true code detail None).
Qed.

Lemma finish_terminal now j actor action p ok code detail st d :
  List.In j (jobs d) ->
  List.In (finish_row (final_state st ok) now (next_completion_seq d) (cut512 detail) j)
    (jobs (_finish now (j_id j) actor action p ok code detail st d)).
Proof. intros Hin. simpl. apply in_map_iff. exists j. by rewrite Z.eqb_refl. Qed.

(** ** Properties *)

(** C8.  A confirmation is consumed at most once: over any sequence of the
    controller's transactions (creations, consumptions by any actor, finished
    jobs, restarts) from a well-formed database, at most one consumption of a
    given id succeeds. *)
Theorem confirmation_consumed_once id ops d :
  wf_db d -> (consumptions id ops d <= 1)%nat.
Proof. apply consumptions_le_1. Qed.

(** Consumption succeeds exactly for the actor and action the confirmation
    was created for, while it is unconsumed, unexpired and of the current state
    generation, and then returns the stored payload; every other case is refused. *)
Theorem consume_confirmation_spec now actor action id d :
  wf_db d ->
  match fst (_consume_confirmation now actor action id d) with
  | inr payload => exists c, find_confirmation id d = Some c
                     /\ consumable now actor action d c = true /\ payload = cf_payload c
  | inl _ => forall c, find_confirmation id d = Some c -> consumable now actor action d c = false
  end.
Proof. apply consume_spec. Qed.

(** Any finished job fences the confirmations prepared before it: a
    confirmation of the current or an older generation cannot be consumed after [_finish],
    as long as the 32-bit generation counter has not wrapped. *)
Theorem finish_fences_confirmations now id actor action p ok code detail st d c now' actor' action' :
  wf_db d -> find_confirmation (cf_id c) d = Some c ->
  cf_generation c <= _current_generation d -> _current_generation d < 2147483647 ->
  exists e, fst (_consume_confirmation now' actor' action' (cf_id c)
                   (_finish now id actor action p ok code detail st d)) = inl e.
Proof.
  intros Hw Hf Hg Hlt. set (o := OFinish now id actor action p ok code detail st).
  pose proof (consume_spec now' actor' action' (cf_id c) (run_dbop o d) (wf_db_step o d Hw)) as H.
  change (_finish _ _ _ _ _ _ _ _ _ d) with (run_dbop o d).
  destruct (fst _) as [e|pl]; [by eexists|]. destruct H as (c' & Hf' & Hk & _). exfalso.
  unfold find_confirmation in *. simpl in Hf'. rewrite Hf in Hf'. simplify_eq.
  unfold consumable in Hk. to_prop.
  pose proof (finish_generation now id actor action p ok code detail st d) as Hfg.
  rewrite (bump_generation_succ d Hlt) in Hfg. simpl in *. lia.
Qed.

(** The boot profile is the last one that was active: in any database the
    controller's transactions produce, when a start or switch job just succeeded
    the resume profile is that job's profile, and after a stop or forced stop
    there is none. *)
Theorem boot_resumes_last_active ops now j actor action prof code detail p :
  let d := run_dbops ops empty_db in
  List.In j (jobs d) -> j_profile j = Some p -> resume_operation (j_operation j) = true ->
  _resume_profile_id None (_finish now (j_id j) actor action prof true code detail None d) =
    if String.eqb (j_operation j) "start" || String.eqb (j_operation j) "switch"
    then Some p else None.
Proof.
  intros d Hin Hp Hop. destruct empty_db_inv as [Hw0 Hs0].
  destruct (reachable_inv ops empty_db Hw0 Hs0) as [Hw Hs]. by apply resume_after_finish.
Qed.

(** The state generation is bounded: a bump moves it up by one and stays in
    the signed 32-bit range, except at 2^31 - 1 where the stored value falls back
    to 0. *)
Theorem generation_bump_bounds d :
  0 <= _current_generation d <= 2147483647 ->
  _current_generation (_bump_generation d) =
    (if _current_generation d =? 2147483647 then 0 else _current_generation d + 1)
  /\ 0 <= _current_generation (_bump_generation d) <= 2147483647.
Proof.
  unfold _bump_generation, pragma_application_id, _current_generation. simpl. intros H.
  destruct (_ <=? _) eqn:E; destruct (_ =? _) eqn:F; to_prop; lia.
Qed.

(** ** Witnesses *)

Definition demo_ops : list dbop :=
  [OJobIntent 10 "alice" "start" (Some MINECRAFT);
   OCreate 20 0 "alice" "force_stop" MINECRAFT []].

Definition demo_db : db := run_dbops demo_ops empty_db.

Lemma demo_db_wf : wf_db demo_db.
Proof. apply reachable_inv; apply empty_db_inv. Qed.

Lemma confirmation_consumed_once_witness :
  consumptions 3 [OConsume 30 "alice" "force_stop" 3; OConsume 40 "alice" "force_stop" 3] demo_db
    = 1%nat
  /\ (consumptions 3 [OConsume 30 "alice" "force_stop" 3; OConsume 40 "alice" "force_stop" 3]
        demo_db <= 1)%nat.
Proof.
  split; [vm_compute; reflexivity|]. apply (confirmation_consumed_once 3 _ demo_db), demo_db_wf.
Defined.

Lemma consume_confirmation_spec_witness :
  exists c, find_confirmation 3 demo_db = Some c
    /\ consumable 30 "alice" "force_stop" demo_db c = true
    /\ [("profile_id"%string, JStr "minecraft")] = cf_payload c.
Proof. exact (consume_confirmation_spec 30 "alice" "force_stop" 3 demo_db demo_db_wf). Defined.

Lemma finish_fences_confirmations_witness :
  exists e, fst (_consume_confirmation 40 "alice" "force_stop" 3
    (_finish 30 1 "alice" "start" (Some MINECRAFT) true None "" None demo_db)) = inl e.
Proof.
  apply (finish_fences_confirmations 30 1 "alice" "start" (Some MINECRAFT) true None "" None demo_db
    (Confirmation 3 "alice" "force_stop" MINECRAFT [("profile_id"%string, JStr "minecraft")]
      300000020 None 0) 40 "alice" "force_stop" demo_db_wf); reflexivity.
Defined.

Lemma boot_resumes_last_active_witness :
  _resume_profile_id None (_finish 30 1 "alice" "start" (Some MINECRAFT) true None "" None demo_db)
  = Some MINECRAFT.
Proof.
  apply (boot_resumes_last_active demo_ops 30
    (Job 1 (Some MINECRAFT) "start" "accepted" 10 None None None) "alice" "start" (Some MINECRAFT)
    None "" MINECRAFT); [by left|reflexivity..].
Defined.

Lemma generation_bump_bounds_witness :
  _current_generation (_bump_generation empty_db) = 1.
Proof. apply (generation_bump_bounds empty_db). vm_compute. split; discriminate. Defined.
