(* ===== verification/Idempotency.v ===== *)
(** [controller.py], durable request idempotency: [_execute] claims the request
    id in [rpc_idempotency] before it dispatches, stores the response, and
    answers retries from the stored row.  Concurrent requests (of this daemon or
    another), restarts and retention pruning are an interleaving step relation. *)
From S2P Require Import Prelude Models ControllerDb.

Section Idempotency.

(** [RpcSuccess]/[RpcFailure] and their JSON encoding ([response_json],
    [response_from_json]: pydantic). *)
Context {Resp : Type}.
Variable response_json : Resp -> string.
Variable response_from_json : string -> option Resp.
Variable failure : Z -> ErrorCode -> string -> bool -> Resp.

(** ** The table *)

Record idem_row := IdemRow {
  canonical_request : string;
  response : string;
  status_pending : bool;
  created_at : Z;
}.

Inductive claim_result :=
  | Claimed
  | Pending
  | Replay (r : Resp).

Definition _claim_request (now rid : Z) (canonical : string) (t : gmap Z idem_row)
    : claim_result * gmap Z idem_row :=
  match t !! rid with
  | None => (Claimed, <[rid := IdemRow canonical EmptyString true now]> t)
  | Some row =>
      if negb (String.eqb (canonical_request row) canonical)
      then (Replay (failure rid REQUEST_ID_CONFLICT "request id was already used" false), t) else
      if status_pending row then (Pending, t) else
      if negb (nonempty (response row))
      then (Replay (failure rid INTERNAL_ERROR "stored response unavailable" false), t) else
      match response_from_json (response row) with
      | Some r => (Replay r, t)
      | None => (Replay (failure rid INTERNAL_ERROR "stored response unavailable" false), t)
      end
  end.

Definition _store_replay (rid : Z) (canonical : string) (r : Resp) (t : gmap Z idem_row)
    : gmap Z idem_row :=
  match t !! rid with
  | Some row =>
      if String.eqb (canonical_request row) canonical && status_pending row
      then <[rid := IdemRow (canonical_request row) (response_json r) false (created_at row)]> t
      else t
  | None => t
  end.

(** [reconcile_startup], idempotency part: every pending claim becomes a
    completed retryable failure. *)
Definition interrupt_row (rid : Z) (row : idem_row) : idem_row :=
  if status_pending row
  then IdemRow (canonical_request row)
         (response_json (failure rid INTERNAL_ERROR
            "request was interrupted by controller restart" true)) false (created_at row)
  else row.

Definition interrupt_pending (t : gmap Z idem_row) : gmap Z idem_row :=
  map_imap (fun rid row => Some (interrupt_row rid row)) t.

(** [prune_completed_rpc_idempotency] of [state_db.py], default 48 hours. *)
Definition max_age : Z := 48 * 3600 * 1000000.

Definition prunable (now : Z) (row : idem_row) : bool :=
  negb (status_pending row) && (created_at row <? now - max_age).

Definition prune_completed_rpc_idempotency (now : Z) (t : gmap Z idem_row) : gmap Z idem_row :=
  filter (fun kv => prunable now (snd kv) = false) t.

(** ** [_execute] as a step relation *)

Inductive pc :=
  | PStart
  | PDispatch
  | PStore (r : Resp)
  | PWait (polls : nat)
  | PDone (r : Resp).

Record task := Task {
  t_rid : Z;
  t_canonical : string;
  t_pc : pc;
}.

Inductive log_event :=
  | Dispatched (rid : Z)
  | Forgotten (rid : Z).

Record sys := Sys {
  rows : gmap Z idem_row;
  tasks : list task;
  log : list log_event;
}.

(** The body of [_execute] up to the dispatch: claim, replay or start waiting. *)
Definition claim_step (now : Z) (t : task) (tbl : gmap Z idem_row) : pc * gmap Z idem_row :=
  match _claim_request now (t_rid t) (t_canonical t) tbl with
  | (Claimed, tbl') => (PDispatch, tbl')
  | (Pending, tbl') => (PWait 1000, tbl')
  | (Replay r, tbl') => (PDone r, tbl')
  end.

(** One iteration of [_wait_for_replay]. *)
Definition in_progress (rid : Z) : Resp :=
  failure rid INTERNAL_ERROR "request is still in progress" true.

Definition poll_step (now : Z) (t : task) (polls : nat) (tbl : gmap Z idem_row)
    : pc * gmap Z idem_row :=
  match polls with
  | O => (PDone (in_progress (t_rid t)), tbl)
  | S n =>
      match _claim_request now (t_rid t) (t_canonical t) tbl with
      | (Pending, tbl') => (PWait n, tbl')
      | (Claimed, tbl') => (PDone (in_progress (t_rid t)), tbl')
      | (Replay r, tbl') => (PDone r, tbl')
      end
  end.

Definition at_pc (t : task) (p : pc) : task := Task (t_rid t) (t_canonical t) p.

Inductive step : sys -> sys -> Prop :=
  | step_arrive tbl l lg rid canonical :
      step (Sys tbl l lg) (Sys tbl (Task rid canonical PStart :: l) lg)
  | step_claim now tbl l1 t l2 lg p tbl' :
      t_pc t = PStart -> claim_step now t tbl = (p, tbl') ->
      step (Sys tbl (l1 ++ t :: l2) lg) (Sys tbl' (l1 ++ at_pc t p :: l2) lg)
  | step_poll now tbl l1 t l2 lg n p tbl' :
      t_pc t = PWait n -> poll_step now t n tbl = (p, tbl') ->
      step (Sys tbl (l1 ++ t :: l2) lg) (Sys tbl' (l1 ++ at_pc t p :: l2) lg)
  | step_dispatch tbl l1 t l2 lg r :
      t_pc t = PDispatch ->
      step (Sys tbl (l1 ++ t :: l2) lg)
           (Sys tbl (l1 ++ at_pc t (PStore r) :: l2) (Dispatched (t_rid t) :: lg))
  | step_store tbl l1 t l2 lg r :
      t_pc t = PStore r ->
      step (Sys tbl (l1 ++ t :: l2) lg)
           (Sys (_store_replay (t_rid t) (t_canonical t) r tbl) (l1 ++ at_pc t (PDone r) :: l2) lg)
  | step_restart tbl l lg :
      step (Sys tbl l lg) (Sys (interrupt_pending tbl) [] lg)
  | step_prune now tbl l lg :
      step (Sys tbl l lg)
           (Sys (prune_completed_rpc_idempotency now tbl) l
             (map (fun kv => Forgotten (fst kv))
                (map_to_list (filter (fun kv => prunable now (snd kv) = true) tbl)) ++ lg)).

(** ** Invariant *)

Definition is_worker (rid : Z) (t : task) : bool :=
  (t_rid t =? rid) && match t_pc t with PDispatch | PStore _ => true | _ => false end.

Definition to_dispatch (rid : Z) (t : task) : bool :=
  (t_rid t =? rid) && match t_pc t with PDispatch => true | _ => false end.

Definition count {A} (P : A -> bool) (l : list A) : nat := length (List.filter P l).

Definition is_dispatched (rid : Z) (e : log_event) : bool :=
  match e with Dispatched r => r =? rid | _ => false end.

Definition is_forgotten (rid : Z) (e : log_event) : bool :=
  match e with Forgotten r => r =? rid | _ => false end.

Definition dispatches (rid : Z) (s : sys) : nat := count (is_dispatched rid) (log s).
Definition forgets (rid : Z) (s : sys) : nat := count (is_forgotten rid) (log s).

Definition present (rid : Z) (t : gmap Z idem_row) : nat :=
  match t !! rid with Some _ => 1 | None => 0 end.

Record inv (rid : Z) (s : sys) : Prop := Inv {
  inv_one : (count (is_worker rid) (tasks s) <= 1)%nat;
  inv_pending : (0 < count (is_worker rid) (tasks s))%nat ->
    exists row, rows s !! rid = Some row /\ status_pending row = true;
  inv_log : (dispatches rid s + count (to_dispatch rid) (tasks s)
             <= forgets rid s + present rid (rows s))%nat;
}.

Lemma count_app {A} (P : A -> bool) l1 l2 : count P (l1 ++ l2) = (count P l1 + count P l2)%nat.
Proof. unfold count. by rewrite List.filter_app, length_app. Qed.

Lemma count_cons {A} (P : A -> bool) x l :
  count P (x :: l) = ((if P x then 1 else 0) + count P l)%nat.
Proof. unfold count. simpl. by destruct (P x). Qed.

Lemma count_to_dispatch rid l : (count (to_dispatch rid) l <= count (is_worker rid) l)%nat.
Proof.
  induction l as [|t l IH]; [done|]. rewrite !count_cons. unfold to_dispatch, is_worker in *.
  destruct (t_pc t), (t_rid t =? rid); simpl; lia.
Qed.

(** A claim only ever adds a pending row for its own id. *)
Lemma claim_table now rid c tbl res tbl' :
  _claim_request now rid c tbl = (res, tbl') ->
  (tbl' = tbl /\ res <> Claimed /\ is_Some (tbl !! rid))
  \/ (res = Claimed /\ tbl !! rid = None
      /\ tbl' = <[rid := IdemRow c EmptyString true now]> tbl).
Proof.
  unfold _claim_request. intros H.
  destruct (tbl !! rid) as [row|] eqn:E; [left|right; by simplify_eq].
  repeat (split_match; simplify_eq/=); eauto.
Qed.

Ltac count_tasks :=
  simpl in *; rewrite ?count_app, ?count_cons in *; simpl in *.

Lemma insert_inv rid rid' row tbl l lg :
  tbl !! rid' = None -> status_pending row = true ->
  inv rid (Sys tbl l lg) -> inv rid (Sys (<[rid' := row]> tbl) l lg).
Proof.
  intros Hn Hp [H1 H2 H4]. constructor; simpl in *; try done.
  - intros Hw. destruct (H2 Hw) as (row' & Hr & ?). exists row'. split; [|done].
    rewrite lookup_insert_ne; [done|]. congruence.
  - unfold dispatches, forgets, present in *. simpl in *. rewrite lookup_insert.
    destruct (decide (rid' = rid)) as [->|]; [|lia]. rewrite Hn in H4. lia.
Qed.

(** Replacing a task by one with the same or no work left. *)
Lemma retire_inv rid tbl l1 t l2 lg p :
  (match p with PDispatch | PStore _ => False | _ => True end) ->
  (match t_pc t with PDispatch | PStore _ => False | _ => True end) ->
  inv rid (Sys tbl (l1 ++ t :: l2) lg) -> inv rid (Sys tbl (l1 ++ at_pc t p :: l2) lg).
Proof.
  intros Hp Ht [H1 H2 H4].
  assert (is_worker rid (at_pc t p) = false /\ to_dispatch rid (at_pc t p) = false
    /\ is_worker rid t = false /\ to_dispatch rid t = false) as (E1 & E2 & E3 & E4).
  { unfold is_worker, to_dispatch, at_pc. simpl.
    destruct p, (t_pc t); try done; by rewrite !andb_false_r. }
  constructor; unfold dispatches, forgets in *; simpl in *;
    rewrite ?count_app, ?count_cons, ?E1, ?E2, ?E3, ?E4 in *; try done; lia.
Qed.

Lemma claim_inv rid now tbl l1 t l2 lg p tbl' :
  t_pc t = PStart -> claim_step now t tbl = (p, tbl') ->
  inv rid (Sys tbl (l1 ++ t :: l2) lg) -> inv rid (Sys tbl' (l1 ++ at_pc t p :: l2) lg).
Proof.
  unfold claim_step. intros Ht Hc Hi.
  destruct (_claim_request now (t_rid t) (t_canonical t) tbl) as [res tbl2] eqn:E.
  destruct (claim_table _ _ _ _ _ _ E) as [(-> & Hne & _)|(-> & Hn & ->)].
  - destruct res; [done|..]; simplify_eq; apply retire_inv; try done; by rewrite Ht.
  - simplify_eq. destruct Hi as [H1 H2 H4].
    assert (is_worker rid t = false /\ to_dispatch rid t = false) as [E1 E2].
    { unfold is_worker, to_dispatch. rewrite Ht. by rewrite !andb_false_r. }
    assert (is_worker rid (at_pc t PDispatch) = (t_rid t =? rid)
      /\ to_dispatch rid (at_pc t PDispatch) = (t_rid t =? rid)) as [E3 E4].
    { unfold is_worker, to_dispatch, at_pc. simpl. by rewrite !andb_true_r. }
    unfold dispatches, forgets, present in *. simpl in *.
    rewrite ?count_app, ?count_cons, ?E1, ?E2 in *. simpl in *.
    destruct (t_rid t =? rid) eqn:Hrid; to_prop.
    + subst rid. rewrite Hn in *.
      assert (count (is_worker (t_rid t)) l1 + count (is_worker (t_rid t)) l2 = 0)%nat as Hz.
      { apply Nat.le_0_r, Nat.nlt_ge. intros Hpos. by destruct (H2 Hpos) as (? & ? & _). }
      pose proof (count_to_dispatch (t_rid t) l1). pose proof (count_to_dispatch (t_rid t) l2).
      constructor; unfold dispatches, forgets, present; simpl;
        rewrite ?count_app, ?count_cons, ?E3, ?E4, ?lookup_insert_eq; simpl; try lia.
      intros _. eexists. split; [done|done].
    + constructor; unfold dispatches, forgets, present; simpl;
        rewrite ?count_app, ?count_cons, ?E3, ?E4, ?lookup_insert_ne by done; simpl; try lia.
      done.
Qed.

Lemma poll_inv rid now tbl l1 t l2 lg n p tbl' :
  t_pc t = PWait n -> poll_step now t n tbl = (p, tbl') ->
  inv rid (Sys tbl (l1 ++ t :: l2) lg) -> inv rid (Sys tbl' (l1 ++ at_pc t p :: l2) lg).
Proof.
  unfold poll_step. intros Ht Hc Hi. destruct n as [|n].
  { simplify_eq. apply retire_inv; try done. by rewrite Ht. }
  destruct (_claim_request now (t_rid t) (t_canonical t) tbl) as [res tbl2] eqn:E.
  destruct (claim_table _ _ _ _ _ _ E) as [(-> & Hne & _)|(-> & Hn & ->)].
  - destruct res; [done|..]; simplify_eq; apply retire_inv; try done; by rewrite Ht.
  - simplify_eq. apply insert_inv; [done..|]. apply retire_inv; try done. by rewrite Ht.
Qed.

Lemma dispatch_inv rid tbl l1 t l2 lg r :
  t_pc t = PDispatch -> inv rid (Sys tbl (l1 ++ t :: l2) lg) ->
  inv rid (Sys tbl (l1 ++ at_pc t (PStore r) :: l2) (Dispatched (t_rid t) :: lg)).
Proof.
  intros Ht [H1 H2 H4].
  assert (is_worker rid t = (t_rid t =? rid) /\ to_dispatch rid t = (t_rid t =? rid)
    /\ is_worker rid (at_pc t (PStore r)) = (t_rid t =? rid)
    /\ to_dispatch rid (at_pc t (PStore r)) = false) as (E1 & E2 & E3 & E4).
  { unfold is_worker, to_dispatch, at_pc. simpl. rewrite Ht.
    by rewrite !andb_true_r, andb_false_r. }
  unfold dispatches, forgets in *. simpl in *.
  rewrite ?count_app, ?count_cons, ?E1, ?E2 in *. simpl in *.
  constructor; unfold dispatches, forgets; simpl;
    rewrite ?count_app, ?count_cons, ?E3, ?E4; simpl; try done;
    destruct (t_rid t =? rid); simpl in *; lia.
Qed.

Lemma store_pending rid rid' c r tbl row :
  rid' <> rid -> tbl !! rid = Some row -> status_pending row = true ->
  _store_replay rid' c r tbl !! rid = Some row.
Proof.
  intros Hne Hr Hp. unfold _store_replay. destruct (tbl !! rid') as [row'|]; [|done].
  destruct (_ && _); [|done]. by rewrite lookup_insert_ne.
Qed.

Lemma store_present rid rid' c r tbl :
  present rid (_store_replay rid' c r tbl) = present rid tbl.
Proof.
  unfold present, _store_replay. destruct (tbl !! rid') as [row'|] eqn:E; [|done].
  destruct (_ && _); [|done]. rewrite lookup_insert.
  destruct (decide (rid' = rid)) as [->|]; [|done]. by rewrite E.
Qed.

Lemma store_inv rid tbl l1 t l2 lg r :
  t_pc t = PStore r -> inv rid (Sys tbl (l1 ++ t :: l2) lg) ->
  inv rid (Sys (_store_replay (t_rid t) (t_canonical t) r tbl) (l1 ++ at_pc t (PDone r) :: l2) lg).
Proof.
  intros Ht [H1 H2 H4].
  assert (is_worker rid t = (t_rid t =? rid) /\ to_dispatch rid t = false
    /\ is_worker rid (at_pc t (PDone r)) = false
    /\ to_dispatch rid (at_pc t (PDone r)) = false) as (E1 & E2 & E3 & E4).
  { unfold is_worker, to_dispatch, at_pc. simpl. rewrite Ht.
    by rewrite !andb_true_r, !andb_false_r. }
  unfold dispatches, forgets in *. simpl in *.
  rewrite ?count_app, ?count_cons, ?E1, ?E2 in *. simpl in *.
  constructor; unfold dispatches, forgets; simpl;
    rewrite ?store_present, ?count_app, ?count_cons, ?E3, ?E4; simpl; try lia;
    destruct (t_rid t =? rid) eqn:Hrid; to_prop; simpl in *; try lia.
  - intros Hw. destruct H2 as (row & Hr & Hp); [lia|]. exists row.
    by rewrite (store_pending rid _ _ _ _ row).
Qed.

Lemma interrupt_lookup tbl rid :
  interrupt_pending tbl !! rid = interrupt_row rid <$> tbl !! rid.
Proof. unfold interrupt_pending. rewrite map_lookup_imap. by destruct (tbl !! rid). Qed.

Lemma restart_inv rid tbl l lg : inv rid (Sys tbl l lg) -> inv rid (Sys (interrupt_pending tbl) [] lg).
Proof.
  intros [H1 H2 H4]. constructor; unfold dispatches, forgets, present in *; simpl in *.
  - unfold count. simpl. lia.
  - intros H. unfold count in H. simpl in H. lia.
  - rewrite interrupt_lookup. destruct (tbl !! rid); simpl; unfold count in *; simpl; lia.
Qed.

Lemma count_perm {A} (P : A -> bool) l1 l2 : l1 ≡ₚ l2 -> count P l1 = count P l2.
Proof. induction 1; rewrite ?count_cons; lia. Qed.

Lemma count_forgotten rid (m : gmap Z idem_row) :
  count (is_forgotten rid) (map (fun kv => Forgotten (fst kv)) (map_to_list m)) = present rid m.
Proof.
  unfold present. induction m as [|k x m Hk IH] using map_ind; [done|].
  rewrite (count_perm _ _ _ (Permutation_map _ (map_to_list_insert m k x Hk))).
  cbn [map]. rewrite count_cons, IH, lookup_insert. simpl.
  destruct (decide (k = rid)) as [->|Hne].
  - by rewrite Z.eqb_refl, Hk.
  - by replace (k =? rid) with false by (symmetry; by apply Z.eqb_neq).
Qed.

Lemma count_dispatched_forgotten rid (l : list (Z * idem_row)) :
  count (is_dispatched rid) (map (fun kv => Forgotten (fst kv)) l) = 0%nat.
Proof. induction l as [|x l IH]; [done|]. cbn [map]. by rewrite count_cons, IH. Qed.

Lemma prune_inv rid now tbl l lg :
  inv rid (Sys tbl l lg) ->
  inv rid (Sys (prune_completed_rpc_idempotency now tbl) l
    (map (fun kv => Forgotten (fst kv))
       (map_to_list (filter (fun kv => prunable now (snd kv) = true) tbl)) ++ lg)).
Proof.
  intros [H1 H2 H4].
  constructor; unfold dispatches, forgets, prune_completed_rpc_idempotency in *; simpl in *;
    [done|..].
  - intros Hw. destruct (H2 Hw) as (row & Hr & Hp). exists row. split; [|done].
    apply map_lookup_filter_Some. split; [done|]. unfold prunable. simpl. by rewrite Hp.
  - rewrite !count_app, count_dispatched_forgotten, count_forgotten.
    unfold present in *. rewrite !map_lookup_filter.
    destruct (tbl !! rid) as [row|]; simpl in *; [|lia].
    destruct (prunable now row); simpl; repeat case_guard; simpl; try lia; done.
Qed.

Lemma step_inv rid s s' : step s s' -> inv rid s -> inv rid s'.
Proof.
  destruct 1; intros Hi.
  - destruct Hi as [H1 H2 H4]. constructor; unfold dispatches, forgets in *; simpl in *;
      rewrite ?count_cons; unfold is_worker, to_dispatch in *; simpl; by rewrite ?andb_false_r.
  - by eapply claim_inv.
  - by eapply poll_inv.
  - by apply dispatch_inv.
  - by apply store_inv.
  - by eapply restart_inv.
  - by apply prune_inv.
Qed.

Lemma reachable_inv_idem rid tbl s :
  rtc step (Sys tbl [] []) s -> inv rid s.
Proof.
  intros H. remember (Sys tbl [] []) as s0 eqn:E.
  assert (inv rid s0) as Hi.
  { subst. constructor; unfold dispatches, forgets, count; simpl; lia. }
  clear E. induction H as [|s1 s2 s3 Hst _ IH]; [done|]. apply IH. by eapply step_inv.
Qed.

(** ** Replays *)

Lemma claim_completed now rid c r tbl row :
  tbl !! rid = Some row -> canonical_request row = c -> status_pending row = false ->
  nonempty (response row) = true -> response_from_json (response row) = Some r ->
  _claim_request now rid c tbl = (Replay r, tbl).
Proof.
  intros Hr Hc Hp Hn Hd. unfold _claim_request.
  rewrite Hr, Hc, String.eqb_refl, Hp, Hn, Hd. done.
Qed.

Lemma store_lookup rid c r tbl row :
  tbl !! rid = Some row -> canonical_request row = c -> status_pending row = true ->
  _store_replay rid c r tbl !! rid = Some (IdemRow c (response_json r) false (created_at row)).
Proof.
  intros Hr Hc Hp. unfold _store_replay. rewrite Hr, Hc, String.eqb_refl, Hp. simpl.
  by rewrite lookup_insert_eq.
Qed.

Lemma claim_conflict now rid c tbl row :
  tbl !! rid = Some row -> canonical_request row <> c ->
  _claim_request now rid c tbl =
    (Replay (failure rid REQUEST_ID_CONFLICT "request id was already used" false), tbl).
Proof.
  intros Hr Hc. unfold _claim_request. rewrite Hr.
  apply String.eqb_neq in Hc. by rewrite Hc.
Qed.

(** ** Properties *)


(** C11.  Retries replay: once a claimed request has stored its response, every
    retry of the same request gets exactly that response and every other request
    under the id is refused with a conflict; a claim interrupted by a restart is
    answered with a stored retryable failure.  None of them is dispatched. *)
Theorem retries_are_replayed rid c r tbl row now c' :
  tbl !! rid = Some row -> canonical_request row = c -> status_pending row = true ->
  (forall x, nonempty (response_json x) = true /\ response_from_json (response_json x) = Some x) ->
  c' <> c ->
  let stored := _store_replay rid c r tbl in
  _claim_request now rid c stored = (Replay r, stored)
  /\ _claim_request now rid c' stored =
       (Replay (failure rid REQUEST_ID_CONFLICT "request id was already used" false), stored)
  /\ _claim_request now rid c (interrupt_pending tbl) =
       (Replay (failure rid INTERNAL_ERROR "request was interrupted by controller restart" true),
        interrupt_pending tbl).
Proof.
  intros Hr Hc Hp Henc Hne stored.
  pose proof (store_lookup rid c r tbl row Hr Hc Hp) as Hs. split_and!.
  - apply (claim_completed now rid c r _ _ Hs); try done; apply Henc.
  - apply (claim_conflict now rid c' _ _ Hs). simpl. congruence.
  - assert (interrupt_pending tbl !! rid = Some (interrupt_row rid row)) as Hi.
    { by rewrite interrupt_lookup, Hr. }
    unfold interrupt_row in Hi. rewrite Hp in Hi.
    apply (claim_completed now rid c _ _ _ Hi); try done; apply Henc.
Qed.

(** Retention never forgets a claim that may still be running, nor a
    completed answer younger than 48 hours. *)
Theorem prune_keeps_pending_and_recent rid now tbl row :
  tbl !! rid = Some row -> status_pending row = true \/ now - max_age <= created_at row ->
  prune_completed_rpc_idempotency now tbl !! rid = Some row.
Proof.
  intros Hr Hk. apply map_lookup_filter_Some. split; [done|]. unfold prunable. simpl.
  destruct Hk as [->|Hk]; [done|].
  replace (created_at row <? now - max_age) with false by (symmetry; apply Z.ltb_ge; lia).
  apply andb_false_r.
Qed.

End Idempotency.

(** ** Witnesses: responses are strings tagged by an [R], failures show their code. *)

Definition demo_encode (s : string) : string := String.append "R" s.
Definition demo_decode (s : string) : option string :=
  match s with String _ s' => Some s' | EmptyString => None end.
Definition demo_failure (rid : Z) (c : ErrorCode) (m : string) (retryable : bool) : string :=
  error_value c.


Lemma retries_are_replayed_witness :
  let tbl : gmap Z idem_row := {[5 := IdemRow "start" EmptyString true 10]} in
  let stored := _store_replay demo_encode 5 "start" "ok"%string tbl in
  _claim_request demo_decode demo_failure 20 5 "start" stored = (Replay "ok"%string, stored).
Proof.
  refine (proj1 (retries_are_replayed demo_encode demo_decode demo_failure 5 "start" "ok"%string
    {[5 := IdemRow "start" EmptyString true 10]} (IdemRow "start" EmptyString true 10) 20 "stop"
    _ _ _ _ _)); try (vm_compute; reflexivity).
  - intros x. split; reflexivity.
  - discriminate.
Defined.

Lemma prune_keeps_pending_and_recent_witness :
  prune_completed_rpc_idempotency 20 {[5 := IdemRow "start" EmptyString true 10]} !! 5
    = Some (IdemRow "start" EmptyString true 10).
Proof.
  apply (prune_keeps_pending_and_recent 5 20 {[5 := IdemRow "start" EmptyString true 10]});
    [vm_compute; reflexivity|left; reflexivity].
Defined.
