(* ===== verification/Readiness.v ===== *)
(** [health.py], [ReadinessCoordinator]: one notification slot per profile, a
    global generation, and outcome counters. *)
From S2P Require Import Prelude Models.

Inductive ReadinessOutcome := RSuccess | RFailure | RTimeout.

#[export] Instance ReadinessOutcome_eq_dec : EqDecision ReadinessOutcome.
Proof. solve_decision. Defined.

Record ReadinessTicket := Ticket { tk_profile : string; tk_generation : Z }.

Record _ReadinessEntry := Entry { en_outcome : option ReadinessOutcome; en_active : bool }.

Record coordinator := Coordinator {
  co_entries : gmap string (Z * _ReadinessEntry);
  co_generation : Z;
  co_success : Z;
  co_failure : Z;
  co_timeout : Z;
}.

Definition new_coordinator : coordinator := Coordinator ∅ 0 0 0 0.

Definition set_entries (c : coordinator) (x : gmap string (Z * _ReadinessEntry)) : coordinator :=
  Coordinator x (co_generation c) (co_success c) (co_failure c) (co_timeout c).

(** [self._counts[outcome] += 1] *)
Definition count_outcome (o : ReadinessOutcome) (c : coordinator) : coordinator :=
  match o with
  | RSuccess => Coordinator (co_entries c) (co_generation c) (co_success c + 1) (co_failure c) (co_timeout c)
  | RFailure => Coordinator (co_entries c) (co_generation c) (co_success c) (co_failure c + 1) (co_timeout c)
  | RTimeout => Coordinator (co_entries c) (co_generation c) (co_success c) (co_failure c) (co_timeout c + 1)
  end.

Definition _profile_key (s : string) : res string :=
  if negb (nonempty s) || (128 <? String.length s)%nat
  then Raise (ValueError "invalid readiness profile") else Ret s.

Definition ready_begin (s : string) (c : coordinator) : res ReadinessTicket * coordinator :=
  match _profile_key s with
  | Raise x => (Raise x, c)
  | Ret key =>
      let g := co_generation c + 1 in
      (Ret (Ticket key g),
       Coordinator (<[key := (g, Entry None true)]> (co_entries c)) g
         (co_success c) (co_failure c) (co_timeout c))
  end.

Definition ready_notify (t : ReadinessTicket) (o : ReadinessOutcome) (c : coordinator)
    : bool * coordinator :=
  match co_entries c !! tk_profile t with
  | Some (g, en) =>
      if negb (g =? tk_generation t) || bool_decide (en_outcome en <> None) then (false, c)
      else (true, count_outcome o
              (set_entries c (<[tk_profile t := (g, Entry (Some o) (en_active en))]> (co_entries c))))
  | None => (false, c)
  end.

Definition ready_latest (s : string) (generation : option Z) (c : coordinator)
    : res ReadinessTicket :=
  let? key := _profile_key s in
  match co_entries c !! key with
  | None => Raise (RuntimeError "readiness notification is unavailable")
  | Some (g, _) =>
      if match generation with Some g' => negb (g' =? g) | None => false end
      then Raise (RuntimeError "readiness generation is stale")
      else Ret (Ticket key g)
  end.

(** Result of [wait]: an outcome, the timeout, or another error.  [timed_out]
    says whether the event was still unset when the timeout elapsed, [c] is the
    coordinator at that moment. *)
Inductive wait_result := WOutcome (o : ReadinessOutcome) | WTimeout | WError (e : exn).

Definition ready_wait (t : ReadinessTicket) (timeout : pyfloat) (timed_out : bool)
    (c : coordinator) : wait_result * coordinator :=
  match timeout with
  | FFin v =>
      if negb ((0 <? v) && (v <=? fl 900)) then (WError (ValueError "invalid readiness timeout"), c)
      else match co_entries c !! tk_profile t with
           | Some (g, en) =>
               if negb (g =? tk_generation t)
               then (WError (RuntimeError "readiness ticket is no longer active"), c)
               else if timed_out then
                 (WTimeout, if bool_decide (en_outcome en = None) then count_outcome RTimeout c else c)
               else match en_outcome en with
                    | Some o => (WOutcome o, c)
                    | None => (WError (RuntimeError "readiness notification is unavailable"), c)
                    end
           | None => (WError (RuntimeError "readiness ticket is no longer active"), c)
           end
  | _ => (WError (ValueError "invalid readiness timeout"), c)
  end.

Definition ready_finish (t : ReadinessTicket) (c : coordinator) : coordinator :=
  match co_entries c !! tk_profile t with
  | Some (g, en) =>
      if g =? tk_generation t
      then set_entries c (<[tk_profile t := (g, Entry (en_outcome en) false)]> (co_entries c))
      else c
  | None => c
  end.

(** ** One outcome per ticket *)

(** Operations on the coordinator. *)
Inductive rop :=
  | RBegin (s : string)
  | RNotify (t : ReadinessTicket) (o : ReadinessOutcome)
  | RFinish (t : ReadinessTicket)
  | RWait (t : ReadinessTicket) (timeout : pyfloat) (timed_out : bool).

Definition run_rop (o : rop) (c : coordinator) : coordinator :=
  match o with
  | RBegin s => snd (ready_begin s c)
  | RNotify t x => snd (ready_notify t x c)
  | RFinish t => ready_finish t c
  | RWait t x b => snd (ready_wait t x b c)
  end.

(** Generations in the slots never exceed the counter. *)
Definition ready_wf (c : coordinator) : Prop :=
  forall k g en, co_entries c !! k = Some (g, en) -> g <= co_generation c.

(** Is [t]'s slot still answering [o]? *)
Definition answered (t : ReadinessTicket) (o : ReadinessOutcome) (c : coordinator) : Prop :=
  tk_generation t <= co_generation c /\
  exists g en, co_entries c !! tk_profile t = Some (g, en)
    /\ (g = tk_generation t -> en_outcome en = Some o) /\ tk_generation t <= g.

Lemma count_outcome_entries o c :
  co_entries (count_outcome o c) = co_entries c /\ co_generation (count_outcome o c) = co_generation c.
Proof. by destruct o. Qed.

Lemma wait_entries t x b c :
  co_entries (snd (ready_wait t x b c)) = co_entries c
  /\ co_generation (snd (ready_wait t x b c)) = co_generation c.
Proof.
  unfold ready_wait. repeat (split_match; simpl; try done).
Qed.

Lemma notify_cases t o c :
  snd (ready_notify t o c) = c \/
  exists en, co_entries c !! tk_profile t = Some (tk_generation t, en) /\ en_outcome en = None
    /\ fst (ready_notify t o c) = true
    /\ co_generation (snd (ready_notify t o c)) = co_generation c
    /\ co_entries (snd (ready_notify t o c)) =
         <[tk_profile t := (tk_generation t, Entry (Some o) (en_active en))]> (co_entries c).
Proof.
  unfold ready_notify. destruct (co_entries c !! tk_profile t) as [[g en]|]; [|by left].
  destruct (negb (g =? tk_generation t) || _) eqn:E; [by left|right]. to_prop. subst g.
  exists en. destruct (count_outcome_entries o (set_entries c
    (<[tk_profile t:=(tk_generation t, Entry (Some o) (en_active en))]> (co_entries c)))) as [H1 H2].
  split_and!; try done. destruct (en_outcome en); [|done]. exfalso. by apply H0.
Qed.

Lemma answered_step t o x c : ready_wf c -> answered t o c -> answered t o (run_rop x c).
Proof.
  intros Hwf (Hg & g & en & He & Ha & Hle). destruct x as [s|t' o'|t'|t' v b]; simpl.
  - unfold ready_begin, _profile_key. destruct (_ || _); [by repeat split; eauto|]. simpl.
    split; [simpl; lia|]. destruct (decide (s = tk_profile t)) as [->|Hne].
    + eexists _, _. simpl. rewrite lookup_insert_eq. split; [done|]. split; [|lia]. intros ?.
      exfalso. lia.
    + exists g, en. simpl. by rewrite lookup_insert_ne.
  - destruct (notify_cases t' o' c) as [->|(en' & He' & Ho' & _ & Hgen & Hent)]; [by repeat split; eauto|].
    split; [lia|]. rewrite Hent. destruct (decide (tk_profile t' = tk_profile t)) as [E|Hne].
    + rewrite E in *. rewrite He in He'. injection He' as -> ->.
      eexists _, _. rewrite lookup_insert_eq. split; [done|]. split; [|done]. intros Heq.
      specialize (Ha Heq). congruence.
    + exists g, en. by rewrite lookup_insert_ne.
  - unfold ready_finish. destruct (co_entries c !! tk_profile t') as [[g' en']|] eqn:E;
      [|by repeat split; eauto]. destruct (g' =? tk_generation t'); [|by repeat split; eauto].
    split; [done|]. simpl. destruct (decide (tk_profile t' = tk_profile t)) as [E'|Hne].
    + rewrite E' in *. rewrite He in E. injection E as <- <-.
      eexists _, _. rewrite lookup_insert_eq. by split.
    + exists g, en. by rewrite lookup_insert_ne.
  - destruct (wait_entries t' v b c) as [H1 H2]. split; [by rewrite H2|].
    exists g, en. by rewrite H1.
Qed.

Lemma ready_wf_step x c : ready_wf c -> ready_wf (run_rop x c).
Proof.
  intros Hwf. destruct x as [s|t' o'|t'|t' v b]; simpl; intros k g en H.
  - unfold ready_begin, _profile_key in *. destruct (_ || _); [by eapply Hwf|]. simpl in *.
    rewrite lookup_insert in H. case_decide; simplify_eq; [lia|]. apply Hwf in H. lia.
  - destruct (notify_cases t' o' c) as [E|(en' & He' & Ho' & _ & Hgen & Hent)].
    + rewrite E in *. by eapply Hwf.
    + rewrite Hgen. rewrite Hent, lookup_insert in H. case_decide; simplify_eq; by eapply Hwf.
  - unfold ready_finish in *. destruct (co_entries c !! tk_profile t') as [[g' en']|] eqn:E;
      [|by eapply Hwf]. destruct (g' =? _); [|by eapply Hwf]. simpl in *.
    rewrite lookup_insert in H. case_decide; simplify_eq; by eapply Hwf.
  - destruct (wait_entries t' v b c) as [H1 H2]. rewrite H1 in H. rewrite H2. by eapply Hwf.
Qed.

Definition run_rops (l : list rop) (c : coordinator) : coordinator :=
  foldl (fun c o => run_rop o c) c l.

Lemma answered_run t o l c : ready_wf c -> answered t o c -> answered t o (run_rops l c).
Proof.
  unfold run_rops. revert c. induction l as [|x l IH]; [done|]. intros c Hw Ha. simpl.
  apply IH; [by apply ready_wf_step|by apply answered_step].
Qed.

(** C12.  A readiness outcome is final: once a ticket was notified, no later
    sequence of begins, notifications, finishes and waits changes it: another
    notification of the ticket is refused, and a waiter gets that outcome or is
    told that the ticket was superseded. *)
Theorem readiness_outcome_final t o c l timeout :
  ready_wf c -> fst (ready_notify t o c) = true -> 0 < timeout <= fl 900 ->
  let c' := run_rops l (snd (ready_notify t o c)) in
  (forall o', fst (ready_notify t o' c') = false)
  /\ (fst (ready_wait t (FFin timeout) false c') = WOutcome o
      \/ fst (ready_wait t (FFin timeout) false c') =
           WError (RuntimeError "readiness ticket is no longer active")).
Proof.
  intros Hw Hn Ht c'.
  assert (answered t o c') as (Hg & g & en & He & Ha & Hle).
  { apply answered_run; [by apply (ready_wf_step (RNotify t o))|].
    destruct (notify_cases t o c) as [E|(en & He & Ho & _ & Hgen & Hent)].
    - exfalso. unfold ready_notify in Hn, E. repeat (split_match; simplify_eq/=). to_prop.
      destruct o, c; simpl in E; injection E; lia.
    - split; [rewrite Hgen; by eapply Hw|]. rewrite Hent.
      eexists _, _. rewrite lookup_insert_eq. by repeat split. }
  split.
  - intros o'. unfold ready_notify. rewrite He.
    destruct (g =? tk_generation t) eqn:E; [|done]. to_prop. rewrite (Ha E). done.
  - unfold ready_wait. rewrite He.
    replace ((0 <? timeout) && (timeout <=? fl 900)) with true
      by (symmetry; apply andb_true_iff; split; [apply Z.ltb_lt|apply Z.leb_le]; lia).
    simpl. destruct (g =? tk_generation t) eqn:E; [|by right]. to_prop. rewrite (Ha E). by left.
Qed.

Lemma readiness_outcome_final_witness :
  fst (ready_notify (Ticket "minecraft" 1) RFailure
    (run_rops [RBegin "pz-rising"]
      (snd (ready_notify (Ticket "minecraft" 1) RSuccess (snd (ready_begin "minecraft" new_coordinator))))))
  = false.
Proof.
  refine (proj1 (readiness_outcome_final (Ticket "minecraft" 1) RSuccess
    (snd (ready_begin "minecraft" new_coordinator)) [RBegin "pz-rising"] (fl 1) _ _ _) RFailure).
  - apply (ready_wf_step (RBegin "minecraft") new_coordinator). intros k g en H. discriminate H.
  - vm_compute. reflexivity.
  - vm_compute. split; [reflexivity|discriminate].
Defined.
