(* ===== verification/Lifecycle.v ===== *)
(** [controller.py], lifecycle: start, stop, restart, force stop, switch with
    rollback, console commands, and the leased maintenance jobs.

    A handler is a computation [M A] over the controller's state: the database,
    the reservation file, the readiness coordinator and the frame of the running
    coroutine (the Python locals its [except] and [finally] clauses read).  The
    event loop is the record [world]: at each [await] it says what the other
    tasks and processes did to the shared state meanwhile, and how the awaited
    call ended (value, exception, lost lease, cancellation).  [trace] lists the
    calls a handler made. *)
From S2P Require Import Prelude Models Slot ControllerDb ControllerDbFacts Readiness.

(** ** Exceptions, calls and configuration *)

Inductive exc :=
  | CtrlFailure (code : ErrorCode) (message : string) (retryable : bool)
  | SafeErr (code message : string) (retryable : bool)
  | AdapterErr (retryable : bool) (returncode : option Z)
  | PyExc (x : exn)
  | TimeoutExc
  | CancelledExc.

(** [except Exception] catches everything but [CancelledError]. *)
Definition is_exception (x : exc) : bool :=
  match x with CancelledExc => false | _ => true end.

(** A lease: the tuple (profile id, operation id, state generation). *)
Record slot_lease := Lease { l_profile : ProfileId; l_id : string; l_gen : Z }.

#[export] Instance slot_lease_eq_dec : EqDecision slot_lease.
Proof. solve_decision. Defined.

Record Profile := mkProfile { pf_id : ProfileId; pf_operations : list OperationName }.

Record config := Config {
  cf_profiles : ProfileId -> option Profile;
  has_adapter : ProfileId -> bool;
  has_store : bool;
  has_status : bool;
  has_inspector : bool;
  has_service : string -> string -> bool;
}.

(** Calls recorded in the trace. *)
Inductive event :=
  | EReserved (l : slot_lease)
  | ETransferred (l l' : slot_lease)
  | ERelease (l : slot_lease)
  | EJob (id : Z)
  | EFinish (id : Z) (ok : bool)
  | EFree (p : ProfileId) (b : bool)
  | EPreflight (p : ProfileId)
  | EStart (p : ProfileId)
  | EGraceful (p : ProfileId)
  | EForce (p : ProfileId)
  | EReady (p : ProfileId) (b : bool)
  | ECommand (p : ProfileId)
  | EWork (op : string) (p : ProfileId).

#[export] Instance event_eq_dec : EqDecision event.
Proof. solve_decision. Defined.

(** One profile of a [StatusSnapshot]. *)
Record profile_status := ProfileStatus {
  ps_profile : ProfileId;
  ps_state : ObservedState;
  ps_owner : option ProfileId;
  ps_active_job : option string;
  ps_players : option Z;
  ps_ports_ready : option bool;
}.

(** What [services.status.snapshot] gives. *)
Inductive snapshot_result :=
  | Snapshot (l : list profile_status)
  | NotASnapshot
  | SnapshotRaises (x : exc).

(** ** The event loop *)

Inductive work_result := WorkRet (b : bool) | WorkRaise (x : exc).

(** How an [_await_lease] ends: the work finished, the renewal task ended first
    (and the work gave this once cancelled or drained), or the caller was
    cancelled. *)
Inductive await_event :=
  | Finished (r : work_result)
  | RenewalEnded (r : work_result)
  | CallerCancelled.

(** A transaction: the callback never ran, or it ran and the lock exit was
    followed by this exception. *)
Inductive tx_outcome :=
  | TxFails (x : exc)
  | TxRuns (after : option exc).

Record world := World {
  w_slot : nat -> env;
  w_now : nat -> Z;
  w_recent : Z -> Z -> bool;
  w_file : nat -> node -> node;
  w_db : nat -> list dbop;
  w_ready : nat -> list rop;
  w_tx : nat -> tx_outcome;
  w_io_cancelled : nat -> bool;
  w_await : nat -> await_event;
  w_renewal : nat -> option exc;
  w_drain : nat -> option exc;
  w_pause_cancelled : nat -> bool;
  w_snapshot : nat -> snapshot_result;
  w_observe : nat -> env * flock_result * node;
  w_uuid : nat -> string;
}.

(** The locals of a handler that its exception clauses read. *)
Record frame := Frame {
  fr_lease : option slot_lease;
  fr_renewal : bool;
  fr_job : option Z;
  fr_ticket : option ReadinessTicket;
  fr_started : bool;
  fr_rb_lease : option slot_lease;
  fr_rb_renewal : bool;
}.

Definition empty_frame : frame := Frame None false None None false None false.

Record cst := Cst {
  c_db : db;
  c_file : node;
  c_ready : coordinator;
  c_frame : frame;
  c_trace : list event;
  c_tick : nat;
}.

Definition set_db (d : db) (s : cst) : cst :=
  Cst d (c_file s) (c_ready s) (c_frame s) (c_trace s) (c_tick s).
Definition set_file (f : node) (s : cst) : cst :=
  Cst (c_db s) f (c_ready s) (c_frame s) (c_trace s) (c_tick s).
Definition set_ready (r : coordinator) (s : cst) : cst :=
  Cst (c_db s) (c_file s) r (c_frame s) (c_trace s) (c_tick s).
Definition set_frame (fr : frame) (s : cst) : cst :=
  Cst (c_db s) (c_file s) (c_ready s) fr (c_trace s) (c_tick s).
Definition add_trace (e : event) (s : cst) : cst :=
  Cst (c_db s) (c_file s) (c_ready s) (c_frame s) (c_trace s ++ [e]) (c_tick s).

Definition set_lease (l : option slot_lease) (f : frame) : frame :=
  Frame l (fr_renewal f) (fr_job f) (fr_ticket f) (fr_started f) (fr_rb_lease f) (fr_rb_renewal f).
Definition set_renewal (b : bool) (f : frame) : frame :=
  Frame (fr_lease f) b (fr_job f) (fr_ticket f) (fr_started f) (fr_rb_lease f) (fr_rb_renewal f).
Definition set_job (j : option Z) (f : frame) : frame :=
  Frame (fr_lease f) (fr_renewal f) j (fr_ticket f) (fr_started f) (fr_rb_lease f) (fr_rb_renewal f).
Definition set_ticket (t : option ReadinessTicket) (f : frame) : frame :=
  Frame (fr_lease f) (fr_renewal f) (fr_job f) t (fr_started f) (fr_rb_lease f) (fr_rb_renewal f).
Definition set_started (b : bool) (f : frame) : frame :=
  Frame (fr_lease f) (fr_renewal f) (fr_job f) (fr_ticket f) b (fr_rb_lease f) (fr_rb_renewal f).
Definition set_rb_lease (l : option slot_lease) (f : frame) : frame :=
  Frame (fr_lease f) (fr_renewal f) (fr_job f) (fr_ticket f) (fr_started f) l (fr_rb_renewal f).
Definition set_rb_renewal (b : bool) (f : frame) : frame :=
  Frame (fr_lease f) (fr_renewal f) (fr_job f) (fr_ticket f) (fr_started f) (fr_rb_lease f) b.

(** ** The handler monad *)

Inductive ctl (A : Type) :=
  | Val (a : A)
  | Exc (x : exc).
Arguments Val {A} a.
Arguments Exc {A} x.

Definition M (A : Type) : Type := cst -> ctl A * cst.

#[export] Instance M_ret : MRet M := fun A a s => (Val a, s).
#[export] Instance M_bind : MBind M := fun A B k m s =>
  match m s with
  | (Val a, s') => k a s'
  | (Exc x, s') => (Exc x, s')
  end.
Definition throw {A} (x : exc) : M A := fun s => (Exc x, s).

(** [try: m except BaseException as x: h x] *)
Definition catch {A} (m : M A) (h : exc -> M A) : M A := fun s =>
  match m s with
  | (Val a, s') => (Val a, s')
  | (Exc x, s') => h x s'
  end.

(** [try: m finally: f]; [f] receives whether an exception is active. *)
Definition finally {A} (m : M A) (f : bool -> M unit) : M A := fun s =>
  match m s with
  | (Val a, s') => match f false s' with
                   | (Val _, s'') => (Val a, s'')
                   | (Exc x, s'') => (Exc x, s'')
                   end
  | (Exc x, s') => match f true s' with
                   | (Val _, s'') => (Exc x, s'')
                   | (Exc y, s'') => (Exc y, s'')
                   end
  end.

Definition modify (f : cst -> cst) : M unit := fun s => (Val tt, f s).
Definition gets {A} (f : cst -> A) : M A := fun s => (Val (f s), s).
Definition log (e : event) : M unit := modify (add_trace e).
Definition setf (f : frame -> frame) : M unit := modify (fun s => set_frame (f (c_frame s)) s).
Definition getf {A} (f : frame -> A) : M A := gets (fun s => f (c_frame s)).
Definition when (b : bool) (m : M unit) : M unit := if b then m else mret tt.

(** A call runs in its own frame. *)
Definition in_frame {A} (m : M A) : M A := fun s =>
  let '(r, s') := m (set_frame empty_frame s) in (r, set_frame (c_frame s) s').

Record JobAccepted := mkJobAccepted {
  ja_job : Z;
  ja_state : string;
  ja_generation : option Z;
}.

Section Handlers.
Context (w : world) (cfg : config).

(** ** Scheduling points *)

(** One [await]: the other tasks and processes run. *)
Definition pass : M nat := fun s =>
  let n := c_tick s in
  (Val n, Cst (run_dbops (w_db w n) (c_db s)) (w_file w n (c_file s))
            (run_rops (w_ready w n) (c_ready s)) (c_frame s) (c_trace s) (S n)).

(** A reading of the environment without an [await]. *)
Definition now_tick : M nat := fun s =>
  (Val (c_tick s), Cst (c_db s) (c_file s) (c_ready s) (c_frame s) (c_trace s) (S (c_tick s))).

(** An [await] whose ordinary failures are swallowed and whose effects are
    outside the model ([_installed_version_hint], [_record_startup_estimate]). *)
Definition pause : M unit :=
  n ← pass;
  if w_pause_cancelled w n then throw CancelledExc else mret tt.

Definition lift {A} (r : ctl A) : M A := fun s => (r, s).

(** [_transaction] *)
Definition _transaction {A} (callback : Z -> db -> ctl A * db) : M A :=
  n ← pass;
  match w_tx w n with
  | TxFails x => throw x
  | TxRuns after =>
      d ← gets c_db;
      let '(r, d') := callback (w_now w n) d in
      modify (set_db d') ;;
      match after with Some x => throw x | None => lift r end
  end.

Definition total {A} (f : Z -> db -> A * db) : Z -> db -> ctl A * db := fun now d =>
  let '(a, d') := f now d in (Val a, d').

Definition silent (f : Z -> db -> db) : Z -> db -> ctl unit * db := fun now d =>
  (Val tt, f now d).

Definition job_intent (actor action : string) (p : ProfileId) : M Z :=
  id ← _transaction (total (fun now d =>
          let '(id, d') := ControllerDb._job_intent now actor action (Some p) d in (id, d')));
  log (EJob id) ;; mret id.

Definition finish (id : Z) (actor action : string) (p : ProfileId) (ok : bool)
    (code : option ErrorCode) (detail : string) (state : option string) : M unit :=
  _transaction (silent (fun now d =>
    ControllerDb._finish now id actor action (Some p) ok code detail state d)) ;;
  log (EFinish id ok).

Definition _record_audit (actor action : string) (p : ProfileId) (result : string)
    (code : option ErrorCode) (detail : string) : M unit :=
  _transaction (silent (fun now d =>
    ControllerDb._audit now actor action (Some p) result code detail d)).

Definition record_event (p : ProfileId) (code message : string) : M unit :=
  _transaction (silent (fun now d =>
    ControllerDb._record_event (w_recent w) now (Some p) code message d)).

(** [_audit_rejection_sync]: committed without an [await]. *)
Definition _audit_rejection_sync (actor action : string) (p : ProfileId) (code : ErrorCode)
    (detail : string) : M unit :=
  n ← now_tick;
  modify (fun s => set_db (ControllerDb._audit (w_now w n) actor action (Some p) "rejected"
                             (Some code) detail (c_db s)) s).

(** ** Profiles and adapters *)

Definition find_profile (p : ProfileId) : M Profile :=
  match cf_profiles cfg p with
  | Some pr => mret pr
  | None => throw (CtrlFailure INVALID_REQUEST "unknown profile" false)
  end.

Definition _adapter (p : Profile) : M unit :=
  if has_adapter cfg (pf_id p) then mret tt
  else throw (CtrlFailure INTERNAL_ERROR "adapter unavailable" false).

Definition _require_operation (p : Profile) (o : OperationName) (actor : string) : M unit :=
  if bool_decide (o ∈ pf_operations p) then mret tt
  else
    _audit_rejection_sync actor (operation_value o) (pf_id p) INVALID_REQUEST
      "operation is not permitted for profile" ;;
    throw (CtrlFailure INVALID_REQUEST "operation is not permitted for profile" false).

(** ** Leases *)

Definition ident_of_lease (l : slot_lease) : ident :=
  Ident (profile_value (l_profile l)) (l_id l) (l_gen l) None None None.

(** [release_if_owned( *lease)] on the file, its result ignored; the callers that
    look at a failure use [reservation_io]. *)
Definition release_call (l : slot_lease) (e : env) (f : node) : res bool * node :=
  release_if_owned e (ident_of_lease l) f.

(** [_reservation_io]: the store call always runs to its end; a caller cancelled
    meanwhile gets [CancelledError], after the exact-owner cleanup when the call
    had succeeded. *)
Definition _reservation_io {A} (call : env -> node -> res A * node) (cleanup : option slot_lease)
    : M A :=
  n ← pass;
  f ← gets c_file;
  let '(r, f') := call (w_slot w n) f in
  modify (set_file f') ;;
  if w_io_cancelled w n then
    match r, cleanup with
    | Ret _, Some l =>
        k ← pass;
        modify (fun s => set_file (snd (release_call l (w_slot w k) (c_file s))) s) ;;
        throw CancelledExc
    | _, _ => throw CancelledExc
    end
  else match r with Ret a => mret a | Raise x => throw (PyExc x) end.

(** [_clear_reservation(lease)] *)
Definition _clear_reservation (l : slot_lease) : M unit :=
  if negb (has_store cfg) then mret tt
  else log (ERelease l) ;; _reservation_io (release_call l) None ;; mret tt.

Definition reserve_args_of (l : slot_lease) : reserve_args :=
  ReserveArgs (profile_value (l_profile l)) (l_id l) (FFin (fl 30)) (l_gen l) None None
    "lifecycle" None.

(** The [except Exception] clause of [_reserve]. *)
Definition reserve_failed (p : Profile) (operation actor : string) (x : exc) : M unit :=
  if negb (is_exception x) then throw x else
  record_event (pf_id p) (error_value SLOT_CONFLICT) "game slot is unavailable" ;;
  _record_audit actor operation (pf_id p) "rejected" (Some SLOT_CONFLICT)
    "game slot is reserved" ;;
  throw (CtrlFailure SLOT_CONFLICT "game slot is reserved" false).

Definition reserve_lease (p : Profile) (operation actor : string) (l : slot_lease)
    : M slot_lease :=
  if negb (has_store cfg) then mret l else
  catch (_reservation_io (fun e f => reserve_if_available e (reserve_args_of l) None None f)
           (Some l) ;;
         log (EReserved l))
    (reserve_failed p operation actor) ;;
  mret l.

Definition _reserve (p : Profile) (operation : string) (operation_id : string) (actor : string)
    : M slot_lease :=
  d ← gets c_db;
  n ← now_tick;
  reserve_lease p operation actor
    (Lease (pf_id p) (if nonempty operation_id then operation_id else w_uuid w n)
       (_current_generation d)).

(** [_assert_lease(task)]; [renewal] says whether the task exists. *)
Definition _assert_lease (renewal : bool) : M unit :=
  if negb renewal then throw (PyExc (TypeError "'NoneType' object has no attribute 'done'")) else
  n ← now_tick;
  match w_renewal w n with
  | None => mret tt
  | Some CancelledExc => throw CancelledExc
  | Some _ => throw (CtrlFailure SLOT_CONFLICT "slot reservation was lost" false)
  end.

Definition work {A} (r : work_result) (k : bool -> M A) : M A :=
  match r with WorkRet b => k b | WorkRaise x => throw x end.

(** The renewal task is known to have ended. *)
Definition lost_lease {A} (n : nat) : M A :=
  match w_renewal w n with
  | Some CancelledExc => throw CancelledExc
  | _ => throw (CtrlFailure SLOT_CONFLICT "slot reservation was lost" false)
  end.

(** [_await_lease(call, renewal, drain_on_renewal)]; [called] is logged when the
    work starts. *)
Definition _await_lease (called : option event) (renewal drain : bool) : M bool :=
  match called with Some e => log e | None => mret tt end ;;
  n ← pass;
  match w_await w n with
  | CallerCancelled => throw CancelledExc
  | Finished r =>
      work r (fun b => if renewal then _assert_lease true ;; mret b else mret b)
  | RenewalEnded r =>
      if negb renewal then work r mret else
      if drain then lost_lease n else
      match r with
      | WorkRaise CancelledExc | WorkRet _ => lost_lease n
      | WorkRaise x => throw x
      end
  end.

(** [_drain_renewal] *)
Definition _drain_renewal (renewal : bool) : M (option exc) :=
  if negb renewal then mret None else
  n ← pass;
  mret (w_drain w n).

(** [_release_lease]; [primary] is [sys.exc_info()[0] is not None]. *)
Definition _release_lease (primary : bool) (l : option slot_lease) (renewal : bool) : M unit :=
  renewal_error ← _drain_renewal renewal;
  cleanup_error ← match l with
                   | None => mret None
                   | Some l => catch (_clear_reservation l ;; mret None) (fun x => mret (Some x))
                   end;
  if primary then mret tt else
  match cleanup_error, renewal_error with
  | Some x, _ => throw x
  | None, Some x => throw x
  | None, None => mret tt
  end.

Definition _wait_for_free_slot (p : Profile) (renewal : bool) : M bool :=
  b ← _await_lease None renewal false;
  log (EFree (pf_id p) b) ;; mret b.

Definition _probe_start_health (p : Profile) (renewal : bool) : M bool :=
  b ← _await_lease None renewal false;
  log (EReady (pf_id p) b) ;; mret b.

Definition adapter_start (p : Profile) (renewal : bool) : M unit :=
  _adapter p ;; _await_lease (Some (EStart (pf_id p))) renewal false ;; mret tt.
Definition adapter_graceful_stop (p : Profile) (renewal : bool) : M unit :=
  _adapter p ;; _await_lease (Some (EGraceful (pf_id p))) renewal false ;; mret tt.
Definition adapter_force_stop (p : Profile) (renewal : bool) : M unit :=
  _adapter p ;; _await_lease (Some (EForce (pf_id p))) renewal false ;; mret tt.

(** ** Start *)

(** The locals of the running frame, as the [except] and [finally] clauses use
    them. *)
Definition release_frame (primary : bool) : M unit :=
  l ← getf fr_lease; r ← getf fr_renewal; _release_lease primary l r.

(** [self._readiness.notify(ticket, outcome)] when the ticket exists. *)
Definition notify_ticket (o : ReadinessOutcome) : M unit :=
  t ← getf fr_ticket;
  match t with
  | Some t => modify (fun s => set_ready (snd (ready_notify t o (c_ready s))) s)
  | None => mret tt
  end.

Definition finish_ticket : M unit :=
  t ← getf fr_ticket;
  match t with
  | Some t => modify (fun s => set_ready (ready_finish t (c_ready s)) s)
  | None => mret tt
  end.

(** [self._readiness.begin(profile.id)] *)
Definition begin_ticket (p : Profile) : M ReadinessTicket := fun s =>
  match ready_begin (profile_value (pf_id p)) (c_ready s) with
  | (Ret t, c) => (Val t, set_ready c s)
  | (Raise x, c) => (Exc (PyExc x), set_ready c s)
  end.

(** The job is settled when one was created. *)
Definition finish_job (actor action : string) (p : ProfileId) (ok : bool)
    (code : option ErrorCode) (detail : string) : M unit :=
  j ← getf fr_job;
  match j with
  | Some id => finish id actor action p ok code detail None
  | None => mret tt
  end.

Definition cleanup_succeeded : bool * string * string :=
  (true, "start_cleanup_succeeded", "Horizon stopped the process left by a failed start.")%string.
Definition cleanup_failed : bool * string * string :=
  (false, "start_cleanup_failed",
   "Failed start left a process that Horizon could not stop automatically.")%string.

Definition _cleanup_failed_start (p : Profile) (renewal : bool) : M unit :=
  '(_, code, message) ←
    catch (_assert_lease renewal ;; adapter_force_stop p renewal ;; mret cleanup_succeeded)
      (fun x => if is_exception x then mret cleanup_failed else throw x);
  catch (record_event (pf_id p) code message)
    (fun x => if is_exception x then mret tt else throw x).

Definition benchmark_active (d : db) : bool :=
  existsb (fun j => String.eqb (j_operation j) "benchmark" && active_state (j_state j)) (jobs d).

Definition start_body (p : Profile) (actor rid : string) : M JobAccepted :=
  l ← _reserve p "start" rid actor;
  setf (set_lease (Some l)) ;;
  setf (set_renewal true) ;;
  id ← job_intent actor "start" (pf_id p);
  setf (set_job (Some id)) ;;
  free ← _wait_for_free_slot p true;
  if negb free then throw (CtrlFailure SLOT_CONFLICT "slot is occupied" false) else
  t ← begin_ticket p;
  setf (set_ticket (Some t)) ;;
  setf (set_started true) ;;
  pause ;;
  adapter_start p true ;;
  _assert_lease true ;;
  ready ← _probe_start_health p true;
  if negb ready then throw (PyExc (RuntimeError "start readiness failed")) else
  finish id actor "start" (pf_id p) true None EmptyString None ;;
  pause ;;
  notify_ticket RSuccess ;;
  mret (mkJobAccepted id "running" (Some (tk_generation t))).

Definition exc_code (dflt : ErrorCode) (x : exc) : ErrorCode :=
  match x with CtrlFailure c _ _ => c | _ => dflt end.
Definition exc_detail (dflt : string) (x : exc) : string :=
  match x with CtrlFailure _ m _ => m | _ => dflt end.

Definition start_handler (p : Profile) (actor : string) (x : exc) : M JobAccepted :=
  match x with
  | CancelledExc => throw CancelledExc
  | _ =>
      started ← getf fr_started;
      renewal ← getf fr_renewal;
      when started (_cleanup_failed_start p renewal) ;;
      match x with
      | TimeoutExc =>
          notify_ticket RTimeout ;;
          finish_job actor "start" (pf_id p) false (Some START_TIMEOUT) "start timed out" ;;
          throw (CtrlFailure START_TIMEOUT "start timed out" true)
      | _ =>
          notify_ticket RFailure ;;
          let code := exc_code HEALTH_FAILED x in
          let detail := exc_detail "start failed" x in
          finish_job actor "start" (pf_id p) false (Some code) detail ;;
          throw (CtrlFailure code detail (bool_decide (code = HEALTH_FAILED)))
      end
  end.

Definition start_finally (primary : bool) : M unit :=
  finish_ticket ;; release_frame primary.

Definition _start (pid : ProfileId) (actor rid : string) : M JobAccepted :=
  in_frame (
    p ← find_profile pid;
    _require_operation p OpStart actor ;;
    d ← gets c_db;
    if benchmark_active d then
      _audit_rejection_sync actor "start" (pf_id p) INVALID_STATE
        "benchmark owns the idle game slot" ;;
      throw (CtrlFailure INVALID_STATE "a benchmark is using the idle game slot" true)
    else
      finally (catch (start_body p actor rid) (start_handler p actor)) start_finally).

(** ** Stop *)

Definition conflict {A} (message : string) : M A :=
  throw (CtrlFailure SLOT_CONFLICT message false).
Definition status_unavailable {A} : M A :=
  throw (CtrlFailure HEALTH_FAILED "stop preflight status unavailable" true).

Definition find_status (p : ProfileId) (l : list profile_status) : option profile_status :=
  List.find (fun s => bool_decide (ps_profile s = p)) l.

(** The tests on the fresh status, in their order. *)
Definition preflight_status (p : ProfileId) (allow_players : bool) (l : list profile_status)
    : option string :=
  match find_status p l with
  | None => Some "stop preflight profile is not observed"%string
  | Some c =>
      if negb (bool_decide (ps_state c = RUNNING))
      then Some "stop preflight profile is not running"%string else
      if negb (bool_decide (ps_owner c = Some p))
      then Some "stop preflight slot owner changed"%string else
      if negb (bool_decide (ps_active_job c = None))
      then Some "stop preflight found an active job"%string else
      if negb allow_players && negb (bool_decide (ps_players c = Some 0))
      then Some "stop preflight found active players"%string else
      if negb allow_players && negb (bool_decide (ps_ports_ready c = Some true))
      then Some "stop preflight listener is not ready"%string else
      None
  end.

Definition _fresh_stop_preflight (p : Profile) (allow_players : bool) : M unit :=
  if negb (has_status cfg) then status_unavailable else
  n ← pass;
  match w_snapshot w n with
  | SnapshotRaises x => throw x
  | NotASnapshot => status_unavailable
  | Snapshot l =>
      match preflight_status (pf_id p) allow_players l with
      | Some message => conflict message
      | None =>
          if negb (has_inspector cfg) then mret tt else
          let '(e, lock, meta) := w_observe w n in
          match fst (observe e lock meta) with
          | Raise x => throw (PyExc x)
          | Ret o =>
              if inconsistent o || negb (bool_decide (owner o = Some (profile_value (pf_id p))))
              then conflict "stop preflight slot ownership changed" else mret tt
          end
      end
  end.

Definition _acquire_stop_fence (p : Profile) (actor rid : string) (allow_players : bool)
    : M (option slot_lease * bool) :=
  if negb (has_store cfg) then mret (None, false) else
  in_frame (
    catch (
      l ← _reserve p "stop" rid actor;
      setf (set_lease (Some l)) ;;
      setf (set_renewal true) ;;
      _assert_lease true ;;
      _fresh_stop_preflight p allow_players ;;
      log (EPreflight (pf_id p)) ;;
      _assert_lease true ;;
      mret (Some l, true))
    (fun x => release_frame true ;; throw x)).

Definition stop_body (p : Profile) (actor rid operation : string) (force allow_players : bool)
    : M JobAccepted :=
  '(l, renewal) ← _acquire_stop_fence p actor rid allow_players;
  setf (set_lease l) ;;
  setf (set_renewal renewal) ;;
  id ← job_intent actor operation (pf_id p);
  setf (set_job (Some id)) ;;
  (if force then adapter_force_stop p renewal else adapter_graceful_stop p renewal) ;;
  finish id actor operation (pf_id p) true None EmptyString None ;;
  mret (mkJobAccepted id "running" None).

Definition stop_handler (p : Profile) (actor operation : string) (force : bool) (x : exc)
    : M JobAccepted :=
  match x with
  | CancelledExc => throw CancelledExc
  | TimeoutExc =>
      finish_job actor operation (pf_id p) false (Some GRACE_TIMEOUT) "graceful stop timed out" ;;
      throw (CtrlFailure GRACE_TIMEOUT "graceful stop timed out" false)
  | _ =>
      let detail := exc_detail (if force then "force stop failed" else "stop failed")%string x in
      finish_job actor operation (pf_id p) false (Some (exc_code INTERNAL_ERROR x)) detail ;;
      match x with
      | CtrlFailure _ _ _ => throw x
      | _ => throw (CtrlFailure INTERNAL_ERROR detail false)
      end
  end.

Definition _stop_with_fence (p : Profile) (actor rid : string) (force allow_players : bool)
    : M JobAccepted :=
  let operation := (if force then "force_stop" else "stop")%string in
  in_frame (finally
    (catch (stop_body p actor rid operation force allow_players)
       (stop_handler p actor operation force))
    release_frame).

Definition _stop (pid : ProfileId) (actor rid : string) : M JobAccepted :=
  p ← find_profile pid;
  _require_operation p OpStop actor ;;
  _stop_with_fence p actor rid false false.

Definition _restart (pid : ProfileId) (actor rid : string) : M JobAccepted :=
  _stop pid actor rid ;; _start pid actor rid.

(** ** Console commands *)

(** [RpcProvenance]: only [WEB_HUMAN] is told apart. *)
Definition _command (pid : ProfileId) (actor : string) (web_human : bool) : M JobAccepted :=
  p ← find_profile pid;
  _require_operation p OpCommand actor ;;
  if bool_decide (pf_id p = MINECRAFT_SUNLIT_COBBLEMON) && negb web_human then
    _audit_rejection_sync actor (operation_value OpCommand) (pf_id p) INVALID_REQUEST
      "authenticated browser command required" ;;
    throw (CtrlFailure INVALID_REQUEST "authenticated browser command required" false)
  else
  id ← job_intent actor "command" (pf_id p);
  catch (_adapter p ;; _await_lease (Some (ECommand (pf_id p))) false false ;; mret tt)
    (fun x => match x with
     | CancelledExc => throw CancelledExc
     | AdapterErr retryable _ =>
         let code := if retryable then UPSTREAM_UNAVAILABLE else INVALID_REQUEST in
         let detail := (if retryable then "command transport failed"
                        else "command unsupported")%string in
         finish id actor "command" (pf_id p) false (Some code) detail None ;;
         throw (CtrlFailure code detail retryable)
     | _ =>
         finish id actor "command" (pf_id p) false (Some INTERNAL_ERROR) "command failed" None ;;
         throw (CtrlFailure INTERNAL_ERROR "command failed" false)
     end) ;;
  finish id actor "command" (pf_id p) true None EmptyString None ;;
  mret (mkJobAccepted id "running" None).

(** ** Confirmations *)

Definition consume_confirmation (actor action : string) (id : Z) : M (list (string * json)) :=
  _transaction (fun now d =>
    match ControllerDb._consume_confirmation now actor action id d with
    | (inl e, d') => (Exc (CtrlFailure (consume_code e) (consume_message e) false), d')
    | (inr payload, d') => (Val payload, d')
    end).

(** [_create_confirmation]: the expiry and the generation are read before the
    transaction. *)
Definition create_confirmation (actor action : string) (p : ProfileId)
    (payload : list (string * json)) : M Z :=
  n ← now_tick;
  d ← gets c_db;
  _transaction (total (fun _ d' =>
    ControllerDb._create_confirmation (w_now w n) (_current_generation d) actor action p payload d')).

(** [ProfileId(payload[key])] *)
Definition payload_profile (key : string) (payload : list (string * json)) : M ProfileId :=
  match assoc key payload with
  | None => throw (PyExc (KeyError key))
  | Some (JStr s) => match profile_of_value s with
                     | Some p => mret p
                     | None => throw (PyExc (ValueError s))
                     end
  | Some _ => throw (PyExc (ValueError key))
  end.

(** Truth value of a decoded JSON value. *)
Definition truthy (j : json) : bool :=
  match j with
  | JNull => false
  | JBool b => b
  | JInt n => negb (n =? 0)
  | JFloat (FFin v) => negb (v =? 0)
  | JFloat _ => true
  | JStr s => nonempty s
  | JList l => match l with [] => false | _ => true end
  | JObj l => match l with [] => false | _ => true end
  end.

(** [payload.get(key, default)] used as a condition. *)
Definition flag (key : string) (dflt : bool) (payload : list (string * json)) : bool :=
  match assoc key payload with Some j => truthy j | None => dflt end.

Record switch_options := SwitchOptions {
  create_backup : bool;
  rollback_on_failure : bool;
  force_after_timeout : bool;
}.

Definition switch_payload (source target : ProfileId) (o : switch_options)
    : list (string * json) :=
  [("source_profile_id", JStr (profile_value source));
   ("target_profile_id", JStr (profile_value target));
   ("create_backup", JBool (create_backup o));
   ("rollback_on_failure", JBool (rollback_on_failure o));
   ("force_after_timeout", JBool (force_after_timeout o))]%string.

Definition _prepare_switch (current target : ProfileId) (o : switch_options) (actor : string)
    : M Z :=
  if bool_decide (current = target)
  then throw (CtrlFailure INVALID_REQUEST "profiles must differ" false) else
  source_p ← find_profile current;
  target_p ← find_profile target;
  _require_operation source_p OpStop actor ;;
  _require_operation target_p OpStart actor ;;
  create_confirmation actor "switch" current (switch_payload current target o).

Definition _prepare_force_stop (pid : ProfileId) (actor : string) : M Z :=
  p ← find_profile pid;
  _require_operation p OpForceStop actor ;;
  create_confirmation actor "force_stop" pid [].

Definition _confirm_force_stop (confirmation_id : Z) (actor rid : string) : M JobAccepted :=
  payload ← consume_confirmation actor "force_stop" confirmation_id;
  pid ← payload_profile "profile_id" payload;
  p ← find_profile pid;
  _require_operation p OpForceStop actor ;;
  _stop_with_fence p actor rid true true.

(** ** Switch with rollback *)

(** [getattr(exc, "returncode", getattr(exc, "code", None)) != 75] *)
Definition exit_75 (x : exc) : bool :=
  match x with AdapterErr _ (Some 75) => true | _ => false end.

Definition _start_with_free_retry (p : Profile) (renewal : bool) : M unit :=
  catch (adapter_start p renewal)
    (fun x =>
       if negb (exit_75 x) then throw x else
       free ← _wait_for_free_slot p renewal;
       if negb free then conflict "slot did not become free" else
       adapter_start p renewal).

(** Graceful stop, then a forced one after a timeout when that is allowed;
    otherwise the timeout becomes [on_timeout]. *)
Definition stop_for_switch (p : Profile) (renewal force : bool) (on_timeout : exc) : M unit :=
  catch (adapter_graceful_stop p renewal)
    (fun x => match x with
     | TimeoutExc => if negb force then throw on_timeout else adapter_force_stop p renewal
     | _ => throw x
     end).

Definition switch_body (source_p target_p : Profile) (payload : list (string * json))
    (actor lease_id : string) (id : Z) : M JobAccepted :=
  l ← _reserve target_p "switch" lease_id actor;
  setf (set_lease (Some l)) ;;
  setf (set_renewal true) ;;
  stop_for_switch source_p true (flag "force_after_timeout" false payload)
    (CtrlFailure GRACE_TIMEOUT "graceful stop timed out" false) ;;
  _assert_lease true ;;
  free ← _wait_for_free_slot source_p true;
  if negb free then conflict "slot did not become free" else
  _assert_lease true ;;
  when (flag "create_backup" false payload)
    (if negb (has_service cfg "backups" "create")
     then throw (CtrlFailure BACKUP_FAILED "backup service unavailable" false) else
     _await_lease (Some (EWork "backup" (pf_id source_p))) true false ;;
     _assert_lease true) ;;
  setf (set_started true) ;;
  pause ;;
  _start_with_free_retry target_p true ;;
  _assert_lease true ;;
  ready ← _probe_start_health target_p true;
  if negb ready then throw (PyExc (RuntimeError "target readiness failed")) else
  finish id actor "switch" (pf_id target_p) true None EmptyString None ;;
  pause ;;
  mret (mkJobAccepted id "running" None).

(** The rollback lease: the switch lease is transferred to the source, or a new
    one is taken. *)
Definition rollback_lease (source_p : Profile) (actor : string) : M slot_lease :=
  l ← getf fr_lease;
  match l with
  | Some l =>
      if has_store cfg then
        n ← now_tick;
        let l' := Lease (pf_id source_p) (w_uuid w n) (l_gen l) in
        _reservation_io (fun e f =>
          transfer_if_owned e (ident_of_lease l) (profile_value (pf_id source_p)) (w_uuid w n)
            (fl 30) f) (Some l') ;;
        log (ETransferred l l') ;;
        setf (set_rb_lease (Some l')) ;;
        setf (set_lease None) ;;
        mret l'
      else
        _clear_reservation l ;;
        setf (set_lease None) ;;
        n ← now_tick;
        l' ← _reserve source_p "rollback" (w_uuid w n) actor;
        setf (set_rb_lease (Some l')) ;;
        mret l'
  | None =>
      n ← now_tick;
      l' ← _reserve source_p "rollback" (w_uuid w n) actor;
      setf (set_rb_lease (Some l')) ;;
      mret l'
  end.

Definition rollback_body (source_p target_p : Profile) (payload : list (string * json))
    (actor : string) : M unit :=
  started ← getf fr_started;
  renewal ← getf fr_renewal;
  when started
    (stop_for_switch target_p renewal (flag "force_after_timeout" false payload) TimeoutExc) ;;
  rollback_lease source_p actor ;;
  setf (set_rb_renewal true) ;;
  free ← _wait_for_free_slot source_p true;
  if negb free then throw (PyExc (RuntimeError "slot did not become free for rollback")) else
  _start_with_free_retry source_p true ;;
  ready ← _probe_start_health source_p true;
  if negb ready then throw (PyExc (RuntimeError "rollback readiness failed")) else
  mret tt.

Definition rollback (source_p target_p : Profile) (payload : list (string * json))
    (actor : string) : M unit :=
  let source := pf_id source_p in
  record_event source "rollback_attempt" "attempting to restore previous profile" ;;
  _record_audit actor "rollback" source "accepted" None "rollback attempt started" ;;
  ok ← catch (rollback_body source_p target_p payload actor ;; mret true)
         (fun x => if is_exception x then mret false else throw x);
  if ok : bool then
    record_event source "rollback_succeeded" "previous profile restored" ;;
    _record_audit actor "rollback" source "succeeded" None "rollback completed"
  else
    record_event source "rollback_failed" "rollback did not restore the previous profile" ;;
    _record_audit actor "rollback" source "failed" (Some HEALTH_FAILED) "rollback failed".

Definition switch_handler (source_p target_p : Profile) (payload : list (string * json))
    (actor : string) (id : Z) (x : exc) : M JobAccepted :=
  if negb (is_exception x) then throw x else
  when (flag "rollback_on_failure" true payload) (rollback source_p target_p payload actor) ;;
  let code := exc_code HEALTH_FAILED x in
  let detail := exc_detail "switch failed" x in
  finish id actor "switch" (pf_id target_p) false (Some code) detail None ;;
  throw (CtrlFailure code detail false).

Definition switch_finally (primary : bool) : M unit :=
  release_frame primary ;;
  l ← getf fr_rb_lease; r ← getf fr_rb_renewal; _release_lease primary l r.

(** [lease_id] is the text of the confirmation id. *)
Definition _confirm_switch (confirmation_id : Z) (lease_id actor : string) : M JobAccepted :=
  in_frame (
    payload ← consume_confirmation actor "switch" confirmation_id;
    source ← payload_profile "source_profile_id" payload;
    target ← payload_profile "target_profile_id" payload;
    source_p ← find_profile source;
    target_p ← find_profile target;
    id ← job_intent actor "switch" target;
    finally (catch (switch_body source_p target_p payload actor lease_id id)
               (switch_handler source_p target_p payload actor id))
      switch_finally).
End Handlers.
