(* ===== verification/Maintenance.v ===== *)
(** [controller.py], maintenance jobs: backups, restores, retirement, world
    clones and updates under an operation lease or an update handoff, the
    scheduled backup, and the benchmark with its background worker. *)
From S2P Require Import Prelude Models Slot ControllerDb ControllerDbFacts Readiness Lifecycle.

(** ** [_maintenance_failure] *)

Definition maintenance_default (operation : string) : ErrorCode :=
  if String.eqb operation "backup" then BACKUP_FAILED else
  if String.eqb operation "restore" then RESTORE_FAILED else
  if String.eqb operation "update" then UPDATE_FAILED else
  if String.eqb operation "world_clone" then INVALID_REQUEST else
  if String.eqb operation "retirement" then RETIREMENT_FAILED else
  INTERNAL_ERROR.

Definition maintenance_allowed (operation : string) : list ErrorCode :=
  if String.eqb operation "backup" then [BACKUP_FAILED; INVALID_REQUEST; SLOT_CONFLICT] else
  if String.eqb operation "restore" then [RESTORE_FAILED; INVALID_REQUEST; SLOT_CONFLICT] else
  if String.eqb operation "update" then [UPDATE_FAILED; INVALID_REQUEST; SLOT_CONFLICT] else
  if String.eqb operation "world_clone" then [INVALID_REQUEST; SLOT_CONFLICT] else
  if String.eqb operation "retirement"
  then [RETIREMENT_FAILED; RETIREMENT_UNAVAILABLE; INVALID_REQUEST; SLOT_CONFLICT] else
  [].

(** The code, message and retryability of the controller failure that replaces a
    worker's exception. *)
Definition _maintenance_failure (operation : string) (x : exc) : ErrorCode * string * bool :=
  match x with
  | CtrlFailure c m r => (c, m, r)
  | SafeErr c m r =>
      let code := default (maintenance_default operation) (error_of_value c) in
      (if bool_decide (code ∈ maintenance_allowed operation) then code
       else maintenance_default operation, m, r)
  | _ => (maintenance_default operation, (operation ++ " failed")%string, false)
  end.

Definition raise_failure {A} (f : ErrorCode * string * bool) : M A :=
  let '(c, m, r) := f in throw (CtrlFailure c m r).

Section Handlers.
Context (w : world) (cfg : config).
(** The digest of [authorize_handoff], the job a handed-off service returns, the
    [backups.availability] and [benchmarks.cancel] services. *)
Context (sha256 : string -> string) (service_job : JobAccepted)
  (availability : string -> string) (cancel : Z -> bool).

#[local] Abbreviation _transaction := (_transaction w).
#[local] Abbreviation _await_lease := (_await_lease w).
#[local] Abbreviation _assert_lease := (_assert_lease w).
#[local] Abbreviation _release_lease := (_release_lease w cfg).
#[local] Abbreviation _reserve := (_reserve w cfg).
#[local] Abbreviation job_intent := (job_intent w).
#[local] Abbreviation finish := (finish w).

(** [async with self._operation_lease(...) as (lease, renewal): body] *)
Definition _operation_lease {A} (p : Profile) (operation rid actor : string)
    (body : slot_lease -> M A) : M A :=
  l ← _reserve p operation rid actor;
  finally (_assert_lease true ;; body l) (fun primary => _release_lease primary (Some l) true).

(** [return_service_result]: a service that returns its own [JobAccepted] (the
    awaited value is [true]) has it returned. *)
Definition _run_bound_maintenance_job (p : Profile) (operation actor : string)
    (renewal return_service_result : bool) : M JobAccepted :=
  id ← job_intent actor operation (pf_id p);
  own ← catch (_await_lease (Some (EWork operation (pf_id p))) renewal true)
    (fun x => match x with
     | CancelledExc =>
         finish id actor operation (pf_id p) false (Some INTERNAL_ERROR)
           "maintenance cancelled" None ;;
         throw CancelledExc
     | _ =>
         let f := _maintenance_failure operation x in
         finish id actor operation (pf_id p) false (Some (fst (fst f))) (snd (fst f)) None ;;
         raise_failure f
     end);
  finish id actor operation (pf_id p) true None (operation ++ " completed") None ;;
  if return_service_result && own then mret service_job
  else mret (mkJobAccepted id "succeeded" None).

Definition _run_maintenance_job (p : Profile) (operation actor rid : string) : M JobAccepted :=
  _operation_lease p operation rid actor (fun _ =>
    _run_bound_maintenance_job p operation actor true false).

Definition same_handoff (r h : Reservation) : bool :=
  bool_decide (profile_id r = profile_id h) && String.eqb (operation_id r) (operation_id h)
  && (state_generation r =? state_generation h) && (controller_pid r =? controller_pid h)
  && (controller_start_ticks r =? controller_start_ticks h).

Definition handoff_check (p : Profile) (capability : string) (handoff : Reservation)
    (e : env) (f : node) : res bool * node :=
  match authorize_handoff sha256 e (profile_value (pf_id p)) capability "update" f with
  | (Ret r, f') => (Ret (same_handoff r handoff), f')
  | (Raise _, f') => (Ret false, f')
  end.

Definition _run_handoff_maintenance_job (p : Profile) (operation actor capability : string)
    (handoff : Reservation) : M JobAccepted :=
  ok ← _reservation_io w (handoff_check p capability handoff) None;
  if negb ok then conflict "update handoff is unavailable" else
  _run_bound_maintenance_job p operation actor false true.

(** [except (BlockingIOError, OSError, ValueError, PermissionError)] *)
Definition handoff_unavailable (x : exc) : bool :=
  match x with
  | PyExc (BlockingIOError _ | OSError _ | ValueError _ | PermissionError _ | FileNotFoundError _) => true
  | TimeoutExc => true
  | _ => false
  end.

Definition _create_backup (pid : ProfileId) (protected : bool) (destination : BackupDestination)
    (capability : option string) (actor rid : string) : M JobAccepted :=
  p ← find_profile cfg pid;
  _require_operation w p OpBackup actor ;;
  if negb (has_service cfg "backups" "create")
  then throw (CtrlFailure BACKUP_FAILED "backup service unavailable" false) else
  match capability with
  | None => _run_maintenance_job p "backup" actor rid
  | Some token =>
      if negb (bool_decide (pf_id p = MINECRAFT_SUNLIT_COBBLEMON)) || negb protected
         || negb (bool_decide (destination = HORIZON_B2))
      then throw (CtrlFailure INVALID_REQUEST "reservation handoff is not permitted" false) else
      if negb (has_store cfg) then conflict "update handoff is unavailable" else
      handoff ← catch (_reservation_io w (fun e f =>
                   authorize_handoff sha256 e (profile_value (pf_id p)) token "update" f) None)
                 (fun x => if handoff_unavailable x then conflict "update handoff is unavailable"
                           else throw x);
      _run_handoff_maintenance_job p "backup" actor token handoff
  end.

(** [payload.get("profile_id", None)] resolved by the profile registry. *)
Definition payload_registered (payload : list (string * json)) : M Profile :=
  match assoc "profile_id" payload with
  | Some (JStr s) =>
      match profile_of_value s with
      | Some pid => find_profile cfg pid
      | None => throw (CtrlFailure INVALID_REQUEST "unknown profile" false)
      end
  | _ => throw (CtrlFailure INVALID_REQUEST "unknown profile" false)
  end.

Definition backup_missing (backup_id : string) : bool :=
  has_service cfg "backups" "availability" && nonempty backup_id
  && negb (String.eqb (availability backup_id) "present").

Definition restore_unavailable {A} : M A :=
  throw (CtrlFailure RESTORE_FAILED "backup payload is not locally available" false).

Definition _prepare_restore (pid : ProfileId) (backup_id actor : string) : M Z :=
  p ← find_profile cfg pid;
  _require_operation w p OpRestore actor ;;
  if has_service cfg "backups" "availability"
     && negb (String.eqb (availability backup_id) "present")
  then restore_unavailable else
  create_confirmation w actor "restore" pid [("backup_id"%string, JStr backup_id)].

(** [str(payload.get("backup_id", ""))] of the payload [_prepare_restore] stores. *)
Definition payload_text (key : string) (payload : list (string * json)) : string :=
  match assoc key payload with Some (JStr s) => s | _ => EmptyString end.

Definition _confirm_restore (confirmation_id : Z) (actor rid : string) : M JobAccepted :=
  payload ← consume_confirmation w actor "restore" confirmation_id;
  if negb (has_service cfg "backups" "confirm_restore")
     && negb (has_service cfg "backups" "restore")
  then throw (CtrlFailure RESTORE_FAILED "restore service unavailable" false) else
  p ← payload_registered payload;
  if backup_missing (payload_text "backup_id" payload) then restore_unavailable else
  _run_maintenance_job p "restore" actor rid.

Definition _confirm_retirement (confirmation_id : Z) (actor rid : string) : M JobAccepted :=
  payload ← consume_confirmation w actor "retirement" confirmation_id;
  if negb (has_service cfg "backups" "retirement_confirm")
  then throw (CtrlFailure RETIREMENT_FAILED "retirement service unavailable" false) else
  pid ← payload_profile "profile_id" payload;
  p ← find_profile cfg pid;
  _run_maintenance_job p "retirement" actor rid.

Definition clone_payload (source_world_id destination_name : string) : list (string * json) :=
  [("source_profile_id", JStr (profile_value TERRARIA_VANILLA));
   ("target_profile_id", JStr (profile_value TERRARIA_TMOD));
   ("source_world_id", JStr source_world_id);
   ("destination_name", JStr destination_name)]%string.

Definition _prepare_world_clone (source_world_id destination_name actor : string) : M Z :=
  source ← find_profile cfg TERRARIA_VANILLA;
  target ← find_profile cfg TERRARIA_TMOD;
  _require_operation w source OpCloneSource actor ;;
  _require_operation w target OpCloneTarget actor ;;
  create_confirmation w actor "world_clone" TERRARIA_VANILLA
    (clone_payload source_world_id destination_name).

Definition _confirm_world_clone (confirmation_id : Z) (actor rid : string) : M JobAccepted :=
  consume_confirmation w actor "world_clone" confirmation_id ;;
  if negb (has_service cfg "worlds" "confirm_clone") && negb (has_service cfg "worlds" "clone")
  then throw (CtrlFailure INVALID_REQUEST "world clone service unavailable" false) else
  p ← find_profile cfg TERRARIA_VANILLA;
  _run_maintenance_job p "world_clone" actor rid.

Definition _prepare_update (pid : ProfileId) (actor : string) : M Z :=
  p ← find_profile cfg pid;
  _require_operation w p OpUpdateApply actor ;;
  create_confirmation w actor "update" pid
    [("installed_version", JNull); ("available_version", JNull)]%string.

Definition _confirm_update (confirmation_id : Z) (actor rid : string) : M JobAccepted :=
  payload ← consume_confirmation w actor "update" confirmation_id;
  if negb (has_service cfg "updates" "confirm") && negb (has_service cfg "updates" "apply")
  then throw (CtrlFailure UPDATE_FAILED "update service unavailable" false) else
  p ← payload_registered payload;
  _run_maintenance_job p "update" actor rid.

(** ** Scheduled backup *)

Definition sched_actor : string := "system:schedule".
Definition sched_op : string := "scheduled_backup".

Definition _run_scheduled_backup (pid : ProfileId) (rid : string) : M JobAccepted :=
  p ← find_profile cfg pid;
  if negb (has_service cfg "backups" "create")
  then throw (CtrlFailure BACKUP_FAILED "backup service unavailable" false) else
  _operation_lease p sched_op rid sched_actor (fun _ =>
    id ← job_intent sched_actor sched_op (pf_id p);
    catch (_await_lease (Some (EWork sched_op (pf_id p))) true true ;; mret tt)
      (fun x => match x with
       | CancelledExc =>
           finish id sched_actor sched_op (pf_id p) false (Some INTERNAL_ERROR)
             "scheduled backup cancelled" None ;;
           throw x
       | SafeErr c _ _ =>
           let deferred := String.eqb c "profile_running" in
           finish id sched_actor sched_op (pf_id p) false
             (Some (if deferred then INVALID_STATE else BACKUP_FAILED))
             (if deferred then "profile_running" else "backup_failed")
             (Some (if deferred then "deferred" else "failed"))%string ;;
           throw x
       | _ =>
           finish id sched_actor sched_op (pf_id p) false (Some BACKUP_FAILED) "backup_failed"
             None ;;
           throw x
       end) ;;
    finish id sched_actor sched_op (pf_id p) true None "scheduled backup completed" None ;;
    mret (mkJobAccepted id "succeeded" None)).

(** ** Benchmarks *)

Definition _operation_lease_acquire (p : Profile) (operation rid actor : string) : M slot_lease :=
  l ← _reserve p operation rid actor;
  catch (_assert_lease true) (fun x => _release_lease true (Some l) true ;; throw x) ;;
  mret l.

Definition bench_services : list string :=
  ["prove_idle"; "preflight"; "prepare_frozen"; "run"; "fail"]%string.

Definition bench_failure (id : Z) (actor : string) (p : Profile) (code : ErrorCode)
    (detail : string) : M unit :=
  finish id actor "benchmark" (pf_id p) false (Some code) detail None.

(** [prepare_frozen] runs inside its transaction; [frozen_ok] is its result. *)
Definition _run_benchmark (pid : ProfileId) (actor rid : string) (closed : bool)
    (frozen_ok : ctl unit) : M JobAccepted :=
  p ← find_profile cfg pid;
  _require_operation w p OpBenchmark actor ;;
  if negb (forallb (has_service cfg "benchmarks") bench_services)
  then throw (CtrlFailure BENCHMARK_FAILED "benchmark service unavailable" false) else
  l ← _operation_lease_acquire p "benchmark" rid actor;
  catch (_await_lease (Some (EWork "prove_idle" (pf_id p))) true false ;; mret tt)
    (fun x => match x with
     | CancelledExc => throw x
     | SafeErr c m _ =>
         _release_lease true (Some l) true ;;
         let code := if String.eqb c "invalid_state" then INVALID_STATE else BENCHMARK_FAILED in
         throw (CtrlFailure code m (bool_decide (code = INVALID_STATE)))
     | _ => _release_lease true (Some l) true ;; throw x
     end) ;;
  d ← gets c_db;
  if existsb (fun j => active_state (j_state j)) (jobs d) then
    _release_lease false (Some l) true ;;
    throw (CtrlFailure INVALID_STATE "another game operation is active" true)
  else
  id ← job_intent actor "benchmark" (pf_id p);
  catch (frozen ← _await_lease (Some (EWork "preflight" (pf_id p))) true true;
         (if negb frozen
          then throw (SafeErr "benchmark_failed" "benchmark preflight provenance is unavailable" false)
          else mret tt) ;;
         _transaction (fun _ d => (frozen_ok, d)))
    (fun x => match x with
     | SafeErr _ m _ =>
         bench_failure id actor p BENCHMARK_FAILED "benchmark request validation failed" ;;
         _release_lease true (Some l) true ;;
         throw (CtrlFailure BENCHMARK_FAILED m false)
     | CancelledExc =>
         bench_failure id actor p INTERNAL_ERROR "benchmark preparation cancelled" ;;
         _release_lease true (Some l) true ;; throw x
     | _ =>
         bench_failure id actor p BENCHMARK_FAILED "benchmark request validation failed" ;;
         _release_lease true (Some l) true ;; throw x
     end) ;;
  if closed then
    _release_lease false (Some l) true ;;
    throw (CtrlFailure INVALID_STATE "controller is closed" false)
  else
  log (EWork "benchmark_worker" (pf_id p)) ;;
  mret (mkJobAccepted id "accepted" None).

(** The background task; [fail], the regression evaluation and the alerts are
    calls whose failures are swallowed. *)
Definition _benchmark_worker (p : Profile) (actor : string) (id : Z) (l : slot_lease) : M unit :=
  ran ← catch (_assert_lease true ;;
               _await_lease (Some (EWork "benchmark" (pf_id p))) true true ;; mret true)
    (fun x => match x with
     | CancelledExc => _release_lease true (Some l) true ;; throw x
     | _ =>
         bench_failure id actor p BENCHMARK_FAILED "benchmark failed" ;;
         _release_lease true (Some l) true ;; mret false
     end);
  if negb ran then mret tt else
  finally (finish id actor "benchmark" (pf_id p) true None "benchmark completed" None)
    (fun primary => _release_lease primary (Some l) true).

(** The benchmark job of that id. *)
Definition find_benchmark (id : Z) (d : db) : option job :=
  List.find (fun j => (j_id j =? id) && String.eqb (j_operation j) "benchmark") (jobs d).

(** [fail_result] is what the synchronous [benchmarks.fail] call gives. *)
Definition _cancel_benchmark (id : Z) (actor : string) (fail_result : ctl unit) : M JobAccepted :=
  d ← gets c_db;
  match find_benchmark id d with
  | Some j =>
      if negb (active_state (j_state j))
      then throw (CtrlFailure INVALID_STATE "benchmark job is not active" false) else
      if negb (has_service cfg "benchmarks" "cancel" && cancel id)
      then throw (CtrlFailure INVALID_STATE "benchmark process is not cancellable" false) else
      (if has_service cfg "benchmarks" "fail" then lift fail_result else mret tt) ;;
      match j_profile j with
      | None => throw (PyExc (ValueError "None is not a valid ProfileId"))
      | Some p =>
          finish id actor "benchmark" p false (Some BENCHMARK_FAILED) "benchmark cancelled" None ;;
          mret (mkJobAccepted id "cancelled" None)
      end
  | None => throw (CtrlFailure INVALID_STATE "benchmark job is not active" false)
  end.
End Handlers.
