(* ===== verification/Dispatch.v ===== *)
(** [controller.py], [_dispatch]: the requests whose handlers are modelled, the
    handler each is routed to, and the answer its outcome becomes. *)
From S2P Require Import Prelude Models Slot ControllerDb ControllerDbFacts Readiness Lifecycle.
From S2P Require Import Maintenance.

Inductive action :=
  | Start (p : ProfileId)
  | Stop (p : ProfileId)
  | Restart (p : ProfileId)
  | Command (p : ProfileId) (web_human : bool)
  | PrepareSwitch (current target : ProfileId) (o : switch_options)
  | ConfirmSwitch (confirmation_id : Z)
  | PrepareForceStop (p : ProfileId)
  | ConfirmForceStop (confirmation_id : Z)
  | CreateBackup (p : ProfileId) (protected : bool) (destination : BackupDestination)
      (capability : option string)
  | PrepareRestore (p : ProfileId) (backup_id : string)
  | ConfirmRestore (confirmation_id : Z)
  | ConfirmRetirement (confirmation_id : Z)
  | PrepareWorldClone (source_world_id destination_name : string)
  | ConfirmWorldClone (confirmation_id : Z)
  | PrepareUpdate (p : ProfileId)
  | ConfirmUpdate (confirmation_id : Z).

(** A job, or the id of the confirmation to present. *)
Inductive reply :=
  | Accepted (j : JobAccepted)
  | Prepared (confirmation_id : Z).

Inductive response :=
  | RpcSuccess (r : reply)
  | RpcFailure (code : ErrorCode) (message : string) (retryable : bool).

Section Dispatch.
Context (w : world) (cfg : config) (sha256 : string -> string) (service_job : JobAccepted)
  (availability : string -> string) (uuid_text : Z -> string).

Definition accepted (m : M JobAccepted) : M reply := j ← m; mret (Accepted j).
Definition prepared (m : M Z) : M reply := id ← m; mret (Prepared id).

(** [getattr(self, DISPATCH[type(action)])(action, actor, request_id)] *)
Definition handler (a : action) (actor rid : string) : M reply :=
  match a with
  | Start p => accepted (_start w cfg p actor rid)
  | Stop p => accepted (_stop w cfg p actor rid)
  | Restart p => accepted (_restart w cfg p actor rid)
  | Command p web => accepted (_command w cfg p actor web)
  | PrepareSwitch c t o => prepared (_prepare_switch w cfg c t o actor)
  | ConfirmSwitch id => accepted (_confirm_switch w cfg id (uuid_text id) actor)
  | PrepareForceStop p => prepared (_prepare_force_stop w cfg p actor)
  | ConfirmForceStop id => accepted (_confirm_force_stop w cfg id actor rid)
  | CreateBackup p protected dest cap =>
      accepted (_create_backup w cfg sha256 service_job p protected dest cap actor rid)
  | PrepareRestore p b => prepared (_prepare_restore w cfg availability p b actor)
  | ConfirmRestore id => accepted (_confirm_restore w cfg service_job availability id actor rid)
  | ConfirmRetirement id => accepted (_confirm_retirement w cfg service_job id actor rid)
  | PrepareWorldClone a b => prepared (_prepare_world_clone w cfg a b actor)
  | ConfirmWorldClone id => accepted (_confirm_world_clone w cfg service_job id actor rid)
  | PrepareUpdate p => prepared (_prepare_update w cfg p actor)
  | ConfirmUpdate id => accepted (_confirm_update w cfg service_job id actor rid)
  end.

(** [_dispatch]: a controller failure keeps its code, any other exception becomes
    an internal error; cancellation propagates. *)
Definition _dispatch (a : action) (actor rid : string) : M response :=
  catch (r ← handler a actor rid; mret (RpcSuccess r))
    (fun x => match x with
     | CancelledExc => throw CancelledExc
     | CtrlFailure c m r => mret (RpcFailure c m r)
     | _ => mret (RpcFailure INTERNAL_ERROR "internal controller error" false)
     end).
End Dispatch.
