(* ===== verification/Hoare.v ===== *)
(** Rules for reasoning about handlers: computations that stay within a
    preorder on states, that preserve an invariant, and triples whose
    postcondition distinguishes a returned value from a raised exception. *)
From S2P Require Import Prelude Lifecycle.

(** ** Staying within a preorder *)

Section Stable.
Context (R : cst -> cst -> Prop) {HR : PreOrder R}.

Definition stable {A} (m : M A) : Prop := forall s, R s (snd (m s)).

Lemma stable_ret {A} (a : A) : stable (mret a : M A).
Proof. intros s. reflexivity. Qed.
Lemma stable_throw {A} x : stable (throw x : M A).
Proof. intros s. reflexivity. Qed.
Lemma stable_lift {A} (r : ctl A) : stable (lift r).
Proof. intros s. reflexivity. Qed.
Lemma stable_gets {A} (f : cst -> A) : stable (gets f).
Proof. intros s. reflexivity. Qed.
Lemma stable_getf {A} (f : frame -> A) : stable (getf f).
Proof. intros s. reflexivity. Qed.

Lemma stable_bind {A B} (m : M A) (k : A -> M B) :
  stable m -> (forall a, stable (k a)) -> stable (mbind k m).
Proof.
  intros Hm Hk s. specialize (Hm s). unfold mbind, M_bind.
  destruct (m s) as [[a|x] s']; simpl in *; [|done]. by etrans; [|apply Hk].
Qed.

Lemma stable_catch {A} (m : M A) h : stable m -> (forall x, stable (h x)) -> stable (catch m h).
Proof.
  intros Hm Hh s. specialize (Hm s). unfold catch.
  destruct (m s) as [[a|x] s']; simpl in *; [done|]. by etrans; [|apply Hh].
Qed.

Lemma stable_finally {A} (m : M A) f : stable m -> (forall b, stable (f b)) -> stable (finally m f).
Proof.
  intros Hm Hf s. specialize (Hm s). unfold finally. destruct (m s) as [[a|x] s1]; simpl in Hm.
  - pose proof (Hf false s1). destruct (f false s1) as [[?|?] s2]; simpl in *; by trans s1.
  - pose proof (Hf true s1). destruct (f true s1) as [[?|?] s2]; simpl in *; by trans s1.
Qed.

Lemma stable_when b m : stable m -> stable (when b m).
Proof. intros Hm. destruct b; [done|apply stable_ret]. Qed.

Lemma stable_work {A} r (k : bool -> M A) : (forall b, stable (k b)) -> stable (work r k).
Proof. intros Hk. destruct r; [apply Hk|apply stable_throw]. Qed.
End Stable.

(** ** Preserving an invariant *)

Definition pres {A} (I : cst -> Prop) (m : M A) : Prop := forall s, I s -> I (snd (m s)).

Lemma pres_bind {A B} I (m : M A) (k : A -> M B) :
  pres I m -> (forall a, pres I (k a)) -> pres I (mbind k m).
Proof.
  intros Hm Hk s Hs. specialize (Hm s Hs). unfold mbind, M_bind.
  destruct (m s) as [[a|x] s']; simpl in *; [by apply Hk|done].
Qed.

Lemma pres_catch {A} I (m : M A) h : pres I m -> (forall x, pres I (h x)) -> pres I (catch m h).
Proof.
  intros Hm Hh s Hs. specialize (Hm s Hs). unfold catch.
  destruct (m s) as [[a|x] s']; simpl in *; [done|by apply Hh].
Qed.

(** ** Every returned value *)

Definition returns {A} (m : M A) (P : A -> Prop) : Prop := forall s a s', m s = (Val a, s') -> P a.

Lemma returns_bind {A B} (m : M A) (k : A -> M B) P :
  (forall a, returns (k a) P) -> returns (mbind k m) P.
Proof.
  intros Hk s b s'. unfold mbind, M_bind. destruct (m s) as [[a|x] s1]; [apply Hk|done].
Qed.
Lemma returns_ret {A} (a : A) (P : A -> Prop) : P a -> returns (mret a) P.
Proof. intros H s b s' [= <- <-]. done. Qed.

(** ** Triples *)

Definition tri {A} (P : cst -> Prop) (m : M A) (Q : A -> cst -> Prop) (E : exc -> cst -> Prop)
    : Prop :=
  forall s, P s -> match m s with (Val a, s') => Q a s' | (Exc x, s') => E x s' end.

Lemma tri_conseq {A} P P' (m : M A) Q Q' E E' :
  tri P' m Q' E' -> (forall s, P s -> P' s) -> (forall a s, Q' a s -> Q a s) ->
  (forall x s, E' x s -> E x s) -> tri P m Q E.
Proof.
  intros Hm HP HQ HE s Hs. specialize (Hm s (HP s Hs)).
  destruct (m s) as [[a|x] s']; auto.
Qed.

Lemma tri_ret {A} (a : A) P (Q : A -> cst -> Prop) E : (forall s, P s -> Q a s) -> tri P (mret a) Q E.
Proof. intros H s Hs. by apply H. Qed.

Lemma tri_throw {A} x P (Q : A -> cst -> Prop) (E : exc -> cst -> Prop) :
  (forall s, P s -> E x s) -> tri P (throw x) Q E.
Proof. intros H s Hs. by apply H. Qed.

Lemma tri_bind {A B} P (m : M A) (k : A -> M B) R Q E :
  tri P m R E -> (forall a, tri (R a) (k a) Q E) -> tri P (mbind k m) Q E.
Proof.
  intros Hm Hk s Hs. specialize (Hm s Hs). unfold mbind, M_bind.
  destruct (m s) as [[a|x] s']; [by apply Hk|done].
Qed.

Lemma tri_catch {A} P (m : M A) h Q E E' :
  tri P m Q E' -> (forall x, tri (E' x) (h x) Q E) -> tri P (catch m h) Q E.
Proof.
  intros Hm Hh s Hs. specialize (Hm s Hs). unfold catch.
  destruct (m s) as [[a|x] s']; [done|by apply Hh].
Qed.

(** An invariant that survives every exit is a triple. *)
Lemma tri_pres {A} I (m : M A) : pres I m -> tri I m (fun _ => I) (fun _ => I).
Proof. intros Hm s Hs. specialize (Hm s Hs). by destruct (m s) as [[a|x] s']. Qed.
