(* ===== verification/LeaseFacts.v ===== *)
(** Leases are released on every exit path: whatever the other processes do,
    however the awaited calls end and wherever the handler is cancelled, when a
    handler of [Lifecycle] or a leased job of [Maintenance] is over the
    reservation file holds no reservation of that call. *)
From S2P Require Import Prelude Models Slot SlotFacts ControllerDb ControllerDbFacts Readiness.
From S2P Require Import Lifecycle Maintenance Dispatch Hoare.

(** A reservation of lease [l] by the controller process [(pid, ticks)]. *)
Definition holds (pid ticks : Z) (l : slot_lease) (f : node) : Prop :=
  exists r, store_read f = Some r
    /\ owned r (l_profile l) (l_id l) (l_gen l) None pid ticks = true.

(** The controller's own store calls find their process identity, take the lock
    and can unlink; a write never fails between the rename and the directory
    sync. *)
Definition sane_env (pid ticks : Z) (e : env) : Prop :=
  getpid e = pid /\ start_ticks e 0 pid = Some ticks /\ 0 < pid /\ 0 <= ticks
  /\ _lock_open e = Ret tt /\ unlink_result e = None
  /\ forall x, write_result e <> WriteFailedAfter x.

(** [ours] are the operation ids of the call; nobody else writes a reservation
    under them in this controller's name. *)
Definition respects (pid ticks : Z) (ours : string -> Prop) (w : world) : Prop :=
  forall n f l, ours (l_id l) -> holds pid ticks l (w_file w n f) -> holds pid ticks l f.

Section Leases.
Context (w : world) (cfg : config) (pid ticks : Z) (ours : string -> Prop).
Hypothesis Hsane : forall n, sane_env pid ticks (w_slot w n).
Hypothesis Hresp : respects pid ticks ours w.
Hypothesis Hstore : has_store cfg = true.

#[local] Abbreviation held := (holds pid ticks).

(** ** Store calls *)

Lemma owned_eq r l l' :
  owned r (l_profile l) (l_id l) (l_gen l) None pid ticks = true ->
  owned r (l_profile l') (l_id l') (l_gen l') None pid ticks = true -> l = l'.
Proof.
  unfold owned. intros. to_prop. destruct l, l'. simpl in *. by subst.
Qed.

Lemma absent_not_held l : ~ held l Absent.
Proof. by intros (r & H & _). Qed.

Lemma resolve_lease n l :
  resolve (w_slot w n) (ident_of_lease l) = Ret (l_profile l, pid, ticks).
Proof.
  destruct (Hsane n) as (Hp & Ht & H1 & H2 & _). unfold resolve, _profile, _expected_controller. simpl.
  rewrite profile_of_value_value. simpl. rewrite Hp, Ht.
  replace ((pid <=? 0) || (ticks <? 0)) with false; [done|].
  symmetry. apply orb_false_iff. split; [apply Z.leb_gt|apply Z.ltb_ge]; lia.
Qed.

(** Releasing a lease removes exactly it. *)
Lemma release_exact n l l' f :
  held l' (snd (release_call l (w_slot w n) f)) -> held l' f /\ l' <> l.
Proof.
  unfold release_call, release_if_owned. rewrite resolve_lease. unfold operation_transaction.
  destruct (Hsane n) as (_ & _ & _ & _ & -> & Hu & _). unfold release_locked.
  destruct (store_read f) as [r|] eqn:Hr; [|simpl; intros (r & H & _); congruence].
  simpl. destruct (owned r _ _ _ _ _ _) eqn:Ho.
  - unfold unlink. rewrite Hu. simpl. by intros ?%absent_not_held.
  - simpl. intros (r' & Hr' & Ho'). split; [by exists r'|]. intros ->. congruence.
Qed.

Lemma written_held e r l :
  held l (written_node e (_reservation_payload r)) ->
  owned r (l_profile l) (l_id l) (l_gen l) None pid ticks = true.
Proof.
  intros (r' & Hr & Ho). rewrite store_read_payload in Hr. destruct (wf_reservation r); congruence.
Qed.

(** A successful admission leaves only the new lease. *)
Lemma admission_held e l l' f r f' :
  reserve_if_available e (reserve_args_of l) None None f = (Ret r, f') -> held l' f' -> l' = l.
Proof.
  intros H Hh. assert (f' = written_node e (_reservation_payload r) /\ profile_id r = l_profile l
    /\ operation_id r = l_id l /\ state_generation r = l_gen l) as (-> & H1 & H2 & H3).
  { unfold reserve_if_available, operation_transaction in H.
    destruct (check_reserve e _) as [[[[p ttl] q] t]|] eqn:Hc; [|done].
    apply check_reserve_ret in Hc as (_ & Hp & _). simpl in Hp. apply profile_value_inj in Hp.
    repeat (split_match; simplify_eq/=); apply commit_ret in H as (-> & -> & _); by subst. }
  apply written_held in Hh. unfold owned in Hh. to_prop. destruct l, l'. simpl in *. congruence.
Qed.

Lemma admission_raise n l f x f' :
  reserve_if_available (w_slot w n) (reserve_args_of l) None None f = (Raise x, f') -> f' = f.
Proof.
  intros [H|H]%reserve_raise; [done|]. destruct (Hsane n) as (_ & _ & _ & _ & _ & _ & Hw). by apply Hw in H.
Qed.

(** ** Computations that take no lease *)

Definition keeps (s s' : cst) : Prop :=
  c_frame s' = c_frame s
  /\ forall l, ours (l_id l) -> held l (c_file s') -> held l (c_file s).

#[local] Instance keeps_preorder : PreOrder keeps.
Proof.
  split; [by split|]. intros s1 s2 s3 [H1 H2] [H3 H4]. split; [congruence|auto].
Qed.

#[local] Abbreviation quiet := (stable keeps).

Lemma quiet_log e : quiet (log e).
Proof. by split. Qed.
Lemma quiet_set_db f : quiet (modify (fun s => set_db (f s) s)).
Proof. by split. Qed.
Lemma quiet_set_ready f : quiet (modify (fun s => set_ready (f s) s)).
Proof. by split. Qed.
Lemma quiet_now_tick : quiet now_tick.
Proof. by split. Qed.
Lemma quiet_pass : quiet (pass w).
Proof. intros s. split; [done|]. simpl. intros l. apply Hresp. Qed.

Lemma quiet_release_file l n :
  quiet (modify (fun s => set_file (snd (release_call l (w_slot w n) (c_file s))) s)).
Proof. intros s. split; [done|]. simpl. intros l' _ H. by apply release_exact in H as [? _]. Qed.

Lemma quiet_set_db' d : quiet (modify (set_db d)).
Proof. by split. Qed.

Ltac quiet_step :=
  first
    [ assumption
    | apply (stable_ret keeps) | apply (stable_throw keeps) | apply (stable_lift keeps) | apply (stable_gets keeps)
    | apply (stable_getf keeps) | apply (stable_when keeps) | apply quiet_log | apply quiet_set_db' | apply quiet_set_db
    | apply quiet_set_ready | apply quiet_now_tick | apply quiet_pass | apply quiet_release_file
    | solve [auto with quiet]
    | match goal with
      | |- quiet (mbind _ _) => apply (stable_bind keeps); [|intro]
      | |- quiet (catch _ _) => apply (stable_catch keeps); [|intro]
      | |- quiet (match ?x with _ => _ end) => destruct x
      | |- quiet (let _ := _ in _) => cbv zeta
      end ].

Ltac quiet_tac := repeat quiet_step.

Create HintDb quiet.

Lemma quiet_pause : quiet (pause w).
Proof. unfold pause. by quiet_tac. Qed.
Lemma quiet_transaction {A} (f : Z -> db -> ctl A * db) : quiet (_transaction w f).
Proof. unfold _transaction. by quiet_tac. Qed.
#[local] Hint Resolve quiet_pause quiet_transaction : quiet.

Lemma quiet_job_intent actor action p : quiet (job_intent w actor action p).
Proof. unfold job_intent. by quiet_tac. Qed.
Lemma quiet_finish id actor action p ok c d st : quiet (finish w id actor action p ok c d st).
Proof. unfold finish. by quiet_tac. Qed.
Lemma quiet_record_audit actor action p r c d : quiet (_record_audit w actor action p r c d).
Proof. unfold _record_audit. by quiet_tac. Qed.
Lemma quiet_record_event p c m : quiet (record_event w p c m).
Proof. unfold record_event. by quiet_tac. Qed.
Lemma quiet_audit_sync actor action p c d : quiet (_audit_rejection_sync w actor action p c d).
Proof. unfold _audit_rejection_sync. by quiet_tac. Qed.
Lemma quiet_find_profile p : quiet (find_profile cfg p).
Proof. unfold find_profile. by quiet_tac. Qed.
Lemma quiet_adapter p : quiet (_adapter cfg p).
Proof. unfold _adapter. by quiet_tac. Qed.
#[local] Hint Resolve quiet_job_intent quiet_finish quiet_record_audit quiet_record_event
  quiet_audit_sync quiet_find_profile quiet_adapter : quiet.

Lemma quiet_require p o actor : quiet (_require_operation w p o actor).
Proof. unfold _require_operation. by quiet_tac. Qed.
Lemma quiet_assert b : quiet (_assert_lease w b).
Proof. unfold _assert_lease. by quiet_tac. Qed.
Lemma quiet_lost {A} n : quiet (lost_lease w n : M A).
Proof. unfold lost_lease. by quiet_tac. Qed.
#[local] Hint Resolve quiet_require quiet_assert quiet_lost : quiet.
Lemma quiet_await c r d : quiet (_await_lease w c r d).
Proof.
  unfold _await_lease. repeat (quiet_step || (apply (stable_work keeps); intro)).
Qed.
Lemma quiet_drain b : quiet (_drain_renewal w b).
Proof. unfold _drain_renewal. by quiet_tac. Qed.
#[local] Hint Resolve quiet_await quiet_drain : quiet.

(** A store call that writes no lease of ours. *)
Lemma quiet_io {A} (call : env -> node -> res A * node) :
  (forall n f l, held l (snd (call (w_slot w n) f)) -> held l f) ->
  quiet (_reservation_io w call None).
Proof.
  intros Hc s. unfold _reservation_io, mbind, M_bind, pass, gets. simpl.
  pose proof (Hc (c_tick s) (w_file w (c_tick s) (c_file s))) as H.
  destruct (call _ _) as [r f'] eqn:E. simpl.
  assert (keeps s (set_file f' (snd (pass w s)))) as Hk.
  { split; [done|]. simpl. intros l Hl Hh. apply (Hresp (c_tick s)); [done|]. by apply H. }
  destruct (w_io_cancelled w (c_tick s)); [|by destruct r]. by destruct r.
Qed.

Lemma quiet_clear l : quiet (_clear_reservation w cfg l).
Proof.
  unfold _clear_reservation. repeat quiet_step. apply quiet_io. intros n f l' H.
  by apply release_exact in H as [? _].
Qed.
#[local] Hint Resolve quiet_clear : quiet.
Lemma quiet_release p l r : quiet (_release_lease w cfg p l r).
Proof. unfold _release_lease. by quiet_tac. Qed.
Lemma quiet_wait_free p r : quiet (_wait_for_free_slot w p r).
Proof. unfold _wait_for_free_slot. by quiet_tac. Qed.
Lemma quiet_probe p r : quiet (_probe_start_health w p r).
Proof. unfold _probe_start_health. by quiet_tac. Qed.
Lemma quiet_start p r : quiet (adapter_start w cfg p r).
Proof. unfold adapter_start. by quiet_tac. Qed.
Lemma quiet_graceful p r : quiet (adapter_graceful_stop w cfg p r).
Proof. unfold adapter_graceful_stop. by quiet_tac. Qed.
Lemma quiet_force p r : quiet (adapter_force_stop w cfg p r).
Proof. unfold adapter_force_stop. by quiet_tac. Qed.
#[local] Hint Resolve quiet_release quiet_wait_free quiet_probe quiet_start quiet_graceful
  quiet_force : quiet.

(** ** Taking a lease *)

(** A store call that, when it succeeds, leaves [l] as the only lease. *)
Lemma io_takes {A} (call : env -> node -> res A * node) l s :
  (forall n f a f' l', call (w_slot w n) f = (Ret a, f') -> held l' f' -> l' = l) ->
  (forall n f x f', call (w_slot w n) f = (Raise x, f') -> f' = f) ->
  match _reservation_io w call (Some l) s with
  | (Val _, s') => c_frame s' = c_frame s /\ forall l', held l' (c_file s') -> l' = l
  | (Exc _, s') => keeps s s'
  end.
Proof.
  intros Hok Hbad. unfold _reservation_io, mbind, M_bind, pass, gets, modify, throw. simpl.
  destruct (call _ _) as [[a|x] f'] eqn:E; simpl.
  - assert (forall l', held l' f' -> l' = l) as Hl by (intros l'; by eapply Hok).
    destruct (w_io_cancelled w (c_tick s)); simpl; [|by split].
    split; [done|]. simpl. intros l' Ho [Hh Hne]%release_exact. apply Hresp in Hh; [|done].
    by apply Hl in Hh.
  - apply Hbad in E as ->. assert (keeps s (set_file (w_file w (c_tick s) (c_file s)) (snd (pass w s)))).
    { split; [done|]. simpl. intros l' Ho Hh. by apply Hresp in Hh. }
    by destruct (w_io_cancelled w (c_tick s)).
Qed.

Lemma quiet_reserve_failed p op actor x : quiet (reserve_failed w p op actor x).
Proof. unfold reserve_failed. by quiet_tac. Qed.

Lemma reserve_failed_raises p op actor x s a s' : reserve_failed w p op actor x s <> (Val a, s').
Proof.
  unfold reserve_failed, mbind, M_bind. destruct (negb _); [done|].
  destruct (record_event _ _ _ _ _) as [[?|?] ?]; [|done].
  by destruct (_record_audit _ _ _ _ _ _ _ _) as [[?|?] ?].
Qed.

(** [_reserve] takes the returned lease, or none. *)
Lemma reserve_spec p op id actor s :
  match _reserve w cfg p op id actor s with
  | (Val l, s') => c_frame s' = c_frame s /\ forall l', held l' (c_file s') -> l' = l
  | (Exc _, s') => keeps s s'
  end.
Proof.
  change (_reserve w cfg p op id actor s) with
    (reserve_lease w cfg p op actor
       (Lease (pf_id p) (if nonempty id then id else w_uuid w (c_tick s))
          (_current_generation (c_db s))) (snd (now_tick s))).
  set (l := Lease _ _ _). set (s0 := snd (now_tick s)).
  assert (keeps s s0) as Hk by by split.
  unfold reserve_lease. rewrite Hstore. simpl.
  set (call := fun e f => reserve_if_available e (reserve_args_of l) None None f).
  pose proof (io_takes call l s0) as H. unfold mbind, M_bind, catch.
  specialize (H (fun n f a f' l' E => admission_held _ l l' f a f' E)
                (fun n f x f' E => admission_raise n l f x f' E)).
  destruct (_reservation_io w call (Some l) s0) as [[a|x] s1]; simpl; [done|].
  pose proof (quiet_reserve_failed p op actor x s1) as Hq.
  destruct (reserve_failed _ _ _ _ _ s1) as [[?|?] s2] eqn:E.
  - by apply reserve_failed_raises in E.
  - simpl in Hq. by trans s0; [|trans s1].
Qed.

(** ** Invariants of a frame *)

(** No lease of ours is in the file. *)
Definition clean (s : cst) : Prop := forall l, ours (l_id l) -> ~ held l (c_file s).

(** Every lease of ours in the file is known to the running frame. *)
Definition accounted (known : frame -> slot_lease -> Prop) (s : cst) : Prop :=
  forall l, ours (l_id l) -> held l (c_file s) -> known (c_frame s) l.

Definition in_lease (fr : frame) (l : slot_lease) : Prop := fr_lease fr = Some l.
Definition in_leases (fr : frame) (l : slot_lease) : Prop :=
  fr_lease fr = Some l \/ fr_rb_lease fr = Some l.

Lemma clean_accounted K s : clean s -> accounted K s.
Proof. intros H l Ho Hl. by apply H in Hl. Qed.

Lemma quiet_pres_accounted {A} K (m : M A) : quiet m -> pres (accounted K) m.
Proof.
  intros Hq s Hi l Ho Hl. destruct (Hq s) as [Hf Hh]. rewrite Hf. by apply Hi, Hh.
Qed.

Lemma quiet_pres_clean {A} (m : M A) : quiet m -> pres clean m.
Proof. intros Hq s Hi l Ho Hl. destruct (Hq s) as [_ Hh]. by eapply Hi, Hh. Qed.

(** Frame updates that keep the known leases. *)
Lemma setf_pres (K : frame -> slot_lease -> Prop) f :
  (forall fr l, K fr l -> K (f fr) l) -> pres (accounted K) (setf f).
Proof. intros Hf s Hs l Ho Hl. by apply Hf, Hs. Qed.

Lemma pres_reserve {A} (K : frame -> slot_lease -> Prop) p op id actor (k : slot_lease -> M A) :
  (forall fr l, K (set_lease (Some l) fr) l) -> (forall l, pres (accounted K) (k l)) ->
  forall s, clean s ->
  accounted K (snd ((l ← _reserve w cfg p op id actor; setf (set_lease (Some l)) ;; k l) s)).
Proof.
  intros HK Hk s Hs. pose proof (reserve_spec p op id actor s) as H.
  unfold mbind at 1, M_bind at 1. destruct (_reserve _ _ _ _ _ _ _) as [[l|x] s1]; simpl.
  - destruct H as [Hf Hl]. unfold mbind, M_bind. simpl. apply Hk. intros l' _ Hl'.
    apply Hl in Hl' as ->. apply HK.
  - apply clean_accounted. destruct H as [_ H]. intros l Ho Hl. by eapply Hs, H.
Qed.

Lemma io_file {A} (call : env -> node -> res A * node) s :
  c_file (snd (_reservation_io w call None s))
  = snd (call (w_slot w (c_tick s)) (w_file w (c_tick s) (c_file s))).
Proof.
  unfold _reservation_io, mbind, M_bind, pass, gets. simpl.
  destruct (call _ _) as [r f']. simpl. by destruct (w_io_cancelled w (c_tick s)), r.
Qed.

Lemma clear_file l s :
  c_file (snd (_clear_reservation w cfg l s))
  = snd (release_call l (w_slot w (c_tick s)) (w_file w (c_tick s) (c_file s))).
Proof.
  unfold _clear_reservation. rewrite Hstore. unfold mbind, M_bind. simpl.
  etrans; [|exact (io_file (release_call l) (add_trace (ERelease l) s))].
  by destruct (_reservation_io _ _ _ _) as [[?|?] ?].
Qed.

(** The release of the frame's lease in a [finally] clause. *)
Lemma release_removes primary l r s l' :
  ours (l_id l') -> held l' (c_file (snd (_release_lease w cfg primary (Some l) r s))) ->
  held l' (c_file s) /\ l' <> l.
Proof.
  unfold _release_lease. intros Ho. pose proof (quiet_drain r s) as [_ Hd].
  unfold mbind at 1, M_bind at 1.
  assert (exists e s1, _drain_renewal w r s = (Val e, s1)) as (e & s1 & E).
  { unfold _drain_renewal. destruct (negb r); eexists _, _; reflexivity. }
  rewrite E in *. simpl in Hd. unfold mbind, M_bind, catch.
  pose proof (clear_file l s1) as Hc. intros Hh.
  enough (held l' (c_file (snd (_clear_reservation w cfg l s1)))) as H.
  { rewrite Hc in H. apply release_exact in H as [H Hne]. split; [|done].
    by apply Hd, (Hresp (c_tick s1)). }
  revert Hh. destruct (_clear_reservation w cfg l s1) as [[?|?] s2]; simpl;
    destruct primary, e; by simpl.
Qed.

Ltac pres_step :=
  first
    [ assumption
    | apply quiet_pres_accounted; solve [quiet_tac]
    | apply setf_pres; intros ? ? ?; assumption
    | match goal with
      | |- pres _ (mbind _ _) => apply pres_bind; [|intro]
      | |- pres _ (catch _ _) => apply pres_catch; [|intro]
      | |- pres _ (when ?b _) => destruct b; unfold when
      | |- pres _ (match ?x with _ => _ end) => destruct x
      | |- pres _ (let _ := _ in _) => cbv zeta
      end ].
Ltac pres_tac := repeat pres_step.

Lemma in_frame_clean {A} (m : M A) :
  (forall s, clean s -> clean (snd (m s))) -> pres clean (in_frame m).
Proof.
  intros Hm s Hs. unfold in_frame. specialize (Hm (set_frame empty_frame s) Hs).
  by destruct (m _) as [r s'].
Qed.

Lemma finally_clean {A} (I : cst -> Prop) (m : M A) f s :
  I (snd (m s)) -> (forall b s', I s' -> clean (snd (f b s'))) -> clean (snd (finally m f s)).
Proof.
  intros Hm Hf. unfold finally. destruct (m s) as [[a|x] s1]; simpl in *.
  - specialize (Hf false s1 Hm). by destruct (f false s1) as [[?|?] s2].
  - specialize (Hf true s1 Hm). by destruct (f true s1) as [[?|?] s2].
Qed.

Lemma release_frame_clean primary s :
  accounted in_lease s -> clean (snd (release_frame w cfg primary s)).
Proof.
  intros Hs. unfold release_frame, mbind, M_bind, getf, gets. simpl.
  destruct (fr_lease (c_frame s)) as [l|] eqn:E; intros l' Ho Hl'.
  - apply release_removes in Hl' as [Hl' Hne]; [|done]. apply Hs in Hl'; [|done].
    unfold in_lease in Hl'. congruence.
  - destruct (quiet_release primary None (fr_renewal (c_frame s)) s) as [_ Hq].
    apply Hq, Hs in Hl'; [|done..]. unfold in_lease in Hl'. congruence.
Qed.

(** ** Start *)

Lemma quiet_begin_ticket p : quiet (begin_ticket p).
Proof. intros s. unfold begin_ticket. by destruct (ready_begin _ _) as [[?|?] ?]. Qed.
Lemma quiet_notify_ticket o : quiet (notify_ticket o).
Proof. unfold notify_ticket. by quiet_tac. Qed.
Lemma quiet_finish_ticket : quiet finish_ticket.
Proof. unfold finish_ticket. by quiet_tac. Qed.
Lemma quiet_finish_job actor action p ok c d : quiet (finish_job w actor action p ok c d).
Proof. unfold finish_job. by quiet_tac. Qed.
#[local] Hint Resolve quiet_begin_ticket quiet_notify_ticket quiet_finish_ticket
  quiet_finish_job : quiet.
Lemma quiet_cleanup p r : quiet (_cleanup_failed_start w cfg p r).
Proof. unfold _cleanup_failed_start. by quiet_tac. Qed.
#[local] Hint Resolve quiet_cleanup : quiet.
Lemma quiet_start_handler p actor x : quiet (start_handler w cfg p actor x).
Proof. unfold start_handler. by quiet_tac. Qed.

Lemma start_body_accounted p actor rid s :
  clean s -> accounted in_lease (snd (start_body w cfg p actor rid s)).
Proof.
  intros Hs. unfold start_body. apply pres_reserve; [done| |done]. intros l. by pres_tac.
Qed.

Lemma start_clean p actor rid : pres clean (_start w cfg p actor rid).
Proof.
  unfold _start. apply in_frame_clean. apply pres_bind; [apply quiet_pres_clean; by quiet_tac|].
  intros pr. apply pres_bind; [apply quiet_pres_clean; by quiet_tac|]. intros _.
  apply pres_bind; [apply quiet_pres_clean; by quiet_tac|]. intros d.
  destruct (benchmark_active d); [apply quiet_pres_clean; by quiet_tac|]. intros s Hs.
  apply (finally_clean (accounted in_lease)).
  - unfold catch. pose proof (start_body_accounted pr actor rid s Hs) as H.
    destruct (start_body _ _ _ _ _ _) as [[?|?] s1]; simpl in *; [done|].
    by apply (quiet_pres_accounted in_lease _ (quiet_start_handler pr actor x)).
  - intros b s' Hs'. unfold start_finally, mbind, M_bind.
    pose proof (quiet_pres_accounted in_lease _ quiet_finish_ticket s' Hs') as H.
    destruct (finish_ticket s') as [[?|?] s2] eqn:E; [by apply release_frame_clean|].
    exfalso. revert E. unfold finish_ticket, mbind, M_bind. simpl.
    by destruct (fr_ticket _).
Qed.

(** ** Stop *)

Lemma quiet_preflight p b : quiet (_fresh_stop_preflight w cfg p b).
Proof. unfold _fresh_stop_preflight, status_unavailable, conflict. by quiet_tac. Qed.
#[local] Hint Resolve quiet_preflight : quiet.

Lemma acquire_spec p actor rid b s :
  clean s ->
  match _acquire_stop_fence w cfg p actor rid b s with
  | (Val (l, _), s') => c_frame s' = c_frame s
      /\ forall l', ours (l_id l') -> held l' (c_file s') -> l = Some l'
  | (Exc _, s') => clean s'
  end.
Proof.
  intros Hs. unfold _acquire_stop_fence. rewrite Hstore. simpl. unfold in_frame.
  match goal with |- context [catch ?m ?h] => set (body := m); set (handler := h) end.
  set (s0 := set_frame empty_frame s).
  assert (accounted in_lease (snd (body s0))) as Hb.
  { unfold body. apply pres_reserve; [done| |done]. intros l. by pres_tac. }
  assert (forall lr s1, body s0 = (Val lr, s1) -> fr_lease (c_frame s1) = fst lr) as Hv.
  { unfold body. intros lr s1. unfold mbind at 1, M_bind at 1.
    destruct (_reserve _ _ _ _ _ _ _) as [[l|x] s2]; [|done].
    unfold mbind at 1, M_bind at 1. simpl. unfold mbind at 1, M_bind at 1. simpl.
    match goal with |- ?m ?s3 = _ -> _ =>
      assert (quiet m) as Hq by quiet_tac; specialize (Hq s3) as [Hf _];
      assert (returns m (fun lr => fst lr = Some l)) as Hr
        by (repeat (apply returns_bind; intros ?); by apply returns_ret);
      intros E end.
    rewrite (Hr _ _ _ E). rewrite E in Hf. simpl in Hf. by rewrite Hf. }
  unfold catch. destruct (body s0) as [[[l r]|x] s1]; simpl in *.
  - specialize (Hv (l, r) s1 eq_refl). simpl in Hv. split; [done|]. intros l' Ho Hl'.
    rewrite <- Hv. by apply Hb.
  - unfold handler, mbind, M_bind. pose proof (release_frame_clean true s1 Hb) as Hc.
    by destruct (release_frame w cfg true s1) as [[?|?] s2].
Qed.

Lemma quiet_stop_handler p actor op force x : quiet (stop_handler w p actor op force x).
Proof. unfold stop_handler. by quiet_tac. Qed.

Lemma stop_body_accounted p actor rid op force b s :
  clean s -> accounted in_lease (snd (stop_body w cfg p actor rid op force b s)).
Proof.
  intros Hs. unfold stop_body. pose proof (acquire_spec p actor rid b s Hs) as H.
  unfold mbind at 1, M_bind at 1.
  destruct (_acquire_stop_fence _ _ _ _ _ _ _) as [[[l r]|x] s1]; [|by apply clean_accounted].
  destruct H as [_ H]. unfold mbind at 1, M_bind at 1. simpl.
  match goal with |- accounted _ (snd (?m ?s2)) =>
    assert (pres (accounted in_lease) m) as Hp by pres_tac; apply Hp end.
  intros l' Ho Hl'. by apply H.
Qed.

Lemma stop_with_fence_clean p actor rid force b : pres clean (_stop_with_fence w cfg p actor rid force b).
Proof.
  unfold _stop_with_fence. cbv zeta. apply in_frame_clean. intros s Hs.
  apply (finally_clean (accounted in_lease)); [|intros; by apply release_frame_clean].
  unfold catch. pose proof (stop_body_accounted p actor rid (if force then "force_stop" else "stop")%string
    force b s Hs) as H.
  destruct (stop_body _ _ _ _ _ _ _ _ _) as [[?|x] s1]; simpl in *; [done|].
  by apply (quiet_pres_accounted in_lease _ (quiet_stop_handler p actor _ force x)).
Qed.

Lemma stop_clean p actor rid : pres clean (_stop w cfg p actor rid).
Proof.
  unfold _stop. apply pres_bind; [apply quiet_pres_clean; by quiet_tac|]. intros pr.
  apply pres_bind; [apply quiet_pres_clean; by quiet_tac|]. intros _. apply stop_with_fence_clean.
Qed.

Lemma restart_clean p actor rid : pres clean (_restart w cfg p actor rid).
Proof. unfold _restart. apply pres_bind; [apply stop_clean|]. intros _. apply start_clean. Qed.

(** ** Confirmations and commands *)

Lemma quiet_consume actor action id : quiet (consume_confirmation w actor action id).
Proof. unfold consume_confirmation. by quiet_tac. Qed.
Lemma quiet_create actor action p pl : quiet (create_confirmation w actor action p pl).
Proof. unfold create_confirmation. by quiet_tac. Qed.
Lemma quiet_payload_profile k pl : quiet (payload_profile k pl).
Proof. unfold payload_profile. by quiet_tac. Qed.
#[local] Hint Resolve quiet_consume quiet_create quiet_payload_profile : quiet.
Lemma quiet_command p actor b : quiet (_command w cfg p actor b).
Proof. unfold _command. by quiet_tac. Qed.
#[local] Hint Resolve quiet_command : quiet.

Lemma confirm_force_stop_clean id actor rid : pres clean (_confirm_force_stop w cfg id actor rid).
Proof.
  unfold _confirm_force_stop.
  repeat (apply pres_bind; [apply quiet_pres_clean; by quiet_tac|intro]).
  apply stop_with_fence_clean.
Qed.

(** ** Switch *)

Lemma transfer_held e l target id ttl f r f' l' :
  transfer_if_owned e (ident_of_lease l) (profile_value target) id ttl f = (Ret r, f') ->
  held l' f' -> l' = Lease target id (l_gen l).
Proof.
  unfold transfer_if_owned, _profile, operation_transaction. simpl.
  rewrite !profile_of_value_value. intros H Hl.
  repeat (split_match; simplify_eq/=). apply commit_ret in H as (-> & -> & _).
  apply written_held in Hl. unfold owned in Hl. to_prop. destruct l'. simpl in *. congruence.
Qed.

Lemma transfer_raise n i target id ttl f x f' :
  transfer_if_owned (w_slot w n) i target id ttl f = (Raise x, f') -> f' = f.
Proof.
  unfold transfer_if_owned, operation_transaction, commit, _atomic_json. intros H.
  destruct (Hsane n) as (_ & _ & _ & _ & _ & _ & Hw).
  repeat (split_match; simplify_eq/=; try done). exfalso. by eapply Hw.
Qed.

Lemma quiet_free_retry p r : quiet (_start_with_free_retry w cfg p r).
Proof. unfold _start_with_free_retry, conflict. by quiet_tac. Qed.
Lemma quiet_stop_for_switch p r f x : quiet (stop_for_switch w cfg p r f x).
Proof. unfold stop_for_switch. by quiet_tac. Qed.
#[local] Hint Resolve quiet_free_retry quiet_stop_for_switch : quiet.

Lemma switch_body_accounted sp tp pl actor lid id s :
  clean s -> accounted in_lease (snd (switch_body w cfg sp tp pl actor lid id s)).
Proof.
  intros Hs. unfold switch_body, conflict. apply pres_reserve; [done| |done]. intros l. by pres_tac.
Qed.

(** A computation that leaves at most the returned lease, recorded as the
    rollback lease. *)
Lemma record_rollback s (l : slot_lease) :
  (forall l', held l' (c_file s) -> l' = l) ->
  accounted in_leases (snd (setf (set_rb_lease (Some l)) s)).
Proof. intros H l' _ Hl'. right. simpl. f_equal. symmetry. by apply H. Qed.

Lemma rollback_reserve sp actor id s :
  accounted in_leases s ->
  accounted in_leases (snd ((l' ← _reserve w cfg sp "rollback" id actor;
    setf (set_rb_lease (Some l')) ;; (mret l' : M slot_lease)) s)).
Proof.
  intros Hs. pose proof (reserve_spec sp "rollback" id actor s) as H. unfold mbind, M_bind.
  destruct (_reserve _ _ _ _ _ _ _) as [[l'|x] s1]; simpl.
  - destruct H as [_ H]. by apply (record_rollback s1).
  - destruct H as [Hf Hl]. intros l'' Ho Hl''. simpl in *. rewrite Hf. by apply Hs, Hl.
Qed.

Lemma rollback_lease_accounted sp actor : pres (accounted in_leases) (rollback_lease w cfg sp actor).
Proof.
  intros s Hs. unfold rollback_lease. rewrite Hstore. unfold mbind at 1, M_bind at 1. simpl.
  destruct (fr_lease (c_frame s)) as [l|] eqn:El.
  - unfold mbind at 1, M_bind at 1. simpl.
    set (l' := Lease _ _ _). set (s0 := snd (now_tick s)).
    match goal with |- context [_reservation_io w ?c _] => set (call := c) end.
    pose proof (io_takes call l' s0
      (fun n f a f' l'' E => transfer_held _ l (pf_id sp) _ _ f a f' l'' E)
      (fun n f x f' E => transfer_raise n _ _ _ _ f x f' E)) as H.
    unfold mbind, M_bind. change (snd (now_tick s)) with s0 in H. simpl.
    change (Cst _ _ _ _ _ _) with s0.
    destruct (_reservation_io w call (Some l') s0) as [[a|x] s1]; simpl.
    + destruct H as [_ H]. intros l'' _ Hl''. right. simpl in *. f_equal. symmetry. by apply H.
    + destruct H as [Hf Hl]. intros l'' Ho Hl''. simpl in *. rewrite Hf. by apply Hs, Hl.
  - unfold mbind at 1, M_bind at 1. simpl. apply (rollback_reserve sp actor). done.
Qed.

Lemma rollback_accounted sp tp pl actor : pres (accounted in_leases) (rollback w cfg sp tp pl actor).
Proof.
  unfold rollback, rollback_body. pose proof (rollback_lease_accounted sp actor).
  repeat first [apply rollback_lease_accounted | pres_step].
Qed.

Lemma switch_handler_accounted sp tp pl actor id x :
  pres (accounted in_leases) (switch_handler w cfg sp tp pl actor id x).
Proof.
  unfold switch_handler. repeat first [apply rollback_accounted | pres_step].
Qed.

Lemma finish_raises {A} id actor action p ok c d st x : returns
  (finish w id actor action p ok c d st ;; (throw x : M A)) (fun _ => False).
Proof. apply returns_bind. by intros _ s a s'. Qed.

Lemma switch_handler_raises sp tp pl actor id x :
  returns (switch_handler w cfg sp tp pl actor id x) (fun _ => False).
Proof.
  unfold switch_handler. destruct (negb _); [by intros s a s'|].
  apply returns_bind. intros _. apply finish_raises.
Qed.

Lemma release_primary l r s : exists s', _release_lease w cfg true l r s = (Val tt, s').
Proof.
  unfold _release_lease, mbind, M_bind.
  assert (exists e s1, _drain_renewal w r s = (Val e, s1)) as (e & s1 & ->).
  { unfold _drain_renewal. destruct (negb r); eexists _, _; reflexivity. }
  destruct l as [l|]; [|by eexists]. unfold catch, mret, M_ret.
  destruct (_clear_reservation w cfg l s1) as [[?|?] s2]; simpl; by eexists.
Qed.

Lemma switch_finally_primary s :
  accounted in_leases s -> clean (snd (switch_finally w cfg true s)).
Proof.
  intros Hs. unfold switch_finally, release_frame, mbind, M_bind, getf, gets.
  set (l := fr_lease (c_frame s)). set (r := fr_renewal (c_frame s)).
  destruct (release_primary l r s) as [s1 E1].
  pose proof (quiet_release true l r s) as [Hf Hq].
  assert (forall l', ours (l_id l') -> held l' (c_file s1) -> fr_rb_lease (c_frame s1) = Some l') as H1.
  { rewrite E1 in *. simpl in *. intros l' Ho Hl'. rewrite Hf.
    destruct (Hs l' Ho (Hq l' Ho Hl')) as [E|E]; [|done]. exfalso. fold l in E.
    pose proof (release_removes true l' r s l' Ho) as Hrm. rewrite <- E, E1 in Hrm. by destruct (Hrm Hl'). }
  rewrite E1. simpl. intros l' Ho Hl'.
  destruct (fr_rb_lease (c_frame s1)) as [l1|] eqn:Erb.
  - apply release_removes in Hl' as [Hl' Hne]; [|done]. apply H1 in Hl'; [|done]. congruence.
  - apply quiet_release in Hl'; [|done]. by apply H1 in Hl'.
Qed.

Lemma switch_finally_success s :
  accounted in_lease s -> clean (snd (switch_finally w cfg false s)).
Proof.
  intros Hs. unfold switch_finally. pose proof (release_frame_clean false s Hs) as H.
  unfold mbind, M_bind, getf, gets in *.
  destruct (release_frame w cfg false s) as [[?|?] s1]; simpl in *; [|done].
  by apply quiet_pres_clean; [apply quiet_release|].
Qed.

Lemma confirm_switch_clean id lid actor : pres clean (_confirm_switch w cfg id lid actor).
Proof.
  unfold _confirm_switch. apply in_frame_clean.
  repeat (apply pres_bind; [apply quiet_pres_clean; by quiet_tac|intro]).
  intros s Hs. unfold finally, catch. rename a3 into tp, a2 into sp, a into pl, a4 into jid.
  pose proof (switch_body_accounted sp tp pl actor lid jid s Hs) as H.
  destruct (switch_body _ _ _ _ _ _ _ _ _) as [[j|x] s1]; simpl in *.
  - pose proof (switch_finally_success s1 H). by destruct (switch_finally _ _ _ _) as [[?|?] s2].
  - assert (accounted in_leases s1) as H' by (intros l Ho Hl; left; by apply H).
    apply (switch_handler_accounted sp tp pl actor jid x) in H'.
    pose proof (switch_handler_raises sp tp pl actor jid x s1) as Hr.
    destruct (switch_handler _ _ _ _ _ _ _ _ _) as [[j|y] s2]; [by specialize (Hr j s2 eq_refl)|].
    simpl in H'. pose proof (switch_finally_primary s2 H').
    by destruct (switch_finally _ _ _ _) as [[?|?] s3].
Qed.

(** ** Maintenance jobs *)

Lemma operation_lease_clean {A} p op rid actor (body : slot_lease -> M A) :
  (forall l, quiet (body l)) -> pres clean (_operation_lease w cfg p op rid actor body).
Proof.
  intros Hb s Hs. unfold _operation_lease. pose proof (reserve_spec p op rid actor s) as H.
  unfold mbind at 1, M_bind at 1. destruct (_reserve _ _ _ _ _ _ _) as [[l|x] s1]; simpl.
  - destruct H as [_ H].
    apply (finally_clean (fun s => forall l', ours (l_id l') -> held l' (c_file s) -> l' = l)).
    + assert (quiet (_assert_lease w true ;; body l)) as Hq by quiet_tac.
      intros l' Ho Hl'. by apply H, (Hq s1).
    + intros b s' Hl l' Ho Hl'. apply release_removes in Hl' as [Hl' Hne]; [|done]. by apply Hne, Hl.
  - destruct H as [_ H]. intros l Ho Hl. by eapply Hs, H.
Qed.

Lemma quiet_bound_job sj p op actor r b : quiet (_run_bound_maintenance_job w sj p op actor r b).
Proof.
  unfold _run_bound_maintenance_job. repeat quiet_step.
  all: destruct (_maintenance_failure _ _) as [[? ?] ?]; by quiet_tac.
Qed.

Lemma maintenance_clean sj p op actor rid : pres clean (_run_maintenance_job w cfg sj p op actor rid).
Proof. apply operation_lease_clean. intros _. apply quiet_bound_job. Qed.

Lemma authorize_held sha e p t k f l :
  held l (snd (authorize_handoff sha e p t k f)) -> held l f.
Proof. by rewrite authorize_unchanged. Qed.

Lemma handoff_job_clean sha sj p op actor cap h :
  pres clean (_run_handoff_maintenance_job w sha sj p op actor cap h).
Proof.
  unfold _run_handoff_maintenance_job. apply quiet_pres_clean. apply (stable_bind keeps).
  - apply quiet_io. intros n f l. unfold handoff_check.
    pose proof (authorize_held sha (w_slot w n) (profile_value (pf_id p)) cap "update" f l) as H.
    by destruct (authorize_handoff _ _ _ _ _ _) as [[?|?] ?].
  - intros ok. unfold conflict. destruct (negb ok); [by quiet_tac|apply quiet_bound_job].
Qed.

Ltac clean_step :=
  first [ assumption
        | apply maintenance_clean | apply handoff_job_clean
        | apply quiet_pres_clean; solve [quiet_tac]
        | match goal with
          | |- pres _ (mbind _ _) => apply pres_bind; [|intro]
          | |- pres _ (catch _ _) => apply pres_catch; [|intro]
          | |- pres _ (match ?x with _ => _ end) => destruct x
          end ].

Lemma create_backup_clean sha sj p pr dest cap actor rid :
  pres clean (_create_backup w cfg sha sj p pr dest cap actor rid).
Proof.
  unfold _create_backup, conflict. repeat clean_step.
  apply quiet_pres_clean, quiet_io. intros n f l. apply authorize_held.
Qed.

Lemma quiet_registered pl : quiet (payload_registered cfg pl).
Proof. unfold payload_registered. by quiet_tac. Qed.
#[local] Hint Resolve quiet_registered : quiet.

Lemma handler_clean sha sj av ut a actor rid :
  pres clean (handler w cfg sha sj av ut a actor rid).
Proof.
  unfold handler, accepted, prepared. destruct a; (apply pres_bind; [|by intros ? ? ?]).
  - apply start_clean.
  - apply stop_clean.
  - apply restart_clean.
  - apply quiet_pres_clean, quiet_command.
  - unfold _prepare_switch. by repeat clean_step.
  - apply confirm_switch_clean.
  - unfold _prepare_force_stop. by repeat clean_step.
  - apply confirm_force_stop_clean.
  - apply create_backup_clean.
  - unfold _prepare_restore, restore_unavailable. by repeat clean_step.
  - unfold _confirm_restore, restore_unavailable. by repeat clean_step.
  - unfold _confirm_retirement. by repeat clean_step.
  - unfold _prepare_world_clone. by repeat clean_step.
  - unfold _confirm_world_clone. by repeat clean_step.
  - unfold _prepare_update. by repeat clean_step.
  - unfold _confirm_update. by repeat clean_step.
Qed.

Lemma scheduled_backup_clean p rid : pres clean (_run_scheduled_backup w cfg p rid).
Proof.
  unfold _run_scheduled_backup. apply pres_bind; [by repeat clean_step|]. intros pr.
  destruct (negb _); [by repeat clean_step|]. apply operation_lease_clean. intros l. by quiet_tac.
Qed.

End Leases.

(** ** Properties *)


(** ** A concrete run *)

Definition demo_world : world := {|
  w_slot := fun _ => demo_env (fl 100);
  w_now := fun n => Z.of_nat n;
  w_recent := fun t cutoff => cutoff <=? t;
  w_file := fun _ f => f;
  w_db := fun _ => [];
  w_ready := fun _ => [];
  w_tx := fun _ => TxRuns None;
  w_io_cancelled := fun _ => false;
  w_await := fun _ => Finished (WorkRet true);
  w_renewal := fun _ => None;
  w_drain := fun _ => None;
  w_pause_cancelled := fun _ => false;
  w_snapshot := fun _ => Snapshot
    [ProfileStatus MINECRAFT RUNNING (Some MINECRAFT) None (Some 0) (Some true)];
  w_observe := fun _ => (demo_env (fl 100), WouldBlock, demo_meta);
  w_uuid := fun n => "uuid"%string;
|}.

Definition demo_operations : list OperationName :=
  [OpStart; OpStop; OpRestart; OpForceStop; OpCommand; OpBackup; OpRestore; OpBenchmark].

Definition demo_cfg : config := {|
  cf_profiles := fun p => Some (mkProfile p demo_operations);
  has_adapter := fun _ => true;
  has_store := true;
  has_status := true;
  has_inspector := true;
  has_service := fun _ _ => true;
|}.

Definition demo_state : cst := Cst empty_db Absent new_coordinator empty_frame [] 0.

Definition demo_start : ctl response * cst :=
  _dispatch demo_world demo_cfg (fun s => s) (mkJobAccepted 0 "" None) (fun _ => "present"%string)
    (fun _ => "conf"%string) (Start MINECRAFT) "alice" "req-1" demo_state.

Lemma demo_sane n : sane_env 7 100 (w_slot demo_world n).
Proof. by repeat split. Qed.


(** ** The benchmark request *)

(** A database that refuses the job insertion after the lease was taken. *)
Definition locked_world : world := {|
  w_slot := w_slot demo_world; w_now := w_now demo_world; w_recent := w_recent demo_world;
  w_file := w_file demo_world; w_db := w_db demo_world; w_ready := w_ready demo_world;
  w_tx := fun _ => TxFails (PyExc (OSError "database is locked"));
  w_io_cancelled := w_io_cancelled demo_world; w_await := w_await demo_world;
  w_renewal := w_renewal demo_world; w_drain := w_drain demo_world;
  w_pause_cancelled := w_pause_cancelled demo_world; w_snapshot := w_snapshot demo_world;
  w_observe := w_observe demo_world; w_uuid := w_uuid demo_world |}.

(** The exception to the rule that requests release their lease:
    [_run_benchmark] inserts its job outside any [try], so when the transaction
    that inserts it fails, the request fails and its reservation stays in the
    file. *)
Theorem run_benchmark_leaks_lease :
  exists x s', _run_benchmark locked_world demo_cfg MINECRAFT "alice" "bench-1" false (Val tt)
                 demo_state = (Exc x, s')
    /\ holds 7 100 (Lease MINECRAFT "bench-1" 0) (c_file s').
Proof.
  eexists _, _. split; [vm_compute; reflexivity|].
  eexists. split; [vm_compute; reflexivity|reflexivity].
Qed.
