(* ===== verification/JobFacts.v ===== *)
(** Every job a request creates is settled when the request is over, on every
    exit but cancellation: [_finish] has moved it out of the active states. *)
From S2P Require Import Prelude Models Slot SlotFacts ControllerDb ControllerDbFacts Readiness.
From S2P Require Import Lifecycle Maintenance Dispatch Hoare LeaseFacts.

(** ** Rows *)

Definition row (id : Z) (d : db) : Prop := exists j, List.In j (jobs d) /\ j_id j = id.

Definition settled (id : Z) (d : db) : Prop :=
  row id d /\ forall j, List.In j (jobs d) -> j_id j = id -> active_state (j_state j) = false.

(** A transaction that moves no finished job back to an active state. *)
Definition terminal_op (o : dbop) : Prop :=
  match o with
  | OFinish _ _ _ _ _ ok _ _ st => active_state (final_state st ok) = false
  | _ => True
  end.

Lemma step_states o d j' :
  terminal_op o -> List.In j' (jobs (run_dbop o d)) ->
  (exists j, List.In j (jobs d) /\ j_id j = j_id j'
     /\ (active_state (j_state j) = false -> active_state (j_state j') = false))
  \/ next_id d <= j_id j'.
Proof.
  intros Ht. assert (forall d0, jobs d0 = jobs d -> List.In j' (jobs d0) ->
    (exists j, List.In j (jobs d) /\ j_id j = j_id j'
      /\ (active_state (j_state j) = false -> active_state (j_state j') = false))
    \/ next_id d <= j_id j') as Hsame.
  { intros d0 ->. left. by exists j'. }
  destruct o; unfold run_dbop; try by apply Hsame.
  - simpl. intros [H|[<-|[]]]%in_app_iff; [left; by exists j'|right; simpl; lia].
  - simpl. intros (j & E & Hin)%in_map_iff. left. exists j. split; [done|].
    destruct (j_id j =? id); subst j'; simpl; [|done]. by split.
  - apply Hsame. unfold _record_event. by destruct (existsb _ _).
  - apply Hsame. apply consume_tables.
  - intros H. assert (List.In j' (map (fun j => if active_state (j_state j)
      then Job (j_id j) (j_profile j) (j_operation j) "failed" (j_created j) (Some now) (j_seq j)
        (Some "controller restarted"%string) else j) (jobs d))) as Hm.
    { revert H. unfold mark_incomplete_jobs. by destruct (0 <? _). }
    apply in_map_iff in Hm as (j & E & Hin). left. exists j. split; [done|].
    destruct (active_state (j_state j)) eqn:Ea; subst j'; simpl; by split.
Qed.

(** What a database step may do to jobs. *)
Definition dgood (d d' : db) : Prop :=
  wf_db d -> wf_db d' /\ forall id, row id d -> row id d' /\ (settled id d -> settled id d').

#[export] Instance dgood_preorder : PreOrder dgood.
Proof.
  split; [by intros d H|]. intros d1 d2 d3 H12 H23 Hw. destruct (H12 Hw) as [Hw2 H2].
  destruct (H23 Hw2) as [Hw3 H3]. split; [done|]. intros id Hr. destruct (H2 id Hr) as [Hr2 Hs2].
  destruct (H3 id Hr2) as [Hr3 Hs3]. split; [done|auto].
Qed.

Lemma dgood_step o d : terminal_op o -> dgood d (run_dbop o d).
Proof.
  intros Ht Hw. split; [by apply wf_db_step|]. intros id Hr.
  assert (row id (run_dbop o d)) as Hr'.
  { destruct Hr as (j & Hin & <-). destruct (step_jobs o d) as (f & ex & E & Hf & _).
    exists (f j). split; [|by apply Hf]. rewrite E. apply in_app_iff. left. by apply in_map. }
  split; [done|]. intros [_ Hs]. split; [done|]. intros j' Hin' Hid.
  destruct (step_states o d j' Ht Hin') as [(j & Hin & Hj & Ha)|Hge].
  - apply Ha, Hs; [done|congruence].
  - exfalso. destruct Hr as (j & Hin & <-). destruct Hw as (_ & _ & _ & Hlt).
    rewrite List.Forall_forall in Hlt. specialize (Hlt j Hin). lia.
Qed.

Lemma dgood_steps ops d : Forall terminal_op ops -> dgood d (run_dbops ops d).
Proof.
  unfold run_dbops. revert d. induction ops as [|o ops IH]; intros d Ho; [done|].
  apply Forall_cons in Ho as [H1 H2]. simpl. etrans; [by apply dgood_step|by apply IH].
Qed.

Lemma finish_settles now id actor action p ok c detail st d :
  active_state (final_state st ok) = false -> row id d ->
  settled id (_finish now id actor action p ok c detail st d).
Proof.
  intros Ha (j & Hin & <-). split.
  - eexists. split; [by apply finish_terminal|done].
  - simpl. intros j' (j0 & E & Hin0)%in_map_iff Hid.
    destruct (j_id j0 =? j_id j) eqn:He; subst j'; simpl; [done|]. to_prop. congruence.
Qed.

Section Jobs.
Context (w : world) (cfg : config).
Hypothesis Htx : forall n, w_tx w n = TxRuns None.
Hypothesis Hforeign : forall n, Forall terminal_op (w_db w n).

(** ** Computations that create and settle no job *)

(** [b] asks for an unchanged frame as well. *)
Definition jk (b : bool) (s s' : cst) : Prop :=
  dgood (c_db s) (c_db s')
  /\ (forall id, List.In (EJob id) (c_trace s') -> List.In (EJob id) (c_trace s))
  /\ (b = true -> c_frame s' = c_frame s).

#[local] Instance jk_preorder b : PreOrder (jk b).
Proof.
  split; [by intros s; split_and!|]. intros s1 s2 s3 (H1 & H2 & F1) (H3 & H4 & F2).
  split_and!; [by trans (c_db s2)|auto|]. intros Hb. rewrite F2 by done. by apply F1.
Qed.

#[local] Abbreviation jquiet b := (stable (jk b)).

Definition not_job (e : event) : Prop := match e with EJob _ => False | _ => True end.

Lemma jquiet_log b e : not_job e -> jquiet b (log e).
Proof.
  intros He s. split_and!; [done| |done]. simpl. intros id [H|[H|[]]]%in_app_iff; [done|]. by subst.
Qed.
Lemma jquiet_set_ready b f : jquiet b (modify (fun s => set_ready (f s) s)).
Proof. intros s. by split_and!. Qed.
Lemma jquiet_set_file b f : jquiet b (modify (fun s => set_file (f s) s)).
Proof. intros s. by split_and!. Qed.
Lemma jquiet_set_file' b f : jquiet b (modify (set_file f)).
Proof. intros s. by split_and!. Qed.
Lemma jquiet_setf f : jquiet false (setf f).
Proof. intros s. by split_and!. Qed.
Lemma jquiet_now_tick b : jquiet b now_tick.
Proof. intros s. by split_and!. Qed.
Lemma jquiet_pass b : jquiet b (pass w).
Proof. intros s. split_and!; [by apply dgood_steps|done..]. Qed.
Lemma jquiet_begin b p : jquiet b (begin_ticket p).
Proof. intros s. unfold begin_ticket. destruct (ready_begin _ _) as [[?|?] ?]; by split_and!. Qed.
Lemma jquiet_in_frame b {A} (m : M A) : jquiet false m -> jquiet b (in_frame m).
Proof.
  intros Hm s. unfold in_frame. destruct (Hm (set_frame empty_frame s)) as (H1 & H2 & _).
  by destruct (m _) as [r s'].
Qed.

Lemma jquiet_transaction b {A} (f : Z -> db -> ctl A * db) :
  (forall now d, dgood d (snd (f now d))) -> jquiet b (_transaction w f).
Proof.
  intros Hf s. unfold _transaction, mbind, M_bind, gets, modify, lift. simpl. rewrite Htx.
  match goal with |- context [f ?n ?d] =>
    specialize (Hf n d); destruct (f n d) as [r d']; simpl in *; split_and!; [|done..];
    trans d; [by apply dgood_steps|done] end.
Qed.

Ltac jquiet_step :=
  first
    [ assumption
    | apply (stable_ret (jk _)) | apply (stable_throw (jk _)) | apply (stable_lift (jk _))
    | apply (stable_gets (jk _)) | apply (stable_getf (jk _)) | apply (stable_when (jk _))
    | apply jquiet_log; exact I
    | apply jquiet_set_ready | apply jquiet_set_file' | apply jquiet_set_file | apply jquiet_setf
    | apply jquiet_now_tick | apply jquiet_pass | apply jquiet_begin
    | solve [auto with jquiet]
    | match goal with
      | |- jquiet _ (mbind _ _) => apply (stable_bind (jk _)); [|intro]
      | |- jquiet _ (catch _ _) => apply (stable_catch (jk _)); [|intro]
      | |- jquiet _ (work _ _) => apply (stable_work (jk _)); intro
      | |- jquiet _ (in_frame _) => apply jquiet_in_frame
      | |- jquiet _ (match ?x with _ => _ end) => destruct x
      | |- jquiet _ (let _ := _ in _) => cbv zeta
      end ].
Ltac jquiet_tac := repeat jquiet_step.

Create HintDb jquiet.

Lemma jquiet_finish b0 id actor action p ok c d st :
  active_state (final_state st ok) = false -> jquiet b0 (finish w id actor action p ok c d st).
Proof.
  intros Ha. unfold finish. apply (stable_bind (jk _)); [|intro; by jquiet_tac].
  apply jquiet_transaction. intros now d0.
  by apply (dgood_step (OFinish now id actor action (Some p) ok c d st)).
Qed.
Lemma jquiet_record_audit b0 actor action p r c d : jquiet b0 (_record_audit w actor action p r c d).
Proof.
  apply jquiet_transaction. intros now d0.
  by apply (dgood_step (OAudit now actor action (Some p) r c d)).
Qed.
Lemma jquiet_record_event b0 p c m : jquiet b0 (record_event w p c m).
Proof.
  apply jquiet_transaction. intros now d0. by apply (dgood_step (OEvent (w_recent w) now (Some p) c m)).
Qed.
Lemma jquiet_audit_sync b0 actor action p c d : jquiet b0 (_audit_rejection_sync w actor action p c d).
Proof.
  unfold _audit_rejection_sync. apply (stable_bind (jk _)); [by jquiet_tac|]. intros n s.
  split_and!; [|done..]. by apply (dgood_step (OAudit (w_now w n) actor action (Some p) "rejected" (Some c) d)).
Qed.
Lemma jquiet_pause b0 : jquiet b0 (pause w).
Proof. unfold pause. by jquiet_tac. Qed.
Lemma jquiet_find_profile b0 p : jquiet b0 (find_profile cfg p).
Proof. unfold find_profile. by jquiet_tac. Qed.
Lemma jquiet_adapter b0 p : jquiet b0 (_adapter cfg p).
Proof. unfold _adapter. by jquiet_tac. Qed.
#[local] Hint Resolve jquiet_record_audit jquiet_record_event jquiet_audit_sync jquiet_pause
  jquiet_find_profile jquiet_adapter : jquiet.
#[local] Hint Extern 1 (jquiet _ (finish _ _ _ _ _ _ _ _ _)) =>
  apply jquiet_finish; reflexivity : jquiet.

Lemma jquiet_require b0 p o actor : jquiet b0 (_require_operation w p o actor).
Proof. unfold _require_operation. by jquiet_tac. Qed.
Lemma jquiet_assert b0 b : jquiet b0 (_assert_lease w b).
Proof. unfold _assert_lease. by jquiet_tac. Qed.
Lemma jquiet_lost b0 {A} n : jquiet b0 (lost_lease w n : M A).
Proof. unfold lost_lease. by jquiet_tac. Qed.
#[local] Hint Resolve jquiet_require jquiet_assert jquiet_lost : jquiet.
Lemma jquiet_await b0 c r d :
  match c with Some e => not_job e | None => True end -> jquiet b0 (_await_lease w c r d).
Proof.
  intros Hc. unfold _await_lease. apply (stable_bind (jk _)); [|intro; by jquiet_tac].
  destruct c; [by apply jquiet_log|by jquiet_tac].
Qed.
Lemma jquiet_io b0 {A} (call : env -> node -> res A * node) c : jquiet b0 (_reservation_io w call c).
Proof. unfold _reservation_io. by jquiet_tac. Qed.
Lemma jquiet_drain b0 b : jquiet b0 (_drain_renewal w b).
Proof. unfold _drain_renewal. by jquiet_tac. Qed.
#[local] Hint Extern 1 (jquiet _ (_await_lease _ _ _ _)) => apply jquiet_await; exact I : jquiet.
#[local] Hint Resolve @jquiet_io jquiet_drain : jquiet.
Lemma jquiet_clear b0 l : jquiet b0 (_clear_reservation w cfg l).
Proof. unfold _clear_reservation. by jquiet_tac. Qed.
#[local] Hint Resolve jquiet_clear : jquiet.
Lemma jquiet_release b0 p l r : jquiet b0 (_release_lease w cfg p l r).
Proof. unfold _release_lease. by jquiet_tac. Qed.
Lemma jquiet_reserve_failed b0 p op actor x : jquiet b0 (reserve_failed w p op actor x).
Proof. unfold reserve_failed. by jquiet_tac. Qed.
#[local] Hint Resolve jquiet_release jquiet_reserve_failed : jquiet.
Lemma jquiet_reserve b0 p op id actor : jquiet b0 (_reserve w cfg p op id actor).
Proof. unfold _reserve, reserve_lease. by jquiet_tac. Qed.
#[local] Hint Resolve jquiet_reserve : jquiet.

Lemma jquiet_wait_free b0 p r : jquiet b0 (_wait_for_free_slot w p r).
Proof. unfold _wait_for_free_slot. by jquiet_tac. Qed.
Lemma jquiet_probe b0 p r : jquiet b0 (_probe_start_health w p r).
Proof. unfold _probe_start_health. by jquiet_tac. Qed.
Lemma jquiet_start b0 p r : jquiet b0 (adapter_start w cfg p r).
Proof. unfold adapter_start. by jquiet_tac. Qed.
Lemma jquiet_graceful b0 p r : jquiet b0 (adapter_graceful_stop w cfg p r).
Proof. unfold adapter_graceful_stop. by jquiet_tac. Qed.
Lemma jquiet_force b0 p r : jquiet b0 (adapter_force_stop w cfg p r).
Proof. unfold adapter_force_stop. by jquiet_tac. Qed.
Lemma jquiet_notify b0 o : jquiet b0 (notify_ticket o).
Proof. unfold notify_ticket. by jquiet_tac. Qed.
Lemma jquiet_finish_ticket b0 : jquiet b0 finish_ticket.
Proof. unfold finish_ticket. by jquiet_tac. Qed.
#[local] Hint Resolve jquiet_wait_free jquiet_probe jquiet_start jquiet_graceful jquiet_force
  jquiet_notify jquiet_finish_ticket : jquiet.
Lemma jquiet_cleanup b0 p r : jquiet b0 (_cleanup_failed_start w cfg p r).
Proof. unfold _cleanup_failed_start. by jquiet_tac. Qed.
Lemma jquiet_release_frame b0 b : jquiet b0 (release_frame w cfg b).
Proof. unfold release_frame. by jquiet_tac. Qed.
Lemma jquiet_preflight b0 p b : jquiet b0 (_fresh_stop_preflight w cfg p b).
Proof. unfold _fresh_stop_preflight, status_unavailable, conflict. by jquiet_tac. Qed.
#[local] Hint Resolve jquiet_cleanup jquiet_release_frame jquiet_preflight : jquiet.
Lemma jquiet_acquire b0 p actor rid b : jquiet b0 (_acquire_stop_fence w cfg p actor rid b).
Proof. unfold _acquire_stop_fence. by jquiet_tac. Qed.
Lemma jquiet_free_retry b0 p r : jquiet b0 (_start_with_free_retry w cfg p r).
Proof. unfold _start_with_free_retry, conflict. by jquiet_tac. Qed.
Lemma jquiet_stop_for_switch b0 p r f x : jquiet b0 (stop_for_switch w cfg p r f x).
Proof. unfold stop_for_switch. by jquiet_tac. Qed.
#[local] Hint Resolve jquiet_acquire jquiet_free_retry jquiet_stop_for_switch : jquiet.
Lemma jquiet_rollback sp tp pl actor : jquiet false (rollback w cfg sp tp pl actor).
Proof. unfold rollback, rollback_body, rollback_lease. by jquiet_tac. Qed.

(** ** Pending jobs *)

(** Every job of the trace is stored, and settled unless it is in [P]. *)
Definition JI (P : list Z) (s : cst) : Prop :=
  wf_db (c_db s) /\ forall id, List.In (EJob id) (c_trace s) ->
    row id (c_db s) /\ (settled id (c_db s) \/ List.In id P).

(** ... and the frame's job is [j]. *)
Definition JA (P : list Z) (j : option Z) (s : cst) : Prop := JI P s /\ fr_job (c_frame s) = j.

Definition none {A} : A -> cst -> Prop := fun _ _ => False.

Lemma JI_mono P Q s : (forall x, List.In x P -> List.In x Q) -> JI P s -> JI Q s.
Proof. intros Hpq [Hw H]. split; [done|]. intros id Hid. destruct (H id Hid) as [? [?|?]]; auto. Qed.

Lemma JI_jk b P s s' : jk b s s' -> JI P s -> JI P s'.
Proof.
  intros (Hd & Ht & _) [Hw H]. destruct (Hd Hw) as [Hw' Hd']. split; [done|]. intros id Hid.
  destruct (H id (Ht id Hid)) as [Hr Hs]. destruct (Hd' id Hr) as [Hr' Hs']. split; [done|].
  destruct Hs; auto.
Qed.

Lemma JA_quiet {A} P j (m : M A) : jquiet true m -> tri (JA P j) m (fun _ => JA P j) (fun _ => JA P j).
Proof.
  intros Hm. apply tri_pres. intros s [Hs Hj]. pose proof (Hm s) as Hk. split; [exact (JI_jk _ _ _ _ Hk Hs)|].
  destruct Hk as (_ & _ & ->); done.
Qed.

Lemma JI_quiet {A} b P (m : M A) : jquiet b m -> tri (JI P) m (fun _ => JI P) (fun _ => JI P).
Proof. intros Hm. apply tri_pres. intros s Hs. exact (JI_jk _ _ _ _ (Hm s) Hs). Qed.

Lemma JA_setf P j f : (forall fr, fr_job (f fr) = fr_job fr) ->
  tri (JA P j) (setf f) (fun _ => JA P j) none.
Proof. intros Hf s [Hs Hj]. split; [done|]. simpl. by rewrite Hf. Qed.

Lemma transaction_val {A} (f : Z -> db -> ctl A * db) s :
  exists n d, dgood (c_db s) d /\
    _transaction w f s =
      (fst (f (w_now w n) d),
       Cst (snd (f (w_now w n) d)) (w_file w n (c_file s)) (run_rops (w_ready w n) (c_ready s))
         (c_frame s) (c_trace s) (S n)).
Proof.
  exists (c_tick s), (run_dbops (w_db w (c_tick s)) (c_db s)). split; [by apply dgood_steps|].
  unfold _transaction, mbind, M_bind, gets, modify, lift. simpl. rewrite Htx.
  by destruct (f _ _) as [r d'].
Qed.

Lemma tri_job_intent P j actor action p :
  tri (JA P j) (job_intent w actor action p) (fun id => JA (id :: P) j) none.
Proof.
  intros s [[Hw H] Hj]. unfold job_intent, mbind, M_bind.
  match goal with |- context [_transaction w ?f s] => destruct (transaction_val f s) as (n & d & Hd & ->) end.
  simpl. destruct (Hd Hw) as [Hwd Hrows]. split; [|done].
  set (o := OJobIntent (w_now w n) actor action (Some p)).
  destruct (dgood_step o d I Hwd) as [Hw' Hs']. split; [done|]. simpl.
  intros id [Hid|[[= <-]|[]]]%in_app_iff.
  - destruct (H id Hid) as [Hr Hset]. destruct (Hrows id Hr) as [Hr1 Hs1].
    destruct (Hs' id Hr1) as [Hr2 Hs2]. split; [done|]. destruct Hset; auto.
  - split; [|by right; left]. eexists. split; [apply in_app_iff; right; by left|done].
Qed.

Lemma tri_finish P j id actor action p ok c d st :
  active_state (final_state st ok) = false ->
  tri (JA (id :: P) j) (finish w id actor action p ok c d st) (fun _ => JA P j) none.
Proof.
  intros Ha s [[Hw H] Hj]. unfold finish, mbind, M_bind.
  match goal with |- context [_transaction w ?f s] => destruct (transaction_val f s) as (n & d0 & Hd & ->) end.
  simpl. destruct (Hd Hw) as [Hwd Hrows]. split; [|done].
  set (o := OFinish (w_now w n) id actor action (Some p) ok c d st).
  destruct (dgood_step o d0 Ha Hwd) as [Hw' Hs']. split; [done|]. simpl.
  intros id' [Hid|[[=]|[]]]%in_app_iff.
  destruct (H id' Hid) as [Hr Hset]. destruct (Hrows id' Hr) as [Hr1 Hs1].
  destruct (Hs' id' Hr1) as [Hr2 Hs2]. split; [done|].
  destruct Hset as [Hset|[<-|Hin]]; [left; by apply Hs2, Hs1| |by right].
  left. by apply finish_settles.
Qed.

(** Exits of a handler: settled, or cancelled. *)
Definition done_or_cancelled (x : exc) (s : cst) : Prop := x = CancelledExc \/ JI [] s.

(** What an [except] clause of start and stop finds. *)
Definition JX (s : cst) : Prop := JI (option_list (fr_job (c_frame s))) s.

Lemma JA_JX0 j s : JA [] j s -> JX s.
Proof. intros [H _]. eapply JI_mono; [|exact H]. done. Qed.
Lemma JA_JX1 id s : JA [id] (Some id) s -> JX s.
Proof. intros [H Hj]. unfold JX. by rewrite Hj. Qed.

(** Sequencing a step that touches no job, a frame update, a job creation. *)
Lemma seq_quiet {A B} P j (m : M A) (k : A -> M B) Q (E : exc -> cst -> Prop) :
  jquiet true m -> (forall x s, JA P j s -> E x s) ->
  (forall a, tri (JA P j) (k a) Q E) -> tri (JA P j) (mbind k m) Q E.
Proof.
  intros Hm HE Hk. eapply tri_bind; [|exact Hk].
  eapply tri_conseq; [by apply JA_quiet|done|done|]. apply HE.
Qed.

Lemma seq_setf {B} P j f (k : unit -> M B) Q E :
  (forall fr, fr_job (f fr) = fr_job fr) ->
  (forall a, tri (JA P j) (k a) Q E) -> tri (JA P j) (mbind k (setf f)) Q E.
Proof.
  intros Hf Hk. eapply tri_bind; [|exact Hk].
  eapply tri_conseq; [by apply JA_setf|done|done|done].
Qed.

Lemma seq_set_job {B} P j id (k : unit -> M B) Q E :
  tri (JA P (Some id)) (k tt) Q E -> tri (JA P j) (mbind k (setf (set_job (Some id)))) Q E.
Proof. intros Hk s [Hs Hj]. apply (Hk _). by split. Qed.

Lemma seq_job_intent {B} P j actor action p (k : Z -> M B) Q E :
  (forall id, tri (JA (id :: P) j) (k id) Q E) ->
  tri (JA P j) (mbind k (job_intent w actor action p)) Q E.
Proof.
  intros Hk. eapply tri_bind; [|exact Hk].
  eapply tri_conseq; [apply tri_job_intent|done|done|done].
Qed.

Lemma seq_finish {B} P j id actor action p ok c d st (k : unit -> M B) Q E :
  active_state (final_state st ok) = false -> (forall a, tri (JA P j) (k a) Q E) ->
  tri (JA (id :: P) j) (mbind k (finish w id actor action p ok c d st)) Q E.
Proof.
  intros Ha Hk. eapply tri_bind; [|exact Hk].
  eapply tri_conseq; [by apply tri_finish|done|done|done].
Qed.

Lemma tri_throw_JA {A} P j x (Q : A -> cst -> Prop) E :
  (forall s, JA P j s -> E x s) -> tri (JA P j) (throw x) Q E.
Proof. intros H s Hs. by apply H. Qed.

Create HintDb jx.
#[local] Hint Resolve JA_JX0 JA_JX1 : jx.

Ltac jseq :=
  first
    [ apply seq_setf; [done|intro]
    | apply seq_set_job
    | apply seq_job_intent; intro
    | apply seq_finish; [reflexivity|intro]
    | apply seq_quiet; [solve [jquiet_tac]|by eauto with jx|intro]
    | apply tri_throw_JA; by eauto with jx
    | match goal with |- tri _ (if ?b then _ else _) _ _ => destruct b end
    | cbv zeta ].

Lemma start_body_jobs p actor rid :
  tri (JA [] None) (start_body w cfg p actor rid) (fun _ => JI []) (fun _ => JX).
Proof.
  unfold start_body. do 3 jseq. jseq. jseq. repeat jseq. apply tri_ret. by intros s [? _].
Qed.

(** Clauses that swallow ordinary exceptions raise only cancellation. *)
Definition only_cancelled {A} (m : M A) : Prop := forall s x s', m s = (Exc x, s') -> x = CancelledExc.

Lemma only_cancelled_catch {A} (m : M A) (r : exc -> A) :
  only_cancelled (catch m (fun x => if is_exception x then mret (r x) else throw x)).
Proof.
  intros s x s'. unfold catch. destruct (m s) as [[a|y] s1]; [done|].
  destruct y; simpl; try done. by intros [= <- _].
Qed.
Lemma only_cancelled_bind {A B} (m : M A) (k : A -> M B) :
  only_cancelled m -> (forall a, only_cancelled (k a)) -> only_cancelled (mbind k m).
Proof.
  intros Hm Hk s x s'. unfold mbind, M_bind. destruct (m s) as [[a|y] s1] eqn:E; [apply Hk|].
  intros [= -> ->]. by apply Hm in E.
Qed.
Lemma only_cancelled_silent f : only_cancelled (_transaction w (silent f)).
Proof. intros s x s'. by destruct (transaction_val (silent f) s) as (n & d & _ & ->). Qed.
Lemma only_cancelled_ret {A} (a : A) : only_cancelled (mret a).
Proof. by intros s x s'. Qed.

Lemma cleanup_only_cancelled p r : only_cancelled (_cleanup_failed_start w cfg p r).
Proof.
  unfold _cleanup_failed_start. apply only_cancelled_bind.
  - apply (only_cancelled_catch _ (fun _ => cleanup_failed)).
  - intros [[? ?] ?]. apply (only_cancelled_catch _ (fun _ => tt)).
Qed.

Lemma rollback_only_cancelled sp tp pl actor : only_cancelled (rollback w cfg sp tp pl actor).
Proof.
  unfold rollback. cbv zeta. repeat (apply only_cancelled_bind; [apply only_cancelled_silent|intro]).
  apply only_cancelled_bind; [apply (only_cancelled_catch _ (fun _ => false))|]. intros [];
    (apply only_cancelled_bind; [|intro]; apply only_cancelled_silent).
Qed.

(** Sequencing a step that touches no job and raises only cancellation. *)
Lemma seq_cancellable {A B} P j (m : M A) (k : A -> M B) Q :
  jquiet true m -> only_cancelled m -> (forall a, tri (JA P j) (k a) Q done_or_cancelled) ->
  tri (JA P j) (mbind k m) Q done_or_cancelled.
Proof.
  intros Hm Hc Hk. eapply tri_bind; [|exact Hk]. intros s Hs.
  pose proof (JA_quiet P j m Hm s Hs) as Hq. pose proof (Hc s) as Hx.
  destruct (m s) as [[a|x] s1]; [done|]. left. by apply (Hx x s1).
Qed.

Lemma tri_JX {A} (m : M A) Q E : (forall j, tri (JA (option_list j) j) m Q E) -> tri JX m Q E.
Proof. intros H s Hs. apply (H (fr_job (c_frame s))). by split. Qed.

Lemma tri_finish_job j actor action p ok c d :
  tri (JA (option_list j) j) (finish_job w actor action p ok c d) (fun _ => JI []) none.
Proof.
  intros s [Hs Hj]. unfold finish_job, mbind, M_bind, getf, gets. rewrite Hj.
  destruct j as [id|]; [|done].
  assert (active_state (final_state None ok) = false) as Ha by by destruct ok.
  pose proof (tri_finish [] (Some id) id actor action p ok c d None Ha s (conj Hs Hj)) as H.
  destruct (finish _ _ _ _ _ _ _ _ _ _) as [[?|?] s1]; [by destruct H|done].
Qed.

Lemma only_cancelled_getf {A} (f : frame -> A) : only_cancelled (getf f).
Proof. by intros s x s'. Qed.
Lemma only_cancelled_notify o : only_cancelled (notify_ticket o).
Proof. intros s x s'. unfold notify_ticket, mbind, M_bind. simpl. by destruct (fr_ticket _). Qed.
Lemma only_cancelled_when b m : only_cancelled m -> only_cancelled (when b m).
Proof. intros Hm. destruct b; [done|apply only_cancelled_ret]. Qed.

Lemma finish_then_raise {A} j actor action p ok c d x :
  tri (JA (option_list j) j) (finish_job w actor action p ok c d ;; (throw x : M A)) none
    done_or_cancelled.
Proof.
  eapply tri_bind; [eapply tri_conseq; [apply tri_finish_job|done|done|done]|].
  intros _ s Hs. by right.
Qed.

Lemma start_handler_jobs p actor x :
  tri JX (start_handler w cfg p actor x) none done_or_cancelled.
Proof.
  apply tri_JX. intros j.
  assert (forall o actor c d y, tri (JA (option_list j) j)
    (started ← getf fr_started; renewal ← getf fr_renewal;
     when started (_cleanup_failed_start w cfg p renewal) ;;
     notify_ticket o ;; finish_job w actor "start" (pf_id p) false c d ;; (throw y : M JobAccepted))
    none done_or_cancelled) as H.
  { intros. apply seq_cancellable; [by jquiet_tac|apply only_cancelled_getf|intro].
    apply seq_cancellable; [by jquiet_tac|apply only_cancelled_getf|intro].
    apply seq_cancellable; [by jquiet_tac|apply only_cancelled_when, cleanup_only_cancelled|intro].
    apply seq_cancellable; [by jquiet_tac|apply only_cancelled_notify|intro].
    apply finish_then_raise. }
  destruct x; try apply H. intros s _. by left.
Qed.

Lemma in_frame_jobs {A} (m : M A) Q :
  tri (JA [] None) m (fun _ => JI []) Q -> (forall x s, Q x s -> done_or_cancelled x s) ->
  tri (JI []) (in_frame m) (fun _ => JI []) done_or_cancelled.
Proof.
  intros Hm HQ s Hs. unfold in_frame. specialize (Hm (set_frame empty_frame s) (conj Hs eq_refl)).
  destruct (m _) as [[a|x] s1]; [done|]. destruct (HQ x s1 Hm) as [->|H]; [by left|by right].
Qed.

(** A [finally] clause that touches no job; with an active exception it does not
    raise. *)
Lemma finally_jobs {A} P j (m : M A) f :
  tri (JA P j) m (fun _ => JI []) done_or_cancelled -> (forall b, jquiet false (f b)) ->
  (forall s, exists s', f true s = (Val tt, s')) ->
  tri (JA P j) (finally m f) (fun _ => JI []) done_or_cancelled.
Proof.
  intros Hm Hf Ht s Hs. specialize (Hm s Hs). unfold finally. destruct (m s) as [[a|x] s1].
  - pose proof (JI_quiet false [] (f false) (Hf false) s1 Hm) as Hq.
    destruct (f false s1) as [[?|?] s2]; [done|by right].
  - destruct (Ht s1) as [s2 E]. pose proof (Hf true s1) as Hq. rewrite E in *.
    destruct Hm as [->|Hm]; [by left|]. right. exact (JI_jk _ _ _ _ Hq Hm).
Qed.

Lemma release_frame_primary s : exists s', release_frame w cfg true s = (Val tt, s').
Proof. unfold release_frame, mbind, M_bind. simpl. apply release_primary. Qed.

Lemma start_jobs p actor rid : tri (JI []) (_start w cfg p actor rid) (fun _ => JI []) done_or_cancelled.
Proof.
  unfold _start. eapply in_frame_jobs; [|by intros].
  assert (forall x s, JA [] None s -> done_or_cancelled x s) as Hd by (intros x s [? _]; by right).
  apply seq_quiet; [by jquiet_tac|done|intros pr].
  apply seq_quiet; [by jquiet_tac|done|intros _].
  apply seq_quiet; [by jquiet_tac|done|intros d]. destruct (benchmark_active d).
  { apply seq_quiet; [by jquiet_tac|done|intros _]. apply tri_throw_JA. auto. }
  apply finally_jobs.
  - eapply tri_catch; [apply start_body_jobs|]. intros x.
    eapply tri_conseq; [apply start_handler_jobs|done|done|done].
  - intros b. unfold start_finally. by jquiet_tac.
  - intros s. unfold start_finally, finish_ticket, mbind, M_bind. simpl.
    destruct (fr_ticket (c_frame s)); apply release_frame_primary.
Qed.

(** ** Stop *)

Lemma stop_body_jobs p actor rid op force b :
  tri (JA [] None) (stop_body w cfg p actor rid op force b) (fun _ => JI []) (fun _ => JX).
Proof.
  unfold stop_body. apply seq_quiet; [by jquiet_tac|by eauto with jx|]. intros [l r].
  repeat jseq. apply tri_ret. by intros s [? _].
Qed.

Lemma stop_handler_jobs p actor op force x :
  tri JX (stop_handler w p actor op force x) none done_or_cancelled.
Proof.
  apply tri_JX. intros j. destruct x; try apply finish_then_raise. intros s _. by left.
Qed.

Lemma stop_with_fence_jobs p actor rid force b :
  tri (JI []) (_stop_with_fence w cfg p actor rid force b) (fun _ => JI []) done_or_cancelled.
Proof.
  unfold _stop_with_fence. cbv zeta. eapply in_frame_jobs; [|by intros]. apply finally_jobs.
  - eapply tri_catch; [apply stop_body_jobs|]. intros x.
    eapply tri_conseq; [apply stop_handler_jobs|done|done|done].
  - intros c. by jquiet_tac.
  - apply release_frame_primary.
Qed.

(** ** Whole handlers *)

Definition jobs_ok {A} (m : M A) : Prop := tri (JI []) m (fun _ => JI []) done_or_cancelled.

Lemma jobs_ok_frame {A} (m : M A) :
  (forall j, tri (JA [] j) m (fun _ => JI []) done_or_cancelled) -> jobs_ok m.
Proof. intros H s Hs. by apply (H (fr_job (c_frame s))). Qed.

Lemma jobs_ok_bind {A B} (m : M A) (k : A -> M B) :
  jobs_ok m -> (forall a, jobs_ok (k a)) -> jobs_ok (mbind k m).
Proof. intros Hm Hk. eapply tri_bind; [exact Hm|exact Hk]. Qed.

Lemma jobs_ok_quiet {A} (m : M A) : jquiet false m -> jobs_ok m.
Proof.
  intros Hm. eapply tri_conseq; [by apply (JI_quiet false [])|done|done|]. intros x s Hs. by right.
Qed.

Lemma jobs_ok_JA {A} j (m : M A) : jobs_ok m -> tri (JA [] j) m (fun _ => JI []) done_or_cancelled.
Proof. intros Hm s [Hs _]. by apply Hm. Qed.

Lemma stop_jobs p actor rid : jobs_ok (_stop w cfg p actor rid).
Proof.
  unfold _stop. apply jobs_ok_bind; [apply jobs_ok_quiet; by jquiet_tac|intro].
  apply jobs_ok_bind; [apply jobs_ok_quiet; by jquiet_tac|intro]. apply stop_with_fence_jobs.
Qed.

Lemma JA0_done j x s : JA [] j s -> done_or_cancelled x s.
Proof. intros [? _]. by right. Qed.
#[local] Hint Resolve JA0_done : jx.

(** A job whose work is awaited and whose failure is settled by the clause. *)
Lemma seq_settled {A B} P j (m : M A) h (k : A -> M B) Q E :
  jquiet true m -> (forall x, tri (JA P j) (h x) none E) ->
  (forall a, tri (JA P j) (k a) Q E) -> tri (JA P j) (mbind k (catch m h)) Q E.
Proof.
  intros Hm Hh Hk. eapply tri_bind; [|exact Hk].
  eapply tri_catch; [by apply JA_quiet|]. intros x.
  eapply tri_conseq; [apply Hh|done|done|done].
Qed.

Lemma tri_cancel {A} P j (Q : A -> cst -> Prop) : tri (JA P j) (throw CancelledExc) Q done_or_cancelled.
Proof. intros s _. by left. Qed.

Lemma command_jobs p actor web : jobs_ok (_command w cfg p actor web).
Proof.
  apply jobs_ok_frame. intros j. unfold _command. do 2 jseq. jseq; [by repeat jseq|]. jseq.
  apply seq_settled; [by jquiet_tac| |].
  - intros x. destruct x; try apply tri_cancel; cbv zeta; repeat jseq.
  - intros _. repeat jseq. apply tri_ret. by intros s [? _].
Qed.

Lemma quiet_consume_jobs b actor action id : jquiet b (consume_confirmation w actor action id).
Proof.
  apply jquiet_transaction. intros now d.
  pose proof (dgood_step (OConsume now actor action id) d I) as H. simpl in H.
  by destruct (ControllerDb._consume_confirmation _ _ _ _ _) as [[?|?] ?].
Qed.
Lemma quiet_create_jobs b actor action p pl : jquiet b (create_confirmation w actor action p pl).
Proof.
  unfold create_confirmation. do 2 (apply (stable_bind (jk b)); [by jquiet_tac|intro]).
  apply jquiet_transaction. intros now d.
  by apply (dgood_step (OCreate (w_now w a) (_current_generation a0) actor action p pl)).
Qed.
Lemma quiet_payload_jobs b k pl : jquiet b (payload_profile k pl).
Proof. unfold payload_profile. by jquiet_tac. Qed.
#[local] Hint Resolve quiet_consume_jobs quiet_create_jobs quiet_payload_jobs : jquiet.

Lemma confirm_force_stop_jobs id actor rid : jobs_ok (_confirm_force_stop w cfg id actor rid).
Proof.
  unfold _confirm_force_stop.
  repeat (apply jobs_ok_bind; [apply jobs_ok_quiet; by jquiet_tac|intro]).
  apply stop_with_fence_jobs.
Qed.

(** ** Switch *)

Lemma switch_body_jobs sp tp pl actor lid id :
  tri (JA [id] None) (switch_body w cfg sp tp pl actor lid id) (fun _ => JI []) (fun _ => JI [id]).
Proof.
  assert (forall (x : exc) s, JA [id] None s -> JI [id] s) as H1 by by intros x s [? _].
  assert (forall (x : exc) s, JA [] None s -> JI [id] s) as H2.
  { intros x s [? _]. eapply JI_mono; [|done]. done. }
  unfold switch_body, conflict.
  repeat first
    [ apply seq_setf; [done|intro]
    | apply seq_finish; [reflexivity|intro]
    | apply seq_quiet; [solve [jquiet_tac]|done|intro]
    | match goal with |- tri _ (if ?b then _ else _) _ _ => destruct b end ].
  - apply tri_throw_JA. intros s Hs. by eapply (H1 CancelledExc).
  - apply tri_throw_JA. intros s Hs. by eapply (H1 CancelledExc).
  - apply tri_ret. by intros s [? _].
Qed.

Lemma switch_handler_jobs sp tp pl actor id x :
  tri (JI [id]) (switch_handler w cfg sp tp pl actor id x) none done_or_cancelled.
Proof.
  unfold switch_handler. destruct x; simpl; try (intros s _; by left).
  all: intros s Hs; unfold mbind at 1, M_bind at 1;
    pose proof (stable_when (jk false) (flag "rollback_on_failure" true pl) _
      (jquiet_rollback sp tp pl actor) s) as Hq;
    pose proof (only_cancelled_when (flag "rollback_on_failure" true pl) _
      (rollback_only_cancelled sp tp pl actor) s) as Hc;
    destruct (when _ _ s) as [[?|y] s1]; [|left; by eapply Hc];
    simpl in Hq; apply (JI_jk _ _ _ _ Hq) in Hs;
    match goal with |- match ?m s1 with _ => _ end =>
      assert (forall j, tri (JA [id] j) m none done_or_cancelled) as Ht by (intros j; repeat jseq);
      apply (Ht (fr_job (c_frame s1)) s1); by split end.
Qed.

Lemma switch_finally_jobs_primary s : exists s', switch_finally w cfg true s = (Val tt, s').
Proof.
  unfold switch_finally, mbind, M_bind. destruct (release_frame_primary s) as [s1 ->]. simpl.
  apply release_primary.
Qed.

Lemma confirm_switch_jobs id lid actor : jobs_ok (_confirm_switch w cfg id lid actor).
Proof.
  unfold _confirm_switch. eapply in_frame_jobs; [|by intros].
  do 5 (apply seq_quiet; [by jquiet_tac|by eauto with jx|intro]).
  apply seq_job_intent. intros jid. apply finally_jobs.
  - eapply tri_catch; [apply switch_body_jobs|]. intros x.
    eapply tri_conseq; [apply switch_handler_jobs|done|done|done].
  - intros b. unfold switch_finally. by jquiet_tac.
  - apply switch_finally_jobs_primary.
Qed.

(** ** Maintenance *)

Lemma operation_lease_jobs {A} p op rid actor (body : slot_lease -> M A) :
  (forall l, jobs_ok (body l)) -> jobs_ok (_operation_lease w cfg p op rid actor body).
Proof.
  intros Hb. apply jobs_ok_frame. intros j. unfold _operation_lease.
  apply seq_quiet; [by jquiet_tac|by eauto with jx|]. intros l. apply finally_jobs.
  - apply jobs_ok_JA. apply jobs_ok_bind; [apply jobs_ok_quiet; by jquiet_tac|]. intros _. apply Hb.
  - intros b. by jquiet_tac.
  - intros s. apply release_primary.
Qed.

Lemma tri_raise_failure {A} j f : tri (JA [] j) (raise_failure f : M A) none done_or_cancelled.
Proof. destruct f as [[? ?] ?]. intros s0 [? _]. by right. Qed.

Lemma bound_job_jobs sj p op actor r b : jobs_ok (_run_bound_maintenance_job w sj p op actor r b).
Proof.
  apply jobs_ok_frame. intros j. unfold _run_bound_maintenance_job. jseq.
  apply seq_settled; [by jquiet_tac| |].
  - intros x. destruct x; cbv zeta; (apply seq_finish; [reflexivity|intro]);
      first [apply tri_raise_failure | apply tri_cancel].
  - intros own. jseq. destruct (_ && _); apply tri_ret; by intros s [? _].
Qed.

Lemma maintenance_jobs sj p op actor rid : jobs_ok (_run_maintenance_job w cfg sj p op actor rid).
Proof. apply operation_lease_jobs. intros _. apply bound_job_jobs. Qed.

Lemma handoff_jobs sha sj p op actor cap h :
  jobs_ok (_run_handoff_maintenance_job w sha sj p op actor cap h).
Proof.
  unfold _run_handoff_maintenance_job, conflict. apply jobs_ok_bind; [apply jobs_ok_quiet; by jquiet_tac|].
  intros ok. destruct (negb ok); [apply jobs_ok_quiet; by jquiet_tac|apply bound_job_jobs].
Qed.

Lemma quiet_registered_jobs b pl : jquiet b (payload_registered cfg pl).
Proof. unfold payload_registered. by jquiet_tac. Qed.
#[local] Hint Resolve quiet_registered_jobs : jquiet.

Ltac jobs_step :=
  first [ apply maintenance_jobs | apply handoff_jobs
        | apply jobs_ok_quiet; solve [jquiet_tac]
        | match goal with
          | |- jobs_ok (mbind _ _) => apply jobs_ok_bind; [|intro]
          | |- jobs_ok (match ?x with _ => _ end) => destruct x
          end ].

Lemma handler_jobs sha sj av ut a actor rid : jobs_ok (handler w cfg sha sj av ut a actor rid).
Proof.
  unfold handler, accepted, prepared, _restart, _prepare_switch, _prepare_force_stop,
    _create_backup, _prepare_restore, _confirm_restore, _confirm_retirement, _prepare_world_clone,
    _confirm_world_clone, _prepare_update, _confirm_update, conflict, restore_unavailable.
  destruct a;
    repeat first [ apply start_jobs | apply stop_jobs | apply command_jobs
                 | apply confirm_switch_jobs | apply confirm_force_stop_jobs | jobs_step ].
Qed.

Lemma scheduled_backup_jobs p rid : jobs_ok (_run_scheduled_backup w cfg p rid).
Proof.
  unfold _run_scheduled_backup. apply jobs_ok_bind; [by jobs_step|]. intros pr.
  destruct (negb _); [by jobs_step|]. apply operation_lease_jobs. intros l.
  apply jobs_ok_frame. intros j. jseq. apply seq_settled; [by jquiet_tac| |].
  - intros x. destruct x; cbv zeta; try (apply seq_finish; [reflexivity|intro]);
      try apply tri_throw_JA; eauto with jx.
    destruct (String.eqb code "profile_running");
      (apply seq_finish; [reflexivity|intro]); apply tri_throw_JA; eauto with jx.
  - intros _. jseq. apply tri_ret. by intros s [? _].
Qed.
End Jobs.

(** ** Properties *)


