(* ===== verification/ProtocolFacts.v ===== *)
(** The order of the calls a lifecycle request makes: a start command is sent
    only under a reservation and after the slot was found free, a failed start is
    cleaned up, a graceful stop follows a passed preflight. *)
From S2P Require Import Prelude Models Slot SlotFacts ControllerDb ControllerDbFacts Readiness.
From S2P Require Import Lifecycle Maintenance Dispatch Hoare LeaseFacts JobFacts.

(** Scan of a trace: every [EStart] comes while a reservation is held and the
    last wait for the slot answered that it is free. *)
Fixpoint start_guarded (reserved free : bool) (es : list event) : bool :=
  match es with
  | [] => true
  | EReserved _ :: es => start_guarded true free es
  | ETransferred _ _ :: es => start_guarded reserved free es
  | ERelease _ :: es => start_guarded false free es
  | EFree _ b :: es => start_guarded reserved b es
  | EStart _ :: es => reserved && free && start_guarded reserved free es
  | _ :: es => start_guarded reserved free es
  end.

Definition no_start (e : event) : bool := match e with EStart _ => false | _ => true end.

Lemma start_guarded_tail a b es : forallb no_start es = true -> start_guarded a b es = true.
Proof.
  revert a b. induction es as [|e es IH]; [done|]. simpl. intros a b H. to_prop.
  destruct e; simpl; auto. done.
Qed.

Lemma start_guarded_app a b t c :
  forallb no_start c = true -> start_guarded a b t = true -> start_guarded a b (t ++ c) = true.
Proof.
  intros Hc. revert a b. induction t as [|e t IH]; intros a b; simpl.
  - intros _. by apply start_guarded_tail.
  - destruct e; auto. intros [H1 H2]%andb_true_iff. rewrite H1. by apply IH.
Qed.

(** The registry files a profile under its own id. *)
Definition registry_ok (cfg : config) : Prop :=
  forall q pr, cf_profiles cfg q = Some pr -> pf_id pr = q.

Section Protocol.
Context (w : world) (cfg : config).
Hypothesis Hstore : has_store cfg = true.

(** ** Computations that make no call *)

Definition mk (s s' : cst) : Prop := c_trace s' = c_trace s /\ c_frame s' = c_frame s.

#[local] Instance mk_preorder : PreOrder mk.
Proof. split; [by split|]. intros s1 s2 s3 [H1 H2] [H3 H4]. split; congruence. Qed.

#[local] Abbreviation mute := (stable mk).

Lemma mute_set_ready f : mute (modify (fun s => set_ready (f s) s)).
Proof. by split. Qed.
Lemma mute_set_db f : mute (modify (fun s => set_db (f s) s)).
Proof. by split. Qed.
Lemma mute_set_db' d : mute (modify (set_db d)).
Proof. by split. Qed.
Lemma mute_set_file f : mute (modify (fun s => set_file (f s) s)).
Proof. by split. Qed.
Lemma mute_set_file' f : mute (modify (set_file f)).
Proof. by split. Qed.
Lemma mute_now_tick : mute now_tick.
Proof. by split. Qed.
Lemma mute_pass : mute (pass w).
Proof. by split. Qed.
Lemma mute_begin p : mute (begin_ticket p).
Proof. intros s. unfold begin_ticket. by destruct (ready_begin _ _) as [[?|?] ?]. Qed.

Ltac mute_step :=
  first
    [ assumption
    | apply (stable_ret mk) | apply (stable_throw mk) | apply (stable_lift mk)
    | apply (stable_gets mk) | apply (stable_getf mk) | apply (stable_when mk)
    | apply mute_set_ready | apply mute_set_db' | apply mute_set_db | apply mute_set_file'
    | apply mute_set_file | apply mute_now_tick | apply mute_pass | apply mute_begin
    | solve [auto with mute]
    | match goal with
      | |- mute (mbind _ _) => apply (stable_bind mk); [|intro]
      | |- mute (catch _ _) => apply (stable_catch mk); [|intro]
      | |- mute (work _ _) => apply (stable_work mk); intro
      | |- mute (match ?x with _ => _ end) => destruct x
      | |- mute (let _ := _ in _) => cbv zeta
      end ].
Ltac mute_tac := repeat mute_step.
Create HintDb mute.

Lemma mute_transaction {A} (f : Z -> db -> ctl A * db) : mute (_transaction w f).
Proof. unfold _transaction. by mute_tac. Qed.
Lemma mute_pause : mute (pause w).
Proof. unfold pause. by mute_tac. Qed.
#[local] Hint Resolve @mute_transaction mute_pause : mute.
Lemma mute_audit_sync actor action p c d : mute (_audit_rejection_sync w actor action p c d).
Proof. unfold _audit_rejection_sync. by mute_tac. Qed.
Lemma mute_find_profile p : mute (find_profile cfg p).
Proof. unfold find_profile. by mute_tac. Qed.
Lemma mute_adapter p : mute (_adapter cfg p).
Proof. unfold _adapter. by mute_tac. Qed.
#[local] Hint Resolve mute_audit_sync mute_find_profile mute_adapter : mute.
Lemma mute_require p o actor : mute (_require_operation w p o actor).
Proof. unfold _require_operation. by mute_tac. Qed.
Lemma mute_assert b : mute (_assert_lease w b).
Proof. unfold _assert_lease. by mute_tac. Qed.
Lemma mute_lost {A} n : mute (lost_lease w n : M A).
Proof. unfold lost_lease. by mute_tac. Qed.
Lemma mute_io {A} (call : env -> node -> res A * node) c : mute (_reservation_io w call c).
Proof. unfold _reservation_io. by mute_tac. Qed.
Lemma mute_record_event p c m : mute (record_event w p c m).
Proof. unfold record_event. by mute_tac. Qed.
Lemma mute_record_audit actor action p r c d : mute (_record_audit w actor action p r c d).
Proof. unfold _record_audit. by mute_tac. Qed.
Lemma mute_notify o : mute (notify_ticket o).
Proof. unfold notify_ticket. by mute_tac. Qed.
Lemma mute_finish_ticket : mute finish_ticket.
Proof. unfold finish_ticket. by mute_tac. Qed.
Lemma mute_drain b : mute (_drain_renewal w b).
Proof. unfold _drain_renewal. by mute_tac. Qed.
#[local] Hint Resolve mute_require mute_assert @mute_lost @mute_io mute_record_event
  mute_record_audit mute_notify mute_finish_ticket mute_drain : mute.
Lemma mute_reserve_failed p op actor x : mute (reserve_failed w p op actor x).
Proof. unfold reserve_failed. by mute_tac. Qed.
Lemma mute_preflight p b : mute (_fresh_stop_preflight w cfg p b).
Proof. unfold _fresh_stop_preflight, status_unavailable, conflict. by mute_tac. Qed.
Lemma mute_await r d : mute (_await_lease w None r d).
Proof. unfold _await_lease. by mute_tac. Qed.
#[local] Hint Resolve mute_reserve_failed mute_preflight mute_await : mute.

(** ** Emitted calls *)

(** [m] appends [va a] to the trace when it returns [a] and [xs] when it raises. *)
Definition emits {A} (m : M A) (va : A -> list event) (xs : list event) : Prop :=
  forall s, c_trace (snd (m s)) = c_trace s ++ match fst (m s) with Val a => va a | Exc _ => xs end
    /\ c_frame (snd (m s)) = c_frame s.

Lemma emits_mute {A} (m : M A) : mute m -> emits m (fun _ => []) [].
Proof.
  intros Hm s. destruct (Hm s) as [-> ->]. split; [|done].
  destruct (fst (m s)); by rewrite app_nil_r.
Qed.

(** A silent computation whose value is then logged. *)
Lemma emits_then {A} (m : M A) (f : A -> event) :
  mute m -> emits (a ← m; log (f a) ;; mret a) (fun a => [f a]) [].
Proof.
  intros Hm s. specialize (Hm s). unfold mbind, M_bind. destruct (m s) as [[a|x] s1]; simpl in *.
  - destruct Hm as [-> ->]. done.
  - destruct Hm as [-> ->]. by rewrite app_nil_r.
Qed.

Lemma await_emits e r d : emits (_await_lease w (Some e) r d) (fun _ => [e]) [e].
Proof.
  intros s. change (_await_lease w (Some e) r d s) with (_await_lease w None r d (add_trace e s)).
  destruct (mute_await r d (add_trace e s)) as [-> ->]. split; [|done].
  by destruct (fst _).
Qed.

Lemma job_intent_emits actor action p :
  emits (job_intent w actor action p) (fun id => [EJob id]) [].
Proof. apply emits_then. by mute_tac. Qed.
Lemma finish_emits id actor action p ok c d st :
  emits (finish w id actor action p ok c d st) (fun _ => [EFinish id ok]) [].
Proof.
  intros s. unfold finish. pose proof (emits_then _ (fun _ : unit => EFinish id ok)
    (mute_transaction (silent (fun now d0 => ControllerDb._finish now id actor action (Some p) ok c d st d0))) s) as H.
  revert H. unfold mbind, M_bind. by destruct (_transaction w _ s) as [[[]|x] s1].
Qed.
Lemma wait_free_emits p r : emits (_wait_for_free_slot w p r) (fun b => [EFree (pf_id p) b]) [].
Proof. apply (emits_then _ (EFree (pf_id p))). by mute_tac. Qed.
Lemma probe_emits p r : emits (_probe_start_health w p r) (fun b => [EReady (pf_id p) b]) [].
Proof. apply (emits_then _ (EReady (pf_id p))). by mute_tac. Qed.

Lemma reserve_emits p op id actor :
  emits (_reserve w cfg p op id actor) (fun l => [EReserved l]) [].
Proof.
  intros s. change (_reserve w cfg p op id actor s) with
    (reserve_lease w cfg p op actor
       (Lease (pf_id p) (if nonempty id then id else w_uuid w (c_tick s))
          (_current_generation (c_db s))) (snd (now_tick s))).
  set (l := Lease _ _ _). set (s0 := snd (now_tick s)).
  unfold reserve_lease. rewrite Hstore. simpl. unfold mbind, M_bind, catch.
  set (call := fun e f => reserve_if_available e (reserve_args_of l) None None f).
  pose proof (mute_io call (Some l) s0) as [Ht Hf].
  destruct (_reservation_io w call (Some l) s0) as [[a|x] s1]; simpl in *.
  - by rewrite Ht, Hf.
  - destruct (mute_reserve_failed p op actor x s1) as [Ht2 Hf2].
    destruct (reserve_failed _ _ _ _ _ s1) as [[?|?] s2] eqn:E; [by apply reserve_failed_raises in E|].
    simpl in *. rewrite Ht2, Hf2, Ht, Hf, app_nil_r. done.
Qed.

(** The adapter calls: nothing is emitted when the profile has no adapter. *)
Lemma adapter_call_emits p e r d :
  emits (_adapter cfg p ;; _await_lease w (Some e) r d ;; (mret tt : M unit))
    (fun _ => [e]) (if has_adapter cfg (pf_id p) then [e] else []).
Proof.
  intros s. unfold _adapter, mbind, M_bind. destruct (has_adapter cfg (pf_id p)); simpl.
  - pose proof (await_emits e r d s) as [Ht Hf].
    destruct (_await_lease _ _ _ _ _) as [[?|?] s1]; simpl in *; by rewrite Ht, Hf.
  - by rewrite app_nil_r.
Qed.

(** ** Assertions on trace and frame *)

(** The calls since the trace was [t0], and the frame. *)
Definition At (t0 t : list event) (fr : frame) (s : cst) : Prop :=
  c_trace s = t0 ++ t /\ c_frame s = fr.

Lemma seq_emits {A B} t0 t fr (m : M A) va xs (k : A -> M B) Q (E : exc -> cst -> Prop) :
  emits m va xs -> (forall x s, At t0 (t ++ xs) fr s -> E x s) ->
  (forall a, tri (At t0 (t ++ va a) fr) (k a) Q E) -> tri (At t0 t fr) (mbind k m) Q E.
Proof.
  intros Hm HE Hk. eapply tri_bind; [|exact Hk]. intros s [Ht Hf]. destruct (Hm s) as [H1 H2].
  destruct (m s) as [[a|x] s1]; simpl in *; [|apply HE]; split; rewrite ?app_assoc; congruence.
Qed.

Lemma seq_mute {A B} t0 t fr (m : M A) (k : A -> M B) Q (E : exc -> cst -> Prop) :
  mute m -> (forall x s, At t0 t fr s -> E x s) ->
  (forall a, tri (At t0 t fr) (k a) Q E) -> tri (At t0 t fr) (mbind k m) Q E.
Proof.
  intros Hm HE Hk. eapply (seq_emits _ _ _ _ (fun _ => []) []); [by apply emits_mute|..];
    intros; rewrite app_nil_r in *; auto.
Qed.

Lemma seq_setf_at {B} t0 t fr f (k : unit -> M B) Q E :
  tri (At t0 t (f fr)) (k tt) Q E -> tri (At t0 t fr) (mbind k (setf f)) Q E.
Proof. intros Hk s [Ht Hf]. apply (Hk _). split; [done|]. simpl. by rewrite Hf. Qed.

Lemma tri_throw_at {A} t0 t fr x (Q : A -> cst -> Prop) (E : exc -> cst -> Prop) :
  (forall s, At t0 t fr s -> E x s) -> tri (At t0 t fr) (throw x) Q E.
Proof. intros H s Hs. by apply H. Qed.

Lemma seq_adapter {B} t0 t fr p e r d (k : unit -> M B) Q (E : exc -> cst -> Prop) :
  (forall x s t', (t' = t \/ has_adapter cfg (pf_id p) = true /\ t' = t ++ [e]) ->
     At t0 t' fr s -> E x s) ->
  (has_adapter cfg (pf_id p) = true -> tri (At t0 (t ++ [e]) fr) (k tt) Q E) ->
  tri (At t0 t fr)
    (mbind k (_adapter cfg p ;; _await_lease w (Some e) r d ;; (mret tt : M unit))) Q E.
Proof.
  intros HE Hk. destruct (has_adapter cfg (pf_id p)) eqn:Ha.
  - eapply seq_emits; [apply adapter_call_emits|..].
    + intros x s. rewrite Ha. apply HE. by right.
    + intros []. by apply Hk.
  - intros s Hs. unfold _adapter. rewrite Ha. unfold mbind, M_bind. simpl. eapply HE; [by left|done].
Qed.

(** ** Start *)

(** What is known when the body of a start stops: its calls are guarded, and if
    the start command was sent, the cleanup flag is set. *)
Definition start_calls (p : ProfileId) (t : list event) (fr : frame) : Prop :=
  start_guarded false false t = true /\ (fr_started fr = true -> fr_renewal fr = true)
  /\ (List.In (EStart p) t -> fr_started fr = true /\ has_adapter cfg p = true).

Definition start_stops (p : ProfileId) (t0 : list event) (s : cst) : Prop :=
  exists t fr, At t0 t fr s /\ start_calls p t fr.

Ltac stops :=
  intros; eexists _, _; split; [eassumption|]; split_and!;
  [reflexivity|done|simpl; intros; repeat destruct_or?; (done || auto)].

Lemma start_body_calls p actor rid t0 :
  tri (At t0 [] empty_frame) (start_body w cfg p actor rid)
    (fun j s => exists l fr, At t0 [EReserved l; EJob (ja_job j); EFree (pf_id p) true;
       EStart (pf_id p); EReady (pf_id p) true; EFinish (ja_job j) true] fr s)
    (fun _ => start_stops (pf_id p) t0).
Proof.
  unfold start_body.
  eapply seq_emits; [apply reserve_emits|stops|]. intros l. simpl.
  do 2 apply seq_setf_at.
  eapply seq_emits; [apply job_intent_emits|stops|]. intros id. simpl. apply seq_setf_at.
  eapply seq_emits; [apply wait_free_emits|stops|]. intros free. simpl.
  destruct free; simpl; [|apply tri_throw_at; stops].
  apply seq_mute; [by mute_tac|stops|]. intros tk. do 2 apply seq_setf_at.
  apply seq_mute; [by mute_tac|stops|]. intros _. unfold adapter_start.
  apply seq_adapter; [intros x s t' [->|[Ha ->]]; simpl; stops|]. intros Ha. simpl.
  apply seq_mute; [by mute_tac|stops|]. intros _.
  eapply seq_emits; [apply probe_emits|stops|]. intros ready. simpl.
  destruct ready; simpl; [|apply tri_throw_at; stops].
  eapply seq_emits; [apply finish_emits|stops|]. intros ?. simpl.
  apply seq_mute; [by mute_tac|stops|]. intros _.
  apply seq_mute; [by mute_tac|stops|]. intros _.
  apply tri_ret. simpl. eauto.
Qed.

(** The lease was seen lost at some point. *)
Definition lease_lost : Prop := exists n, w_renewal w n <> None.

Lemma mute_cleanup_event p (r : bool * string * string) :
  mute (catch (record_event w p (snd (fst r)) (snd r))
          (fun x => if is_exception x then mret tt else throw x)).
Proof. by mute_tac. Qed.

Lemma cleanup_calls p s :
  exists c, c_trace (snd (_cleanup_failed_start w cfg p true s)) = c_trace s ++ c
    /\ c_frame (snd (_cleanup_failed_start w cfg p true s)) = c_frame s
    /\ forallb no_start c = true
    /\ (has_adapter cfg (pf_id p) = true -> List.In (EForce (pf_id p)) c \/ lease_lost).
Proof.
  unfold _cleanup_failed_start.
  match goal with |- context [mbind ?k (catch ?m ?h) s] =>
    set (stop := m); set (handle := h); set (report := k) end.
  assert (forall r, mute (report r)) as Hrep.
  { intros [[b code] m]. apply (mute_cleanup_event (pf_id p) (b, code, m)). }
  assert (forall x, mute (handle x)) as Hh.
  { intros x. unfold handle. by mute_tac. }
  assert (exists c r s1, stop s = (r, s1) /\ c_trace s1 = c_trace s ++ c /\ c_frame s1 = c_frame s
    /\ forallb no_start c = true
    /\ (has_adapter cfg (pf_id p) = true -> List.In (EForce (pf_id p)) c \/ lease_lost))
    as (c & r & s1 & Es & Ht & Hf & Hc & Hforce).
  { unfold stop. unfold mbind at 1, M_bind at 1. pose proof (mute_assert true s) as [Ha Hb].
    destruct (w_renewal w (c_tick s)) as [e|] eqn:Hren.
    - exists []. setoid_rewrite app_nil_r. unfold _assert_lease, mbind, M_bind in *. simpl in *.
      rewrite Hren in *. destruct e; simpl; eexists _, _; (split_and!; [done..|]; intros _; right;
        exists (c_tick s); by rewrite Hren).
    - assert (exists s0, _assert_lease w true s = (Val tt, s0)) as [s0 E0].
      { unfold _assert_lease, mbind, M_bind. simpl. rewrite Hren. by eexists. }
      rewrite E0 in *. simpl in Ha, Hb.
      pose proof (adapter_call_emits p (EForce (pf_id p)) true false s0) as [H1 H2].
      unfold adapter_force_stop. unfold mbind at 1, M_bind at 1.
      destruct ((_adapter cfg p ;; _) s0) as [[?|?] s1]; simpl in H1, H2; rewrite Ha in H1; rewrite Hb in H2.
      + eexists _, _, _. split_and!; [done..|]. intros _. by left; left.
      + eexists _, _, _. split_and!; [done..|by destruct (has_adapter cfg (pf_id p))|].
        intros ->. by left; left. }
  exists c. unfold mbind, M_bind, catch. rewrite Es. destruct r as [r|x]; simpl in *.
  - destruct (Hrep r s1) as [-> ->]. by split_and!.
  - destruct (Hh x s1) as [H1 H2]. destruct (handle x s1) as [[r|y] s2]; simpl in *.
    + destruct (Hrep r s2) as [-> ->]. rewrite H1, H2. by split_and!.
    + rewrite H1, H2. by split_and!.
Qed.

Lemma finish_job_calls actor action p ok c d s :
  exists es, c_trace (snd (finish_job w actor action p ok c d s)) = c_trace s ++ es
    /\ c_frame (snd (finish_job w actor action p ok c d s)) = c_frame s
    /\ forallb no_start es = true.
Proof.
  unfold finish_job, mbind, M_bind. simpl. destruct (fr_job (c_frame s)) as [id|].
  - destruct (finish_emits id actor action p ok c d None s) as [-> ->]. eexists. split_and!; [done..|].
    by destruct (fst _).
  - exists []. by rewrite app_nil_r.
Qed.

(** Calls after the body of a failed start. *)
Definition start_ends (p : ProfileId) (t0 : list event) (x : exc) (s : cst) : Prop :=
  exists t c fr, At t0 (t ++ c) fr s /\ start_guarded false false t = true
    /\ forallb no_start c = true
    /\ (x <> CancelledExc -> List.In (EStart p) t -> List.In (EForce p) c \/ lease_lost).

(** The clause after the cleanup: notify, settle the job, raise. *)
Lemma clause_calls o actor c d (y : exc) p t0 t fr :
  tri (At t0 t fr)
    (notify_ticket o ;; finish_job w actor "start" p false c d ;; (throw y : M JobAccepted))
    none (fun _ s => exists e, At t0 (t ++ e) fr s /\ forallb no_start e = true).
Proof.
  apply seq_mute; [by mute_tac| |intros _].
  { intros x s Hs. exists []. by rewrite app_nil_r. }
  intros s [Ht Hf]. unfold mbind, M_bind.
  destruct (finish_job_calls actor "start" p false c d s) as (e & H1 & H2 & H3).
  destruct (finish_job _ _ _ _ _ _ _ _) as [[?|?] s1]; simpl in *;
    (exists e; split; [split; rewrite ?app_assoc; congruence|done]).
Qed.

Lemma start_ends_after p o actor c d (y : exc) t0 t e fr s :
  At t0 (t ++ e) fr s -> start_guarded false false t = true -> forallb no_start e = true ->
  (List.In (EStart p) t -> List.In (EForce p) e \/ lease_lost) ->
  match (notify_ticket o ;; finish_job w actor "start" p false c d ;; (throw y : M JobAccepted)) s
  with (Val _, _) => False | (Exc z, s') => start_ends p t0 z s' end.
Proof.
  intros Hs Hg He Hf. pose proof (clause_calls o actor c d y p t0 (t ++ e) fr s Hs) as Hc.
  match goal with |- match ?m with _ => _ end => destruct m as [[?|z] s2] end; [done|].
  destruct Hc as (e2 & Hs2 & Hn2). exists t, (e ++ e2), fr. rewrite app_assoc.
  split_and!; [done..|by rewrite forallb_app, He, Hn2|].
  intros _ Hin. destruct (Hf Hin) as [?|?]; [|by right]. left. apply in_app_iff. by left.
Qed.

Lemma start_clause_calls p o actor c d (y : exc) t0 t fr s :
  At t0 t fr s -> start_calls (pf_id p) t fr ->
  match (started ← getf fr_started; renewal ← getf fr_renewal;
    when started (_cleanup_failed_start w cfg p renewal) ;;
    notify_ticket o ;; finish_job w actor "start" (pf_id p) false c d ;;
    (throw y : M JobAccepted)) s
  with (Val _, _) => False | (Exc z, s') => start_ends (pf_id p) t0 z s' end.
Proof.
  intros [Ht Hf] (Hg & Hren & Hst). unfold mbind at 1 2, M_bind at 1 2. simpl. rewrite Hf.
  unfold mbind at 1, M_bind at 1. destruct (fr_started fr) eqn:Es; unfold when.
  - rewrite Hren by done. destruct (cleanup_calls p s) as (e & H1 & H2 & H3 & H4).
    pose proof (cleanup_only_cancelled w cfg p true s) as Hoc.
    destruct (_cleanup_failed_start w cfg p true s) as [[[]|z] s1]; simpl in *.
    + apply (start_ends_after _ _ _ _ _ _ _ t e fr); [|done..|].
      * split; rewrite ?app_assoc; congruence.
      * intros Hin. apply H4. by apply Hst.
    + exists t, e, fr. split_and!; [split; rewrite ?app_assoc; congruence|done..|].
      intros Hz. by destruct (Hz (Hoc z s1 eq_refl)).
  - apply (start_ends_after _ _ _ _ _ _ _ t [] fr); [|done..|].
    + rewrite app_nil_r. by split.
    + intros Hin. by destruct (Hst Hin).
Qed.

Lemma start_handler_calls p actor x t0 :
  tri (start_stops (pf_id p) t0) (start_handler w cfg p actor x) none (start_ends (pf_id p) t0).
Proof.
  intros s (t & fr & Hat & Hc). destruct x; try by apply (start_clause_calls _ _ _ _ _ _ _ t fr).
  exists t, [], fr. rewrite app_nil_r. destruct Hc as [Hg _]. by split_and!.
Qed.

(** ** Release *)

Lemma release_calls primary l r s :
  exists c, c_trace (snd (_release_lease w cfg primary l r s)) = c_trace s ++ c
    /\ forallb no_start c = true.
Proof.
  assert (forall l s, c_trace (snd (_clear_reservation w cfg l s)) = c_trace s ++ [ERelease l]) as Hc.
  { intros l0 s0. unfold _clear_reservation. rewrite Hstore. unfold mbind, M_bind. simpl.
    destruct (mute_io (release_call l0) None (add_trace (ERelease l0) s0)) as [H _].
    by destruct (_reservation_io _ _ _ _) as [[?|?] ?]. }
  unfold _release_lease, mbind, M_bind, catch.
  assert (exists e s1, _drain_renewal w r s = (Val e, s1)) as (e & s1 & E).
  { unfold _drain_renewal. destruct (negb r); eexists _, _; reflexivity. }
  destruct (mute_drain r s) as [H1 _]. rewrite E in *. simpl in H1.
  destruct l as [l|].
  - exists [ERelease l]. split; [|done]. rewrite <- H1, <- (Hc l s1).
    destruct (_clear_reservation w cfg l s1) as [[?|?] s2]; simpl; destruct primary, e; done.
  - exists []. rewrite app_nil_r. split; [|done]. simpl. destruct primary, e; done.
Qed.

Lemma start_finally_calls primary s :
  exists c, c_trace (snd (start_finally w cfg primary s)) = c_trace s ++ c /\ forallb no_start c = true.
Proof.
  unfold start_finally, mbind, M_bind. pose proof (mute_finish_ticket s) as [H1 _].
  destruct (finish_ticket s) as [[?|?] s1]; simpl in *.
  - rewrite <- H1. unfold release_frame, mbind, M_bind. simpl. apply release_calls.
  - exists []. by rewrite app_nil_r.
Qed.

(** How a start ends. *)
Definition start_exit (p : ProfileId) (es : list event) (r : ctl JobAccepted) : Prop :=
  start_guarded false false es = true
  /\ match r with
     | Val j => List.In (EReady p true) es /\ List.In (EFinish (ja_job j) true) es
     | Exc x => x <> CancelledExc -> List.In (EStart p) es ->
                (exists id, List.In (EFinish id true) es) \/ List.In (EForce p) es \/ lease_lost
     end.

Definition start_over (p : ProfileId) (t0 : list event) (r : ctl JobAccepted) (s : cst) : Prop :=
  exists es, c_trace s = t0 ++ es /\ start_exit p es r.

Lemma start_over_nothing p t0 fr x s : At t0 [] fr s -> start_over p t0 (Exc x) s.
Proof. intros [H _]. exists []. by split_and!. Qed.

Lemma start_finally_primary s : exists s', start_finally w cfg true s = (Val tt, s').
Proof.
  unfold start_finally, finish_ticket, mbind, M_bind. simpl.
  destruct (fr_ticket (c_frame s)); apply release_frame_primary.
Qed.

Lemma start_run_calls p actor rid t0 :
  tri (At t0 [] empty_frame)
    (finally (catch (start_body w cfg p actor rid) (start_handler w cfg p actor))
       (start_finally w cfg))
    (fun j => start_over (pf_id p) t0 (Val j)) (fun x => start_over (pf_id p) t0 (Exc x)).
Proof.
  intros s Hs.
  pose proof (tri_catch _ _ _ _ _ _ (start_body_calls p actor rid t0)
    (fun x => tri_conseq _ _ _ _ _ _ _ (start_handler_calls p actor x t0) (fun s H => H)
       (fun a s (H : none a s) => match H with end) (fun x s H => H)) s Hs) as H.
  unfold finally. destruct (catch _ _ s) as [[j|x] s1].
  - destruct H as (l & fr & Ht & _). destruct (start_finally_calls false s1) as (c & Hc & Hn).
    destruct (start_finally w cfg false s1) as [[u|y] s2]; simpl in Hc;
      (eexists; split; [rewrite Hc, Ht, <- app_assoc; reflexivity|]).
    + split; [by apply start_guarded_app|]. simpl. tauto.
    + split; [by apply start_guarded_app|]. intros _ _. left. exists (ja_job j). simpl. tauto.
  - destruct H as (t & c & fr & [Ht _] & Hg & Hn & Hf).
    destruct (start_finally_calls true s1) as (c2 & Hc2 & Hn2).
    destruct (start_finally_primary s1) as [s2 E]. rewrite E in *. simpl in Hc2.
    exists (t ++ (c ++ c2)). split; [by rewrite Hc2, Ht, <- !app_assoc|].
    assert (forallb no_start (c ++ c2) = true) as Hall by by rewrite forallb_app, Hn, Hn2.
    split; [by apply start_guarded_app|]. intros Hx [Hin|Hin]%in_app_iff.
    + destruct (Hf Hx Hin) as [?|?]; [|by right; right]. right. left. rewrite !in_app_iff. auto.
    + exfalso. rewrite forallb_forall in Hall. by apply Hall in Hin.
Qed.

Lemma start_calls_run p actor rid s r s' :
  registry_ok cfg -> _start w cfg p actor rid s = (r, s') -> start_over p (c_trace s) r s'.
Proof.
  intros Hreg. unfold _start, in_frame. set (s0 := set_frame empty_frame s).
  assert (At (c_trace s) [] empty_frame s0) as Hs0 by (split; [by rewrite app_nil_r|done]).
  unfold find_profile. destruct (cf_profiles cfg p) as [pr|] eqn:Epr.
  2: { intros [= <- <-]. exists []. split; [by rewrite app_nil_r|done]. }
  apply Hreg in Epr. subst p.
  match goal with |- (let '(_, _) := mbind ?k (mret pr) s0 in _) = _ -> _ =>
    change (mbind k (mret pr) s0) with (k pr s0);
    assert (tri (At (c_trace s) [] empty_frame) (k pr)
      (fun j => start_over (pf_id pr) (c_trace s) (Val j))
      (fun x => start_over (pf_id pr) (c_trace s) (Exc x))) as H end.
  { apply seq_mute; [by mute_tac|intros x s1; apply start_over_nothing|intros _].
    apply seq_mute; [by mute_tac|intros x s1; apply start_over_nothing|intros d].
    destruct (benchmark_active d); [|apply start_run_calls].
    apply seq_mute; [by mute_tac|intros x s1; apply start_over_nothing|intros _].
    apply tri_throw_at. intros s1. apply start_over_nothing. }
  specialize (H s0 Hs0).
  match goal with |- (let '(_, _) := ?m in _) = _ -> _ => destruct m as [[j|x] s1] end;
    by intros [= <- <-].
Qed.

(** ** Stop *)

Definition no_stop (e : event) : bool :=
  match e with EGraceful _ | EForce _ => false | _ => true end.

(** Only calls other than stop commands are made. *)
Definition nk (s s' : cst) : Prop :=
  exists es, c_trace s' = c_trace s ++ es /\ forallb no_stop es = true.

#[local] Instance nk_preorder : PreOrder nk.
Proof.
  split; [intros s; exists []; by rewrite app_nil_r|].
  intros s1 s2 s3 (e1 & H1 & F1) (e2 & H2 & F2). exists (e1 ++ e2).
  rewrite H2, H1, <- app_assoc, forallb_app, F1, F2. done.
Qed.

Lemma nk_mute {A} (m : M A) : mute m -> stable nk m.
Proof. intros Hm s. destruct (Hm s) as [H _]. exists []. by rewrite H, app_nil_r. Qed.
Lemma nk_log e : no_stop e = true -> stable nk (log e).
Proof. intros He s. exists [e]. split; [done|]. simpl. by rewrite He. Qed.
Lemma nk_setf f : stable nk (setf f).
Proof. intros s. exists []. by rewrite app_nil_r. Qed.
Lemma nk_emits {A} (m : M A) va xs :
  emits m va xs -> (forall a, forallb no_stop (va a) = true) -> forallb no_stop xs = true ->
  stable nk m.
Proof. intros Hm Hv Hx s. destruct (Hm s) as [H _]. eexists. split; [exact H|]. by destruct (fst _). Qed.

Lemma nk_release primary l r : stable nk (_release_lease w cfg primary l r).
Proof.
  unfold _release_lease, _clear_reservation.
  repeat first
    [ apply nk_mute; solve [mute_tac] | apply nk_log; reflexivity
    | apply (stable_bind nk); [|intro] | apply (stable_catch nk); [|intro]
    | match goal with |- stable nk (match ?x with _ => _ end) => destruct x end ].
Qed.
Lemma nk_release_frame primary : stable nk (release_frame w cfg primary).
Proof.
  unfold release_frame. do 2 (apply (stable_bind nk); [apply nk_mute; by mute_tac|intro]).
  apply nk_release.
Qed.
Lemma nk_in_frame {A} (m : M A) : stable nk m -> stable nk (in_frame m).
Proof.
  intros Hm s. unfold in_frame. specialize (Hm (set_frame empty_frame s)). by destruct (m _).
Qed.
Lemma nk_acquire p actor rid b : stable nk (_acquire_stop_fence w cfg p actor rid b).
Proof.
  unfold _acquire_stop_fence. destruct (negb _); [apply nk_mute; by mute_tac|]. apply nk_in_frame.
  apply (stable_catch nk); [|intro; apply (stable_bind nk); [apply nk_release_frame|intro; apply (stable_throw nk)]].
  apply (stable_bind nk); [apply (nk_emits _ (fun l => [EReserved l]) []); [apply reserve_emits|done..]|intro].
  repeat first
    [ apply nk_mute; solve [mute_tac] | apply nk_log; reflexivity | apply nk_setf
    | apply (stable_bind nk); [|intro] ].
Qed.
Lemma nk_finish_job actor action p ok c d : stable nk (finish_job w actor action p ok c d).
Proof.
  unfold finish_job. apply (stable_bind nk); [apply nk_mute; by mute_tac|]. intros [id|];
    [|apply nk_mute; by mute_tac]. apply (nk_emits _ _ _ (finish_emits _ _ _ _ _ _ _ _)); done.
Qed.
Lemma nk_stop_handler p actor op force x : stable nk (stop_handler w p actor op force x).
Proof.
  unfold stop_handler. destruct x; cbv zeta;
    repeat first [ apply nk_finish_job | apply (stable_throw nk) | apply (stable_bind nk); [|intro] ].
Qed.

(** The fresh status and slot observation of some moment allow the stop. *)
Definition preflight_passed (p : ProfileId) (allow_players : bool) : Prop :=
  exists n l, w_snapshot w n = Snapshot l /\ preflight_status p allow_players l = None
    /\ (has_inspector cfg = true ->
         let '(e, lock, meta) := w_observe w n in
         exists o meta', observe e lock meta = (Ret o, meta') /\ inconsistent o = false
           /\ owner o = Some (profile_value p)).

Lemma preflight_val p b s s' :
  _fresh_stop_preflight w cfg p b s = (Val tt, s') -> preflight_passed (pf_id p) b.
Proof.
  unfold _fresh_stop_preflight, status_unavailable, conflict. destruct (negb (has_status cfg)); [done|].
  unfold mbind, M_bind. simpl. destruct (w_snapshot w (c_tick s)) as [l| |x] eqn:E; try done.
  destruct (preflight_status _ b l) eqn:Ep; [done|]. intros H. exists (c_tick s), l.
  split_and!; [done..|]. intros Hi. rewrite Hi in H. simpl in H.
  destruct (w_observe w (c_tick s)) as [[e lock] meta].
  destruct (observe e lock meta) as [[o|x] meta'] eqn:Eo; simpl in H; [|done].
  destruct (inconsistent o || _) eqn:Ei; [done|]. to_prop. eauto.
Qed.

Lemma acquire_val p actor rid b s lr s' :
  _acquire_stop_fence w cfg p actor rid b s = (Val lr, s') -> preflight_passed (pf_id p) b.
Proof.
  unfold _acquire_stop_fence, in_frame, catch, mbind, M_bind. rewrite Hstore. simpl.
  destruct (_reserve _ _ _ _ _ _ _) as [[l|x] s1]; simpl.
  2: { destruct (release_frame _ _ _ _) as [[?|?] ?]; done. }
  destruct (_assert_lease w true _) as [[?|?] s2]; simpl.
  2: { destruct (release_frame _ _ _ _) as [[?|?] ?]; done. }
  destruct (_fresh_stop_preflight w cfg p b s2) as [[[]|?] s3] eqn:E; simpl.
  2: { destruct (release_frame _ _ _ _) as [[?|?] ?]; done. }
  intros _. by eapply preflight_val.
Qed.

Lemma stop_calls p actor rid force b s :
  nk s (snd (_stop_with_fence w cfg p actor rid force b s)) \/ preflight_passed (pf_id p) b.
Proof.
  unfold _stop_with_fence, in_frame. cbv zeta.
  set (op := (if force then "force_stop" else "stop")%string). set (s0 := set_frame empty_frame s).
  pose proof (nk_acquire p actor rid b s0) as Hn.
  destruct (_acquire_stop_fence w cfg p actor rid b s0) as [[lr|x] s1] eqn:E.
  { right. by eapply acquire_val. }
  left. assert (stop_body w cfg p actor rid op force b s0 = (Exc x, s1)) as Eb.
  { unfold stop_body, mbind, M_bind. by rewrite E. }
  assert (nk s0 (snd (finally (catch (stop_body w cfg p actor rid op force b)
    (stop_handler w p actor op force)) (release_frame w cfg) s0))) as H.
  { unfold finally, catch. rewrite Eb. simpl in Hn.
    pose proof (nk_stop_handler p actor op force x s1) as Hh.
    destruct (stop_handler w p actor op force x s1) as [[j|y] s2]; simpl in Hh.
    - pose proof (nk_release_frame false s2). destruct (release_frame _ _ _ s2) as [[?|?] s3]; simpl in *;
        by trans s1; [|trans s2].
    - pose proof (nk_release_frame true s2). destruct (release_frame _ _ _ s2) as [[?|?] s3]; simpl in *;
        by trans s1; [|trans s2]. }
  by destruct (finally _ _ s0) as [r s2].
Qed.

Lemma stop_preflight p actor rid s r s' :
  registry_ok cfg -> _stop w cfg p actor rid s = (r, s') -> nk s s' \/ preflight_passed p false.
Proof.
  intros Hreg. unfold _stop, find_profile. destruct (cf_profiles cfg p) as [pr|] eqn:Epr.
  2: { intros [= <- <-]. left. reflexivity. }
  apply Hreg in Epr. subst p. unfold mbind, M_bind. simpl.
  pose proof (nk_mute _ (mute_require pr OpStop actor) s) as Hq.
  destruct (_require_operation w pr OpStop actor s) as [[?|?] s1]; simpl in *.
  - intros E. destruct (stop_calls pr actor rid false false s1) as [H|H]; [left|by right].
    rewrite E in H. by trans s1.
  - intros [= <- <-]. by left.
Qed.
End Protocol.

(** The status accepted by the strict preflight. *)
Lemma preflight_status_none p l :
  preflight_status p false l = None ->
  exists c, List.In c l /\ ps_profile c = p /\ ps_state c = RUNNING /\ ps_owner c = Some p
    /\ ps_active_job c = None /\ ps_players c = Some 0 /\ ps_ports_ready c = Some true.
Proof.
  unfold preflight_status, find_status. destruct (List.find _ l) as [c|] eqn:Ef; [|done].
  apply find_some in Ef as [Hin Hp]. simpl. intros H. exists c.
  repeat (case_match; [done|]). to_prop. by split_and!.
Qed.

(** ** Properties *)

(** C3.  The start protocol, on every run of [_start]: a start command is sent to
    the adapter only while a reservation of the call is held and after the slot
    was found free; a successful answer means that the server was found ready
    and its job was finished as successful; and when a request that sent the
    start command fails without having succeeded, the process it left was
    forced to stop, unless the lease was lost or the request was cancelled. *)
Theorem start_protocol w cfg p actor rid s r s' :
  has_store cfg = true -> registry_ok cfg -> _start w cfg p actor rid s = (r, s') ->
  exists es, c_trace s' = c_trace s ++ es /\ start_guarded false false es = true
    /\ match r with
       | Val j => List.In (EReady p true) es /\ List.In (EFinish (ja_job j) true) es
       | Exc x => x <> CancelledExc -> List.In (EStart p) es ->
                  (exists id, List.In (EFinish id true) es) \/ List.In (EForce p) es
                  \/ exists n, w_renewal w n <> None
       end.
Proof.
  intros Hstore Hreg H. exact (start_calls_run w cfg Hstore p actor rid s r s' Hreg H).
Qed.

Lemma start_protocol_witness : start_guarded false false (c_trace (snd demo_start)) = true.
Proof.
  destruct (start_protocol demo_world demo_cfg MINECRAFT "alice" "req-1" demo_state
    (Val (mkJobAccepted 1 "running" (Some 1))) (snd demo_start)) as (es & H & Hg & _).
  - reflexivity.
  - intros q pr [= <-]. reflexivity.
  - vm_compute. reflexivity.
  - rewrite H. exact Hg.
Defined.


Definition demo_stop : ctl JobAccepted * cst :=
  _stop demo_world demo_cfg MINECRAFT "alice" "req-2" demo_state.

