(* ===== verification/Capability.v ===== *)
(** [capability.py]: the bearer-token boundary for external agents.  The token
    store (issue, revoke, grant, rate and wake budgets, request replay, audit,
    retention) and the service that maps a capability request to controller
    calls.  Each store call reads the clock once here.

    Times are microseconds.  The store keeps them as ISO text and compares the
    text in SQL; [iso_rank] orders times the way their texts are ordered. *)
From S2P Require Import Prelude Models ControllerDb.

(** ** Constants *)
Definition second : Z := 1000000.
Definition minute : Z := 60 * second.
Definition hour : Z := 60 * minute.
Definition day : Z := 24 * hour.

Definition CAPABILITY_MAX_RESPONSE_BYTES : Z := 64 * 1024.
Definition CAPABILITY_MAX_TTL : Z := 30 * day.
Definition CAPABILITY_MAX_RATE_WINDOW : Z := hour.
Definition CAPABILITY_MAX_WAKE_COOLDOWN : Z := hour.
Definition CAPABILITY_START_PROFILE : ProfileId := MINECRAFT_SUNLIT_COBBLEMON.
Definition CAPABILITY_STATUS_REPLAY_WINDOW : Z := 10 * minute.
Definition CAPABILITY_STATUS_REPLAY_PER_TOKEN_CAP : Z := 128.
Definition CAPABILITY_STATUS_REPLAY_GLOBAL_CAP : Z := 4096.
Definition CAPABILITY_STATUS_AUDIT_PER_TOKEN_CAP : Z := CAPABILITY_STATUS_REPLAY_PER_TOKEN_CAP * 2.
Definition CAPABILITY_STATUS_AUDIT_GLOBAL_CAP : Z := CAPABILITY_STATUS_REPLAY_GLOBAL_CAP * 2.
Definition CAPABILITY_RETENTION_MAINTENANCE_INTERVAL : Z := minute.

(** ** Text order of ISO timestamps

    [_iso] gives [YYYY-MM-DDTHH:MM:SS.ffffffZ], without the fraction when the
    microseconds are 0.  Up to the seconds the text has a fixed width, so it is
    ordered as the number of seconds; within a second the fractions are ordered
    among themselves and, as ['.'] precedes ['Z'], all come before the text
    without one. *)
Definition iso_rank (t : Z) : Z :=
  (t / second) * (second + 1) + (if t mod second =? 0 then second else t mod second).

Definition iso_leb (a b : Z) : bool := iso_rank a <=? iso_rank b.
Definition iso_ltb (a b : Z) : bool := iso_rank a <? iso_rank b.

(** ** Data *)

Inductive CapabilityAudience := LAZYMC | HELIOS_MCP.
Inductive CapabilityRole := OBSERVER | WAKER.
Inductive CapabilityScope := SCOPE_STATUS | SCOPE_WAKE | SCOPE_TPS.
Inductive cap_kind := KStatus | KWake | KTps.

#[export] Instance CapabilityAudience_eq_dec : EqDecision CapabilityAudience.
Proof. solve_decision. Defined.
#[export] Instance CapabilityRole_eq_dec : EqDecision CapabilityRole.
Proof. solve_decision. Defined.
#[export] Instance CapabilityScope_eq_dec : EqDecision CapabilityScope.
Proof. solve_decision. Defined.
#[export] Instance cap_kind_eq_dec : EqDecision cap_kind.
Proof. solve_decision. Defined.

Definition role_value (r : CapabilityRole) : string :=
  match r with OBSERVER => "observer" | WAKER => "waker" end.
Definition kind_value (k : cap_kind) : string :=
  match k with KStatus => "status" | KWake => "wake" | KTps => "tps" end.

Record CapabilityError := CapErr {
  ce_code : string; ce_message : string; ce_status : Z; ce_retryable : bool }.

Record CapabilityRequest := CapRequest {
  cr_id : string; cr_kind : cap_kind; cr_window : string }.

Record _Grant := Grant {
  g_token : string;
  g_role : CapabilityRole;
  g_audience : CapabilityAudience;
  g_scopes : list CapabilityScope;
  g_profile : option ProfileId;
  g_expires : Z;
  g_budget : Z;
  g_window : Z;
  g_cooldown : Z;
}.

(** The three tables; a list is in [rowid] order. *)
Record token_row := TokenRow {
  t_id : string;
  t_hash : string;
  t_role : CapabilityRole;
  t_audience : CapabilityAudience;
  t_scopes : list CapabilityScope;
  t_profile : option ProfileId;
  t_created : Z;
  t_expires : Z;
  t_budget : Z;
  t_window : Z;
  t_window_start : Z;
  t_window_used : Z;
  t_cooldown : Z;
  t_last_wake : option Z;
  t_revoked : option Z;
}.

Definition body := list (string * json).

(** [rq_response] is [None] while the request is pending. *)
Record request_row := RequestRow {
  rq_token : string;
  rq_id : string;
  rq_hash : string;
  rq_response : option body;
  rq_kind : cap_kind;
  rq_successful : bool;
  rq_created : Z;
}.

Record cap_audit_row := CapAudit {
  ca_time : Z;
  ca_token : option string;
  ca_audience : option CapabilityAudience;
  ca_action : string;
  ca_result : string;
  ca_detail : string;
}.

Record cap_store := CapStore {
  tokens : list token_row;
  requests : list request_row;
  cap_audits : list cap_audit_row;
  last_pruned : Z;
}.

Definition set_tokens (x : list token_row) (s : cap_store) : cap_store :=
  CapStore x (requests s) (cap_audits s) (last_pruned s).
Definition set_requests (x : list request_row) (s : cap_store) : cap_store :=
  CapStore (tokens s) x (cap_audits s) (last_pruned s).
Definition set_cap_audits (x : list cap_audit_row) (s : cap_store) : cap_store :=
  CapStore (tokens s) (requests s) x (last_pruned s).
Definition set_last_pruned (x : Z) (s : cap_store) : cap_store :=
  CapStore (tokens s) (requests s) (cap_audits s) x.

Definition cap_res (A : Type) : Type := (CapabilityError + A) * cap_store.

(** ** Bindings *)

Definition _scopes (r : CapabilityRole) : list CapabilityScope :=
  match r with OBSERVER => [SCOPE_STATUS; SCOPE_TPS] | WAKER => [SCOPE_STATUS; SCOPE_WAKE] end.

(** [_validate_binding]: the binding is approved. *)
Definition _validate_binding (r : CapabilityRole) (a : CapabilityAudience) (p : option ProfileId)
    : bool :=
  match r with
  | OBSERVER => bool_decide (a = HELIOS_MCP) && bool_decide (p = None)
  | WAKER => bool_decide (p = Some CAPABILITY_START_PROFILE)
  end.

Definition invalid_binding : CapabilityError :=
  CapErr "invalid_binding" "capability binding is not approved" 422 false.
Definition invalid_token : CapabilityError :=
  CapErr "invalid_token" "capability token is invalid" 401 false.

(** [_audit]; the generated row id is not kept. *)
Definition cap_audit (now : Z) (action result : string) (token : option string)
    (audience : option CapabilityAudience) (detail : string) (s : cap_store) : cap_store :=
  set_cap_audits (cap_audits s ++
    [CapAudit now token audience (String.substring 0 64 action) (String.substring 0 16 result)
       (String.substring 0 256 detail)]) s.

(** ** Issue and revoke *)

(** [token_id] and [token] are the generated secrets, [hash] is [_hash]. *)
Definition issue (hash : string -> string) (now : Z) (token_id token : string)
    (r : CapabilityRole) (a : CapabilityAudience) (p : option ProfileId)
    (ttl rate_budget rate_window wake_cooldown : Z) (s : cap_store) : cap_res Z :=
  if negb (_validate_binding r a p) then (inl invalid_binding, s) else
  if (ttl <=? 0) || (CAPABILITY_MAX_TTL <? ttl)
  then (inl (CapErr "invalid_expiry" "capability expiry is outside the approved bound" 422 false), s)
  else if negb ((1 <=? rate_budget) && (rate_budget <=? 1000))
  then (inl (CapErr "invalid_rate_budget" "capability rate budget is outside the approved bound"
               422 false), s)
  else if (rate_window <=? 0) || (CAPABILITY_MAX_RATE_WINDOW <? rate_window)
  then (inl (CapErr "invalid_rate_window" "capability rate window is outside the approved bound"
               422 false), s)
  else if (wake_cooldown <? 0) || (CAPABILITY_MAX_WAKE_COOLDOWN <? wake_cooldown)
  then (inl (CapErr "invalid_wake_cooldown"
               "capability wake cooldown is outside the approved bound" 422 false), s)
  else
  let rate_window_seconds := rate_window / second in
  let wake_cooldown_seconds := wake_cooldown / second in
  if (rate_window_seconds <? 1) || (wake_cooldown_seconds <? 0)
  then (inl (CapErr "invalid_rate_window" "capability rate window is outside the approved bound"
               422 false), s)
  else
  let row := TokenRow token_id (hash token) r a (_scopes r) p now (now + ttl) rate_budget
               rate_window_seconds now 0 wake_cooldown_seconds None None in
  (inr (now + ttl),
   cap_audit now "issue" "issued" (Some token_id) (Some a) ("role=" ++ role_value r)
     (set_tokens (tokens s ++ [row]) s)).

Definition find_token (id : string) (s : cap_store) : option token_row :=
  List.find (fun t => String.eqb (t_id t) id) (tokens s).

Definition mark_revoked (now : Z) (id : string) (t : token_row) : token_row :=
  if String.eqb (t_id t) id && bool_decide (t_revoked t = None)
  then TokenRow (t_id t) (t_hash t) (t_role t) (t_audience t) (t_scopes t) (t_profile t)
         (t_created t) (t_expires t) (t_budget t) (t_window t) (t_window_start t)
         (t_window_used t) (t_cooldown t) (t_last_wake t) (Some now)
  else t.

Definition revoke (now : Z) (id : string) (s : cap_store) : cap_res unit :=
  if negb (nonempty id) || (64 <? String.length id)%nat
  then (inl (CapErr "invalid_token_id" "token id is invalid" 422 false), s) else
  match find_token id s with
  | None => (inl (CapErr "unknown_token" "capability token is not available" 404 false), s)
  | Some _ =>
      (inr tt, cap_audit now "revoke" "revoked" (Some id) None "token revoked"
                 (set_tokens (map (mark_revoked now id) (tokens s)) s))
  end.

(** ** Grants *)

Definition line_break (c : Ascii.ascii) : bool :=
  let n := Ascii.nat_of_ascii c in (n =? 10)%nat || (n =? 13)%nat.

Definition token_shape (token : string) : bool :=
  (40 <=? String.length token)%nat && (String.length token <=? 128)%nat
  && negb (existsb line_break (String.list_ascii_of_string token)).

Definition _grant (hash : string -> string) (now : Z) (token : string)
    (expected : CapabilityAudience) (s : cap_store) : CapabilityError + _Grant :=
  if negb (token_shape token) then inl invalid_token else
  match List.find (fun t => String.eqb (t_hash t) (hash token)) (tokens s) with
  | None => inl invalid_token
  | Some t =>
      if negb (bool_decide (t_audience t = expected))
      then inl (CapErr "audience_mismatch" "capability audience is not permitted" 403 false) else
      if negb (bool_decide (t_revoked t = None))
      then inl (CapErr "token_revoked" "capability token is revoked" 401 false) else
      if t_expires t <=? now
      then inl (CapErr "token_expired" "capability token is expired" 401 false) else
      if negb (_validate_binding (t_role t) (t_audience t) (t_profile t))
      then inl invalid_token else
      inr (Grant (t_id t) (t_role t) (t_audience t) (t_scopes t) (t_profile t) (t_expires t)
             (t_budget t) (t_window t) (t_cooldown t))
  end.

(** ** Budgets *)

Definition with_last_wake (t : token_row) (now : Z) : token_row :=
  TokenRow (t_id t) (t_hash t) (t_role t) (t_audience t) (t_scopes t) (t_profile t)
    (t_created t) (t_expires t) (t_budget t) (t_window t) (t_window_start t) (t_window_used t)
    (t_cooldown t) (Some now) (t_revoked t).

Definition with_window (t : token_row) (start used : Z) : token_row :=
  TokenRow (t_id t) (t_hash t) (t_role t) (t_audience t) (t_scopes t) (t_profile t)
    (t_created t) (t_expires t) (t_budget t) (t_window t) start used (t_cooldown t)
    (t_last_wake t) (t_revoked t).

(** The [WHERE] clause of the wake update. *)
Definition may_wake (now cutoff : Z) (id : string) (t : token_row) : bool :=
  String.eqb (t_id t) id && bool_decide (t_revoked t = None) && iso_ltb now (t_expires t)
  && match t_last_wake t with None => true | Some w => iso_leb w cutoff end.

(** The [WHERE] clause of the rate window update. *)
Definition may_request (now cutoff : Z) (id : string) (t : token_row) : bool :=
  String.eqb (t_id t) id && bool_decide (t_revoked t = None) && iso_ltb now (t_expires t)
  && (iso_leb (t_window_start t) cutoff || (t_window_used t <? t_budget t)).

(** [rate_window_started_at], [rate_window_used_count] after the update. *)
Definition use_window (now cutoff : Z) (t : token_row) : token_row :=
  if iso_leb (t_window_start t) cutoff then with_window t now 1
  else with_window t (t_window_start t) (t_window_used t + 1).

Definition update_where (p : token_row -> bool) (f : token_row -> token_row) (l : list token_row)
    : list token_row :=
  map (fun t => if p t then f t else t) l.

Definition rowcount (p : token_row -> bool) (l : list token_row) : nat :=
  length (List.filter p l).

Definition wake_cooldown_error : CapabilityError :=
  CapErr "wake_cooldown" "capability wake cooldown is active" 429 true.
Definition rate_window_error : CapabilityError :=
  CapErr "rate_window_exhausted" "capability rate window exhausted" 429 true.

Definition _consume_budget (now : Z) (g : _Grant) (k : cap_kind) (s : cap_store) : cap_res unit :=
  match k with
  | KWake =>
      let p := may_wake now (now - g_cooldown g * second) (g_token g) in
      let s' := set_tokens (update_where p (fun t => with_last_wake t now) (tokens s)) s in
      if negb (rowcount p (tokens s) =? 1)%nat
      then (inl wake_cooldown_error,
            cap_audit now "wake" "rejected" (Some (g_token g)) (Some (g_audience g)) "wake cooldown active" s')
      else (inr tt, s')
  | _ =>
      let cutoff := now - g_window g * second in
      let p := may_request now cutoff (g_token g) in
      let s' := set_tokens (update_where p (use_window now cutoff) (tokens s)) s in
      if negb (rowcount p (tokens s) =? 1)%nat
      then (inl rate_window_error,
            cap_audit now "request" "rejected" (Some (g_token g)) (Some (g_audience g)) "rate window exhausted" s')
      else (inr tt, s')
  end.

(** ** Requests *)

Definition same_request (token id : string) (r : request_row) : bool :=
  String.eqb (rq_token r) token && String.eqb (rq_id r) id.

Definition find_request (token id : string) (s : cap_store) : option request_row :=
  List.find (same_request token id) (requests s).

(** A successful routine status answer. *)
Definition routine (r : request_row) : bool :=
  bool_decide (rq_kind r = KStatus) && bool_decide (rq_response r <> None) && rq_successful r.

Definition replay_expired (now : Z) (r : request_row) : bool :=
  bool_decide (rq_kind r = KStatus) && rq_successful r
  && (rq_created r + CAPABILITY_STATUS_REPLAY_WINDOW <=? now).

(** The insertion after the budget was consumed. *)
Definition accept_request (canon : CapabilityRequest -> string) (now : Z) (g : _Grant)
    (q : CapabilityRequest) (s : cap_store) : cap_store :=
  cap_audit now "request" "accepted" (Some (g_token g)) (Some (g_audience g))
    ("kind=" ++ kind_value (cr_kind q))
    (set_requests (requests s ++
       [RequestRow (g_token g) (cr_id q) (canon q) None (cr_kind q) false now]) s).

(** A request seen for the first time: the budget is consumed, then it is stored. *)
Definition begin_fresh (canon : CapabilityRequest -> string) (now : Z) (g : _Grant)
    (q : CapabilityRequest) (s : cap_store) : cap_res (_Grant * option body) :=
  match _consume_budget now g (cr_kind q) s with
  | (inl e, s1) => (inl e, s1)
  | (inr _, s1) => (inr (g, None), accept_request canon now g q s1)
  end.

(** [begin]: the grant with a stored response to replay, or with none and the
    request to be dispatched.  [canon] is the hash of the canonical request. *)
Definition begin (hash : string -> string) (canon : CapabilityRequest -> string) (now : Z)
    (token : string) (a : CapabilityAudience) (q : CapabilityRequest) (s : cap_store)
    : cap_res (_Grant * option body) :=
  match _grant hash now token a s with
  | inl e => (inl e, s)
  | inr g =>
      match find_request (g_token g) (cr_id q) s with
      | None => begin_fresh canon now g q s
      | Some r =>
          if negb (String.eqb (rq_hash r) (canon q))
          then (inl (CapErr "request_id_conflict" "request id was already used" 409 false),
                cap_audit now "request" "rejected" (Some (g_token g)) (Some (g_audience g)) "request id conflict" s)
          else match rq_response r with
               | None => (inl (CapErr "request_in_progress" "request is still in progress" 409 true), s)
               | Some b =>
                   if replay_expired now r
                   then begin_fresh canon now g q (set_requests (List.filter
                          (fun r => negb (same_request (g_token g) (cr_id q) r && routine r))
                          (requests s)) s)
                   else (inr (g, Some b), s)
               end
      end
  end.

(** ** Retention *)

(** Rows with their [rowid]. *)
Definition numbered {A} (l : list A) : list (nat * A) := imap (fun i x => (i, x)) l.

(** [y] comes before [x] in [ORDER BY time DESC, rowid DESC]. *)
Definition newer {A} (time : A -> Z) (x y : nat * A) : bool :=
  iso_ltb (time (snd x)) (time (snd y))
  || ((iso_rank (time (snd x)) =? iso_rank (time (snd y))) && (fst x <? fst y)%nat).

(** [ROW_NUMBER() OVER (PARTITION BY ... ORDER BY time DESC, rowid DESC)] among
    the rows selected by [sel]; [same] is the partition. *)
Definition row_number {A} (time : A -> Z) (sel : A -> bool) (same : A -> A -> bool)
    (rows : list (nat * A)) (x : nat * A) : Z :=
  1 + Z.of_nat (length (List.filter
        (fun y => sel (snd y) && same (snd x) (snd y) && newer time x y) rows)).

(** [DELETE ... WHERE row_number > cap].  The global deletion of the oldest
    [count - cap] rows is the same with a single partition. *)
Definition cap_rows {A} (time : A -> Z) (sel : A -> bool) (same : A -> A -> bool) (cap : Z)
    (l : list A) : list A :=
  map snd (List.filter (fun x => negb (sel (snd x)
                          && (cap <? row_number time sel same (numbered l) x))) (numbered l)).

Definition routine_audit (r : cap_audit_row) : bool :=
  String.eqb (ca_action r) "status"
  && (String.eqb (ca_result r) "accepted" || String.eqb (ca_result r) "succeeded").

Definition any_group {A} (_ _ : A) : bool := true.

Definition prune_requests (cutoff : Z) (l : list request_row) : list request_row :=
  let aged := List.filter (fun r => negb (routine r && iso_ltb (rq_created r) cutoff)) l in
  let capped := cap_rows rq_created routine (fun x y => String.eqb (rq_token x) (rq_token y))
                  CAPABILITY_STATUS_REPLAY_PER_TOKEN_CAP aged in
  cap_rows rq_created routine any_group CAPABILITY_STATUS_REPLAY_GLOBAL_CAP capped.

Definition prune_audits (cutoff : Z) (l : list cap_audit_row) : list cap_audit_row :=
  let aged := List.filter (fun r => negb (routine_audit r && iso_ltb (ca_time r) cutoff)) l in
  let capped := cap_rows ca_time
                  (fun r => routine_audit r && bool_decide (ca_token r <> None))
                  (fun x y => bool_decide (ca_token x = ca_token y))
                  CAPABILITY_STATUS_AUDIT_PER_TOKEN_CAP aged in
  cap_rows ca_time routine_audit any_group CAPABILITY_STATUS_AUDIT_GLOBAL_CAP capped.

Definition _prune_status_retention (now : Z) (s : cap_store) : cap_store :=
  if now <? last_pruned s + CAPABILITY_RETENTION_MAINTENANCE_INTERVAL then s else
  let cutoff := now - CAPABILITY_STATUS_REPLAY_WINDOW in
  CapStore (tokens s) (prune_requests cutoff (requests s)) (prune_audits cutoff (cap_audits s)) now.

(** ** Completion *)

Definition error_body (code message : string) (retryable : bool) : body :=
  [("error", JObj [("code", JStr code); ("message", JStr message); ("retryable", JBool retryable)])]%string.

Definition complete_row (token id : string) (b : body) (ok : bool) (r : request_row) : request_row :=
  if same_request token id r && bool_decide (rq_response r = None)
  then RequestRow (rq_token r) (rq_id r) (rq_hash r) (Some b) (rq_kind r) ok (rq_created r)
  else r.

(** [size] is the length of the encoded response. *)
Definition complete (size : body -> Z) (now : Z) (g : _Grant) (q : CapabilityRequest) (b : body)
    (ok : bool) (s : cap_store) : cap_store :=
  let too_large := CAPABILITY_MAX_RESPONSE_BYTES <? size b in
  let b' := if too_large
            then error_body "response_too_large" "capability response exceeded its bound" false
            else b in
  let ok' := negb too_large && ok in
  let s1 := set_requests (map (complete_row (g_token g) (cr_id q) b' ok') (requests s)) s in
  let s2 := cap_audit now (kind_value (cr_kind q)) (if ok' then "succeeded" else "failed")
              (Some (g_token g)) (Some (g_audience g)) (if ok' then "completed" else "safe failure") s1 in
  _prune_status_retention now s2.

(** ** The service *)

(** One profile of the status the controller returns. *)
Record cap_status := CapStatus {
  cs_profile : ProfileId;
  cs_owner : option ProfileId;
  cs_state : ObservedState;
  cs_health : HealthState;
  cs_ports_ready : option bool;
}.

(** Calls to the controller. *)
Inductive rpc_action :=
  | RGetStatus
  | RWaitReadiness
  | RStart (p : ProfileId)
  | RGetTps (p : ProfileId) (window : string).

(** A successful answer: what it validates as, and its JSON form. *)
Record rpc_value := RpcValue {
  v_snapshot : option (list cap_status);
  v_readiness : option (string * Z);
  v_json : json;
}.

(** An answer; [None] stands for an exception of the call. *)
Inductive rpc_answer :=
  | AFailure (code : ErrorCode) (message : string) (retryable : bool) (details : json)
  | ASuccess (v : rpc_value).

Definition upstream (message : string) : CapabilityError :=
  CapErr "upstream_unavailable" message 503 true.
Definition scope_denied : CapabilityError :=
  CapErr "scope_denied" "capability scope is not permitted" 403 false.

Definition _failure_result (code : ErrorCode) (message : string) (retryable : bool)
    (details : json) : body :=
  [("error", JObj [("code", JStr (error_value code)); ("message", JStr message);
                   ("retryable", JBool retryable); ("details", details)])]%string.

Definition find_cap_status (p : ProfileId) (l : list cap_status) : option cap_status :=
  List.find (fun c => bool_decide (cs_profile c = p)) l.

Definition is_active (l : list cap_status) : bool :=
  match find_cap_status CAPABILITY_START_PROFILE l with
  | Some c => bool_decide (cs_owner c = Some CAPABILITY_START_PROFILE)
              && bool_decide (cs_state c = RUNNING) && bool_decide (cs_health c = HEALTHY)
              && bool_decide (cs_ports_ready c = Some true)
  | None => false
  end.

Definition active_body : body := [("state", JStr "ready"); ("already_active", JBool true)]%string.

Definition _active_wake_result (a : rpc_answer) : option body :=
  match a with
  | ASuccess v => match v_snapshot v with
                  | Some l => if is_active l then Some active_body else None
                  | None => None
                  end
  | AFailure _ _ _ _ => None
  end.

Section Service.
(** The controller: the answer to the [n]-th call; [dump] renders a snapshot
    restricted to the given profiles. *)
Context (rpc : nat -> rpc_action -> option rpc_answer) (dump : list cap_status -> json).

(** A dispatch: the calls made and a body or an error. *)
Definition dres : Type := list rpc_action * (CapabilityError + body).

Definition call (calls : list rpc_action) (a : rpc_action)
    (k : list rpc_action -> rpc_answer -> dres) : dres :=
  let calls' := calls ++ [a] in
  match rpc (length calls) a with
  | None => (calls', inl (upstream "control service unavailable"))
  | Some ans => k calls' ans
  end.

(** [result.get("readiness")], [result.get("readiness_generation")] of a start. *)
Definition wake_body (j : json) : CapabilityError + body :=
  let bad := inl (upstream "control service readiness is unavailable") in
  match j with
  | JObj l =>
      match assoc "readiness" l, assoc "readiness_generation" l with
      | Some (JStr s), Some (JInt n) =>
          if String.eqb s "success" && (1 <=? n)
          then inr [("state", JStr "ready"); ("readiness_generation", JInt n)]%string else bad
      | _, _ => bad
      end
  | _ => bad
  end.

(** The last lines of [_dispatch]: a body for any JSON result. *)
Definition result_body (j : json) : body :=
  match j with
  | JObj l => l
  | JList l => [("items", JList l)]%string
  | _ => [("result", j)]%string
  end.

(** The wait of a second wake while the server is starting. *)
Definition wait_body (a : rpc_answer) : CapabilityError + body :=
  match a with
  | AFailure c m r d => inr (_failure_result c m r d)
  | ASuccess v =>
      match v_readiness v with
      | None => inl (upstream "control service readiness is unavailable")
      | Some (outcome, generation) =>
          if String.eqb outcome "success"
          then inr [("state", JStr "ready"); ("readiness_generation", JInt generation);
                    ("already_active", JBool true)]%string
          else inl (CapErr "health_failed" "controller health gate failed" 503
                      (String.eqb outcome "timeout"))
      end
  end.

(** The answer to the start command. *)
Definition start_answer (calls : list rpc_action) (a : rpc_answer) : dres :=
  match a with
  | AFailure c m r d =>
      if bool_decide (c = SLOT_CONFLICT) then
        call calls RGetStatus (fun calls' st =>
          match _active_wake_result st with
          | Some b => (calls', inr b)
          | None => (calls', inr (_failure_result c m r d))
          end)
      else (calls, inr (_failure_result c m r d))
  | ASuccess v => (calls, wake_body (v_json v))
  end.

Definition dispatch_wake : dres :=
  call [] RGetStatus (fun calls preflight =>
    match _active_wake_result preflight with
    | Some b => (calls, inr b)
    | None =>
        match preflight with
        | AFailure c m r d => (calls, inr (_failure_result c m r d))
        | ASuccess v =>
            match v_snapshot v ≫= find_cap_status CAPABILITY_START_PROFILE with
            | None => (calls, inl (upstream "control service status is unavailable"))
            | Some target =>
                if bool_decide (cs_owner target = Some CAPABILITY_START_PROFILE)
                   && bool_decide (cs_state target = STARTING)
                then call calls RWaitReadiness (fun calls' a => (calls', wait_body a))
                else if bool_decide (cs_owner target <> None)
                then (calls, inl (CapErr "slot_conflict" "game slot is reserved" 409 false))
                else call calls (RStart CAPABILITY_START_PROFILE) start_answer
            end
        end
    end).

(** Status and TPS requests. *)
Definition dispatch_read (g : _Grant) (q : CapabilityRequest) (a : rpc_action) : dres :=
  call [] a (fun calls ans =>
    match ans with
    | AFailure c m r d => (calls, inr (_failure_result c m r d))
    | ASuccess v =>
        if bool_decide (g_role g = WAKER) && bool_decide (cr_kind q = KStatus) then
          match v_snapshot v with
          | None => (calls, inl (upstream "control service status is unavailable"))
          | Some l => (calls, inr (result_body (dump (List.filter
                         (fun c => bool_decide (cs_profile c = CAPABILITY_START_PROFILE)) l))))
          end
        else (calls, inr (result_body (v_json v)))
    end).

Definition scope_of (k : cap_kind) : CapabilityScope :=
  match k with KStatus => SCOPE_STATUS | KWake => SCOPE_WAKE | KTps => SCOPE_TPS end.

(** [CapabilityService._dispatch] *)
Definition cap_dispatch (g : _Grant) (q : CapabilityRequest) : dres :=
  if negb (bool_decide (scope_of (cr_kind q) ∈ g_scopes g)) then ([], inl scope_denied) else
  if bool_decide (g_role g = WAKER) && bool_decide (cr_kind q = KTps)
  then ([], inl (CapErr "scope_denied" "waker capability is limited to status and wake" 403 false))
  else match cr_kind q with
       | KStatus => dispatch_read g q RGetStatus
       | KWake => dispatch_wake
       | KTps => dispatch_read g q (RGetTps CAPABILITY_START_PROFILE (cr_window q))
       end.

(** [body["error"].get("retryable")]; an [error] entry of an answer is a dictionary. *)
Definition body_retryable (b : body) : bool :=
  match assoc "error" b with
  | Some (JObj l) => match assoc "retryable" l with Some (JBool true) => true | _ => false end
  | _ => false
  end.

Record CapabilityHttpResult := HttpResult { h_status : Z; h_body : body }.

Definition error_result (e : CapabilityError) : CapabilityHttpResult :=
  HttpResult (ce_status e) (error_body (ce_code e) (ce_message e) (ce_retryable e)).

(** [CapabilityService.handle]; [now] and [now'] are the clock at [begin] and at
    [complete]. *)
Definition handle (hash : string -> string) (canon : CapabilityRequest -> string)
    (size : body -> Z) (now now' : Z) (token : string) (a : CapabilityAudience)
    (q : CapabilityRequest) (s : cap_store)
    : CapabilityHttpResult * list rpc_action * cap_store :=
  match begin hash canon now token a q s with
  | (inl e, s1) => (error_result e, [], s1)
  | (inr (_, Some b), s1) => (HttpResult 200 b, [], s1)
  | (inr (g, None), s1) =>
      let '(calls, r) := cap_dispatch g q in
      let '(status, b, ok) :=
        match r with
        | inr b =>
            let ok := bool_decide (assoc "error" b = None) in
            (if ok then 200 else if body_retryable b then 503 else 400, b, ok)
        | inl e => (ce_status e, error_body (ce_code e) (ce_message e) (ce_retryable e), false)
        end in
      (HttpResult status b, calls, complete size now' g q b ok s1)
  end.
End Service.
