(* ===== verification/CapabilityFacts.v ===== *)
(** Theorems about the capability boundary: spacing of wakes, rate windows,
    replay, revocation, retention, and when a start may be requested. *)
From S2P Require Import Prelude Models ControllerDb Capability.

(** ** The order of ISO texts *)

Lemma iso_leb_le a b : iso_leb a b = true -> a < b + second.
Proof.
  unfold iso_leb, iso_rank. intros H. to_prop.
  pose proof (Z.div_mod a second ltac:(done)). pose proof (Z.div_mod b second ltac:(done)).
  pose proof (Z.mod_pos_bound a second ltac:(done)). pose proof (Z.mod_pos_bound b second ltac:(done)).
  unfold second in *.
  destruct (a mod 1000000 =? 0) eqn:Ea, (b mod 1000000 =? 0) eqn:Eb; to_prop; lia.
Qed.

Lemma le_iso_leb a b : a + second <= b -> iso_leb a b = true.
Proof.
  unfold iso_leb, iso_rank. intros H. apply Z.leb_le.
  pose proof (Z.div_mod a second ltac:(done)). pose proof (Z.div_mod b second ltac:(done)).
  pose proof (Z.mod_pos_bound a second ltac:(done)). pose proof (Z.mod_pos_bound b second ltac:(done)).
  unfold second in *.
  destruct (a mod 1000000 =? 0) eqn:Ea, (b mod 1000000 =? 0) eqn:Eb; to_prop; lia.
Qed.

(** ** Runs of the store *)

Section Runs.
Context (hash : string -> string) (canon : CapabilityRequest -> string) (size : body -> Z).

Inductive cap_op :=
  | OIssue (now : Z) (token_id token : string) (r : CapabilityRole) (a : CapabilityAudience)
      (p : option ProfileId) (ttl rate_budget rate_window wake_cooldown : Z)
  | ORevoke (now : Z) (id : string)
  | OBegin (now : Z) (token : string) (a : CapabilityAudience) (q : CapabilityRequest)
  | OComplete (now : Z) (g : _Grant) (q : CapabilityRequest) (b : body) (ok : bool).

(** An insertion that repeats a token id or hash violates the table's key. *)
Definition run_cap (o : cap_op) (s : cap_store) : cap_store :=
  match o with
  | OIssue now id token r a p ttl rb rw wc =>
      if existsb (fun t => String.eqb (t_id t) id || String.eqb (t_hash t) (hash token)) (tokens s)
      then s else snd (issue hash now id token r a p ttl rb rw wc s)
  | ORevoke now id => snd (revoke now id s)
  | OBegin now token a q => snd (begin hash canon now token a q s)
  | OComplete now g q b ok => complete size now g q b ok s
  end.

(** The grant of a request that was accepted for dispatch. *)
Definition dispatched (o : cap_op) (s : cap_store) : option (Z * _Grant * CapabilityRequest) :=
  match o with
  | OBegin now token a q =>
      match fst (begin hash canon now token a q s) with
      | inr (g, None) => Some (now, g, q)
      | _ => None
      end
  | _ => None
  end.

Definition row_ok (t : token_row) : Prop :=
  t_scopes t = _scopes (t_role t) /\ 1 <= t_budget t /\ 0 <= t_window_used t <= t_budget t
  /\ 1 <= t_window t /\ 0 <= t_cooldown t.

Definition cap_wf (s : cap_store) : Prop :=
  NoDup (map t_id (tokens s)) /\ Forall row_ok (tokens s).

(** ** The token table *)

(** What an operation does to a stored token: nothing, revocation, a wake, or a
    use of its rate window. *)
Inductive token_step (t : token_row) : token_row -> Prop :=
  | ts_same : token_step t t
  | ts_revoke now : token_step t (mark_revoked now (t_id t) t)
  | ts_wake now : may_wake now (now - t_cooldown t * second) (t_id t) t = true ->
      token_step t (with_last_wake t now)
  | ts_use now : may_request now (now - t_window t * second) (t_id t) t = true ->
      token_step t (use_window now (now - t_window t * second) t).

Lemma token_step_id t t' : token_step t t' -> t_id t' = t_id t.
Proof.
  intros []; [done|unfold mark_revoked; by destruct (_ && _)|done|
    unfold use_window; by destruct (iso_leb _ _)].
Qed.

Lemma token_step_ok t t' : token_step t t' -> row_ok t -> row_ok t'.
Proof.
  intros [] (H1 & H2 & H3 & H4 & H5); [done|unfold mark_revoked; by destruct (_ && _)|done|].
  unfold use_window, may_request in *. to_prop.
  destruct (iso_leb (t_window_start t) _) eqn:E; repeat split; simpl; try done; try lia.
Qed.

Lemma find_grant now token a s g :
  _grant hash now token a s = inr g ->
  exists t, List.In t (tokens s) /\ t_hash t = hash token /\ t_id t = g_token g
    /\ t_role t = g_role g /\ t_scopes t = g_scopes g /\ t_audience t = a
    /\ t_revoked t = None /\ now < t_expires t
    /\ t_cooldown t = g_cooldown g /\ t_window t = g_window g
    /\ _validate_binding (t_role t) (t_audience t) (t_profile t) = true.
Proof.
  unfold _grant. intros H. destruct (negb (token_shape token)); [done|].
  destruct (List.find _ _) as [t|] eqn:Ef; [|done]. apply find_some in Ef as [Hin Hh].
  repeat (case_match; [done|]). simplify_eq. to_prop. exists t. simpl. by split_and!.
Qed.

(** ** Budgets *)

(** The budget check and its effect, for the token's own settings. *)
Definition allowed (now : Z) (k : cap_kind) (t : token_row) : bool :=
  match k with
  | KWake => may_wake now (now - t_cooldown t * second) (t_id t) t
  | _ => may_request now (now - t_window t * second) (t_id t) t
  end.

Definition charge (now : Z) (k : cap_kind) (t : token_row) : token_row :=
  match k with
  | KWake => with_last_wake t now
  | _ => use_window now (now - t_window t * second) t
  end.

Definition at_token (id : string) (f : token_row -> token_row) (t : token_row) : token_row :=
  if String.eqb (t_id t) id then f t else t.

Lemma same_token s t t' :
  cap_wf s -> List.In t (tokens s) -> List.In t' (tokens s) -> t_id t = t_id t' -> t = t'.
Proof.
  intros [Hnd _]. induction (tokens s) as [|x l IH]; [done|]. simpl in *.
  apply NoDup_cons in Hnd as [Hn Hnd]. intros [->|H1] [->|H2] He; [done|..|by apply IH].
  - exfalso. apply Hn. rewrite He. by apply list_elem_of_In, in_map.
  - exfalso. apply Hn. rewrite <- He. by apply list_elem_of_In, in_map.
Qed.

(** An update that selects by token id, among rows with unique ids. *)
Lemma update_one s t p f :
  cap_wf s -> List.In t (tokens s) -> (forall y, p y = true -> t_id y = t_id t) ->
  rowcount p (tokens s) = (if p t then 1 else 0)%nat
  /\ update_where p f (tokens s) = map (at_token (t_id t) (if p t then f else id)) (tokens s).
Proof.
  intros Hw Hin Hp. split.
  - unfold rowcount. destruct (p t) eqn:E.
    + rewrite (filter_unique t_id _ _ t); [done|apply Hw|done..].
    + rewrite filter_key_none; [done|]. intros y Hy. destruct (p y) eqn:Ey; [|done].
      rewrite (same_token s y t) in Ey; [congruence|done..|by apply Hp].
  - unfold update_where. apply map_ext_in. intros y Hy. unfold at_token.
    destruct (String.eqb (t_id y) (t_id t)) eqn:E; to_prop.
    + rewrite (same_token s y t Hw Hy Hin E). by destruct (p t).
    + destruct (p y) eqn:Ey; [|done]. by apply Hp in Ey.
Qed.

Lemma at_token_id id l : map (at_token id (fun x => x)) l = l.
Proof. induction l as [|x l IH]; [done|]. simpl. unfold at_token at 1. rewrite IH. by destruct (String.eqb _ _). Qed.

Lemma consume_budget_spec now g k s t :
  cap_wf s -> List.In t (tokens s) -> t_id t = g_token g -> t_cooldown t = g_cooldown g ->
  t_window t = g_window g ->
  requests (snd (_consume_budget now g k s)) = requests s
  /\ match fst (_consume_budget now g k s) with
     | inr _ => allowed now k t = true
                /\ tokens (snd (_consume_budget now g k s))
                   = map (at_token (t_id t) (charge now k)) (tokens s)
     | inl _ => allowed now k t = false /\ tokens (snd (_consume_budget now g k s)) = tokens s
     end.
Proof.
  intros Hw Hin Hid Hc Hwin. unfold _consume_budget, allowed, charge. rewrite <- Hid, <- Hc, <- Hwin.
  assert (forall y, may_wake now (now - t_cooldown t * second) (t_id t) y = true -> t_id y = t_id t) as H1.
  { intros y Hy. unfold may_wake in Hy. by to_prop. }
  assert (forall y, may_request now (now - t_window t * second) (t_id t) y = true -> t_id y = t_id t) as H2.
  { intros y Hy. unfold may_request in Hy. by to_prop. }
  destruct (update_one s t _ (fun t => with_last_wake t now) Hw Hin H1) as [C1 U1].
  destruct (update_one s t _ (use_window now (now - t_window t * second)) Hw Hin H2) as [C2 U2].
  destruct k; rewrite ?C1, ?C2, ?U1, ?U2.
  all: match goal with |- context [if ?b then 1%nat else 0%nat] => destruct b eqn:E end; simpl.
  all: rewrite ?at_token_id; split; [done|]; split; [done|].
  all: try done.
  all: apply map_ext_in; intros y Hy; unfold at_token; destruct (String.eqb _ _) eqn:Ey; [|done];
    to_prop; by rewrite (same_token s y t Hw Hy Hin Ey).
Qed.

(** ** Begin *)

(** At most one row per token and request id (the primary key). *)
Definition req_key (r : request_row) : string * string := (rq_token r, rq_id r).
Definition req_unique (s : cap_store) : Prop := NoDup (map req_key (requests s)).

(** Deletions that keep the order and every row that is not a routine status. *)
Definition drops_routine (l l' : list request_row) : Prop :=
  l' `sublist_of` l /\ (forall r, List.In r l -> routine r = false -> List.In r l').

Lemma drops_routine_refl l : drops_routine l l.
Proof. by split. Qed.

Lemma filter_sublist {A} (p : A -> bool) l : List.filter p l `sublist_of` l.
Proof. induction l as [|x l IH]; [done|]. simpl. destruct (p x); by constructor. Qed.

Lemma drops_routine_filter l p :
  (forall r, p r = false -> routine r = true) -> drops_routine l (List.filter p l).
Proof.
  intros Hp. split; [apply filter_sublist|]. intros r Hin Hr. apply filter_In.
  split; [done|]. destruct (p r) eqn:E; [done|]. apply Hp in E. congruence.
Qed.

Lemma same_request_key token id r : same_request token id r = true <-> req_key r = (token, id).
Proof.
  unfold same_request, req_key. rewrite andb_true_iff, !String.eqb_eq. split.
  - by intros [-> ->].
  - by intros [= -> ->].
Qed.

Lemma same_row s r r' :
  req_unique s -> List.In r (requests s) -> List.In r' (requests s) -> req_key r = req_key r' -> r = r'.
Proof.
  unfold req_unique. induction (requests s) as [|x l IH]; [done|]. simpl. intros Hnd.
  apply NoDup_cons in Hnd as [Hn Hnd]. intros [->|H1] [->|H2] He; [done|..|by apply IH].
  - exfalso. apply Hn. rewrite He. by apply list_elem_of_In, in_map.
  - exfalso. apply Hn. rewrite <- He. by apply list_elem_of_In, in_map.
Qed.

Definition granted (now : Z) (token : string) (a : CapabilityAudience) (s : cap_store) (g : _Grant)
    (t : token_row) : Prop :=
  List.In t (tokens s) /\ t_hash t = hash token /\ t_id t = g_token g /\ t_role t = g_role g
  /\ t_scopes t = g_scopes g /\ t_audience t = a /\ t_revoked t = None /\ now < t_expires t
  /\ _validate_binding (t_role t) (t_audience t) (t_profile t) = true.

(** Outcomes of [begin]: the request is accepted for dispatch, charging the
    token's budget and storing a pending row, or the tokens are left alone. *)
Definition accepts (now : Z) (token : string) (a : CapabilityAudience) (q : CapabilityRequest)
    (s : cap_store) (r : CapabilityError + _Grant * option body) (s' : cap_store) : Prop :=
  exists g t kept, r = inr (g, None) /\ granted now token a s g t
    /\ allowed now (cr_kind q) t = true
    /\ tokens s' = map (at_token (t_id t) (charge now (cr_kind q))) (tokens s)
    /\ drops_routine (requests s) kept
    /\ (forall r, find_request (g_token g) (cr_id q) s = Some r -> routine r = true)
    /\ (req_unique s -> forall r, List.In r kept -> same_request (g_token g) (cr_id q) r = false)
    /\ requests s' = kept ++ [RequestRow (g_token g) (cr_id q) (canon q) None (cr_kind q) false now].

Definition declines (s : cap_store) (r : CapabilityError + _Grant * option body) (s' : cap_store)
    : Prop :=
  (forall g, r <> inr (g, None)) /\ tokens s' = tokens s
  /\ drops_routine (requests s) (requests s').

Lemma declines_same s r : (forall g, r <> inr (g, None)) -> declines s r s.
Proof. intros H. split_and!; [done..|apply drops_routine_refl]. Qed.

Lemma fresh_cases now token a q s s0 g r s' :
  cap_wf s -> _grant hash now token a s = inr g -> tokens s0 = tokens s ->
  drops_routine (requests s) (requests s0) ->
  (forall r, find_request (g_token g) (cr_id q) s = Some r -> routine r = true) ->
  (req_unique s -> forall r, List.In r (requests s0) -> same_request (g_token g) (cr_id q) r = false) ->
  begin_fresh canon now g q s0 = (r, s') -> accepts now token a q s r s' \/ declines s r s'.
Proof.
  intros Hw Eg Ht0 Hd Hf Hk.
  destruct (find_grant _ _ _ _ _ Eg) as (t & Hin & Hh & Hid & Hrole & Hsc & Ha & Hrev & Hexp & Hc & Hwin & Hval).
  assert (cap_wf s0) as Hw0 by (unfold cap_wf; by rewrite Ht0).
  assert (List.In t (tokens s0)) as Hin0 by by rewrite Ht0.
  destruct (consume_budget_spec now g (cr_kind q) s0 t Hw0 Hin0 Hid Hc Hwin) as [Hr Hcase].
  unfold begin_fresh.
  destruct (_consume_budget now g (cr_kind q) s0) as [[e|u] s1]; simpl in *;
    destruct Hcase as [Hal Htok]; intros [= <- <-].
  - right. unfold declines. rewrite Hr. split_and!; [done|congruence|done..].
  - left. exists g, t, (requests s0). simpl. rewrite Htok, Ht0, Hr. by split_and!.
Qed.

Lemma begin_cases now token a q s r s' :
  cap_wf s -> begin hash canon now token a q s = (r, s') ->
  accepts now token a q s r s' \/ declines s r s'.
Proof.
  intros Hw. unfold begin. destruct (_grant hash now token a s) as [e|g] eqn:Eg.
  { intros [= <- <-]. right. by apply declines_same. }
  destruct (find_request (g_token g) (cr_id q) s) as [r0|] eqn:Ef.
  2: { apply (fresh_cases _ _ _ _ _ _ _ _ _ Hw Eg); [done|apply drops_routine_refl|congruence|].
    intros _ r0 Hr0. destruct (same_request _ _ r0) eqn:Es; [|done].
    eapply find_none in Ef; [|exact Hr0]. congruence. }
  destruct (negb (String.eqb (rq_hash r0) (canon q))).
  { intros [= <- <-]. right. by split_and!; [|done|apply drops_routine_refl]. }
  destruct (rq_response r0) as [b|] eqn:Er.
  2: { intros [= <- <-]. right. by apply declines_same. }
  destruct (replay_expired now r0) eqn:Ex.
  2: { intros [= <- <-]. right. by apply declines_same. }
  assert (routine r0 = true) as Hrout.
  { unfold replay_expired in Ex. to_prop. unfold routine. rewrite Er.
    by rewrite !bool_decide_eq_true_2. }
  apply (fresh_cases _ _ _ _ _ _ _ _ _ Hw Eg); [done| | |].
  - apply drops_routine_filter. intros r1 H1. to_prop. done.
  - intros r1 E1. by simplify_eq.
  - intros Hu r1 [Hin1 Hk1]%filter_In. destruct (same_request _ _ r1) eqn:Es; [|done]. exfalso.
    apply find_some in Ef as [Hin0 Hs0]. apply same_request_key in Es, Hs0.
    rewrite (same_row s r1 r0) in Hk1; [|done..|congruence]. by rewrite Hrout in Hk1.
Qed.

(** ** Every operation on the tokens *)

Lemma charge_step now k t : allowed now k t = true -> token_step t (charge now k t).
Proof. destruct k; simpl; intros H; [by apply ts_use|by apply ts_wake|by apply ts_use]. Qed.

Lemma tokens_step o s :
  cap_wf s ->
  exists f extra, tokens (run_cap o s) = map f (tokens s) ++ extra
    /\ (forall t, List.In t (tokens s) -> token_step t (f t))
    /\ Forall row_ok extra /\ (length extra <= 1)%nat
    /\ forall t t', List.In t extra -> List.In t' (tokens s) -> t_id t <> t_id t'.
Proof.
  intros Hw. assert (forall s', tokens s' = tokens s -> exists f extra, tokens s' = map f (tokens s) ++ extra
    /\ (forall t, List.In t (tokens s) -> token_step t (f t))
    /\ Forall row_ok extra /\ (length extra <= 1)%nat
    /\ forall t t', List.In t extra -> List.In t' (tokens s) -> t_id t <> t_id t') as Hsame.
  { intros s' ->. exists (fun t => t), []. rewrite map_id, app_nil_r.
    split_and!; [done|intros; apply ts_same|done|simpl; lia|done]. }
  destruct o; simpl.
  - destruct (existsb _ _) eqn:Edup; [by apply Hsame|]. unfold issue.
    repeat (case_match; [by apply Hsame|]). simpl. eexists (fun t => t), _. rewrite map_id.
    split_and!; [done|intros; apply ts_same| |simpl; lia|].
    + constructor; [|done]. to_prop. unfold row_ok, second in *. simpl. split_and!; try done; lia.
    + intros t t' [<-|[]] Hin He. simpl in He.
      assert (existsb (fun t => String.eqb (t_id t) token_id || String.eqb (t_hash t) (hash token))
        (tokens s) = true); [|congruence].
      apply existsb_exists. exists t'. split; [done|]. by rewrite <- He, String.eqb_refl.
  - unfold revoke. destruct (_ || _); [by apply Hsame|].
    destruct (find_token id s) as [t0|]; [|by apply Hsame]. simpl.
    exists (mark_revoked now id), []. rewrite app_nil_r. split_and!; [done| |done|simpl; lia|done].
    intros t _. destruct (decide (t_id t = id)) as [<-|Hne]; [apply ts_revoke|].
    unfold mark_revoked. apply String.eqb_neq in Hne. rewrite Hne. apply ts_same.
  - destruct (begin hash canon now token a q s) as [r s'] eqn:E. simpl.
    destruct (begin_cases _ _ _ _ _ _ _ Hw E) as [(g & t & kept & _ & Hg & Hal & Htok & _)|(_ & Htok & _)];
      [|by apply Hsame].
    exists (at_token (t_id t) (charge now (cr_kind q))), []. rewrite app_nil_r.
    split_and!; [done| |done|simpl; lia|done]. intros t' Hin'. unfold at_token.
    destruct (String.eqb (t_id t') (t_id t)) eqn:Eq; [|apply ts_same]. to_prop.
    destruct Hg as (Hin & _). rewrite (same_token s t' t Hw Hin' Hin Eq). by apply charge_step.
  - apply Hsame. unfold complete, _prune_status_retention. simpl. by destruct (_ <? _).
Qed.

Lemma cap_wf_step o s : cap_wf s -> cap_wf (run_cap o s).
Proof.
  intros Hw. destruct (tokens_step o s Hw) as (f & ex & E & Hf & Hok & Hlen & Hnew).
  destruct Hw as [Hnd Hrows]. unfold cap_wf. rewrite E. split.
  - rewrite map_app. assert (map t_id (map f (tokens s)) = map t_id (tokens s)) as ->.
    { rewrite map_map. apply map_ext_in. intros t Hin. by apply token_step_id, Hf. }
    apply NoDup_app. split_and!; [done| |].
    + intros x Hx Hx'. apply list_elem_of_In, in_map_iff in Hx as (t' & <- & Ht').
      apply list_elem_of_In, in_map_iff in Hx' as (t & He & Ht). by apply (Hnew t t').
    + destruct ex as [|x [|y l]]; simpl in *; [constructor|apply NoDup_singleton|lia].
  - apply Forall_app. split; [|done]. apply Forall_map, List.Forall_forall. intros t Hin.
    apply (token_step_ok t); [by apply Hf|]. by apply (proj1 (List.Forall_forall _ _) Hrows).
Qed.

(** ** What one operation does to one token *)

(** The accepted request of token [tid], if the operation accepted one. *)
Definition accepted_of (tid : string) (o : cap_op) (s : cap_store) : option (Z * cap_kind) :=
  match dispatched o s with
  | Some (now, g, q) => if String.eqb (g_token g) tid then Some (now, cr_kind q) else None
  | None => None
  end.

(** Fields no operation changes. *)
Definition same_settings (t t' : token_row) : Prop :=
  t_id t' = t_id t /\ t_cooldown t' = t_cooldown t /\ t_window t' = t_window t
  /\ t_budget t' = t_budget t.

Lemma charge_settings now k t : same_settings t (charge now k t).
Proof. destruct k; simpl; unfold use_window; try destruct (iso_leb _ _); by split_and!. Qed.

(** The row after the operation: charged when a request was accepted, otherwise
    equal up to revocation. *)
Lemma token_after o s t :
  cap_wf s -> List.In t (tokens s) ->
  exists t', List.In t' (tokens (run_cap o s)) /\ same_settings t t'
    /\ match accepted_of (t_id t) o s with
       | Some (now, k) => allowed now k t = true /\ t' = charge now k t
       | None => t_last_wake t' = t_last_wake t /\ t_window_start t' = t_window_start t
                 /\ t_window_used t' = t_window_used t
       end
    /\ (t_revoked t <> None -> t_revoked t' <> None).
Proof.
  intros Hw Hin. assert (forall s', List.In t (tokens s') -> accepted_of (t_id t) o s = None ->
    exists t', List.In t' (tokens s') /\ same_settings t t'
    /\ match accepted_of (t_id t) o s with
       | Some (now, k) => allowed now k t = true /\ t' = charge now k t
       | None => t_last_wake t' = t_last_wake t /\ t_window_start t' = t_window_start t
                 /\ t_window_used t' = t_window_used t
       end /\ (t_revoked t <> None -> t_revoked t' <> None)) as Hsame.
  { intros s' Hin' ->. exists t. by split_and!. }
  destruct o; unfold run_cap.
  - destruct (existsb _ _); [by apply Hsame|]. apply Hsame; [|done]. unfold issue.
    repeat (case_match; [done|]). simpl. apply in_app_iff. by left.
  - unfold revoke. destruct (_ || _); [by apply Hsame|]. destruct (find_token id s); [|by apply Hsame].
    exists (mark_revoked now id t). split; [by apply in_map|]. simpl. unfold mark_revoked.
    destruct (_ && _); by split_and!.
  - destruct (begin hash canon now token a q s) as [r s'] eqn:E. unfold accepted_of, dispatched in *. simpl.
    rewrite E in *. simpl in *.
    destruct (begin_cases _ _ _ _ _ _ _ Hw E) as
      [(g & t0 & kept & -> & Hg & Hal & Htok & _)|(Hno & Htok & _)].
    + destruct Hg as (Hin0 & _ & Hid0 & _). rewrite <- Hid0 in *. rewrite Htok.
      exists (at_token (t_id t0) (charge now (cr_kind q)) t). split; [by apply in_map|].
      unfold at_token. rewrite (String.eqb_sym (t_id t0)).
      destruct (String.eqb (t_id t) (t_id t0)) eqn:Eq; [|by split_and!]. to_prop.
      rewrite (same_token s t t0 Hw Hin Hin0 Eq). split; [apply charge_settings|]. split; [done|].
      destruct (cr_kind q); simpl; unfold use_window; try destruct (iso_leb _ _); done.
    + rewrite <- Htok in Hin. apply Hsame; [done|]. destruct r as [e|[g [b|]]]; [done..|].
      by specialize (Hno g).
  - apply Hsame; [|done]. unfold complete, _prune_status_retention. simpl. by destruct (_ <? _).
Qed.

(** ** Wakes *)

Fixpoint wakes (tid : string) (ops : list cap_op) (s : cap_store) : list Z :=
  match ops with
  | [] => []
  | o :: ops' =>
      match accepted_of tid o s with
      | Some (now, KWake) => now :: wakes tid ops' (run_cap o s)
      | _ => wakes tid ops' (run_cap o s)
      end
  end.

Definition run_caps (ops : list cap_op) (s : cap_store) : cap_store :=
  foldl (fun s o => run_cap o s) s ops.

(** Consecutive wakes are more than [gap] apart. *)
Fixpoint spaced (gap : Z) (l : list Z) : Prop :=
  match l with
  | a :: (b :: _) as l' => a + gap < b /\ spaced gap l'
  | _ => True
  end.

Definition after_last (w : option Z) (l : list Z) : list Z :=
  match w with Some w => w :: l | None => l end.

Lemma may_wake_gap now t w :
  allowed now KWake t = true -> t_last_wake t = Some w -> w + (t_cooldown t - 1) * second < now.
Proof.
  simpl. unfold may_wake. intros H Hw. rewrite Hw in H. to_prop.
  match goal with H : iso_leb _ _ = true |- _ => apply iso_leb_le in H end. unfold second in *. lia.
Qed.

Lemma spaced_tail gap a l : spaced gap (a :: l) -> spaced gap l.
Proof. destruct l; simpl; tauto. Qed.

Lemma wakes_spaced ops : forall s t, cap_wf s -> List.In t (tokens s) ->
  spaced ((t_cooldown t - 1) * second) (after_last (t_last_wake t) (wakes (t_id t) ops s)).
Proof.
  induction ops as [|o ops IH]; intros s t Hw Hin; [by destruct (t_last_wake t)|]. simpl.
  destruct (token_after o s t Hw Hin) as (t' & Hin' & (Hid & Hc & _ & _) & Hcase & _).
  specialize (IH (run_cap o s) t' (cap_wf_step o s Hw) Hin'). rewrite Hid, Hc in IH.
  destruct (accepted_of (t_id t) o s) as [[now k]|].
  - destruct Hcase as [Hal ->]. destruct k; simpl in IH.
    + unfold use_window in IH. by destruct (iso_leb _ _).
    + destruct (t_last_wake t) as [w|] eqn:El; [|done]. split; [|done].
      by apply may_wake_gap.
    + unfold use_window in IH. by destruct (iso_leb _ _).
  - destruct Hcase as (E & _). by rewrite E in IH.
Qed.

(** ** Rate windows *)

Lemma find_token_in s t : cap_wf s -> List.In t (tokens s) -> find_token (t_id t) s = Some t.
Proof.
  intros Hw Hin. unfold find_token. destruct (List.find _ _) as [t'|] eqn:E.
  - apply find_some in E as [Hin' He]. to_prop. f_equal. by apply (same_token s).
  - exfalso. eapply find_none in E; [|exact Hin]. simpl in E. by rewrite String.eqb_refl in E.
Qed.

(** The start of the rate window each accepted status or TPS request was charged
    to. *)
Fixpoint windows (tid : string) (ops : list cap_op) (s : cap_store) : list Z :=
  match ops with
  | [] => []
  | o :: ops' =>
      let s' := run_cap o s in
      match accepted_of tid o s with
      | Some (_, KStatus) | Some (_, KTps) =>
          match find_token tid s' with
          | Some t => t_window_start t :: windows tid ops' s'
          | None => windows tid ops' s'
          end
      | _ => windows tid ops' s'
      end
  end.

Definition window_count (x : Z) (l : list Z) : Z := Z.of_nat (count_occ Z.eq_dec l x).

(** The future windows of a token whose current window is [start], [used] times. *)
Definition windows_ok (gap budget start used : Z) (ws : list Z) : Prop :=
  (forall x, List.In x ws -> x = start \/ start + gap < x)
  /\ (forall x y, List.In x ws -> List.In y ws -> x < y -> x + gap < y)
  /\ (forall x, window_count x ws + (if x =? start then used else 0) <= budget).

Lemma window_count_cons x y l : window_count x (y :: l) = (if x =? y then 1 else 0) + window_count x l.
Proof.
  unfold window_count. simpl. destruct (Z.eq_dec y x) as [->|H]; [rewrite Z.eqb_refl; lia|].
  assert (x <> y) as H'%Z.eqb_neq by done. rewrite H'. lia.
Qed.

Lemma window_count_absent x l : ~ List.In x l -> window_count x l = 0.
Proof. intros H. unfold window_count. by rewrite (proj1 (count_occ_not_In Z.eq_dec l x) H). Qed.

(** Another request in the current window. *)
Lemma windows_ok_same gap budget start used ws :
  windows_ok gap budget start (used + 1) ws -> windows_ok gap budget start used (start :: ws).
Proof.
  intros (H1 & H2 & H3). split_and!.
  - intros x [<-|Hx]; auto.
  - intros x y [<-|Hx] [<-|Hy] Hlt; [lia| | |by apply H2].
    + destruct (H1 y Hy); lia.
    + destruct (H1 x Hx); lia.
  - intros x. rewrite window_count_cons. specialize (H3 x). destruct (x =? start); lia.
Qed.

(** The first request of a new window. *)
Lemma windows_ok_new gap budget start used now ws :
  0 <= gap -> 0 <= used <= budget -> start + gap < now -> windows_ok gap budget now 1 ws ->
  windows_ok gap budget start used (now :: ws).
Proof.
  intros Hg Hu Hn (H1 & H2 & H3).
  assert (~ List.In start ws) as Hns by (intros Hin; destruct (H1 start Hin); lia).
  split_and!.
  - intros x [<-|Hx]; [by right|]. right. destruct (H1 x Hx); lia.
  - intros x y [<-|Hx] [<-|Hy] Hlt; [lia| | |by apply H2].
    + destruct (H1 y Hy); lia.
    + destruct (H1 x Hx); lia.
  - intros x. rewrite window_count_cons. specialize (H3 x).
    destruct (x =? start) eqn:Es; to_prop; [subst x; rewrite window_count_absent by done|];
      destruct (_ =? now) eqn:En; to_prop; lia.
Qed.

Lemma windows_ok_run ops : forall s t, cap_wf s -> List.In t (tokens s) ->
  windows_ok ((t_window t - 1) * second) (t_budget t) (t_window_start t) (t_window_used t)
    (windows (t_id t) ops s).
Proof.
  induction ops as [|o ops IH]; intros s t Hw Hin.
  { pose proof (proj1 (List.Forall_forall _ _) (proj2 Hw) t Hin) as (_ & _ & Hu & _).
    split_and!; [done..|]. intros x. unfold window_count. simpl. destruct (x =? _); lia. }
  pose proof (proj1 (List.Forall_forall _ _) (proj2 Hw) t Hin) as (_ & Hb & Hu & Hwin & _).
  destruct (token_after o s t Hw Hin) as (t' & Hin' & (Hid & Hc & Hww & Hbb) & Hcase & _).
  pose proof (cap_wf_step o s Hw) as Hw'. specialize (IH (run_cap o s) t' Hw' Hin').
  pose proof (find_token_in _ _ Hw' Hin') as Hfind. rewrite Hid, Hww, Hbb in *. cbn [windows].
  destruct (accepted_of (t_id t) o s) as [[now k]|].
  2: { destruct Hcase as (_ & Es & Eu). by rewrite Es, Eu in IH. }
  destruct Hcase as [Hal ->].
  destruct k; [|done|]; rewrite Hfind; simpl in *; unfold use_window, may_request in *;
    (destruct (iso_leb (t_window_start t) _) eqn:E; simpl in *;
     [apply windows_ok_new; [unfold second in *; lia|lia| |done];
      apply iso_leb_le in E; unfold second in *; lia
     |by apply windows_ok_same]).
Qed.

(** ** Replay *)

Lemma numbered_snd {A} (l : list A) : map snd (numbered l) = l.
Proof.
  unfold numbered. change (map snd ?x) with (snd <$> x). rewrite fmap_imap.
  etrans; [apply (imap_const id l)|apply list_fmap_id].
Qed.

Lemma filter_snd_sublist {A} (p : nat * A -> bool) (d : list (nat * A)) :
  map snd (List.filter p d) `sublist_of` map snd d.
Proof. induction d as [|x d IH]; [done|]. simpl. destruct (p x); simpl; by constructor. Qed.

Lemma cap_rows_sublist {A} time sel same cap (l : list A) :
  cap_rows time sel same cap l `sublist_of` l.
Proof.
  unfold cap_rows. pose proof (fun p => filter_snd_sublist p (numbered l)) as H.
  rewrite numbered_snd in H. apply H.
Qed.

Lemma cap_rows_keeps {A} time sel same cap (l : list A) x :
  List.In x l -> sel x = false -> List.In x (cap_rows time sel same cap l).
Proof.
  intros Hin Hs. unfold cap_rows. rewrite <- (numbered_snd l) in Hin.
  apply in_map_iff in Hin as (y & <- & Hy). apply in_map_iff. exists y. split; [done|].
  apply filter_In. split; [done|]. by rewrite Hs.
Qed.

Lemma prune_drops cutoff l : drops_routine l (prune_requests cutoff l).
Proof.
  unfold prune_requests. split.
  - etrans; [apply cap_rows_sublist|]. etrans; [apply cap_rows_sublist|]. apply filter_sublist.
  - intros r Hin Hr. apply cap_rows_keeps; [|done]. apply cap_rows_keeps; [|done].
    apply filter_In. by rewrite Hr.
Qed.

(** What an operation does to the request rows: completion of pending ones,
    deletions of routine ones, at most one new pending row under a free key. *)
Lemma requests_step o s :
  cap_wf s -> exists f kept extra,
    drops_routine (map f (requests s)) kept /\ requests (run_cap o s) = kept ++ extra
    /\ (forall r, req_key (f r) = req_key r /\ rq_kind (f r) = rq_kind r)
    /\ (length extra <= 1)%nat
    /\ (req_unique s -> forall r r', List.In r kept -> List.In r' extra -> req_key r <> req_key r').
Proof.
  intros Hw. assert (forall s', drops_routine (requests s) (requests s') ->
    exists f kept extra, drops_routine (map f (requests s)) kept /\ requests s' = kept ++ extra
    /\ (forall r, req_key (f r) = req_key r /\ rq_kind (f r) = rq_kind r)
    /\ (length extra <= 1)%nat
    /\ (req_unique s -> forall r r', List.In r kept -> List.In r' extra -> req_key r <> req_key r')) as Hsame.
  { intros s' Hd. exists (fun r => r), (requests s'), []. rewrite map_id, app_nil_r.
    split_and!; [done..|simpl; lia|done]. }
  destruct o; unfold run_cap.
  - destruct (existsb _ _); [apply Hsame, drops_routine_refl|]. unfold issue.
    repeat (case_match; [apply Hsame, drops_routine_refl|]). apply Hsame, drops_routine_refl.
  - unfold revoke. destruct (_ || _); [apply Hsame, drops_routine_refl|].
    destruct (find_token id s); apply Hsame, drops_routine_refl.
  - destruct (begin hash canon now token a q s) as [r s'] eqn:E.
    destruct (begin_cases _ _ _ _ _ _ _ Hw E) as
      [(g & t0 & kept & _ & _ & _ & _ & Hd & _ & Hk & Hreq)|(_ & _ & Hd)]; [|by apply Hsame].
    exists (fun r => r), kept, [RequestRow (g_token g) (cr_id q) (canon q) None (cr_kind q) false now].
    rewrite map_id. split_and!; [done..|simpl; lia|]. intros Hu r1 r2 H1 [<-|[]] He.
    specialize (Hk Hu r1 H1). apply not_true_iff_false in Hk. by apply Hk, same_request_key.
  - unfold complete. eexists (complete_row (g_token g) (cr_id q) _ _), _, []. rewrite app_nil_r.
    unfold _prune_status_retention. simpl.
    split_and!; [|reflexivity|intros r; unfold complete_row; by destruct (_ && _)|simpl; lia|done].
    destruct (now <? _); simpl; [apply drops_routine_refl|apply prune_drops].
Qed.

Lemma req_unique_step o s : cap_wf s -> req_unique s -> req_unique (run_cap o s).
Proof.
  intros Hw Hu. destruct (requests_step o s Hw) as (f & kept & ex & [Hsub _] & E & Hf & Hlen & Hnew).
  unfold req_unique. rewrite E, map_app. apply NoDup_app. split_and!.
  - eapply sublist_NoDup; [exact Hu|].
    replace (map req_key (requests s)) with (map req_key (map f (requests s))).
    + by apply (fmap_sublist req_key).
    + rewrite map_map. apply map_ext. intros r. apply Hf.
  - intros k Hk Hk'. apply list_elem_of_In, in_map_iff in Hk as (r & <- & Hr).
    apply list_elem_of_In, in_map_iff in Hk' as (r' & He & Hr'). by apply (Hnew Hu r r').
  - destruct ex as [|x [|y l]]; simpl in *; [constructor|apply NoDup_singleton|lia].
Qed.

Definition wake_of (tid rid : string) (o : cap_op) (s : cap_store) : bool :=
  match dispatched o s with
  | Some (_, g, q) => String.eqb (g_token g) tid && String.eqb (cr_id q) rid
                      && bool_decide (cr_kind q = KWake)
  | None => false
  end.

Fixpoint wake_dispatches (tid rid : string) (ops : list cap_op) (s : cap_store) : nat :=
  match ops with
  | [] => 0
  | o :: ops' => (if wake_of tid rid o s then 1 else 0) + wake_dispatches tid rid ops' (run_cap o s)
  end.

Definition wake_row (tid rid : string) (s : cap_store) : Prop :=
  exists r, List.In r (requests s) /\ req_key r = (tid, rid) /\ rq_kind r = KWake.

Lemma wake_not_routine r : rq_kind r = KWake -> routine r = false.
Proof. unfold routine. intros ->. by rewrite bool_decide_eq_false_2. Qed.

Lemma wake_row_step tid rid o s : cap_wf s -> wake_row tid rid s -> wake_row tid rid (run_cap o s).
Proof.
  intros Hw (r & Hin & Hk & Hkind).
  destruct (requests_step o s Hw) as (f & kept & ex & [_ Hkeep] & E & Hf & _).
  exists (f r). rewrite (proj1 (Hf r)), (proj2 (Hf r)), E. split; [|done]. apply in_app_iff. left.
  apply Hkeep; [by apply in_map|]. apply wake_not_routine. by rewrite (proj2 (Hf r)).
Qed.

(** The facts of an accepted dispatch. *)
Lemma dispatched_accepts o s now g q :
  cap_wf s -> dispatched o s = Some (now, g, q) ->
  exists token a t kept, o = OBegin now token a q /\ granted now token a s g t
    /\ drops_routine (requests s) kept
    /\ (forall r, find_request (g_token g) (cr_id q) s = Some r -> routine r = true)
    /\ requests (run_cap o s) =
         kept ++ [RequestRow (g_token g) (cr_id q) (canon q) None (cr_kind q) false now].
Proof.
  intros Hw. destruct o; simpl; try done.
  destruct (begin hash canon now0 token a q0 s) as [r s'] eqn:E. simpl.
  destruct (begin_cases _ _ _ _ _ _ _ Hw E) as
    [(g' & t & kept & -> & Hg & _ & _ & Hd & Hf & _ & Hreq)|(Hno & _)].
  - intros [= -> -> ->]. by exists token, a, t, kept.
  - destruct r as [e|[g' [b|]]]; try done. by specialize (Hno g').
Qed.

Lemma wake_row_blocks tid rid o s :
  cap_wf s -> req_unique s -> wake_row tid rid s -> wake_of tid rid o s = false.
Proof.
  intros Hw Hu (r & Hin & Hk & Hkind). unfold wake_of.
  destruct (dispatched o s) as [[[now g] q]|] eqn:E; [|done].
  destruct (dispatched_accepts _ _ _ _ _ Hw E) as (token & a & t & kept & _ & _ & _ & Hf & _).
  destruct (String.eqb (g_token g) tid) eqn:E1; [|done].
  destruct (String.eqb (cr_id q) rid) eqn:E2; [|done]. to_prop. subst tid rid. exfalso.
  destruct (find_request (g_token g) (cr_id q) s) as [r0|] eqn:Ef.
  - pose proof (Hf r0 eq_refl) as Hr0. apply find_some in Ef as [Hin0 Hs0].
    apply same_request_key in Hs0. rewrite (same_row s r0 r) in Hr0; [|done..|congruence].
    by rewrite (wake_not_routine r) in Hr0.
  - eapply find_none in Ef; [|exact Hin]. apply not_true_iff_false in Ef. by apply Ef, same_request_key.
Qed.

Lemma wake_of_row tid rid o s : cap_wf s -> wake_of tid rid o s = true -> wake_row tid rid (run_cap o s).
Proof.
  intros Hw. unfold wake_of. destruct (dispatched o s) as [[[now g] q]|] eqn:E; [|done].
  destruct (dispatched_accepts _ _ _ _ _ Hw E) as (token & a & t & kept & _ & _ & _ & _ & Hreq).
  intros H. to_prop. unfold wake_row. rewrite Hreq. eexists.
  split; [apply in_app_iff; right; by left|]. unfold req_key. simpl. split; congruence.
Qed.

Lemma wake_dispatches_bound tid rid ops : forall s, cap_wf s -> req_unique s ->
  (wake_dispatches tid rid ops s <= 1)%nat /\ (wake_row tid rid s -> wake_dispatches tid rid ops s = 0%nat).
Proof.
  induction ops as [|o ops IH]; intros s Hw Hu; [simpl; split; [lia|done]|]. simpl.
  destruct (IH (run_cap o s) (cap_wf_step o s Hw) (req_unique_step o s Hw Hu)) as [IH1 IH2].
  split.
  - destruct (wake_of tid rid o s) eqn:E; [|lia]. rewrite IH2; [lia|by apply wake_of_row].
  - intros Hr. rewrite wake_row_blocks by done. by apply IH2, wake_row_step.
Qed.

(** ** Revocation *)

Lemma revoked_blocks ops : forall s t o, cap_wf s -> List.In t (tokens s) -> t_revoked t <> None ->
  accepted_of (t_id t) o (run_caps ops s) = None.
Proof.
  assert (forall s t o, cap_wf s -> List.In t (tokens s) -> t_revoked t <> None ->
    accepted_of (t_id t) o s = None) as Hone.
  { intros s t o Hw Hin Hr. destruct (token_after o s t Hw Hin) as (t' & _ & _ & Hcase & _).
    destruct (accepted_of (t_id t) o s) as [[now k]|]; [|done]. destruct Hcase as [Hal _]. exfalso.
    assert (bool_decide (t_revoked t = None) = true) as Hb.
    { destruct k; simpl in Hal; unfold may_wake, may_request in Hal; by to_prop. }
    by apply bool_decide_eq_true in Hb. }
  induction ops as [|x ops IH]; intros s t o Hw Hin Hr; [by apply Hone|]. simpl.
  destruct (token_after x s t Hw Hin) as (t' & Hin' & (Hid & _) & _ & Hr').
  rewrite <- Hid. by apply IH; [apply cap_wf_step| |apply Hr'].
Qed.
End Runs.

(** ** Retention caps *)

Section Caps.
Context {A : Type} (time : A -> Z) (sel : A -> bool) (same : A -> A -> bool).
Hypothesis same_sym : forall x y, same x y = true -> same y x = true.
Hypothesis same_trans : forall x y z, same x y = true -> same y z = true -> same x z = true.

#[local] Abbreviation newer := (newer time).

Lemma newer_total (x y : nat * A) : fst x <> fst y -> newer x y = true \/ newer y x = true.
Proof.
  unfold Capability.newer, iso_ltb. intros H.
  destruct (Z.lt_trichotomy (iso_rank (time (snd x))) (iso_rank (time (snd y)))) as [Hl|[He|Hg]].
  - left. apply orb_true_iff. left. by apply Z.ltb_lt.
  - destruct (Nat.lt_trichotomy (fst x) (fst y)) as [Hl|[Hn|Hg]]; [left|done|right];
      apply orb_true_iff; right; rewrite andb_true_iff; split;
      [apply Z.eqb_eq; lia|by apply Nat.ltb_lt|apply Z.eqb_eq; lia|by apply Nat.ltb_lt].
  - right. apply orb_true_iff. left. by apply Z.ltb_lt.
Qed.

Lemma newer_trans (x y z : nat * A) : newer x y = true -> newer y z = true -> newer x z = true.
Proof.
  unfold Capability.newer, iso_ltb. rewrite !orb_true_iff, !andb_true_iff.
  rewrite !Z.ltb_lt, !Z.eqb_eq, !Nat.ltb_lt. lia.
Qed.

(** A list of distinct rows has an oldest one. *)
Lemma oldest (k : list (nat * A)) :
  k <> [] -> NoDup (map fst k) ->
  exists x, List.In x k /\ forall y, List.In y k -> y = x \/ newer x y = true.
Proof.
  induction k as [|a k IH]; [done|]. intros _ Hnd. simpl in Hnd. apply NoDup_cons in Hnd as [Hn Hnd].
  destruct k as [|b k]; [exists a; simpl; split; [by left|]; intros y [->|[]]; by left|].
  destruct IH as (x & Hx & Hmin); [done..|].
  assert (fst a <> fst x) as Hne.
  { intros He. apply Hn. rewrite He. by apply list_elem_of_In, in_map. }
  destruct (newer_total a x Hne) as [Hax|Hxa].
  - exists a. split; [by left|]. intros y [->|Hy]; [by left|]. right.
    destruct (Hmin y Hy) as [->|Hxy]; [done|]. by apply (newer_trans a x y).
  - exists x. split; [by right|]. intros y [->|Hy]; [by right|]. by apply Hmin.
Qed.

Lemma numbered_nodup (l : list A) : NoDup (map fst (numbered l)).
Proof.
  unfold numbered. change (map fst ?x) with (fst <$> x). rewrite fmap_imap.
  replace (imap _ l) with (seq 0 (length l)); [apply NoDup_seq|].
  apply list_eq. intros i. rewrite list_lookup_imap.
  destruct (decide (i < length l)%nat) as [Hi|Hi].
  - rewrite lookup_seq_lt by done. destruct (lookup_lt_is_Some_2 l i Hi) as [x ->]. done.
  - rewrite lookup_seq_ge by lia. by rewrite lookup_ge_None_2 by lia.
Qed.

(** At most [cap] selected rows of a group are kept. *)
Lemma cap_rows_bound cap l g :
  0 <= cap ->
  Z.of_nat (length (List.filter (fun r => sel r && same g r) (cap_rows time sel same cap l))) <= cap.
Proof.
  intros Hcap. unfold cap_rows. set (d := numbered l).
  set (keep := fun x => negb _). set (grp := fun r => sel r && same g r).
  set (k := List.filter (fun x => grp (snd x)) (List.filter keep d)).
  assert (length (List.filter grp (map snd (List.filter keep d))) = length k) as ->.
  { unfold k. clear. induction (List.filter keep d) as [|x m IH]; [done|]. simpl.
    destruct (grp (snd x)); simpl; by rewrite IH. }
  destruct k as [|x0 k0] eqn:Ek; [simpl; lia|]. rewrite <- Ek.
  assert (forall x, List.In x k -> List.In x d /\ keep x = true /\ grp (snd x) = true) as Hk.
  { intros x [[? ?]%filter_In ?]%filter_In. done. }
  assert (NoDup (map fst k)) as Hnd.
  { eapply sublist_NoDup; [apply (numbered_nodup l)|]. apply (fmap_sublist fst).
    etrans; apply filter_sublist. }
  destruct (oldest k) as (x & Hx & Hmin); [by rewrite Ek|done|].
  destruct (Hk x Hx) as (Hxd & Hxk & Hxg). unfold grp in Hxg. apply andb_true_iff in Hxg as [Hxs Hxsame].
  assert (length k <= S (length (List.filter (fun y => sel (snd y) && same (snd x) (snd y) && newer x y) d)))%nat as Hlen.
  { apply (NoDup_incl_length (l := k) (l' := x :: _)); [by apply NoDup_ListNoDup, (NoDup_fmap_1 fst)|].
    intros y Hy. destruct (Hmin y Hy) as [->|Hn]; [by left|]. right. apply filter_In.
    destruct (Hk y Hy) as (Hyd & _ & Hyg). split; [done|]. unfold grp in Hyg.
    apply andb_true_iff in Hyg as [Hys Hysame]. rewrite Hys, Hn.
    by rewrite (same_trans (snd x) g (snd y) (same_sym _ _ Hxsame) Hysame). }
  unfold keep, row_number in Hxk. rewrite Hxs in Hxk. to_prop. lia.
Qed.
End Caps.
