(* ===== verification/CapabilityTheorems.v ===== *)
(** The properties of the capability boundary, over every sequence of store
    calls from an empty store and every answer of the controller. *)
From S2P Require Import Prelude Models ControllerDb Capability CapabilityFacts.

Definition empty_store : cap_store := CapStore [] [] [] 0.

Section Theorems.
Context (hash : string -> string) (canon : CapabilityRequest -> string) (size : body -> Z).
#[local] Abbreviation run_caps := (run_caps hash canon size).
#[local] Abbreviation run_cap := (run_cap hash canon size).

(** The state after a sequence of calls. *)
Definition reached (ops : list cap_op) : cap_store := run_caps ops empty_store.

Lemma run_caps_inv (I : cap_store -> Prop) ops :
  (forall o s, I s -> I (run_cap o s)) -> forall s, I s -> I (run_caps ops s).
Proof. intros Hstep. induction ops as [|o ops IH]; intros s Hs; [done|]. simpl. by apply IH, Hstep. Qed.

Lemma reached_wf ops : cap_wf (reached ops).
Proof.
  apply (run_caps_inv cap_wf); [intros o s; apply cap_wf_step|]. split; [constructor|done].
Qed.

Lemma reached_unique ops : req_unique (reached ops).
Proof.
  apply (run_caps_inv (fun s => cap_wf s /\ req_unique s)).
  - intros o s [Hw Hu]. split; [by apply cap_wf_step|by apply req_unique_step].
  - split; [split; [constructor|done]|constructor].
Qed.

(** C15.  Wakes of one token are rate limited: over any further sequence of store
    calls, two consecutive accepted wakes of a token (and the last one before)
    are more than [cooldown - 1] seconds apart, whatever other tokens do. *)
Theorem wakes_respect_cooldown pre ops t :
  List.In t (tokens (reached pre)) ->
  spaced ((t_cooldown t - 1) * second)
    (after_last (t_last_wake t) (wakes hash canon size (t_id t) ops (reached pre))).
Proof. apply wakes_spaced, reached_wf. Qed.

(** C16.  Status and TPS requests of one token are limited per window: over any
    further sequence of store calls, no rate window is charged more often than
    the token's budget (counting its earlier uses), and two distinct windows
    begin more than [window - 1] seconds apart. *)
Theorem rate_windows_respect_budget pre ops t :
  List.In t (tokens (reached pre)) ->
  let ws := windows hash canon size (t_id t) ops (reached pre) in
  (forall x, window_count x ws + (if x =? t_window_start t then t_window_used t else 0) <= t_budget t)
  /\ (forall x y, List.In x ws -> List.In y ws -> x < y -> x + (t_window t - 1) * second < y).
Proof.
  intros Hin. destruct (windows_ok_run hash canon size ops _ t (reached_wf pre) Hin) as (_ & H2 & H3).
  by split.
Qed.

(** C14.  A wake is dispatched to the controller at most once per token and
    request id, over every sequence of store calls: replay, completion,
    expiry of status rows and retention never make it run again. *)
Theorem wake_dispatched_at_most_once ops tid rid :
  (wake_dispatches hash canon size tid rid ops empty_store <= 1)%nat.
Proof.
  apply wake_dispatches_bound; [split; [constructor|done]|constructor].
Qed.

(** Revocation is final: once a token is revoked no call, after any further
    sequence of calls, accepts a request of it. *)
Theorem revoked_token_stays_locked pre t ops o :
  List.In t (tokens (reached pre)) -> t_revoked t <> None ->
  accepted_of hash canon (t_id t) o (run_caps ops (reached pre)) = None.
Proof. intros Hin Hr. by apply (revoked_blocks hash canon size); [apply reached_wf| |]. Qed.

(** ** The cooldown is over *)

(** A token is not locked out: a valid grant whose last wake is at least
    [cooldown + 1] seconds old, with an unused request id and at least a second
    before its expiry, is accepted and stored as pending. *)
Theorem wake_after_cooldown pre now token a q g t w :
  _grant hash now token a (reached pre) = inr g ->
  List.In t (tokens (reached pre)) -> t_id t = g_token g -> t_last_wake t = Some w ->
  cr_kind q = KWake -> find_request (g_token g) (cr_id q) (reached pre) = None ->
  w + (t_cooldown t + 1) * second <= now -> now + second < t_expires t ->
  fst (begin hash canon now token a q (reached pre)) = inr (g, None)
  /\ List.In (RequestRow (g_token g) (cr_id q) (canon q) None KWake false now)
       (requests (snd (begin hash canon now token a q (reached pre)))).
Proof.
  intros Hg Hin Hid Hlast Hkind Hfree Hcool Hexp. pose proof (reached_wf pre) as Hw.
  destruct (find_grant hash _ _ _ _ _ Hg) as (t' & Hin' & _ & Hid' & _ & _ & _ & Hrev & _ & Hc & Hwin & _).
  assert (t' = t) as -> by (apply (same_token (reached pre)); [done..|congruence]).
  unfold begin, begin_fresh. rewrite Hg, Hfree, Hkind.
  destruct (consume_budget_spec now g KWake _ t Hw Hin Hid Hc Hwin) as [_ Hcase].
  destruct (_consume_budget now g KWake (reached pre)) as [[e|u] s1]; simpl in *.
  - exfalso. destruct Hcase as [Hno _]. unfold may_wake in Hno. rewrite String.eqb_refl in Hno.
    rewrite (bool_decide_eq_true_2 _ Hrev), Hlast in Hno. simpl in Hno.
    rewrite le_iso_leb in Hno by (unfold second in *; lia). rewrite andb_true_r in Hno.
    unfold iso_ltb in Hno. apply Z.ltb_ge in Hno.
    assert (iso_leb (t_expires t) now = true) as Hle by by apply Z.leb_le.
    apply iso_leb_le in Hle. lia.
  - split; [done|]. apply in_app_iff. right. left. by rewrite Hkind.
Qed.

(** ** Starts *)

Definition is_start (a : rpc_action) : bool := match a with RStart _ => true | _ => false end.

Section Calls.
Context (rpc : nat -> rpc_action -> option rpc_answer) (dump : list cap_status -> json).

(** The controller reported a free slot before the start. *)
Definition saw_free_slot : Prop :=
  exists v l c, rpc 0%nat RGetStatus = Some (ASuccess v) /\ v_snapshot v = Some l
    /\ find_cap_status CAPABILITY_START_PROFILE l = Some c /\ cs_owner c = None.

Definition starts (calls : list rpc_action) : list rpc_action := List.filter is_start calls.

Lemma dispatch_wake_starts :
  starts (fst (dispatch_wake rpc)) = []
  \/ starts (fst (dispatch_wake rpc)) = [RStart CAPABILITY_START_PROFILE] /\ saw_free_slot.
Proof.
  unfold dispatch_wake, call, starts, saw_free_slot.
  destruct (rpc _ RGetStatus) as [ans|] eqn:E0; [|by left]. simpl in E0.
  destruct (_active_wake_result ans); [by left|]. destruct ans as [c m r d|v]; [by left|].
  destruct (v_snapshot v) as [l|] eqn:Ev; simpl; [|by left].
  destruct (find_cap_status _ l) as [c|] eqn:Ef; [|by left].
  destruct (_ && _); [left; destruct (rpc _ RWaitReadiness); done|].
  destruct (bool_decide (cs_owner c <> None)) eqn:Eo; [by left|].
  right. split.
  - destruct (rpc _ (RStart _)) as [[code m r d|v']|]; [|done..]. unfold start_answer, call.
    destruct (bool_decide (code = SLOT_CONFLICT)); [|reflexivity]. destruct (rpc (length _) RGetStatus) as [a|]; [|reflexivity].
    destruct (_active_wake_result a); reflexivity.
  - exists v, l, c. split_and!; [done..|]. apply bool_decide_eq_false in Eo.
    destruct (cs_owner c); [|done]. by destruct Eo.
Qed.

Lemma dispatch_read_starts g q a : is_start a = false -> starts (fst (dispatch_read rpc dump g q a)) = [].
Proof.
  intros Ha. unfold dispatch_read, call, starts.
  destruct (rpc _ a) as [[c m r d|v]|]; simpl; rewrite ?Ha; try done.
  destruct (bool_decide (g_role g = WAKER) && _); [destruct (v_snapshot v)|]; simpl; by rewrite Ha.
Qed.

End Calls.

(** ** Retention *)

Definition of_token (tid : string) (r : request_row) : bool := routine r && String.eqb tid (rq_token r).

Lemma filter_sublist_mono {A} (p : A -> bool) l l' :
  l `sublist_of` l' -> (length (List.filter p l) <= length (List.filter p l'))%nat.
Proof. induction 1 as [|x l l' _ IH|x l l' _ IH]; simpl; [lia|destruct (p x); simpl; lia..]. Qed.

Lemma filter_weaken_length {A} (p q : A -> bool) l :
  (forall x, p x = true -> q x = true) -> (length (List.filter p l) <= length (List.filter q l))%nat.
Proof.
  intros H. induction l as [|x l IH]; [done|]. simpl.
  destruct (p x) eqn:Ep; [rewrite (H x Ep); simpl; lia|destruct (q x); simpl; lia].
Qed.

Lemma same_token_trans (x y z : request_row) :
  String.eqb (rq_token x) (rq_token y) = true -> String.eqb (rq_token y) (rq_token z) = true ->
  String.eqb (rq_token x) (rq_token z) = true.
Proof. rewrite !String.eqb_eq. congruence. Qed.

Lemma prune_requests_bounds cutoff l tid :
  Z.of_nat (length (List.filter (of_token tid) (prune_requests cutoff l)))
    <= CAPABILITY_STATUS_REPLAY_PER_TOKEN_CAP
  /\ Z.of_nat (length (List.filter routine (prune_requests cutoff l)))
    <= CAPABILITY_STATUS_REPLAY_GLOBAL_CAP.
Proof.
  unfold prune_requests. set (aged := List.filter _ l). set (capped := cap_rows _ _ _ _ aged). split.
  - pose proof (filter_sublist_mono (of_token tid) _ _
      (cap_rows_sublist rq_created routine any_group CAPABILITY_STATUS_REPLAY_GLOBAL_CAP capped)) as H1.
    pose proof (cap_rows_bound rq_created routine
      (fun x y => String.eqb (rq_token x) (rq_token y))
      (fun x y E => eq_trans (String.eqb_sym _ _) E) same_token_trans
      CAPABILITY_STATUS_REPLAY_PER_TOKEN_CAP aged (RequestRow tid "" "" None KStatus false 0)
      ltac:(done)) as H2.
    etrans; [apply Nat2Z.inj_le, H1|exact H2].
  - pose proof (cap_rows_bound rq_created routine any_group ltac:(done) ltac:(done)
      CAPABILITY_STATUS_REPLAY_GLOBAL_CAP capped (RequestRow tid "" "" None KStatus false 0)
      ltac:(done)) as H.
    etrans; [|exact H]. apply Nat2Z.inj_le, filter_weaken_length. intros x ->. done.
Qed.

(** Retention bounds the replay table without losing anything else: a due
    maintenance run leaves at most 128 routine status answers per token and 4096
    in all, none older than the replay window, and every other request row
    (pending, wake, TPS, failed) in place; the tokens are untouched. *)
Theorem retention_bounds_replays now s tid :
  last_pruned s + CAPABILITY_RETENTION_MAINTENANCE_INTERVAL <= now ->
  let s' := _prune_status_retention now s in
  Z.of_nat (length (List.filter (of_token tid) (requests s'))) <= 128
  /\ Z.of_nat (length (List.filter routine (requests s'))) <= 4096
  /\ (forall r, List.In r (requests s') -> routine r = true ->
        now - CAPABILITY_STATUS_REPLAY_WINDOW < rq_created r + second)
  /\ (forall r, List.In r (requests s) -> routine r = false -> List.In r (requests s'))
  /\ requests s' `sublist_of` requests s /\ tokens s' = tokens s.
Proof.
  intros Hdue. unfold _prune_status_retention.
  destruct (now <? _) eqn:E; [to_prop; lia|]. simpl. clear E.
  destruct (prune_requests_bounds (now - CAPABILITY_STATUS_REPLAY_WINDOW) (requests s) tid) as [H1 H2].
  destruct (prune_drops (now - CAPABILITY_STATUS_REPLAY_WINDOW) (requests s)) as [H3 H4].
  split_and!; [done|done| |done|done|done].
  intros r Hin Hr. unfold prune_requests in Hin.
  assert (List.In r (List.filter (fun r => negb (routine r
    && iso_ltb (rq_created r) (now - CAPABILITY_STATUS_REPLAY_WINDOW))) (requests s))) as Hage.
  { revert Hin. rewrite <- !list_elem_of_In. apply sublist_subseteq.
    etrans; apply cap_rows_sublist. }
  apply filter_In in Hage as [_ Hage]. rewrite Hr in Hage. simpl in Hage.
  unfold iso_ltb in Hage. to_prop. apply iso_leb_le. by apply Z.leb_le.
Qed.

(** ** Audit rows of accepted requests *)

Definition accepted_audit (r : cap_audit_row) : bool :=
  String.eqb (ca_action r) "request" && String.eqb (ca_result r) "accepted".

Definition accepted_audits (s : cap_store) : nat := length (List.filter accepted_audit (cap_audits s)).

Lemma cap_rows_filter_other {A} time sel same cap (p : A -> bool) (l : list A) :
  (forall x, p x = true -> sel x = false) ->
  List.filter p (cap_rows time sel same cap l) = List.filter p l.
Proof.
  intros H. rewrite <- (numbered_snd l) at 2. unfold cap_rows. set (keep := fun x => negb _).
  assert (forall x, p (snd x) = true -> keep x = true) as Hk.
  { intros x Hx. unfold keep. by rewrite (H _ Hx). }
  clearbody keep. induction (numbered l) as [|x d IH]; [done|]. simpl.
  destruct (keep x) eqn:E; simpl; rewrite IH; [done|].
  destruct (p (snd x)) eqn:Ep; [|done]. apply Hk in Ep. congruence.
Qed.

Lemma filter_filter_other {A} (p q : A -> bool) (l : list A) :
  (forall x, p x = true -> q x = true) -> List.filter p (List.filter q l) = List.filter p l.
Proof.
  intros H. induction l as [|x l IH]; [done|]. simpl. destruct (q x) eqn:E; simpl; rewrite IH; [done|].
  destruct (p x) eqn:Ep; [|done]. apply H in Ep. congruence.
Qed.

Lemma accepted_not_routine r : accepted_audit r = true -> routine_audit r = false.
Proof. unfold accepted_audit, routine_audit. intros H. to_prop. by rewrite H. Qed.

Lemma prune_keeps_accepted cutoff l :
  List.filter accepted_audit (prune_audits cutoff l) = List.filter accepted_audit l.
Proof.
  unfold prune_audits. rewrite !cap_rows_filter_other, filter_filter_other; [done|..].
  - intros r Hr. by rewrite accepted_not_routine.
  - intros r Hr. by rewrite accepted_not_routine.
  - apply accepted_not_routine.
Qed.

Lemma accepted_audits_add now action result token a detail s :
  accepted_audits (cap_audit now action result token a detail s) =
    (accepted_audits s
     + if String.eqb (String.substring 0 64 action) "request"
          && String.eqb (String.substring 0 16 result) "accepted" then 1 else 0)%nat.
Proof.
  unfold accepted_audits, cap_audit. simpl. rewrite List.filter_app, length_app. simpl.
  unfold accepted_audit at 2. simpl. by destruct (_ && _).
Qed.

(** The requests accepted for dispatch over a run. *)
Fixpoint acceptances (ops : list cap_op) (s : cap_store) : nat :=
  match ops with
  | [] => 0
  | o :: ops' =>
      (match dispatched hash canon o s with Some _ => 1 | None => 0 end) + acceptances ops' (run_cap o s)
  end.

Lemma consume_accepted now g k s :
  accepted_audits (snd (_consume_budget now g k s)) = accepted_audits s.
Proof.
  unfold _consume_budget. destruct k; destruct (negb _); simpl; rewrite ?accepted_audits_add; simpl;
    unfold accepted_audits; simpl; lia.
Qed.

Lemma fresh_accepted now g q s :
  accepted_audits (snd (begin_fresh canon now g q s)) =
    (accepted_audits s + match fst (begin_fresh canon now g q s) with inr (_, None) => 1 | _ => 0 end)%nat.
Proof.
  unfold begin_fresh. pose proof (consume_accepted now g (cr_kind q) s) as H.
  destruct (_consume_budget now g (cr_kind q) s) as [[e|u] s1]; simpl in *; [lia|].
  unfold accept_request. rewrite accepted_audits_add. simpl. unfold accepted_audits in *. simpl. lia.
Qed.

Lemma step_accepted o s :
  accepted_audits (run_cap o s) =
    (accepted_audits s + match dispatched hash canon o s with Some _ => 1 | None => 0 end)%nat.
Proof.
  destruct o; unfold CapabilityFacts.run_cap, dispatched.
  - destruct (existsb _ _); [lia|]. unfold issue. repeat (case_match; [simpl; lia|]). simpl.
    rewrite accepted_audits_add. unfold accepted_audits. simpl. lia.
  - unfold revoke. destruct (_ || _); [simpl; lia|]. destruct (find_token id s); simpl; [|lia].
    rewrite accepted_audits_add. unfold accepted_audits. simpl. lia.
  - assert (forall s0, accepted_audits s0 = accepted_audits s -> forall g,
      accepted_audits (snd (begin_fresh canon now g q s0)) = (accepted_audits s +
        match match fst (begin_fresh canon now g q s0) with inr (g, None) => Some (now, g, q) | _ => None end
        with Some _ => 1 | None => 0 end)%nat) as Hfresh.
    { intros s0 <- g. rewrite fresh_accepted. by destruct (fst _) as [e|[g' [b|]]]. }
    unfold begin. destruct (_grant _ _ _ _ _) as [e|g]; [simpl; lia|].
    destruct (find_request _ _ _) as [r|]; [|by apply Hfresh].
    destruct (negb _); [simpl; rewrite accepted_audits_add; simpl; lia|].
    destruct (rq_response r) as [b|]; [|simpl; lia].
    destruct (replay_expired now r); [by apply Hfresh|simpl; lia].
  - unfold complete, _prune_status_retention. destruct (_ <? _); unfold accepted_audits; simpl;
      rewrite ?prune_keeps_accepted, List.filter_app, length_app; simpl;
      destruct (cr_kind q); simpl; lia.
Qed.

(** Accepted requests are audited and never forgotten: after any sequence of
    store calls the audit log has exactly one [request]/[accepted] row per
    accepted request, as retention selects only rows of action [status]. *)
Theorem accepted_audits_accumulate ops :
  accepted_audits (reached ops) = acceptances ops empty_store.
Proof.
  unfold reached. change (acceptances ops empty_store) with (accepted_audits empty_store + acceptances ops empty_store)%nat.
  generalize empty_store. induction ops as [|o ops IH]; intros s; simpl; [lia|].
  rewrite IH, step_accepted. lia.
Qed.
End Theorems.

(** ** Concrete runs *)

Definition demo_secret : string := "hc_0123456789012345678901234567890123456789".
Definition demo_hash (s : string) : string := s.
Definition demo_canon (q : CapabilityRequest) : string := cr_id q ++ kind_value (cr_kind q).
Definition demo_size (b : body) : Z := Z.of_nat (length b).

Definition demo_issue : cap_op :=
  OIssue 0 "t1" demo_secret WAKER LAZYMC (Some CAPABILITY_START_PROFILE) (24 * hour) 2 minute
    (30 * second).
Definition demo_wake (now : Z) (id : string) : cap_op :=
  OBegin now demo_secret LAZYMC (CapRequest id KWake "").
Definition demo_status (now : Z) (id : string) : cap_op :=
  OBegin now demo_secret LAZYMC (CapRequest id KStatus "").

Definition demo_store (ops : list cap_op) : cap_store := reached demo_hash demo_canon demo_size ops.
Definition demo_token (ops : list cap_op) : token_row :=
  match tokens (demo_store ops) with
  | t :: _ => t
  | [] => TokenRow "" "" OBSERVER LAZYMC [] None 0 0 0 0 0 0 0 None None
  end.

(** The cooldown and the rate window can open early: the store compares
    timestamps as text and [isoformat] drops a zero fraction, so with a cooldown
    of 30 seconds a wake at 00:00:40 is accepted although the last one was at
    00:00:10.999999, 29.000001 seconds before. *)
Theorem wake_cooldown_opens_early :
  t_cooldown (demo_token [demo_issue]) = 30
  /\ wakes demo_hash demo_canon demo_size "t1"
       [demo_wake 10999999 "a"; demo_wake 40000000 "b"] (demo_store [demo_issue])
     = [10999999; 40000000].
Proof. split; vm_compute; reflexivity. Qed.

Lemma wakes_respect_cooldown_witness :
  spaced (29 * second) (wakes demo_hash demo_canon demo_size "t1"
    [demo_wake 1500000 "a"; demo_wake 20000000 "b"; demo_wake 40000000 "c"] (demo_store [demo_issue])).
Proof.
  refine (wakes_respect_cooldown demo_hash demo_canon demo_size [demo_issue]
    [demo_wake 1500000 "a"; demo_wake 20000000 "b"; demo_wake 40000000 "c"]
    (demo_token [demo_issue]) _). vm_compute. by left.
Defined.

Lemma rate_windows_respect_budget_witness :
  window_count 0 (windows demo_hash demo_canon demo_size "t1"
    [demo_status 1 "a"; demo_status 2 "b"; demo_status 3 "c"] (demo_store [demo_issue])) <= 2.
Proof.
  refine (Z.le_trans _ _ _ _ (proj1 (rate_windows_respect_budget demo_hash demo_canon demo_size
    [demo_issue] [demo_status 1 "a"; demo_status 2 "b"; demo_status 3 "c"]
    (demo_token [demo_issue]) _) 0)); vm_compute; [done|by left].
Defined.

Lemma revoked_token_stays_locked_witness :
  accepted_of demo_hash demo_canon "t1" (demo_wake 60000000 "c")
    (run_caps demo_hash demo_canon demo_size [demo_status 7 "b"]
       (demo_store [demo_issue; demo_wake 5 "a"; ORevoke 6 "t1"])) = None.
Proof.
  refine (revoked_token_stays_locked demo_hash demo_canon demo_size
    [demo_issue; demo_wake 5 "a"; ORevoke 6 "t1"]
    (demo_token [demo_issue; demo_wake 5 "a"; ORevoke 6 "t1"]) [demo_status 7 "b"]
    (demo_wake 60000000 "c") _ _); vm_compute; [by left|done].
Defined.

Lemma wake_after_cooldown_witness :
  exists g, fst (begin demo_hash demo_canon 40000000 demo_secret LAZYMC (CapRequest "b" KWake "")
    (demo_store [demo_issue; demo_wake 5 "a"])) = inr (g, None).
Proof.
  eexists. refine (proj1 (wake_after_cooldown demo_hash demo_canon demo_size
    [demo_issue; demo_wake 5 "a"] 40000000 demo_secret LAZYMC (CapRequest "b" KWake "") _
    (demo_token [demo_issue; demo_wake 5 "a"]) 5 _ _ _ _ _ _ _ _));
    vm_compute; first [reflexivity|by left|done].
Defined.

(** A controller with a free slot whose start succeeds. *)
Definition demo_rpc (n : nat) (a : rpc_action) : option rpc_answer :=
  match a with
  | RGetStatus => Some (ASuccess (RpcValue
      (Some [CapStatus CAPABILITY_START_PROFILE None STOPPED UNKNOWN None]) None JNull))
  | _ => Some (ASuccess (RpcValue None None
      (JObj [("readiness", JStr "success"); ("readiness_generation", JInt 1)]%string)))
  end.


Lemma retention_bounds_replays_witness :
  Z.of_nat (length (List.filter (of_token "t1")
    (requests (_prune_status_retention minute (demo_store [demo_issue; demo_status 1 "a"]))))) <= 128.
Proof.
  refine (proj1 (retention_bounds_replays minute (demo_store [demo_issue; demo_status 1 "a"]) "t1" _)).
  vm_compute. done.
Defined.
