(* ===== verification/Schedule.v ===== *)
(** [schedule.py]: cron fields, the next fire time, the parser of schedule
    entries and the schedule book.

    A [datetime] is its wall-clock time in microseconds, counted so that the day
    number is Python's proleptic Gregorian ordinal (1 is 0001-01-01).  Integers
    are parsed as [int] does for ASCII text without blanks ([cron.split] leaves
    none), up to the interpreter's limit on the number of digits. *)
From Stdlib Require Import Ascii.
From S2P Require Import Prelude Models.

(** ** Calendar *)

Definition us_minute : Z := 60 * 1000000.
Definition us_hour : Z := 60 * us_minute.
Definition us_day : Z := 24 * us_hour.

Definition dt_ordinal (t : Z) : Z := t / us_day.
Definition dt_hour (t : Z) : Z := t mod us_day / us_hour.
Definition dt_minute (t : Z) : Z := t mod us_hour / us_minute.

(** [datetime._days_before_month] and [_days_in_month] of a common year. *)
Definition days_before_month (m : Z) : Z :=
  nth (Z.to_nat m) [0; 0; 31; 59; 90; 120; 151; 181; 212; 243; 273; 304; 334] 0.
Definition days_in_month (m : Z) : Z :=
  nth (Z.to_nat m) [0; 31; 28; 31; 30; 31; 30; 31; 31; 30; 31; 30; 31] 0.

(** Month and day of the [n]-th day (from 0) of a year. *)
Definition month_day (leap : bool) (n : Z) : Z * Z :=
  let m := Z.shiftr (n + 50) 5 in
  let preceding := days_before_month m + (if (2 <? m) && leap then 1 else 0) in
  if n <? preceding then
    let m' := m - 1 in
    (m', n - (preceding - (days_in_month m' + (if (m' =? 2) && leap then 1 else 0))) + 1)
  else (m, n - preceding + 1).

(** [date.fromordinal]: year, month and day. *)
Definition ord2ymd (ordinal : Z) : Z * Z * Z :=
  let n := ordinal - 1 in
  let n400 := n / 146097 in
  let n := n mod 146097 in
  let n100 := n / 36524 in
  let n := n mod 36524 in
  let n4 := n / 1461 in
  let n := n mod 1461 in
  let n1 := n / 365 in
  let n := n mod 365 in
  let year := n400 * 400 + 1 + n100 * 100 + n4 * 4 + n1 in
  if (n1 =? 4) || (n100 =? 4) then (year - 1, 12, 31) else
  let leap := (n1 =? 3) && (negb (n4 =? 24) || (n100 =? 3)) in
  let '(m, d) := month_day leap n in (year, m, d).

Definition dt_year (t : Z) : Z := fst (fst (ord2ymd (dt_ordinal t))).
Definition dt_month (t : Z) : Z := snd (fst (ord2ymd (dt_ordinal t))).
Definition dt_dom (t : Z) : Z := snd (ord2ymd (dt_ordinal t)).

(** [datetime.weekday()]: Monday is 0. *)
Definition dt_weekday (t : Z) : Z := (dt_ordinal t + 6) mod 7.

(** ** Text *)

Definition digit_value (c : Ascii.ascii) : option Z :=
  let n := Z.of_nat (Ascii.nat_of_ascii c) in
  if (48 <=? n) && (n <=? 57) then Some (n - 48) else None.

(** Digits with single underscores between them; [ok] says that an underscore
    or the end may follow. *)
Fixpoint py_digits (acc : Z) (ok : bool) (s : string) : option Z :=
  match s with
  | EmptyString => if ok then Some acc else None
  | String c s' =>
      if Ascii.eqb c "_"%char then (if ok then py_digits acc false s' else None) else
      match digit_value c with
      | Some d => py_digits (acc * 10 + d) true s'
      | None => None
      end
  end.

(** [int(s)] *)
Definition py_int (s : string) : option Z :=
  match s with
  | String c s' =>
      if Ascii.eqb c "-"%char then n ← py_digits 0 false s'; Some (- n)
      else if Ascii.eqb c "+"%char then py_digits 0 false s'
      else py_digits 0 false s
  | EmptyString => None
  end.

(** [s.partition(c)] without the separator; [None] when it does not occur. *)
Fixpoint py_partition (c : Ascii.ascii) (s : string) : string * option string :=
  match s with
  | EmptyString => (EmptyString, None)
  | String x s' =>
      if Ascii.eqb x c then (EmptyString, Some s')
      else let '(a, b) := py_partition c s' in (String x a, b)
  end.

(** [s.split(c)] *)
Fixpoint py_split (c : Ascii.ascii) (s : string) : list string :=
  match s with
  | EmptyString => [EmptyString]
  | String x s' =>
      if Ascii.eqb x c then EmptyString :: py_split c s'
      else match py_split c s' with
           | [] => [String x EmptyString]
           | w :: ws => String x w :: ws
           end
  end.

Definition is_blank (c : Ascii.ascii) : bool :=
  let n := Ascii.nat_of_ascii c in
  ((9 <=? n) && (n <=? 13) || (28 <=? n) && (n <=? 32))%nat.

(** [s.split()]; [w] is the current word. *)
Fixpoint py_words (w : string) (s : string) : list string :=
  match s with
  | EmptyString => if nonempty w then [w] else []
  | String x s' =>
      if is_blank x then (if nonempty w then w :: py_words EmptyString s' else py_words EmptyString s')
      else py_words (w ++ String x EmptyString) s'
  end.

(** ** Cron fields *)

Record _CronField := CronField { cron_values : gset Z; cron_min : Z; cron_max : Z }.

(** [range(start, end + 1, step)] *)
Definition py_range (start stop step : Z) : list Z :=
  map (fun i => start + step * i) (seqZ 0 ((stop - start) / step + 1)).

(** The bounds a part's base denotes. *)
Definition cron_base (base : string) (minimum maximum : Z) : option (Z * Z) :=
  if String.eqb base "*" then Some (minimum, maximum) else
  match py_partition "-"%char base with
  | (lo, Some hi) => a ← py_int lo; b ← py_int hi; Some (a, b)
  | (_, None) => a ← py_int base; Some (a, a)
  end.

(** One comma-separated part: start, end and step. *)
Definition cron_part (part : string) (minimum maximum : Z) : option (Z * Z * Z) :=
  let '(base, step_text) := py_partition "/"%char part in
  step ← match step_text with
          | Some t => if nonempty t then py_int t else Some 1
          | None => Some 1
          end;
  if step <=? 0 then None else
  '(start, stop) ← cron_base base minimum maximum;
  if (start <? minimum) || (maximum <? stop) || (stop <? start) then None
  else Some (start, stop, step).

Definition cron_parse (value : string) (minimum maximum : Z) : option _CronField :=
  if negb (nonempty value) then None else
  parts ← mapM (fun part => cron_part part minimum maximum) (py_split ","%char value);
  Some (CronField
    (foldl (fun acc '(a, b, s) => acc ∪ list_to_set (py_range a b s)) ∅ parts) minimum maximum).

Definition cron_matches (f : _CronField) (v : Z) : bool := bool_decide (v ∈ cron_values f).

(** ** Entries *)

Record ScheduleEntry := mkScheduleEntry {
  se_cron : string;
  se_profile : ProfileId;
  se_minute : _CronField;
  se_hour : _CronField;
  se_day : _CronField;
  se_month : _CronField;
  se_weekday : _CronField;
  se_enabled : bool;
  se_destination : option BackupDestination;
  se_operation : string;
  se_baseline : json;
  se_candidate : json;
  se_campaign : json;
  se_maintenance : json;
  se_rollback_safe : json;
  se_wake_policy : json;
}.

Definition day_matches (e : ScheduleEntry) (t : Z) : bool :=
  cron_matches (se_month e) (dt_month t) && cron_matches (se_day e) (dt_dom t)
  && cron_matches (se_weekday e) ((dt_weekday t + 1) mod 7).

Definition entry_matches (e : ScheduleEntry) (t : Z) : bool :=
  cron_matches (se_minute e) (dt_minute t) && cron_matches (se_hour e) (dt_hour t)
  && cron_matches (se_day e) (dt_dom t) && cron_matches (se_month e) (dt_month t)
  && cron_matches (se_weekday e) ((dt_weekday t + 1) mod 7).

(** [sorted(values)] *)
Definition py_sorted (s : gset Z) : list Z := merge_sort Z.le (elements s).

(** The [hour] and [minute] loops on one day. *)
Definition fires_on (e : ScheduleEntry) (day : Z) : list Z :=
  h ← py_sorted (cron_values (se_hour e));
  m ← py_sorted (cron_values (se_minute e));
  [day + h * us_hour + m * us_minute].

(** The [while] loop over days. *)
Fixpoint find_day (fuel : nat) (e : ScheduleEntry) (candidate endpoint day : Z) : option Z :=
  match fuel with
  | O => None
  | S fuel' =>
      if negb (day <=? endpoint) then None else
      match (if day_matches e day
             then List.find (fun p => (candidate <=? p) && (p <=? endpoint)) (fires_on e day)
             else None) with
      | Some p => Some p
      | None => find_day fuel' e candidate endpoint (day + us_day)
      end
  end.

(** [now] rounded up to a whole minute. *)
Definition next_minute (now : Z) : Z :=
  let c := now - now mod us_minute in
  if now mod us_minute =? 0 then c else c + us_minute.

(** [_find_next_fire]; [None] is the [ValueError] of an exhausted horizon.  The
    loop runs at most [days + 1] times. *)
Definition _find_next_fire (e : ScheduleEntry) (now days : Z) : option Z :=
  let candidate := next_minute now in
  let endpoint := candidate + days * us_day in
  find_day (Z.to_nat (days + 2)) e candidate endpoint (candidate - candidate mod us_day).

(** [next_fire]: [None] when disabled, [Some None] is the raised [ValueError]. *)
Definition next_fire (e : ScheduleEntry) (now : Z) : option (option Z) :=
  if negb (se_enabled e) then None else Some (_find_next_fire e now (366 * 4)).

(** ** Parsing entries *)

Definition schedule_keys : list string :=
  ["cron"; "profile"; "enabled"; "backup_destination"; "operation"; "baseline_preset";
   "candidate_preset"; "campaign"; "maintenance_window"; "rollback_safe"; "public_wake_policy"]%string.

(** [item.get(k, default)] *)
Definition py_get (k : string) (default : json) (item : list (string * json)) : json :=
  match assoc k item with Some v => v | None => default end.

Definition json_str (j : json) : option string := match j with JStr s => Some s | _ => None end.

Definition item_shape (item : list (string * json)) : bool :=
  bool_decide (assoc "cron" item <> None) && bool_decide (assoc "profile" item <> None)
  && forallb (fun kv => existsb (String.eqb (fst kv)) schedule_keys) item.

Definition parse_destination (j : json) : res (option BackupDestination) :=
  match j with
  | JNull => Ret None
  | JStr s => match destination_of_value s with
              | Some d => Ret (Some d)
              | None => Raise (ValueError "invalid backup destination")
              end
  | _ => Raise (ValueError "invalid backup destination")
  end.

(** [operation not in {...}]; a list or a dict is not hashable. *)
Definition parse_operation (j : json) : res string :=
  match j with
  | JStr s => if existsb (String.eqb s) ["backup"; "switch"; "benchmark"]%string then Ret s
              else Raise (ValueError "invalid schedule operation")
  | JList _ | JObj _ => Raise (TypeError "unhashable type")
  | _ => Raise (ValueError "invalid schedule operation")
  end.

Definition is_true (j : json) : bool := match j with JBool b => b | _ => false end.

(** The policy a benchmark entry must carry. *)
Definition benchmark_policy (baseline candidate campaign maintenance rollback wake : json) : bool :=
  match json_str baseline, json_str candidate, json_str campaign, json_str wake with
  | Some b, Some c, Some _, Some w =>
      negb (String.eqb b c) && is_true maintenance && is_true rollback && String.eqb w "safe"
  | _, _, _, _ => false
  end.

(** The profile and the five fields. *)
Definition parse_fields (fields : list string) (profile : json)
    : option (ProfileId * _CronField * _CronField * _CronField * _CronField * _CronField) :=
  match fields with
  | [f1; f2; f3; f4; f5] =>
      p ← (json_str profile ≫= profile_of_value);
      a ← cron_parse f1 0 59; b ← cron_parse f2 0 23; c ← cron_parse f3 1 31;
      d ← cron_parse f4 1 12; e ← cron_parse f5 0 6; Some (p, a, b, c, d, e)
  | _ => None
  end.

Definition parse_entry (now : Z) (j : json) : res ScheduleEntry :=
  match j with
  | JObj item =>
      if negb (item_shape item) then Raise (ValueError "invalid schedule entry") else
      match py_get "enabled" (JBool true) item with
      | JBool enabled =>
          let? destination := parse_destination (py_get "backup_destination" JNull item) in
          let? operation := parse_operation (py_get "operation"
            (JStr (if bool_decide (destination = None) then "switch" else "backup")) item) in
          if String.eqb operation "backup" && bool_decide (destination = None)
          then Raise (ValueError "backup schedule requires a destination") else
          let baseline := py_get "baseline_preset" JNull item in
          let candidate := py_get "candidate_preset" JNull item in
          let campaign := py_get "campaign" JNull item in
          let maintenance := py_get "maintenance_window" (JBool false) item in
          let rollback_safe := py_get "rollback_safe" (JBool false) item in
          let wake_policy := py_get "public_wake_policy" (JStr "disabled") item in
          if String.eqb operation "benchmark"
             && negb (benchmark_policy baseline candidate campaign maintenance rollback_safe wake_policy)
          then Raise (ValueError "benchmark schedule requires complete maintenance and rollback policy")
          else
          let cron := py_get "cron" JNull item in
          let text := default EmptyString (json_str cron) in
          let fields := py_words EmptyString text in
          if negb (length fields =? 5)%nat then Raise (ValueError "cron must have five fields") else
          match parse_fields fields (py_get "profile" JNull item) with
          | None => Raise (ValueError "invalid schedule entry")
          | Some (profile, minute, hour, day, month, weekday) =>
              let e := mkScheduleEntry text profile minute hour day month weekday enabled destination
                         operation baseline candidate campaign maintenance rollback_safe wake_policy in
              match _find_next_fire e now (366 * 4) with
              | None => Raise (ValueError "schedule has no fire time within the next four years")
              | Some _ => Ret e
              end
          end
      | _ => Raise (ValueError "invalid schedule enabled")
      end
  | _ => Raise (ValueError "invalid schedule entry")
  end.

Fixpoint parse_entries (now : Z) (l : list json) : res (list ScheduleEntry) :=
  match l with
  | [] => Ret []
  | j :: l' => let? e := parse_entry now j in let? es := parse_entries now l' in Ret (e :: es)
  end.

(** [parse_schedule]; [now] is the clock at the call. *)
Definition parse_schedule (now : Z) (raw : json) : res (list ScheduleEntry) :=
  match raw with
  | JNull => Ret []
  | JList l => parse_entries now l
  | _ => Raise (ValueError "schedule must be an array")
  end.

(** ** The book *)

Record ScheduleBook := mkScheduleBook {
  sb_entries : list ScheduleEntry;
  sb_last : option (Z * Z * Z * Z * Z);
}.

Definition minute_key (t : Z) : Z * Z * Z * Z * Z :=
  (dt_year t, dt_month t, dt_dom t, dt_hour t, dt_minute t).

Definition due (now : Z) (b : ScheduleBook) : list ScheduleEntry * ScheduleBook :=
  if bool_decide (Some (minute_key now) = sb_last b) then ([], b) else
  (List.filter (fun e => se_enabled e && entry_matches e now) (sb_entries b),
   mkScheduleBook (sb_entries b) (Some (minute_key now))).
