(* ===== verification/ScheduleFacts.v ===== *)
(** Theorems about schedules: what a cron field denotes, the next fire time, the
    calendar, and the book's one fire per minute. *)
From Stdlib Require Import Ascii.
From S2P Require Import Prelude Models Schedule.

(** ** Cron fields *)

Lemma py_range_elem a b s x : 0 < s -> a <= b ->
  (x ∈ py_range a b s <-> a <= x <= b /\ (s | x - a)).
Proof.
  intros Hs Hab. unfold py_range. change (map ?f ?l) with (f <$> l). rewrite list_elem_of_fmap. split.
  - intros (i & -> & [Hi Hi']%elem_of_seqZ).
    assert (i <= (b - a) / s) as Hle by lia.
    pose proof (Z.mul_div_le (b - a) s Hs). split; [nia|]. exists i. lia.
  - intros [[H1 H2] [i Hi]]. exists i. split; [lia|]. apply elem_of_seqZ.
    assert (0 <= i) by nia. assert (i <= (b - a) / s) by (apply Z.div_le_lower_bound; lia). lia.
Qed.

(** The bounds and the step a part denotes. *)
Lemma cron_part_bounds part lo hi a b s :
  cron_part part lo hi = Some (a, b, s) -> lo <= a <= b /\ b <= hi /\ 0 < s.
Proof.
  unfold cron_part. destruct (py_partition _ part) as [base st]. intros H.
  apply bind_Some in H as (step & _ & H). destruct (step <=? 0) eqn:Es; [done|].
  apply bind_Some in H as ([x y] & _ & H). destruct (_ || _) eqn:Eb; [done|].
  simplify_eq. to_prop. lia.
Qed.

Definition part_has (lo hi x : Z) (part : string) : Prop :=
  exists a b s, cron_part part lo hi = Some (a, b, s) /\ a <= x <= b /\ (s | x - a).

Lemma foldl_union_elem (l : list (Z * Z * Z)) acc x :
  x ∈ foldl (fun acc '(a, b, s) => acc ∪ list_to_set (py_range a b s)) acc l
  <-> (x ∈ (acc : gset Z) \/ exists a b s, (a, b, s) ∈ l /\ x ∈ py_range a b s).
Proof.
  revert acc. induction l as [|[[a b] s] l IH]; intros acc; simpl.
  - split; [by left|]. intros [H|(? & ? & ? & []%elem_of_nil & _)]; done.
  - rewrite IH, elem_of_union, elem_of_list_to_set. split.
    + intros [[H|H]|(a' & b' & s' & H & H')]; [by left|right; exists a, b, s; split; [by left|done]|].
      right. exists a', b', s'. split; [by right|done].
    + intros [H|(a' & b' & s' & [E|H]%elem_of_cons & H')]; [by left; left| |].
      * simplify_eq. by left; right.
      * right. by exists a', b', s'.
Qed.

Lemma cron_parse_elem v lo hi f x :
  cron_parse v lo hi = Some f ->
  (x ∈ cron_values f <-> Exists (part_has lo hi x) (py_split ","%char v)).
Proof.
  unfold cron_parse. destruct (negb (nonempty v)); [done|].
  intros (parts & Hp & [= <-])%bind_Some. simpl. apply mapM_Some in Hp.
  rewrite foldl_union_elem, Exists_exists. split.
  - intros [H|(a & b & s & Hin & Hx)]; [by apply elem_of_empty in H|].
    apply list_elem_of_lookup in Hin as [i Hi].
    destruct (Forall2_lookup_r _ _ _ _ _ Hp Hi) as (part & Hpart & Hc).
    exists part. split; [by eapply list_elem_of_lookup_2|]. exists a, b, s. split; [done|].
    destruct (cron_part_bounds _ _ _ _ _ _ Hc) as (? & ? & ?). by apply py_range_elem; [lia..|].
  - intros (part & [i Hi]%list_elem_of_lookup & a & b & s & Hc & Hx). right.
    destruct (Forall2_lookup_l _ _ _ _ _ Hp Hi) as (y & Hy & Hc'). rewrite Hc in Hc'. simplify_eq.
    exists a, b, s. split; [by eapply list_elem_of_lookup_2|].
    destruct (cron_part_bounds _ _ _ _ _ _ Hc) as (? & ? & ?). apply py_range_elem; [lia..|done].
Qed.

Definition field_within (lo hi : Z) (f : _CronField) : Prop :=
  forall x, x ∈ cron_values f -> lo <= x <= hi.

Lemma cron_parse_within v lo hi f : cron_parse v lo hi = Some f -> field_within lo hi f.
Proof.
  intros H x Hx. apply (cron_parse_elem _ _ _ _ _ H) in Hx.
  apply Exists_exists in Hx as (part & _ & a & b & s & Hc & Hx & _).
  destruct (cron_part_bounds _ _ _ _ _ _ Hc). lia.
Qed.

(** ** Sorted fire times *)

Lemma py_sorted_elem s x : x ∈ py_sorted s <-> x ∈ s.
Proof. unfold py_sorted. by rewrite merge_sort_Permutation, elem_of_elements. Qed.

Lemma py_sorted_lt s : StronglySorted Z.lt (py_sorted s).
Proof.
  assert (NoDup (py_sorted s)) as Hnd.
  { unfold py_sorted. rewrite merge_sort_Permutation. apply NoDup_elements. }
  assert (StronglySorted Z.le (py_sorted s)) as Hle by apply (StronglySorted_merge_sort Z.le).
  induction Hle as [|x l Hl IH Hx]; [constructor|]. apply NoDup_cons in Hnd as [Hn Hnd].
  constructor; [by apply IH|]. rewrite Forall_forall in Hx |- *. intros y Hy.
  specialize (Hx y Hy). assert (x <> y) by (intros ->; done). lia.
Qed.

Lemma sorted_app (l1 l2 : list Z) :
  StronglySorted Z.lt l1 -> StronglySorted Z.lt l2 -> (forall x y, x ∈ l1 -> y ∈ l2 -> x < y) ->
  StronglySorted Z.lt (l1 ++ l2).
Proof.
  intros H1 H2 H. induction H1 as [|x l Hl IH Hx]; [done|]. simpl. constructor.
  - apply IH. intros a b Ha Hb. apply H; [by right|done].
  - apply Forall_app. split; [done|]. apply Forall_forall. intros y Hy. apply H; [by left|done].
Qed.

Lemma sorted_map (l : list Z) c :
  0 < us_minute -> StronglySorted Z.lt l -> StronglySorted Z.lt (map (fun m => c + m * us_minute) l).
Proof.
  intros Hpos. induction 1 as [|x l Hl IH Hx]; [constructor|]. simpl. constructor; [done|].
  apply Forall_map. eapply Forall_impl; [exact Hx|]. simpl. nia.
Qed.

Definition times_of (day : Z) (hs ms : list Z) : list Z :=
  h ← hs; m ← ms; [day + h * us_hour + m * us_minute].

Lemma times_of_cons day h hs ms :
  times_of day (h :: hs) ms = map (fun m => (day + h * us_hour) + m * us_minute) ms ++ times_of day hs ms.
Proof.
  unfold times_of. rewrite bind_cons. f_equal.
Qed.

Lemma times_of_elem day hs ms t :
  t ∈ times_of day hs ms <-> exists h m, h ∈ hs /\ m ∈ ms /\ t = day + h * us_hour + m * us_minute.
Proof.
  unfold times_of. rewrite list_elem_of_bind. split.
  - intros (h & Ht & Hh). apply list_elem_of_bind in Ht as (m & Ht & Hm). apply list_elem_of_singleton in Ht. by exists h, m.
  - intros (h & m & Hh & Hm & ->). exists h. split; [|done]. apply list_elem_of_bind. exists m.
    by rewrite list_elem_of_singleton.
Qed.

Lemma times_of_sorted day hs ms :
  StronglySorted Z.lt hs -> StronglySorted Z.lt ms -> (forall m, m ∈ ms -> 0 <= m <= 59) ->
  StronglySorted Z.lt (times_of day hs ms).
Proof.
  intros Hh Hm Hr. induction Hh as [|h hs Hhs IH Hall]; [constructor|]. rewrite times_of_cons.
  apply sorted_app; [by apply sorted_map|done|].
  intros x y Hx Hy. change (map ?f ?l) with (f <$> l) in Hx.
  apply list_elem_of_fmap in Hx as (m & -> & Hm1).
  apply times_of_elem in Hy as (h' & m' & Hh' & Hm' & ->).
  rewrite Forall_forall in Hall. specialize (Hall h' Hh').
  pose proof (Hr m Hm1). pose proof (Hr m' Hm'). unfold us_hour, us_minute. lia.
Qed.

(** The first element of a sorted list with a property is the least one. *)
Lemma find_sorted (p : Z -> bool) l :
  StronglySorted Z.lt l ->
  match List.find p l with
  | Some x => x ∈ l /\ p x = true /\ forall y, y ∈ l -> y < x -> p y = false
  | None => forall y, y ∈ l -> p y = false
  end.
Proof.
  induction 1 as [|x l Hl IH Hx]; simpl; [by intros y ?%elem_of_nil|].
  destruct (p x) eqn:E.
  - split_and!; [by left|done|]. intros y [->|Hy]%elem_of_cons Hlt; [lia|].
    rewrite Forall_forall in Hx. specialize (Hx y Hy). lia.
  - destruct (List.find p l) as [z|].
    + destruct IH as (Hz & Hp & Hmin). split_and!; [by right|done|].
      intros y [->|Hy]%elem_of_cons Hlt; [done|by apply Hmin].
    + intros y [->|Hy]%elem_of_cons; [done|by apply IH].
Qed.

(** ** Next fire time *)

(** The ranges [parse_schedule] asks for. *)
Definition fields_ok (e : ScheduleEntry) : Prop :=
  field_within 0 59 (se_minute e) /\ field_within 0 23 (se_hour e).

Lemma us_values : us_minute = 60000000 /\ us_hour = 3600000000 /\ us_day = 86400000000.
Proof. done. Qed.

Lemma day_start t : (t - t mod us_day) mod us_day = 0.
Proof. rewrite Zminus_mod_idemp_r, Z.sub_diag. done. Qed.

(** A whole minute split into its day, hour and minute. *)
Lemma minute_parts t : t mod us_minute = 0 ->
  t = (t - t mod us_day) + dt_hour t * us_hour + dt_minute t * us_minute.
Proof.
  unfold dt_hour, dt_minute. destruct us_values as (-> & -> & ->). intros H.
  Z.to_euclidean_division_equations. lia.
Qed.

Lemma parts_minute day h m : day mod us_day = 0 -> 0 <= h <= 23 -> 0 <= m <= 59 ->
  let t := day + h * us_hour + m * us_minute in
  dt_hour t = h /\ dt_minute t = m /\ t - t mod us_day = day /\ t mod us_minute = 0
  /\ day <= t < day + us_day.
Proof.
  unfold dt_hour, dt_minute. destruct us_values as (-> & -> & ->). intros H Hh Hm. simpl.
  Z.to_euclidean_division_equations. lia.
Qed.

Lemma ordinal_day t : dt_ordinal (t - t mod us_day) = dt_ordinal t.
Proof. unfold dt_ordinal. destruct us_values as (_ & _ & ->). Z.to_euclidean_division_equations. lia. Qed.

Lemma matches_split e t :
  entry_matches e t =
    day_matches e (t - t mod us_day) && cron_matches (se_hour e) (dt_hour t)
    && cron_matches (se_minute e) (dt_minute t).
Proof.
  unfold entry_matches, day_matches, dt_month, dt_dom, dt_weekday. rewrite ordinal_day.
  destruct (cron_matches (se_minute e) _), (cron_matches (se_hour e) _), (cron_matches (se_day e) _),
    (cron_matches (se_month e) _), (cron_matches (se_weekday e) _); done.
Qed.

Lemma fires_on_elem e day t :
  t ∈ fires_on e day <->
  exists h m, h ∈ cron_values (se_hour e) /\ m ∈ cron_values (se_minute e)
    /\ t = day + h * us_hour + m * us_minute.
Proof.
  change (fires_on e day) with
    (times_of day (py_sorted (cron_values (se_hour e))) (py_sorted (cron_values (se_minute e)))).
  rewrite times_of_elem. by setoid_rewrite py_sorted_elem.
Qed.

Lemma fires_on_sorted e day : fields_ok e -> StronglySorted Z.lt (fires_on e day).
Proof.
  intros [Hm _]. apply times_of_sorted; [apply py_sorted_lt..|].
  intros m Hin. apply Hm. by apply py_sorted_elem.
Qed.

(** On whole minutes, matching is being listed on a matching day. *)
Lemma matches_fires e t : fields_ok e -> t mod us_minute = 0 ->
  entry_matches e t = true <->
  day_matches e (t - t mod us_day) = true /\ t ∈ fires_on e (t - t mod us_day).
Proof.
  intros [Hmin Hhour] Ht. rewrite matches_split, !andb_true_iff, fires_on_elem. unfold cron_matches.
  rewrite !bool_decide_eq_true. split.
  - intros [[Hd Hh] Hm]. split; [done|]. exists (dt_hour t), (dt_minute t). by rewrite <- minute_parts.
  - intros (Hd & h & m & Hh & Hm & He).
    destruct (parts_minute _ h m (day_start t) (Hhour h Hh) (Hmin m Hm)) as (E1 & E2 & _).
    rewrite <- He in E1, E2. by rewrite E1, E2.
Qed.

(** [entry_matches] at a listed time. *)
Lemma fires_match e day t : fields_ok e -> day mod us_day = 0 -> day_matches e day = true ->
  t ∈ fires_on e day ->
  entry_matches e t = true /\ t mod us_minute = 0 /\ day <= t < day + us_day.
Proof.
  intros Hok Hday Hd Ht. pose proof Hok as [Hmin Hhour].
  pose proof (proj1 (fires_on_elem _ _ _) Ht) as (h & m & Hh & Hm & He).
  destruct (parts_minute day h m Hday (Hhour h Hh) (Hmin m Hm)) as (_ & _ & E3 & E4 & E5).
  rewrite <- He in E3, E4, E5. split; [|done]. apply matches_fires; [done..|]. by rewrite E3.
Qed.

(** [t] is the least whole minute from [from] on that matches. *)
Definition no_match_before (e : ScheduleEntry) (from upto : Z) : Prop :=
  forall u, from <= u < upto -> u mod us_minute = 0 -> entry_matches e u = false.

Lemma same_day u day : day mod us_day = 0 -> day <= u < day + us_day -> u - u mod us_day = day.
Proof. destruct us_values as (_ & _ & ->). intros. Z.to_euclidean_division_equations. lia. Qed.

Lemma whole_day_no_match e candidate endpoint day :
  fields_ok e -> day mod us_day = 0 ->
  (day_matches e day = true ->
     forall y, y ∈ fires_on e day -> (candidate <=? y) && (y <=? endpoint) = false) ->
  forall u, day <= u < day + us_day -> candidate <= u <= endpoint -> u mod us_minute = 0 ->
    entry_matches e u = false.
Proof.
  intros Hok Hday Hno u Hu Hc Hm. apply not_true_iff_false. intros Hmatch.
  apply matches_fires in Hmatch as [Hd Hin]; [|done..].
  rewrite (same_day u day Hday Hu) in *. specialize (Hno Hd u Hin). apply andb_false_iff in Hno as [?|?]; to_prop; lia.
Qed.

(** The outcome of the search from [day] on. *)
Definition found (e : ScheduleEntry) (candidate endpoint day : Z) (r : option Z) : Prop :=
  match r with
  | Some t => candidate <= t <= endpoint /\ day <= t /\ t mod us_minute = 0 /\ entry_matches e t = true
              /\ no_match_before e (Z.max candidate day) t
  | None => no_match_before e (Z.max candidate day) (endpoint + 1)
  end.

(** A day without a match is skipped. *)
Lemma found_later e candidate endpoint day r :
  (forall u, day <= u < day + us_day -> candidate <= u <= endpoint -> u mod us_minute = 0 ->
     entry_matches e u = false) ->
  found e candidate endpoint (day + us_day) r -> found e candidate endpoint day r.
Proof.
  assert (0 < us_day) as Hpos by done. intros Hno. destruct r as [t|]; simpl.
  - intros (Hc & Hd & Hm & Hmatch & Hbefore). split_and!; try (lia || done).
    intros u Hu Hum. destruct (decide (u < day + us_day)); [apply Hno; [lia..|done]|].
    apply Hbefore; [lia|done].
  - intros Hbefore u Hu Hum. destruct (decide (u < day + us_day)); [apply Hno; [lia..|done]|].
    apply Hbefore; [lia|done].
Qed.

Lemma find_day_spec e candidate endpoint :
  fields_ok e -> forall fuel day,
  day mod us_day = 0 -> endpoint < day + Z.of_nat fuel * us_day ->
  found e candidate endpoint day (find_day fuel e candidate endpoint day).
Proof.
  intros Hok. assert (0 < us_day) as Hpos by done.
  induction fuel as [|fuel IH]; intros day Hday Hfuel; simpl find_day; [intros u Hu; lia|].
  destruct (day <=? endpoint) eqn:Ee; to_prop; simpl; [|intros u Hu; lia].
  assert ((day + us_day) mod us_day = 0) as Hday' by (by rewrite Z.add_mod, Hday, Z_mod_same_full).
  specialize (IH (day + us_day) Hday' ltac:(lia)).
  pose proof (find_sorted (fun p => (candidate <=? p) && (p <=? endpoint)) _ (fires_on_sorted e day Hok)) as Hf.
  pose proof (whole_day_no_match e candidate endpoint day Hok Hday) as Hnone.
  destruct (day_matches e day) eqn:Ed; [destruct (List.find _ _) as [t|]|].
  - destruct Hf as (Hin & Hp & Hmin). to_prop.
    destruct (fires_match e day t Hok Hday Ed Hin) as (Hm & Ht & Hb).
    simpl. split_and!; try (lia || done). intros u Hu Hum. apply not_true_iff_false. intros Hmu.
    apply matches_fires in Hmu as [_ Hinu]; [|done..]. rewrite (same_day u day) in Hinu by (done || lia).
    specialize (Hmin u Hinu ltac:(lia)). apply andb_false_iff in Hmin as [?|?]; to_prop; lia.
  - apply found_later; [|done]. by apply Hnone.
  - apply found_later; [|done]. by apply Hnone.
Qed.

Lemma next_minute_spec now :
  next_minute now mod us_minute = 0 /\ now <= next_minute now < now + us_minute
  /\ forall u, now <= u -> u mod us_minute = 0 -> next_minute now <= u.
Proof.
  unfold next_minute. destruct us_values as (-> & _).
  destruct (now mod 60000000 =? 0) eqn:E; to_prop; split_and!; try intros u Hu Hm;
    Z.to_euclidean_division_equations; lia.
Qed.

(** ** The calendar *)

(** [date.toordinal] *)
Definition is_leap (y : Z) : bool :=
  (y mod 4 =? 0) && (negb (y mod 100 =? 0) || (y mod 400 =? 0)).
Definition days_before_year (y : Z) : Z :=
  (y - 1) * 365 + (y - 1) / 4 - (y - 1) / 100 + (y - 1) / 400.
Definition ymd2ord (y m d : Z) : Z :=
  days_before_year y + (days_before_month m + (if (2 <? m) && is_leap y then 1 else 0)) + d.

Definition month_day_good (leap : bool) (n : Z) : bool :=
  let '(m, d) := month_day leap n in
  (days_before_month m + (if (2 <? m) && leap then 1 else 0) + d =? n + 1)
  && (1 <=? m) && (m <=? 12).

Lemma month_day_ok (leap : bool) n : 0 <= n < (if leap then 366 else 365) -> month_day_good leap n = true.
Proof.
  intros Hn. assert (forallb (month_day_good leap) (seqZ 0 (if leap then 366 else 365)) = true) as H
    by (destruct leap; vm_compute; reflexivity).
  rewrite forallb_forall in H. apply H. apply list_elem_of_In, elem_of_seqZ. destruct leap; lia.
Qed.

(** The year of a 400-year cycle by centuries, four-year groups and years. *)
Lemma year_parts a b c e :
  0 <= b <= 3 -> 0 <= c <= 24 -> 0 <= e <= 3 ->
  let y := a * 400 + 1 + b * 100 + c * 4 + e in
  days_before_year y = a * 146097 + b * 36524 + c * 1461 + e * 365
  /\ is_leap y = (e =? 3) && (negb (c =? 24) || (b =? 3)).
Proof.
  intros Hb Hc He y. unfold days_before_year, is_leap.
  replace ((y - 1) / 4) with (100 * a + 25 * b + c) by (subst y; Z.to_euclidean_division_equations; lia).
  replace ((y - 1) / 100) with (4 * a + b) by (subst y; Z.to_euclidean_division_equations; lia).
  replace ((y - 1) / 400) with a by (subst y; Z.to_euclidean_division_equations; lia).
  split; [subst y; lia|].
  replace (y mod 4) with ((e + 1) mod 4) by (subst y; Z.to_euclidean_division_equations; lia).
  replace (y mod 100) with ((c * 4 + e + 1) mod 100) by (subst y; Z.to_euclidean_division_equations; lia).
  replace (y mod 400) with ((b * 100 + c * 4 + e + 1) mod 400) by (subst y; Z.to_euclidean_division_equations; lia).
  clear y a. destruct (_ mod 4 =? 0) eqn:E4, (_ mod 100 =? 0) eqn:E100, (_ mod 400 =? 0) eqn:E400,
    (e =? 3) eqn:Ee, (c =? 24) eqn:Ec, (b =? 3) eqn:Eb; to_prop; try done; exfalso;
    Z.to_euclidean_division_equations; lia.
Qed.

Lemma ord2ymd_roundtrip n : let '(y, m, d) := ord2ymd n in ymd2ord y m d = n.
Proof.
  unfold ord2ymd. set (k := n - 1).
  set (a := k / 146097). set (ra := k mod 146097). set (b := ra / 36524). set (rb := ra mod 36524).
  set (c := rb / 1461). set (rc := rb mod 1461). set (e := rc / 365). set (r := rc mod 365).
  assert (n = a * 146097 + b * 36524 + c * 1461 + e * 365 + r + 1 /\ 0 <= b <= 4 /\ 0 <= c <= 24
          /\ 0 <= e <= 4 /\ 0 <= r < 365 /\ 0 <= rb < 36524 /\ 0 <= ra < 146097 /\ 0 <= rc < 1461
          /\ rc = e * 365 + r /\ rb = c * 1461 + rc /\ ra = b * 36524 + rb) as
    (Hn & Hb & Hc & He & Hr & Hrb & Hra & Hrc & E1 & E2 & E3).
  { subst r e rc c rb b ra a k. Z.to_euclidean_division_equations. lia. }
  clearbody r e rc c rb b ra a. clear k.
  destruct ((e =? 4) || (b =? 4)) eqn:Elast.
  - assert (a * 400 + 1 + b * 100 + c * 4 + e - 1 =
      a * 400 + 1 + (if b =? 4 then 3 else b) * 100 + (if b =? 4 then 24 else c) * 4 + 3) as ->.
    { destruct (b =? 4) eqn:Eb, (e =? 4) eqn:Ee; to_prop; try done; lia. }
    unfold ymd2ord.
    destruct (year_parts a (if b =? 4 then 3 else b) (if b =? 4 then 24 else c) 3) as [-> ->];
      [destruct (b =? 4) eqn:?; to_prop; lia..|].
    destruct (b =? 4) eqn:Eb, (e =? 4) eqn:Ee; to_prop; try done;
      (destruct (c =? 24) eqn:Ec, (b =? 3) eqn:Eb3; to_prop; change (days_before_month 12) with 334; simpl; lia).
  - to_prop. destruct (year_parts a b c e) as [H1 H2]; [lia..|].
    set (leap := (e =? 3) && _) in *.
    pose proof (month_day_ok leap r ltac:(destruct leap; lia)) as Hmd. unfold month_day_good in Hmd.
    destruct (month_day leap r) as [m d]. to_prop. unfold ymd2ord. rewrite H1, H2. lia.
Qed.

Lemma minute_key_inj t u : minute_key t = minute_key u -> t / us_minute = u / us_minute.
Proof.
  unfold minute_key, dt_year, dt_month, dt_dom. intros [= E1 E2 E3 E4 E5].
  pose proof (ord2ymd_roundtrip (dt_ordinal t)) as Rt. pose proof (ord2ymd_roundtrip (dt_ordinal u)) as Ru.
  destruct (ord2ymd (dt_ordinal t)) as [[y m] d], (ord2ymd (dt_ordinal u)) as [[y' m'] d']. simpl in *.
  assert (dt_ordinal t = dt_ordinal u) as Eo by congruence.
  unfold dt_ordinal, dt_hour, dt_minute in *. clear -E4 E5 Eo.
  destruct us_values as (Em & Eh & Ed). rewrite Em, Eh, Ed in *.
  Z.to_euclidean_division_equations. lia.
Qed.

Lemma minute_key_same t u : t / us_minute = u / us_minute -> minute_key t = minute_key u.
Proof.
  intros H. assert (dt_ordinal t = dt_ordinal u /\ dt_hour t = dt_hour u /\ dt_minute t = dt_minute u)
    as (E1 & E2 & E3).
  { unfold dt_ordinal, dt_hour, dt_minute. destruct us_values as (Em & Eh & Ed). rewrite Em, Eh, Ed in *.
    Z.to_euclidean_division_equations. lia. }
  unfold minute_key, dt_year, dt_month, dt_dom. by rewrite E1, E2, E3.
Qed.

(** ** The book *)

Definition in_minute (k t : Z) : bool := t / us_minute =? k.

(** The entries returned by the polls made in minute [k]. *)
Fixpoint dues_in (k : Z) (ts : list Z) (b : ScheduleBook) : list ScheduleEntry :=
  match ts with
  | [] => []
  | t :: ts' =>
      (if in_minute k t then fst (due t b) else []) ++ dues_in k ts' (snd (due t b))
  end.

(** The entries that should run in minute [k]. *)
Definition scheduled (k : Z) (es : list ScheduleEntry) : list ScheduleEntry :=
  List.filter (fun e => se_enabled e && entry_matches e (k * us_minute)) es.

Lemma due_minute t k es last :
  t / us_minute = k ->
  fst (due t (mkScheduleBook es last)) = if bool_decide (Some (minute_key t) = last) then [] else scheduled k es.
Proof.
  intros Hk. unfold due. simpl. destruct (bool_decide _); [done|]. simpl. unfold scheduled.
  apply filter_ext. intros e. f_equal.
  assert (minute_key t = minute_key (k * us_minute)) as E.
  { apply minute_key_same. rewrite Hk. symmetry. by apply Z_div_mult. }
  assert (dt_ordinal t = dt_ordinal (k * us_minute)) as Eo.
  { unfold dt_ordinal. destruct us_values as (Em & _ & Ed). rewrite Em, Ed in *.
    Z.to_euclidean_division_equations. lia. }
  unfold entry_matches, dt_weekday. unfold minute_key in E. injection E as E1 E2 E3 E4 E5.
  by rewrite E2, E3, E4, E5, Eo.
Qed.

Lemma due_next t es last : snd (due t (mkScheduleBook es last)) = mkScheduleBook es (Some (minute_key t)).
Proof. unfold due. simpl. destruct (bool_decide _) eqn:E; to_prop; by simplify_eq. Qed.

Lemma dues_in_after k ts es : forall t0, Forall (Z.le t0) ts -> StronglySorted Z.le ts ->
  dues_in k ts (mkScheduleBook es (Some (minute_key t0))) =
    if in_minute k t0 then [] else if existsb (in_minute k) ts then scheduled k es else [].
Proof.
  induction ts as [|t ts IH]; intros t0 Hle Hs; simpl; [by destruct (in_minute k t0)|].
  apply Forall_cons in Hle as [Ht0 Hle]. apply StronglySorted_inv in Hs as [Hs Hall].
  rewrite due_next, IH by done.
  destruct (in_minute k t) eqn:Et, (in_minute k t0) eqn:Et0; unfold in_minute in Et, Et0; to_prop; simpl.
  - rewrite (due_minute t k), bool_decide_eq_true_2; [done| |done].
    f_equal. apply minute_key_same. congruence.
  - rewrite (due_minute t k), bool_decide_eq_false_2, app_nil_r; [done| |done].
    intros [= E]. apply Et0. rewrite <- Et. symmetry. apply minute_key_inj. unfold minute_key. congruence.
  - destruct (existsb (in_minute k) ts) eqn:Ex; [|done]. exfalso.
    apply existsb_exists in Ex as (u & Hu & Hk). unfold in_minute in Hk. to_prop.
    apply list_elem_of_In in Hu. rewrite Forall_forall in Hall. specialize (Hall u Hu).
    destruct us_values as (Em & _). rewrite Em in *. Z.to_euclidean_division_equations. lia.
  - done.
Qed.

(** ** Parsed entries *)

Lemma benchmark_policy_spec b c k m r w : benchmark_policy b c k m r w = true ->
  is_true m = true /\ is_true r = true /\ w = JStr "safe".
Proof.
  unfold benchmark_policy.
  destruct (json_str b), (json_str c), (json_str k), w; simpl; try done. intros H. to_prop. by subst.
Qed.

Lemma parse_entry_fields now j e : parse_entry now j = Ret e ->
  exists f1 f2 f3 f4 f5, py_words EmptyString (se_cron e) = [f1; f2; f3; f4; f5]
    /\ cron_parse f1 0 59 = Some (se_minute e) /\ cron_parse f2 0 23 = Some (se_hour e)
    /\ cron_parse f3 1 31 = Some (se_day e) /\ cron_parse f4 1 12 = Some (se_month e)
    /\ cron_parse f5 0 6 = Some (se_weekday e)
    /\ _find_next_fire e now (366 * 4) <> None
    /\ (se_operation e = "backup"%string -> se_destination e <> None)
    /\ (se_operation e = "benchmark"%string ->
          is_true (se_maintenance e) = true /\ is_true (se_rollback_safe e) = true
          /\ se_wake_policy e = JStr "safe").
Proof.
  unfold parse_entry. destruct j as [| | | | | |item]; try done.
  destruct (negb (item_shape item)); [done|]. destruct (py_get "enabled" _ item); try done.
  destruct (parse_destination _) as [dest|]; [|done]. simpl.
  destruct (parse_operation _) as [op|]; [|done]. simpl.
  destruct (String.eqb op "backup" && _) eqn:Eb; [done|].
  destruct (String.eqb op "benchmark" && _) eqn:Ebm; [done|].
  destruct (negb (length _ =? 5)%nat); [done|].
  destruct (parse_fields _ _) as [[[[[[p a] b'] c] d] f]|] eqn:Ef; [|done].
  match goal with |- context [_find_next_fire ?x _ _] => destruct (_find_next_fire x now _) eqn:En end; [|done].
  intros [= <-]. simpl. unfold parse_fields in Ef.
  destruct (py_words _ _) as [|f1 [|f2 [|f3 [|f4 [|f5 [|]]]]]]; try done.
  repeat match type of Ef with (_ ≫= _) = Some _ => apply bind_Some in Ef as (? & ? & Ef) end.
  simplify_eq. exists f1, f2, f3, f4, f5. split_and!; try done.
  - by rewrite En.
  - intros ->. simpl in Eb. to_prop. done.
  - intros ->. simpl in Ebm. to_prop. by eapply benchmark_policy_spec.
Qed.

Lemma parse_entry_ok now j e : parse_entry now j = Ret e -> fields_ok e.
Proof.
  intros (f1 & f2 & f3 & f4 & f5 & _ & H1 & H2 & _)%parse_entry_fields.
  split; by eapply cron_parse_within.
Qed.

Lemma parse_entries_each now l es e : parse_entries now l = Ret es -> e ∈ es -> exists j, parse_entry now j = Ret e.
Proof.
  revert es. induction l as [|j l IH]; intros es; simpl; [by intros [= <-] ?%elem_of_nil|].
  destruct (parse_entry now j) as [x|] eqn:Ej; [|done]. simpl.
  destruct (parse_entries now l) as [xs|]; [|done]. intros [= <-] [->|H]%elem_of_cons; [by exists j|].
  by apply (IH xs).
Qed.

Lemma parse_schedule_each now raw es e : parse_schedule now raw = Ret es -> e ∈ es -> exists j, parse_entry now j = Ret e.
Proof.
  destruct raw; simpl; try done; [by intros [= <-] ?%elem_of_nil|]. apply parse_entries_each.
Qed.

(** ** Properties *)

(** C17.  The day-by-day search finds the next matching minute: for every entry a
    configuration can contain and every time [now], [_find_next_fire] returns the
    earliest whole minute from [now] on that matches the entry, within the
    horizon, and raises exactly when no minute of the horizon matches. *)
Theorem next_fire_is_earliest cfg_now raw es e now days :
  parse_schedule cfg_now raw = Ret es -> e ∈ es -> 0 <= days ->
  match _find_next_fire e now days with
  | Some t => now <= t <= next_minute now + days * us_day /\ t mod us_minute = 0
              /\ entry_matches e t = true
              /\ forall u, now <= u < t -> u mod us_minute = 0 -> entry_matches e u = false
  | None => forall u, now <= u <= next_minute now + days * us_day -> u mod us_minute = 0 ->
              entry_matches e u = false
  end.
Proof.
  intros Hp He Hdays. destruct (parse_schedule_each _ _ _ _ Hp He) as (j & Hj).
  pose proof (parse_entry_ok _ _ _ Hj) as Hok. destruct (next_minute_spec now) as (_ & Hn & Hmin).
  unfold _find_next_fire. set (c := next_minute now) in *.
  assert (0 < us_day) as Hpos by done. pose proof (Z.mod_pos_bound c us_day Hpos) as Hc.
  pose proof (find_day_spec e c (c + days * us_day) Hok (Z.to_nat (days + 2)) (c - c mod us_day)
    (day_start c) ltac:(rewrite Z2Nat.id by lia; nia)) as H.
  destruct (find_day _ _ _ _ _) as [t|]; simpl in H.
  - destruct H as (H1 & _ & H3 & H4 & H5). split_and!; try (lia || done).
    intros u Hu Hum. specialize (Hmin u ltac:(lia) Hum). apply H5; [lia|done].
  - intros u Hu Hum. specialize (Hmin u ltac:(lia) Hum). apply H; [lia|done].
Qed.

(** C18.  Every due entry is handed out once per minute: when the polls of a book
    come in time order, the polls made in minute [k] together return exactly the
    enabled entries matching that minute, once, in configuration order, if there
    is such a poll, and nothing otherwise. *)
Theorem due_once_per_minute es ts k :
  StronglySorted Z.le ts ->
  dues_in k ts (mkScheduleBook es None) =
    if existsb (in_minute k) ts then scheduled k es else [].
Proof.
  intros Hs. destruct ts as [|t ts]; [done|]. cbn [dues_in existsb].
  apply StronglySorted_inv in Hs as [Hs Hall]. rewrite due_next, dues_in_after by done.
  destruct (in_minute k t) eqn:Et; [|done]. unfold in_minute in Et. to_prop.
  by rewrite (due_minute t k), app_nil_r.
Qed.

(** A cron field denotes its parts: when [parse] accepts a field, its values
    are the numbers that some comma-separated part covers (between the part's
    bounds, at a multiple of its step from the start), all of them within the
    range of the field. *)
Theorem cron_field_denotes value lo hi f x :
  cron_parse value lo hi = Some f ->
  (cron_matches f x = true <-> Exists (part_has lo hi x) (py_split ","%char value))
  /\ (cron_matches f x = true -> lo <= x <= hi).
Proof.
  intros H. unfold cron_matches. rewrite bool_decide_eq_true. split.
  - by apply cron_parse_elem.
  - apply (cron_parse_within _ _ _ _ H).
Qed.

(** ** Concrete schedules *)

Definition demo_raw : json :=
  JList [JObj [("cron", JStr "10,*/20 3-5/2 * 2 *"); ("profile", JStr "minecraft")]%string].
Definition demo_now : Z := 739000 * us_day + 5.
Definition demo_entries : list ScheduleEntry :=
  match parse_schedule demo_now demo_raw with Ret es => es | Raise _ => [] end.

Lemma next_fire_is_earliest_witness :
  exists e t, _find_next_fire e demo_now 400 = Some t /\ entry_matches e t = true.
Proof.
  destruct demo_entries as [|e l] eqn:E; [vm_compute in E; discriminate|].
  exists e. assert (exists t, _find_next_fire e demo_now 400 = Some t) as [t Ht].
  { assert (match demo_entries with e :: _ => _find_next_fire e demo_now 400 | [] => None end
            = Some 63874062000000000) as H by (vm_compute; reflexivity).
    rewrite E in H. eauto. }
  exists t. split; [exact Ht|].
  assert (parse_schedule demo_now demo_raw = Ret demo_entries) as Hp by (vm_compute; reflexivity).
  pose proof (next_fire_is_earliest demo_now demo_raw demo_entries e demo_now 400 Hp
    ltac:(rewrite E; by left) ltac:(done)) as H.
  rewrite Ht in H. apply H.
Defined.

Lemma due_once_per_minute_witness :
  dues_in 5 [299000000; 300000001; 330000000; 359000000; 400000000] (mkScheduleBook demo_entries None)
  = scheduled 5 demo_entries.
Proof.
  refine (due_once_per_minute demo_entries [299000000; 300000001; 330000000; 359000000; 400000000] 5 _).
  repeat constructor; lia.
Defined.

Definition demo_field : _CronField :=
  match cron_parse "10,*/20" 0 59 with Some f => f | None => CronField ∅ 0 0 end.

Lemma cron_field_denotes_witness :
  cron_matches demo_field 40 = true -> 0 <= 40 <= 59.
Proof.
  refine (proj2 (cron_field_denotes "10,*/20" 0 59 demo_field 40 _)). vm_compute. reflexivity.
Defined.
