(* ===== verification/Retirement.v ===== *)
(** [retirement.py]: retirement of local backup payloads.  The trusted manifest
    and its verified-copy receipt, the durable ledger and its transition table,
    and the quarantine, purge and rollback phases as computations over the ledger
    and the file system.

    A computation may stop at any effect: the record [rworld] says, at each tick,
    whether an exception or a crash comes before the effect, and gives what the
    code reads from outside the component (lease, catalog, protections, jobs,
    confirmations, clock).  As the caller holds the operation lease and the sender
    lock, nobody else moves payloads while a phase runs.  A path that leads
    through a symbolic link is not resolved by the model. *)
From Stdlib Require Import Ascii.
From S2P Require Import Prelude Slot.

(** ** States of a payload *)

Inductive PayloadState :=
  | PRESENT | MISSING | PREPARED | QUARANTINED | PURGE_PREPARED | PURGED | ROLLED_BACK
  | PFAILED | AMBIGUOUS.

#[export] Instance PayloadState_eq_dec : EqDecision PayloadState.
Proof. solve_decision. Defined.

Definition payload_value (s : PayloadState) : string :=
  match s with
  | PRESENT => "present" | MISSING => "missing" | PREPARED => "prepared"
  | QUARANTINED => "quarantined" | PURGE_PREPARED => "purge_prepared" | PURGED => "purged"
  | ROLLED_BACK => "rolled_back" | PFAILED => "failed" | AMBIGUOUS => "ambiguous"
  end.

Definition BLOCKING_STATES : list PayloadState :=
  [PREPARED; QUARANTINED; PURGE_PREPARED; PURGED; PFAILED; AMBIGUOUS].

Definition _TRANSITIONS (s : PayloadState) : list PayloadState :=
  match s with
  | PREPARED => [PREPARED; QUARANTINED; PFAILED]
  | QUARANTINED => [QUARANTINED; PURGE_PREPARED; ROLLED_BACK; PFAILED]
  | PURGE_PREPARED => [PURGE_PREPARED; PURGED; PFAILED]
  | PURGED => [PURGED]
  | ROLLED_BACK => [ROLLED_BACK; PREPARED; PFAILED]
  | PFAILED => [PFAILED; PREPARED]
  | AMBIGUOUS => [AMBIGUOUS; PREPARED]
  | PRESENT | MISSING => []
  end.

Inductive phase := Quarantine | Purge | Rollback.

Definition phase_value (p : phase) : string :=
  match p with Quarantine => "quarantine" | Purge => "purge" | Rollback => "rollback" end.

Definition _PHASE_RESUMABLE (p : phase) : list PayloadState :=
  match p with
  | Quarantine => [PREPARED; QUARANTINED; ROLLED_BACK]
  | Purge => [QUARANTINED; PURGE_PREPARED; PURGED]
  | Rollback => [PREPARED; QUARANTINED; ROLLED_BACK]
  end.

(** ** The manifest *)

Record ManifestEntry := mkEntry {
  me_backup : string;
  me_profile : string;
  me_device : Z;
  me_inode : Z;
  me_size : Z;
  me_mtime : Z;
  me_ctime : Z;
  me_sha : string;
}.

Record RemoteMember := mkMember {
  rm_backup : string;
  rm_profile : string;
  rm_size : Z;
  rm_sha : string;
}.

Record RemoteReceipt := mkReceipt {
  rr_destination : string;
  rr_verified : bool;
  rr_verified_at : string;
  rr_sha : string;
  rr_members : list RemoteMember;
}.

Record RetirementManifest := mkManifest {
  mf_operation : string;
  mf_proposal : string;
  mf_entries : list ManifestEntry;
  mf_receipt : RemoteReceipt;
}.

#[export] Instance RemoteMember_eq_dec : EqDecision RemoteMember.
Proof. solve_decision. Defined.
#[export] Instance ManifestEntry_eq_dec : EqDecision ManifestEntry.
Proof. solve_decision. Defined.

Definition total_bytes (m : RetirementManifest) : Z :=
  foldr (fun e n => me_size e + n) 0 (mf_entries m).

Inductive rexc :=
  | SafeE (code message : string) (retryable : bool)
  | OSE
  | Crash.

Definition failed (message : string) : rexc := SafeE "retirement_failed" message false.

(** [_reject] *)
Definition reject {A} (c : bool) (message : string) (k : rexc + A) : rexc + A :=
  if c then inl (failed message) else k.

Definition alnum (c : ascii) : bool :=
  let n := nat_of_ascii c in
  ((48 <=? n) && (n <=? 57) || (65 <=? n) && (n <=? 90) || (97 <=? n) && (n <=? 122))%nat.

(** [\^A-Za-z0-9][extra]{0,limit}$], full match. *)
Definition bounded_name (extra : list ascii) (limit : nat) (s : string) : bool :=
  match String.list_ascii_of_string s with
  | [] => false
  | c :: l => alnum c && (length l <=? limit)%nat
              && forallb (fun x => alnum x || existsb (Ascii.eqb x) extra) l
  end.

Definition backup_id_ok : string -> bool := bounded_name ["_"%char; "-"%char] 127.
Definition destination_ok : string -> bool := bounded_name ["."%char; "_"%char; "-"%char] 63.
Definition profile_name_ok (s : string) : bool := nonempty s && (String.length s <=? 64)%nat.

(** [set(value) == expected] for a dict with unique keys. *)
Definition has_shape (expected : list string) (value : list (string * json)) : bool :=
  (length value =? length expected)%nat
  && forallb (fun k => bool_decide (assoc k value <> None)) expected.

(** [value[key]]: a non-negative [int] that is not a [bool]. *)
Definition get_nat (key : string) (value : list (string * json)) : option Z :=
  match assoc key value with
  | Some (JInt n) => if n <? 0 then None else Some n
  | _ => None
  end.

Definition get_str (key : string) (ok : string -> bool) (value : list (string * json))
    : option string :=
  match assoc key value with
  | Some (JStr s) => if ok s then Some s else None
  | _ => None
  end.

Definition need {A B} (o : option A) (message : string) (k : A -> rexc + B) : rexc + B :=
  match o with None => inl (failed message) | Some a => k a end.

Definition _parse_entry (j : json) : rexc + ManifestEntry :=
  match j with
  | JObj v =>
      reject (negb (has_shape ["backup_id"; "profile_id"; "device"; "inode"; "size_bytes";
                               "mtime_ns"; "ctime_ns"; "sha256"]%string v))
        "manifest entry has an unexpected shape" (
      need (get_str "backup_id" backup_id_ok v) "manifest entry id is invalid" (fun bid =>
      need (get_str "profile_id" profile_name_ok v) "manifest profile is invalid" (fun pid =>
      need (get_nat "device" v) "manifest device is invalid" (fun dev =>
      need (get_nat "inode" v) "manifest inode is invalid" (fun ino =>
      need (get_nat "size_bytes" v) "manifest size_bytes is invalid" (fun size =>
      need (get_nat "mtime_ns" v) "manifest mtime_ns is invalid" (fun mtime =>
      need (get_nat "ctime_ns" v) "manifest ctime_ns is invalid" (fun ctime =>
      need (get_str "sha256" hex64 v) "manifest sha256 is invalid" (fun sha =>
      inr (mkEntry bid pid dev ino size mtime ctime sha))))))))))
  | _ => inl (failed "manifest entry is not an object")
  end.

Definition _parse_member (j : json) : rexc + RemoteMember :=
  match j with
  | JObj v =>
      reject (negb (has_shape ["backup_id"; "profile_id"; "size_bytes"; "sha256"]%string v))
        "receipt member has an unexpected shape" (
      need (get_str "backup_id" backup_id_ok v) "receipt member id is invalid" (fun bid =>
      need (get_str "profile_id" profile_name_ok v) "receipt member profile is invalid" (fun pid =>
      need (get_nat "size_bytes" v) "receipt member size is invalid" (fun size =>
      need (get_str "sha256" hex64 v) "receipt member sha256 is invalid" (fun sha =>
      inr (mkMember bid pid size sha))))))
  | _ => inl (failed "receipt member is not an object")
  end.

(** [tuple(f(item) for item in l)] *)
Fixpoint parse_all {A} (f : json -> rexc + A) (l : list json) : rexc + list A :=
  match l with
  | [] => inr []
  | j :: l' => match f j with
               | inl x => inl x
               | inr a => match parse_all f l' with inl x => inl x | inr r => inr (a :: r) end
               end
  end.

Definition find_member (id : string) (l : list RemoteMember) : option RemoteMember :=
  List.find (fun m => String.eqb (rm_backup m) id) l.

(** The first field in which an entry and its receipt member differ. *)
Definition member_mismatch (l : list RemoteMember) (e : ManifestEntry) : option string :=
  match find_member (me_backup e) l with
  | None => Some "receipt membership does not match the plan"%string
  | Some m =>
      if negb (String.eqb (rm_profile m) (me_profile e))
      then Some "receipt profile does not match the plan"%string else
      if negb (rm_size m =? me_size e)
      then Some "receipt size does not match the plan"%string else
      if negb (String.eqb (rm_sha m) (me_sha e))
      then Some "receipt digest does not match the plan"%string else None
  end.

Fixpoint first_mismatch (l : list RemoteMember) (es : list ManifestEntry) : option string :=
  match es with
  | [] => None
  | e :: es' => match member_mismatch l e with Some m => Some m | None => first_mismatch l es' end
  end.

Definition same_ids (l : list RemoteMember) (es : list ManifestEntry) : bool :=
  forallb (fun e => existsb (fun m => String.eqb (rm_backup m) (me_backup e)) l) es
  && forallb (fun m => existsb (fun e => String.eqb (rm_backup m) (me_backup e)) es) l.

Definition distinct (l : list string) : bool := bool_decide (NoDup l).

Section Manifest.
(** [receipt_digest], the SHA-256 of the canonical receipt, and [_is_rfc3339]. *)
Context (receipt_digest : string -> string -> list RemoteMember -> string)
        (is_rfc3339 : string -> bool).

Definition parse_receipt (entries : list ManifestEntry) (j : json) : rexc + RemoteReceipt :=
  match j with
  | JObj v =>
      reject (negb (has_shape ["destination_id"; "verified"; "verified_at"; "receipt_sha256";
                               "members"]%string v)) "receipt has an unexpected shape" (
      need (get_str "destination_id" destination_ok v) "receipt destination is invalid" (fun dest =>
      reject (match assoc "verified" v with Some (JBool true) => false | _ => true end)
        "receipt is not verified" (
      need (get_str "verified_at" is_rfc3339 v) "receipt verification time is invalid" (fun at_ =>
      match assoc "members" v with
      | Some (JList raw) =>
          match parse_all _parse_member raw with
          | inl x => inl x
          | inr members =>
              reject (negb (distinct (map rm_backup members))) "receipt has duplicate members" (
              reject (negb (same_ids members entries)) "receipt membership does not match the plan" (
              match first_mismatch members entries with
              | Some message => inl (failed message)
              | None =>
                  need (get_str "receipt_sha256" hex64 v) "receipt digest is invalid" (fun bound =>
                  reject (negb (String.eqb (receipt_digest dest at_ members) bound))
                    "receipt digest does not bind its content"
                    (inr (mkReceipt dest true at_ bound members)))
              end))
          end
      | _ => inl (failed "receipt members are invalid")
      end))))
  | _ => inl (failed "receipt is not an object")
  end.

(** [parse_manifest]; [None] is a body that is not UTF-8 JSON.  Entries with
    distinct ids have distinct (profile, id) pairs. *)
Definition parse_manifest (data : option json)
    : rexc + (string * list ManifestEntry * RemoteReceipt) :=
  match data with
  | None => inl (failed "retirement manifest is not valid JSON")
  | Some (JObj v) =>
      reject (negb (has_shape ["schema"; "proposal_sha256"; "entries"; "receipt"]%string v))
        "retirement manifest has an unexpected shape" (
      reject (match assoc "schema" v with Some (JInt 1) => false | Some (JBool true) => false
              | Some (JFloat (FFin f)) => negb (f =? fl 1) | _ => true end)
        "retirement manifest schema is not supported" (
      need (get_str "proposal_sha256" hex64 v) "retirement proposal digest is invalid" (fun proposal =>
      match assoc "entries" v with
      | Some (JList raw) =>
          reject ((length raw <? 1)%nat || (4096 <? length raw)%nat)
            "retirement manifest entries are invalid" (
          match parse_all _parse_entry raw with
          | inl x => inl x
          | inr entries =>
              reject (negb (distinct (map me_backup entries)))
                "retirement manifest has duplicate entries" (
              match parse_receipt entries (default JNull (assoc "receipt" v)) with
              | inl x => inl x
              | inr receipt => inr (proposal, entries, receipt)
              end)
          end)
      | _ => inl (failed "retirement manifest entries are invalid")
      end)))
  | Some _ => inl (failed "retirement manifest is not an object")
  end.

(** The [lstat] fields these checks read (modes in hex: 0x12 is 0o022, 0x3F is
    0o077). *)
Inductive ftype := TReg | TDir | TLink | TOther.

Record rstat := RStat { rs_type : ftype; rs_mode : Z; rs_uid : Z; rs_nlink : Z; rs_size : Z }.

Definition is_type (t : ftype) (st : rstat) : bool :=
  match t, rs_type st with
  | TReg, TReg | TDir, TDir | TLink, TLink | TOther, TOther => true
  | _, _ => false
  end.

Definition mode_has (bits mode : Z) : bool := negb (Z.land mode bits =? 0).

(** The manifest directory: whether a component of its path is a symlink or not
    [lstat]-able, and its own [lstat]. *)
Record manifest_dir := ManifestDir {
  md_unreadable : bool;
  md_link : bool;
  md_stat : option rstat;
}.

(** A manifest file: its [lstat], whether it was replaced before the open, the
    number of bytes read, their digest and what they decode to. *)
Record manifest_file := ManifestFile {
  mf_stat : option rstat;
  mf_replaced : bool;
  mf_length : Z;
  mf_digest : string;
  mf_body : option json;
}.

Definition MAX_MANIFEST_BYTES : Z := 2 * 1024 * 1024.

Definition _assert_trusted_directory (d : manifest_dir) (owner : Z) : option rexc :=
  if md_unreadable d then Some (failed "path is unavailable") else
  if md_link d then Some (failed "path has a symlink ancestor") else
  match md_stat d with
  | None => Some (failed "retirement manifest directory is unavailable")
  | Some st =>
      if negb (is_type TDir st)
      then Some (failed "retirement manifest directory is not a directory") else
      if negb (rs_uid st =? owner) || mode_has 0x12 (rs_mode st)
      then Some (failed "retirement manifest directory is not trusted") else None
  end.

Definition _load_bytes (f : manifest_file) (owner : Z) : option rexc :=
  match mf_stat f with
  | None => Some (failed "retirement manifest was not found")
  | Some st =>
      if negb (is_type TReg st)
      then Some (failed "retirement manifest is not a regular file") else
      if negb (rs_nlink st =? 1) then Some (failed "retirement manifest is multiply linked") else
      if negb (rs_uid st =? owner) || mode_has 0x12 (rs_mode st)
      then Some (failed "retirement manifest is not trusted") else
      if MAX_MANIFEST_BYTES <? rs_size st then Some (failed "retirement manifest is too large") else
      if mf_replaced f then Some (failed "retirement manifest changed while opening") else
      if MAX_MANIFEST_BYTES <? mf_length f then Some (failed "retirement manifest is too large")
      else None
  end.

Definition load_manifest (d : manifest_dir) (file : string -> manifest_file) (owner : Z)
    (operation_id : string) : rexc + RetirementManifest :=
  reject (negb (hex64 operation_id)) "retirement operation id is invalid" (
  match _assert_trusted_directory d owner with
  | Some x => inl x
  | None =>
      let f := file operation_id in
      match _load_bytes f owner with
      | Some x => inl x
      | None =>
          reject (negb (String.eqb (mf_digest f) operation_id))
            "retirement manifest digest does not match its name" (
          match parse_manifest (mf_body f) with
          | inl x => inl x
          | inr (proposal, entries, receipt) => inr (mkManifest operation_id proposal entries receipt)
          end)
      end
  end).
End Manifest.

(** ** The sender interlock *)

(** What [acquire] meets: the trust of the lock's parent directory, the open, the
    [fstat] and the non-blocking [flock]. *)
Record sender_lock := SenderLock {
  sl_parent : manifest_dir;
  sl_open : option rstat;
  sl_missing : bool;
  sl_free : bool;
}.

Definition sender_parent (l : sender_lock) (owner : Z) : option rexc :=
  let d := sl_parent l in
  if md_unreadable d then Some (failed "path is unavailable") else
  if md_link d then Some (failed "path has a symlink ancestor") else
  match md_stat d with
  | None => Some (failed "sender lock directory is unavailable")
  | Some st =>
      if negb (is_type TDir st) then Some (failed "sender lock parent is not a directory") else
      if negb (rs_uid st =? owner) || mode_has 0x12 (rs_mode st)
      then Some (failed "sender lock parent is not trusted") else None
  end.

Definition sender_acquire (l : sender_lock) (owner : Z) : option rexc :=
  match sender_parent l owner with
  | Some x => Some x
  | None =>
      match sl_open l with
      | None => Some (failed (if sl_missing l then "sender lock is unavailable"
                              else "sender lock could not be opened"))
      | Some st =>
          if negb (is_type TReg st) || negb (rs_nlink st =? 1)
          then Some (failed "sender lock is not a trusted file") else
          if negb (rs_uid st =? owner) || mode_has 0x3F (rs_mode st)
          then Some (failed "sender lock mode is not trusted") else
          if negb (sl_free l)
          then Some (SafeE "retirement_failed" "laptop sender is active" true) else None
      end
  end.

(** [probe]: the lock could be taken. *)
Definition sender_probe (l : sender_lock) (owner : Z) : bool :=
  match sender_acquire l owner with Some _ => false | None => true end.

(** ** Files *)

#[global] Abbreviation path := (list string).

Record finfo := FInfo {
  f_dev : Z; f_ino : Z; f_size : Z; f_mtime : Z; f_ctime : Z; f_nlink : Z; f_sha : string }.

Inductive inode :=
  | IFile (i : finfo)
  | IDir (uid mode : Z)
  | ILink
  | IOther.

#[global] Abbreviation fsys := (gmap path inode).

Inductive lstat_result := LOk (i : inode) | LNoent | LNotdir | LErr.

(** [os.lstat(pre / rest)], the components of [pre] being known directories. *)
Fixpoint lstat_from (fs : fsys) (pre rest : path) : lstat_result :=
  match rest with
  | [] => LErr
  | c :: rest' =>
      match fs !! (pre ++ [c]), rest' with
      | None, _ => LNoent
      | Some i, [] => LOk i
      | Some (IDir _ _), _ => lstat_from fs (pre ++ [c]) rest'
      | Some ILink, _ => LErr
      | Some _, _ => LNotdir
      end
  end.

Definition lstat (fs : fsys) (p : path) : lstat_result := lstat_from fs [] p.

Fixpoint strip_prefix (root p : path) : option path :=
  match root, p with
  | [], _ => Some p
  | r :: root', c :: p' => if String.eqb r c then strip_prefix root' p' else None
  | _ :: _, [] => None
  end.

(** The ancestor loop of [_absent] below [root]. *)
Fixpoint absent_from (fs : fsys) (current parts : path) : bool :=
  match parts with
  | [] => false
  | [leaf] => match lstat fs (current ++ [leaf]) with LNoent | LNotdir => true | _ => false end
  | c :: parts' =>
      match lstat fs (current ++ [c]) with
      | LNoent => true
      | LOk (IDir _ _) => absent_from fs (current ++ [c]) parts'
      | _ => false
      end
  end.

Definition _absent (fs : fsys) (root p : path) : bool :=
  match strip_prefix root p with
  | None => false
  | Some parts =>
      match lstat fs root with
      | LOk (IDir _ _) => absent_from fs root parts
      | _ => false
      end
  end.

(** ** The ledger *)

Record lrow := LRow {
  lr_profile : string;
  lr_state : PayloadState;
  lr_path : string;
  lr_quarantine : path;
  lr_device : Z;
  lr_inode : Z;
  lr_size : Z;
  lr_mtime : Z;
  lr_ctime : Z;
  lr_sha : string;
  lr_manifest : string;
  lr_created : Z;
  lr_updated : Z;
  lr_error : option string;
}.

(** Keyed by operation id and backup id. *)
#[global] Abbreviation ledger := (gmap (string * string) lrow).

Definition _same_identity (a b : lrow) : bool :=
  String.eqb (lr_profile a) (lr_profile b) && String.eqb (lr_path a) (lr_path b)
  && (lr_device a =? lr_device b) && (lr_inode a =? lr_inode b) && (lr_size a =? lr_size b)
  && (lr_mtime a =? lr_mtime b) && (lr_ctime a =? lr_ctime b) && String.eqb (lr_sha a) (lr_sha b)
  && String.eqb (lr_manifest a) (lr_manifest b).

Definition blocking (s : PayloadState) : bool := bool_decide (s ∈ BLOCKING_STATES).

(** Rows of the backup in other operations with a blocking state. *)
Definition blocked_elsewhere (op bid : string) (l : ledger) : bool :=
  existsb (fun '((o, b), r) => String.eqb b bid && negb (String.eqb o op) && blocking (lr_state r))
    (map_to_list l).

Definition upsert (k : string * string) (r : lrow) (l : ledger) : ledger :=
  match l !! k with
  | Some old => <[k := LRow (lr_profile r) (lr_state r) (lr_path r) (lr_quarantine r) (lr_device r)
                         (lr_inode r) (lr_size r) (lr_mtime r) (lr_ctime r) (lr_sha r)
                         (lr_manifest r) (lr_created old) (lr_updated r) (lr_error r)]> l
  | None => <[k := r]> l
  end.

(** The checks of [ledger_write]. *)
Definition ledger_check (k : string * string) (r : lrow) (l : ledger) : option rexc :=
  match l !! k with
  | Some old =>
      if negb (_same_identity old r)
      then Some (failed "ledger identity does not match the plan") else
      if negb (bool_decide (lr_state r ∈ _TRANSITIONS (lr_state old)))
      then Some (failed "ledger state transition is not permitted") else None
  | None =>
      if blocked_elsewhere (fst k) (snd k) l
      then Some (failed "payload belongs to another active retirement operation") else None
  end.

(** [blocking_backup_ids] *)
Definition blocking_backup_ids (l : option ledger) : list string :=
  match l with
  | None => []
  | Some l => map (fun '((_, b), _) => b) (List.filter (fun '(_, r) => blocking (lr_state r)) (map_to_list l))
  end.

(** ** Computations *)

Record catalog_row := CatalogRow {
  cat_profile : string; cat_size : Z; cat_verified : Z; cat_protected : Z }.

Record rworld := RWorld {
  rw_fault : nat -> option rexc;
  rw_lease : nat -> bool;
  rw_catalog : nat -> string -> option catalog_row;
  rw_protections : nat -> string -> list string;
  rw_restores : nat -> list string;
  rw_jobs : nat -> list string;
  rw_unstable : nat -> bool;
  rw_link_exists : nat -> path -> bool;
  rw_now : nat -> Z;
  rw_sender : nat -> sender_lock;
  rw_noreplace : bool;
}.

Record rstate := RState { r_fs : fsys; r_ledger : option ledger; r_tick : nat }.

Definition R (A : Type) : Type := rstate -> (rexc + A) * rstate.

#[export] Instance R_ret : MRet R := fun _ a s => (inr a, s).
#[export] Instance R_bind : MBind R := fun _ _ k m s =>
  match m s with
  | (inl x, s') => (inl x, s')
  | (inr a, s') => k a s'
  end.

Definition rthrow {A} (x : rexc) : R A := fun s => (inl x, s).
Definition rassert (b : bool) (x : rexc) : R unit := if b then mret tt else rthrow x.
Definition rlift {A} (r : rexc + A) : R A := fun s => (r, s).
Definition ropt (o : option rexc) : R unit := match o with Some x => rthrow x | None => mret tt end.

Definition get_fs : R fsys := fun s => (inr (r_fs s), s).
Definition get_ledger : R (option ledger) := fun s => (inr (r_ledger s), s).

(** A reading of the outside at the current tick. *)
Definition ask {A} (f : nat -> A) : R A := fun s =>
  (inr (f (r_tick s)), RState (r_fs s) (r_ledger s) (S (r_tick s))).

Fixpoint for_ {A} (l : list A) (f : A -> R unit) : R unit :=
  match l with
  | [] => mret tt
  | a :: l' => f a ;; for_ l' f
  end.

Section Phases.
Context (w : rworld) (owner : Z) (roots : string -> option path).

(** A durable effect, preceded by a fault at this tick or carried out. *)
Definition effect (f : nat -> rstate -> fsys * option ledger) : R unit := fun s =>
  match rw_fault w (r_tick s) with
  | Some x => (inl x, RState (r_fs s) (r_ledger s) (S (r_tick s)))
  | None => let '(fs, l) := f (r_tick s) s in (inr tt, RState fs l (S (r_tick s)))
  end.

(** [rename_noreplace]; a rename changes the file's ctime. *)
Definition renamed (now : Z) (i : inode) : inode :=
  match i with
  | IFile f => IFile (FInfo (f_dev f) (f_ino f) (f_size f) (f_mtime f) now (f_nlink f) (f_sha f))
  | _ => i
  end.

Definition dir_exists (fs : fsys) (p : path) : bool :=
  match lstat fs p with LOk (IDir _ _) => true | _ => false end.

Definition parent (p : path) : path := removelast p.

Definition rename_noreplace (src dst : path) : R unit :=
  if negb (rw_noreplace w)
  then rthrow (failed "no-overwrite rename is unavailable on this host") else
  fs ← get_fs;
  match lstat fs src, lstat fs dst with
  | LOk i, LOk _ => rthrow (failed "target already exists")
  | LOk i, LNoent =>
      if dir_exists fs (parent dst)
      then effect (fun n s => (<[dst := renamed (rw_now w n) i]> (delete src (r_fs s)), r_ledger s))
      else rthrow (failed "no-overwrite rename failed")
  | _, _ => rthrow (failed "no-overwrite rename failed")
  end.

(** [os.unlink] *)
Definition unlink (p : path) : R unit :=
  fs ← get_fs;
  match lstat fs p with
  | LOk (IDir _ _) => rthrow OSE
  | LOk _ => effect (fun _ s => (delete p (r_fs s), r_ledger s))
  | _ => rthrow OSE
  end.

Definition _fsync_dir : R unit := effect (fun _ s => (r_fs s, r_ledger s)).

Definition ensure_ledger : R unit :=
  l ← get_ledger;
  match l with
  | Some _ => mret tt
  | None => effect (fun _ s => (r_fs s, Some ∅))
  end.

Definition ledger_write (k : string * string) (r : lrow) : R unit :=
  ensure_ledger ;;
  l ← get_ledger;
  ropt (ledger_check k r (default ∅ l)) ;;
  effect (fun _ s => (r_fs s, Some (upsert k r (default ∅ (r_ledger s))))).

Definition _assert_lease : R unit :=
  b ← ask (rw_lease w);
  rassert b (SafeE "slot_conflict" "operation lease was lost before payload retirement" true).

(** ** Plan *)

Record PlanEntry := mkPlan {
  pe_entry : ManifestEntry; pe_root : path; pe_archive : path; pe_quarantine : path }.

Definition archive_name (bid : string) : string := bid ++ ".tar.zst".
Definition _archive (root : path) (bid : string) : path := root ++ [archive_name bid].
Definition quarantine_rel (op bid : string) : path := [".retired"%string; op; archive_name bid].
Definition quarantine_of (root : path) (op bid : string) : path := root ++ quarantine_rel op bid.

(** [_plan]; the archive's parent is the root by construction. *)
Fixpoint _plan (op : string) (es : list ManifestEntry) : rexc + list PlanEntry :=
  match es with
  | [] => inr []
  | e :: es' =>
      match roots (me_profile e) with
      | None => inl (failed "profile is not registered")
      | Some root =>
          match _plan op es' with
          | inl x => inl x
          | inr l => inr (mkPlan e root (_archive root (me_backup e))
                            (quarantine_of root op (me_backup e)) :: l)
          end
      end
  end.

(** ** Checks *)

(** [LIKE '%id%']: ASCII case is ignored and ['_'] matches any character. *)
Definition lower (c : ascii) : ascii :=
  let n := nat_of_ascii c in
  if ((65 <=? n) && (n <=? 90))%nat then ascii_of_nat (n + 32) else c.

Fixpoint like_prefix (pat s : list ascii) : bool :=
  match pat, s with
  | [], _ => true
  | p :: pat', c :: s' => (Ascii.eqb p "_" || Ascii.eqb (lower p) (lower c)) && like_prefix pat' s'
  | _ :: _, [] => false
  end.

Fixpoint like_inside (pat s : list ascii) : bool :=
  like_prefix pat s || match s with [] => false | _ :: s' => like_inside pat s' end.

Definition sql_contains (id payload : string) : bool :=
  like_inside (String.list_ascii_of_string id) (String.list_ascii_of_string payload).

Definition _assert_catalog_eligible (e : ManifestEntry) : R unit :=
  row ← ask (fun n => rw_catalog w n (me_backup e));
  match row with
  | None => rthrow (failed "backup is not in the catalog")
  | Some c =>
      rassert (String.eqb (cat_profile c) (me_profile e))
        (failed "backup profile does not match the plan") ;;
      rassert (cat_size c =? me_size e) (failed "backup size does not match the plan") ;;
      rassert ((cat_verified c =? 1) && (cat_protected c =? 0))
        (failed "backup is not an unprotected verified catalog row") ;;
      states ← ask (fun n => rw_protections w n (me_backup e));
      rassert (forallb (String.eqb "deleted") states)
        (failed "backup still has a remote protection row") ;;
      restores ← ask (rw_restores w);
      rassert (negb (existsb (sql_contains (me_backup e)) restores))
        (failed "backup has a live restore confirmation")
  end.

Definition _assert_jobs_idle (own_job : option string) : R unit :=
  jobs ← ask (rw_jobs w);
  let others := match own_job with
                | Some j => if nonempty j then List.filter (fun x => negb (String.eqb x j)) jobs else jobs
                | None => jobs
                end in
  rassert (bool_decide (others = []))
    (SafeE "retirement_failed" "an unrelated operation is still running" true).

Definition _assert_confirmations_clear : R unit :=
  restores ← ask (rw_restores w);
  rassert (bool_decide (restores = [])) (failed "a restore confirmation is pending").

Definition _assert_boundaries (own_job : option string) : R unit :=
  _assert_jobs_idle own_job ;; _assert_confirmations_clear.

(** [ledger_rows(connection, operation_id)] by backup id. *)
Definition op_rows (op : string) (l : option ledger) : list (string * lrow) :=
  map (fun '((_, b), r) => (b, r))
    (List.filter (fun '((o, _), _) => String.eqb o op) (map_to_list (default ∅ l))).

Definition find_entry (id : string) (es : list ManifestEntry) : option ManifestEntry :=
  List.find (fun e => String.eqb (me_backup e) id) es.

Definition row_bound (es : list ManifestEntry) (br : string * lrow) : option rexc :=
  match find_entry (fst br) es with
  | None => Some (failed "ledger membership does not match the plan")
  | Some e =>
      let r := snd br in
      if negb (String.eqb (lr_profile r) (me_profile e)) || negb (String.eqb (lr_sha r) (me_sha e))
      then Some (failed "ledger entry is bound to a different plan") else
      if negb (lr_device r =? me_device e) || negb (lr_inode r =? me_inode e)
         || negb (lr_size r =? me_size e) || negb (lr_mtime r =? me_mtime e)
         || negb (lr_ctime r =? me_ctime e)
      then Some (failed "ledger identity does not match the plan") else None
  end.

Fixpoint first_error {A} (f : A -> option rexc) (l : list A) : option rexc :=
  match l with
  | [] => None
  | a :: l' => match f a with Some x => Some x | None => first_error f l' end
  end.

Definition _assert_operation_binding (m : RetirementManifest) (exact : bool) : R unit :=
  l ← get_ledger;
  let rows := op_rows (mf_operation m) l in
  match rows with
  | [] => mret tt
  | _ =>
      rassert (forallb (fun br => bool_decide (find_entry (fst br) (mf_entries m) <> None)) rows
               && (negb exact
                   || forallb (fun e => existsb (fun br => String.eqb (fst br) (me_backup e)) rows)
                        (mf_entries m)))
        (failed "ledger membership does not match the plan") ;;
      ropt (first_error (row_bound (mf_entries m)) rows)
  end.

Definition _assert_phase_admissible (m : RetirementManifest) (p : phase) : R unit :=
  l ← get_ledger;
  ropt (first_error (fun br =>
      if bool_decide (lr_state (snd br) ∈ _PHASE_RESUMABLE p) then None
      else Some (failed ("operation cannot resume phase " ++ phase_value p ++ " from ledger state "
                         ++ payload_value (lr_state (snd br)))))
    (op_rows (mf_operation m) l)).

Definition _assert_receipt (m : RetirementManifest) : R unit :=
  let r := mf_receipt m in
  rassert (rr_verified r) (failed "verified-copy receipt is not verified") ;;
  rassert (same_ids (rr_members r) (mf_entries m))
    (failed "verified-copy receipt membership does not match the plan") ;;
  rassert (forallb (fun e => bool_decide (member_mismatch (rr_members r) e = None)) (mf_entries m))
    (failed "verified-copy receipt does not match the plan").

(** [self._states_by_id(...)[backup_id]] *)
Definition state_in (op bid : string) (l : option ledger) : option PayloadState :=
  lr_state <$> (default ∅ l !! (op, bid)).

Definition state_of (op bid : string) : R (option PayloadState) :=
  l ← get_ledger; mret (state_in op bid l).

(** [_prior_ops] *)
Definition _prior_ops : R (string * string -> bool) :=
  l ← get_ledger; mret (fun k => bool_decide (default ∅ l !! k <> None)).

(** [_verify_payload]; the file is read between two [lstat]s. *)
Definition _verify_payload (e : ManifestEntry) (p : path) (check_ctime : bool) : R unit :=
  fs ← get_fs;
  match lstat fs p with
  | LOk (IFile f) =>
      rassert (f_nlink f =? 1) (failed "backup payload has multiple links") ;;
      unstable ← ask (rw_unstable w);
      rassert (negb unstable) (failed "backup payload changed during verification") ;;
      rassert ((f_dev f =? me_device e) && (f_ino f =? me_inode e))
        (failed "backup payload identity changed") ;;
      rassert ((f_size f =? me_size e) && (f_mtime f =? me_mtime e))
        (failed "backup payload metadata changed") ;;
      rassert (negb check_ctime || (f_ctime f =? me_ctime e))
        (failed "backup payload metadata changed") ;;
      rassert (String.eqb (f_sha f) (me_sha e)) (failed "backup payload digest changed")
  | LOk _ => rthrow (failed "backup payload is not a regular file")
  | _ => rthrow (failed "backup payload is unavailable")
  end.

Definition absent (root p : path) : R bool := fs ← get_fs; mret (_absent fs root p).

Definition _row (m : RetirementManifest) (it : PlanEntry) (s : PayloadState) (stamp : Z)
    (error : option string) : lrow :=
  let e := pe_entry it in
  LRow (me_profile e) s (archive_name (me_backup e)) (quarantine_rel (mf_operation m) (me_backup e))
    (me_device e) (me_inode e) (me_size e) (me_mtime e) (me_ctime e) (me_sha e) (mf_operation m)
    stamp stamp error.

Definition write_state (m : RetirementManifest) (it : PlanEntry) (s : PayloadState)
    (error : option string) : R unit :=
  stamp ← ask (rw_now w);
  ledger_write (mf_operation m, me_backup (pe_entry it)) (_row m it s stamp error).

(** ** Preflight *)

Definition preflight_item (m : RetirementManifest) (prior : string * string -> bool) (it : PlanEntry)
    : R unit :=
  archive_absent ← absent (pe_root it) (pe_archive it);
  quarantine_absent ← absent (pe_root it) (pe_quarantine it);
  if negb archive_absent && negb quarantine_absent
  then rthrow (failed "both source and quarantine payloads exist") else
  if negb quarantine_absent then _verify_payload (pe_entry it) (pe_quarantine it) false else
  if negb archive_absent
  then _verify_payload (pe_entry it) (pe_archive it)
         (negb (prior (mf_operation m, me_backup (pe_entry it))))
  else rthrow (failed "backup payload is unavailable").

Definition _assert_preflight (m : RetirementManifest) : R unit :=
  for_ (mf_entries m) _assert_catalog_eligible ;;
  prior ← _prior_ops;
  plan ← rlift (_plan (mf_operation m) (mf_entries m));
  for_ plan (preflight_item m prior).

Definition purge_ready_item (m : RetirementManifest) (it : PlanEntry) : R unit :=
  st ← state_of (mf_operation m) (me_backup (pe_entry it));
  quarantine_absent ← absent (pe_root it) (pe_quarantine it);
  archive_absent ← absent (pe_root it) (pe_archive it);
  match st with
  | Some PURGED =>
      rassert quarantine_absent (failed "a purged payload reappeared on disk")
  | Some PURGE_PREPARED =>
      if negb quarantine_absent then _verify_payload (pe_entry it) (pe_quarantine it) false
      else rassert archive_absent (failed "source payload is still present before purge")
  | _ =>
      rassert (negb quarantine_absent) (failed "quarantined payload is missing before purge") ;;
      _verify_payload (pe_entry it) (pe_quarantine it) false
  end.

Definition _assert_purge_ready (m : RetirementManifest) : R unit :=
  l ← get_ledger;
  rassert (forallb (fun e => bool_decide (state_in (mf_operation m) (me_backup e) l <> None))
             (mf_entries m)
           && forallb (fun br => bool_decide (find_entry (fst br) (mf_entries m) <> None))
                (op_rows (mf_operation m) l))
    (failed "purge plan does not match the quarantined set") ;;
  plan ← rlift (_plan (mf_operation m) (mf_entries m));
  for_ plan (purge_ready_item m).

Definition _assert_no_purge_intent (m : RetirementManifest) : R unit :=
  l ← get_ledger;
  rassert (forallb (fun br => negb (bool_decide (lr_state (snd br) ∈ [PURGE_PREPARED; PURGED])))
             (op_rows (mf_operation m) l))
    (failed "rollback is impossible after purge intent").

(** [prepare]: the read-only check of a phase. *)
Definition prepare (m : RetirementManifest) (p : phase) : R unit :=
  _assert_operation_binding m (match p with Purge => true | _ => false end) ;;
  _assert_phase_admissible m p ;;
  match p with
  | Quarantine => _assert_preflight m
  | Purge => _assert_receipt m ;; _assert_purge_ready m
  | Rollback => _assert_no_purge_intent m
  end.

(** ** Quarantine directories *)

(** [_ensure_private_dir] of a directory below the backup root. *)
Definition _ensure_private_dir (d : path) : R unit :=
  fs ← get_fs;
  match lstat fs (parent d) with
  | LOk (IDir uid mode) =>
      rassert (uid =? owner) (failed "quarantine parent is not trusted") ;;
      rassert (negb (mode_has 0x12 mode)) (failed "quarantine parent is not trusted") ;;
      match lstat fs d with
      | LOk (IDir uid mode) =>
          rassert ((uid =? owner) && negb (mode_has 0x3F mode))
            (failed "quarantine directory permissions are not trusted")
      | LOk ILink => rthrow (failed "path has a symlink ancestor")
      | LOk _ => rthrow (failed "quarantine directory is not trusted")
      | _ => effect (fun _ s => (<[d := IDir owner 0x1C0]> (r_fs s), r_ledger s)) ;; _fsync_dir
      end
  | LOk ILink | LErr => rthrow (failed "path has a symlink ancestor")
  | LOk _ => rthrow (failed "quarantine parent is not a directory")
  | _ => rthrow (failed "quarantine parent is unavailable")
  end.

(** [with SenderInterlock(...)] *)
Definition with_interlock {A} (body : R A) : R A :=
  l ← ask (rw_sender w);
  ropt (sender_acquire l owner) ;;
  body.

(** ** Phases *)

Definition make_dirs (it : PlanEntry) : R unit :=
  _ensure_private_dir (parent (parent (pe_quarantine it))) ;;
  _ensure_private_dir (parent (pe_quarantine it)).

Definition prepare_row (m : RetirementManifest) (it : PlanEntry) : R unit :=
  st ← state_of (mf_operation m) (me_backup (pe_entry it));
  if bool_decide (st = None) || bool_decide (st = Some ROLLED_BACK)
  then _assert_lease ;; write_state m it PREPARED None
  else mret tt.

(** [path.exists()] *)
Definition path_exists (p : path) : R bool :=
  fs ← get_fs;
  match lstat fs p with
  | LOk ILink => ask (fun n => rw_link_exists w n p)
  | LOk _ => mret true
  | LNoent | LNotdir => mret false
  | LErr => rthrow OSE
  end.

Definition quarantine_item (m : RetirementManifest) (prior : string * string -> bool)
    (it : PlanEntry) : R unit :=
  _assert_lease ;;
  _assert_catalog_eligible (pe_entry it) ;;
  st ← state_of (mf_operation m) (me_backup (pe_entry it));
  if bool_decide (st = Some QUARANTINED) then _verify_payload (pe_entry it) (pe_quarantine it) false else
  there ← path_exists (pe_quarantine it);
  if (there : bool) then
    _verify_payload (pe_entry it) (pe_quarantine it) false ;;
    _assert_lease ;;
    write_state m it QUARANTINED None
  else
    _verify_payload (pe_entry it) (pe_archive it)
      (negb (prior (mf_operation m, me_backup (pe_entry it)))) ;;
    _assert_lease ;;
    rename_noreplace (pe_archive it) (pe_quarantine it) ;;
    _fsync_dir ;;
    _fsync_dir ;;
    write_state m it QUARANTINED None.

Definition quarantine (m : RetirementManifest) (own_job : option string) : R unit :=
  _assert_operation_binding m false ;;
  _assert_phase_admissible m Quarantine ;;
  with_interlock (
    _assert_boundaries own_job ;;
    prior ← _prior_ops;
    _assert_preflight m ;;
    plan ← rlift (_plan (mf_operation m) (mf_entries m));
    _assert_boundaries own_job ;;
    for_ plan make_dirs ;;
    for_ plan (prepare_row m) ;;
    for_ plan (quarantine_item m prior)).

Definition intend_purge (m : RetirementManifest) (it : PlanEntry) : R unit :=
  st ← state_of (mf_operation m) (me_backup (pe_entry it));
  if bool_decide (st = Some QUARANTINED)
  then _assert_lease ;; write_state m it PURGE_PREPARED None
  else mret tt.

Definition purge_item (m : RetirementManifest) (it : PlanEntry) : R unit :=
  _assert_lease ;;
  _assert_catalog_eligible (pe_entry it) ;;
  st ← state_of (mf_operation m) (me_backup (pe_entry it));
  quarantine_absent ← absent (pe_root it) (pe_quarantine it);
  if bool_decide (st = Some PURGED)
  then rassert quarantine_absent (failed "a purged payload reappeared on disk") else
  if (quarantine_absent : bool) then
    rassert (bool_decide (st = Some PURGE_PREPARED)) (failed "payload missing without a purge intent") ;;
    archive_absent ← absent (pe_root it) (pe_archive it);
    rassert archive_absent (failed "source payload is still present before purge") ;;
    write_state m it PURGED None
  else
    _verify_payload (pe_entry it) (pe_quarantine it) false ;;
    _assert_lease ;;
    unlink (pe_quarantine it) ;;
    _fsync_dir ;;
    write_state m it PURGED None.

Definition purge (m : RetirementManifest) (own_job : option string) : R unit :=
  _assert_operation_binding m true ;;
  _assert_phase_admissible m Purge ;;
  with_interlock (
    _assert_boundaries own_job ;;
    _assert_receipt m ;;
    for_ (mf_entries m) _assert_catalog_eligible ;;
    _assert_purge_ready m ;;
    plan ← rlift (_plan (mf_operation m) (mf_entries m));
    _assert_boundaries own_job ;;
    for_ plan (intend_purge m) ;;
    for_ plan (purge_item m)).

(** One entry of a rollback: whether the payload was missing. *)
Definition rollback_item (m : RetirementManifest) (prior : string * string -> bool)
    (it : PlanEntry) : R bool :=
  _assert_lease ;;
  st ← state_of (mf_operation m) (me_backup (pe_entry it));
  if negb (bool_decide (st = Some PREPARED) || bool_decide (st = Some QUARANTINED)) then mret false else
  quarantine_absent ← absent (pe_root it) (pe_quarantine it);
  archive_absent ← absent (pe_root it) (pe_archive it);
  if negb quarantine_absent then
    _verify_payload (pe_entry it) (pe_quarantine it) false ;;
    _assert_lease ;;
    rename_noreplace (pe_quarantine it) (pe_archive it) ;;
    _fsync_dir ;;
    _fsync_dir ;;
    write_state m it ROLLED_BACK None ;;
    mret false
  else if negb archive_absent then
    _verify_payload (pe_entry it) (pe_archive it)
      (negb (prior (mf_operation m, me_backup (pe_entry it)))) ;;
    write_state m it ROLLED_BACK None ;;
    mret false
  else
    write_state m it PFAILED (Some "payload_missing"%string) ;;
    mret true.

Fixpoint rollback_items (m : RetirementManifest) (prior : string * string -> bool)
    (l : list PlanEntry) : R bool :=
  match l with
  | [] => mret false
  | it :: l' =>
      missing ← rollback_item m prior it;
      rest ← rollback_items m prior l';
      mret (missing || rest)
  end.

(** [rollback]: whether the result is partial. *)
Definition rollback (m : RetirementManifest) (own_job : option string) : R bool :=
  _assert_operation_binding m false ;;
  _assert_phase_admissible m Rollback ;;
  with_interlock (
    _assert_boundaries own_job ;;
    _assert_no_purge_intent m ;;
    prior ← _prior_ops;
    plan ← rlift (_plan (mf_operation m) (mf_entries m));
    rollback_items m prior plan).

(** ** Observation *)

Definition _matches (fs : fsys) (p : path) (r : lrow) : bool :=
  match lstat fs p with
  | LOk (IFile f) =>
      (f_nlink f =? 1) && (f_dev f =? lr_device r) && (f_ino f =? lr_inode r)
      && (f_size f =? lr_size r) && (f_mtime f =? lr_mtime r)
  | _ => false
  end.

(** [_quarantine_path]; a relative path with [..] is refused. *)
Definition _quarantine_path (root : path) (r : lrow) : option path :=
  match lr_quarantine r with
  | [] => None
  | q => if existsb (String.eqb "..") q then None else Some (root ++ q)
  end.

Definition classification (fs : fsys) (bid : string) (r : lrow) : option string :=
  if negb (bool_decide (lr_state r ∈ [PREPARED; QUARANTINED; PURGE_PREPARED])) then None else
  Some (match roots (lr_profile r) with
  | None => "unknown_profile"
  | Some root =>
      let archive := _archive root bid in
      let q := _quarantine_path root r in
      let archive_ok := _matches fs archive r in
      let quarantine_ok := match q with Some q => _matches fs q r | None => false end in
      match lr_state r with
      | PREPARED =>
          if archive_ok then "prepared_source_intact" else
          if quarantine_ok then "quarantine_completed" else "failed"
      | QUARANTINED =>
          if quarantine_ok then "quarantined_intact" else
          if archive_ok then "source_present" else "failed"
      | _ =>
          if quarantine_ok then "purge_pending" else
          if _absent fs root archive && match q with Some q => _absent fs root q | None => false end
          then "purged_proven" else "ambiguous"
      end
  end)%string.

(** [_classify]: backup id, profile, ledger state and classification (the report is
    then sorted by backup id). *)
Definition _classify (fs : fsys) (rows : list (string * lrow))
    : list (string * string * PayloadState * string) :=
  omap (fun br => c ← classification fs (fst br) (snd br);
                  Some (fst br, lr_profile (snd br), lr_state (snd br), c)) rows.

Definition all_rows (l : option ledger) : list (string * lrow) :=
  map (fun '((_, b), r) => (b, r)) (map_to_list (default ∅ l)).

Definition retirement_reconcile (s : rstate) : list (string * string * PayloadState * string) :=
  _classify (r_fs s) (all_rows (r_ledger s)).

(** One row of [availability_map]. *)
Definition row_availability (fs : fsys) (br : string * lrow) : option PayloadState :=
  if blocking (lr_state (snd br)) then Some (lr_state (snd br)) else
  match lr_state (snd br) with
  | ROLLED_BACK =>
      match roots (lr_profile (snd br)) with
      | None => Some PFAILED
      | Some root => if _matches fs (_archive root (fst br)) (snd br) then None else Some PFAILED
      end
  | _ => Some AMBIGUOUS
  end.

Definition availability_map (s : rstate) : gmap string PayloadState :=
  foldl (fun m br => match row_availability (r_fs s) br with Some st => <[fst br := st]> m | None => m end)
    ∅ (all_rows (r_ledger s)).

Definition payload_state (s : rstate) (root : path) (bid : string) : PayloadState :=
  match availability_map s !! bid with
  | Some st => st
  | None =>
      match lstat (r_fs s) (_archive root bid) with
      | LOk (IFile f) => if f_nlink f =? 1 then PRESENT else MISSING
      | _ => MISSING
      end
  end.
End Phases.
