(* ===== verification/RetirementFacts.v ===== *)
(** Payload retirement against an abstract machine: every run of a phase, stopped
    at any point, is a sequence of abstract steps that move or delete payloads
    only under the recorded conditions. *)
From S2P Require Import Prelude Slot Retirement.

(** ** Paths *)

Lemma lstat_from_ok fs rest : forall pre i, lstat_from fs pre rest = LOk i -> fs !! (pre ++ rest) = Some i.
Proof.
  induction rest as [|c rest IH]; intros pre i; simpl; [done|].
  destruct (fs !! (pre ++ [c])) as [x|] eqn:E; [|done].
  destruct rest as [|d rest]; [destruct x; by intros [= <-]|].
  destruct x; try done. intros H. apply IH in H. by rewrite <- app_assoc in H.
Qed.

Lemma lstat_ok fs q i : lstat fs q = LOk i -> fs !! q = Some i.
Proof. apply (lstat_from_ok fs q []). Qed.

(** Below an existing directory the leaf decides. *)
Lemma lstat_from_child fs c rest : forall pre uid mode,
  lstat_from fs pre rest = LOk (IDir uid mode) ->
  lstat_from fs pre (rest ++ [c]) = match fs !! (pre ++ rest ++ [c]) with Some i => LOk i | None => LNoent end.
Proof.
  induction rest as [|d rest IH]; intros pre uid mode; [done|]. simpl.
  destruct (fs !! (pre ++ [d])) as [x|] eqn:E; [|done].
  destruct rest as [|d' rest].
  - destruct x; intros [= -> ->]. simpl. rewrite <- app_assoc. simpl.
    by destruct (fs !! (pre ++ [d; c])) as [[]|].
  - destruct x; try done. intros H. rewrite (IH _ _ _ H). by rewrite <- app_assoc.
Qed.

Lemma missing_child fs q uid mode :
  lstat fs (parent q) = LOk (IDir uid mode) -> (forall i, lstat fs q <> LOk i) ->
  fs !! q = None.
Proof.
  unfold lstat, parent. intros Hp Hno. destruct (decide (q = [])) as [->|Hne]; [done|].
  rewrite (app_removelast_last EmptyString Hne) in *.
  rewrite removelast_last in Hp. rewrite (lstat_from_child _ _ _ _ _ _ Hp) in Hno. simpl in Hno.
  destruct (fs !! _) as [x|]; [|done]. by specialize (Hno x).
Qed.

(** ** Rows *)

Lemma state_upsert o b k r l :
  state_in o b (Some (upsert k r l)) = if decide (k = (o, b)) then Some (lr_state r) else state_in o b (Some l).
Proof.
  unfold state_in, upsert. simpl. destruct (l !! k) as [old|] eqn:E;
    (destruct (decide (k = (o, b))) as [->|Hne]; [by rewrite lookup_insert_eq|by rewrite lookup_insert_ne]).
Qed.

Lemma op_rows_elem o l b r : (b, r) ∈ op_rows o l <-> default ∅ l !! (o, b) = Some r.
Proof.
  unfold op_rows. rewrite list_elem_of_In, in_map_iff. split.
  - intros ([[o' b'] r'] & [= -> ->] & [Hin Ho]%filter_In). to_prop. subst o'.
    by apply elem_of_map_to_list, list_elem_of_In.
  - intros H. exists ((o, b), r). split; [done|]. apply filter_In. split.
    + by apply list_elem_of_In, elem_of_map_to_list.
    + by rewrite String.eqb_refl.
Qed.

(** A permitted write follows the transition table. *)
Lemma ledger_check_transition o b r l st :
  ledger_check (o, b) r l = None -> state_in o b (Some l) = Some st -> lr_state r ∈ _TRANSITIONS st.
Proof.
  unfold ledger_check, state_in. simpl. destruct (l !! (o, b)) as [old|]; [|done]. simpl.
  destruct (negb (_same_identity old r)); [done|].
  destruct (negb _) eqn:E; [done|]. to_prop. intros _ [= <-]. done.
Qed.

(** ** The abstract machine *)

(** The pinned identity of a payload: everything but its ctime. *)
Definition same_payload (f g : finfo) : Prop :=
  f_dev f = f_dev g /\ f_ino f = f_ino g /\ f_size f = f_size g /\ f_mtime f = f_mtime g
  /\ f_nlink f = f_nlink g /\ f_sha f = f_sha g.

Definition is_payload (e : ManifestEntry) (f : finfo) : Prop :=
  f_nlink f = 1 /\ f_dev f = me_device e /\ f_ino f = me_inode e /\ f_size f = me_size e
  /\ f_mtime f = me_mtime e /\ f_sha f = me_sha e.

#[export] Instance same_payload_equiv : Equivalence same_payload.
Proof.
  split.
  - by intros f.
  - intros f g (? & ? & ? & ? & ? & ?). by repeat split.
  - intros f g h (? & ? & ? & ? & ? & ?) (? & ? & ? & ? & ? & ?).
    repeat split; etrans; eassumption.
Qed.

(** The states a phase may write. *)
Definition writes (p : phase) : list PayloadState :=
  match p with
  | Quarantine => [PREPARED; QUARANTINED]
  | Purge => [PURGE_PREPARED; PURGED]
  | Rollback => [ROLLED_BACK; PFAILED]
  end.

Section Machine.
Context (w : rworld) (m : RetirementManifest) (plan : list PlanEntry) (t0 : nat).

#[local] Abbreviation op := (mf_operation m).
#[local] Abbreviation bid it := (me_backup (pe_entry it)).

(** The catalog, read since [t0] and before [t], allowed the removal of the entry. *)
Definition eligible (t : nat) (e : ManifestEntry) : Prop :=
  exists c n n', (t0 <= n < t)%nat /\ (t0 <= n' < t)%nat
    /\ rw_catalog w n (me_backup e) = Some c /\ cat_profile c = me_profile e
    /\ cat_size c = me_size e /\ cat_verified c = 1 /\ cat_protected c = 0
    /\ forallb (String.eqb "deleted") (rw_protections w n' (me_backup e)) = true.

(** The receipt vouches for a verified copy of the entry. *)
Definition copied (e : ManifestEntry) : Prop :=
  rr_verified (mf_receipt m) = true
  /\ exists r, r ∈ rr_members (mf_receipt m) /\ rm_backup r = me_backup e
       /\ rm_profile r = me_profile e /\ rm_size r = me_size e /\ rm_sha r = me_sha e.

Inductive rstep (p : phase) : rstate -> rstate -> Prop :=
  | st_tick s n : rstep p s (RState (r_fs s) (r_ledger s) n)
  | st_table s n : r_ledger s = None -> rstep p s (RState (r_fs s) (Some ∅) n)
  | st_mkdir s d uid mode n : r_fs s !! d = None ->
      rstep p s (RState (<[d := IDir uid mode]> (r_fs s)) (r_ledger s) n)
  | st_row s l it st stamp error n : r_ledger s = Some l -> it ∈ plan -> st ∈ writes p ->
      ledger_check (op, bid it) (_row m it st stamp error) l = None ->
      rstep p s (RState (r_fs s) (Some (upsert (op, bid it) (_row m it st stamp error) l)) n)
  | st_quarantine s it f now n : p = Quarantine -> it ∈ plan ->
      r_fs s !! pe_archive it = Some (IFile f) -> is_payload (pe_entry it) f ->
      r_fs s !! pe_quarantine it = None ->
      rstep p s (RState (<[pe_quarantine it := renamed now (IFile f)]> (delete (pe_archive it) (r_fs s)))
                   (r_ledger s) n)
  | st_restore s it f now n : p = Rollback -> it ∈ plan ->
      r_fs s !! pe_quarantine it = Some (IFile f) -> is_payload (pe_entry it) f ->
      r_fs s !! pe_archive it = None ->
      rstep p s (RState (<[pe_archive it := renamed now (IFile f)]> (delete (pe_quarantine it) (r_fs s)))
                   (r_ledger s) n)
  | st_unlink s it f n : p = Purge -> it ∈ plan ->
      r_fs s !! pe_quarantine it = Some (IFile f) -> is_payload (pe_entry it) f ->
      state_in op (bid it) (r_ledger s) = Some PURGE_PREPARED ->
      copied (pe_entry it) ->
      eligible (r_tick s) (pe_entry it) ->
      rstep p s (RState (delete (pe_quarantine it) (r_fs s)) (r_ledger s) n).

(** ** Triples over the machine *)

Section Rules.
Context (p : phase).

(** From [P], the run is a sequence of steps, and [Q] holds when it returns. *)
Definition rtri {A} (P : rstate -> Prop) (c : R A) (Q : A -> rstate -> Prop) : Prop :=
  forall s, P s -> (t0 <= r_tick s)%nat ->
    rtc (rstep p) s (snd (c s)) /\ (r_tick s <= r_tick (snd (c s)))%nat
    /\ match fst (c s) with inr a => Q a (snd (c s)) | inl _ => True end.

Lemma rtri_ret {A} P (a : A) (Q : A -> rstate -> Prop) : (forall s, P s -> Q a s) -> rtri P (mret a) Q.
Proof. intros H s Hs _. simpl. split_and!; [done|lia|auto]. Qed.

Lemma rtri_throw {A} P x (Q : A -> rstate -> Prop) : rtri P (rthrow x) Q.
Proof. intros s _ _. simpl. split_and!; [done|lia|done]. Qed.

Lemma rtri_bind {A B} P (c : R A) Q (k : A -> R B) Q' :
  rtri P c Q -> (forall a, rtri (Q a) (k a) Q') -> rtri P (mbind k c) Q'.
Proof.
  intros Hc Hk s Hs Ht. destruct (Hc s Hs Ht) as (H1 & H2 & H3). unfold mbind, R_bind.
  destruct (c s) as [[x|a] s1]; simpl in *; [done|].
  destruct (Hk a s1 H3 ltac:(lia)) as (H4 & H5 & H6). split_and!; [by etrans|lia|done].
Qed.

Lemma rtri_weaken {A} (P P' : rstate -> Prop) (c : R A) (Q Q' : A -> rstate -> Prop) :
  rtri P' c Q' -> (forall s, P s -> P' s) -> (forall a s, Q' a s -> Q a s) -> rtri P c Q.
Proof.
  intros H HP HQ s Hs Ht. destruct (H s (HP s Hs) Ht) as (H1 & H2 & H3). split_and!; [done..|].
  destruct (fst (c s)); auto.
Qed.

Lemma rtri_assert P b x : rtri P (rassert b x) (fun _ s => P s /\ b = true).
Proof. destruct b; [by apply rtri_ret|apply rtri_throw]. Qed.

Lemma rtri_opt P o : rtri P (ropt o) (fun _ s => P s /\ o = None).
Proof. destruct o; [apply rtri_throw|by apply rtri_ret]. Qed.

Lemma rtri_lift {A} P (r : rexc + A) : rtri P (rlift r) (fun a s => P s /\ r = inr a).
Proof. intros s Hs _. simpl. split; [done|]. split; [lia|]. by destruct r. Qed.

Lemma rtri_get_fs P : rtri P get_fs (fun fs s => P s /\ fs = r_fs s).
Proof. intros s Hs _. simpl. by split; [done|split; [lia|]]. Qed.

Lemma rtri_get_ledger P : rtri P get_ledger (fun l s => P s /\ l = r_ledger s).
Proof. intros s Hs _. simpl. by split; [done|split; [lia|]]. Qed.

(** Properties of the files and of the rows, not of the clock. *)
Definition robust (P : rstate -> Prop) : Prop :=
  forall s s', P s -> r_fs s' = r_fs s -> default ∅ (r_ledger s') = default ∅ (r_ledger s) ->
    (r_tick s <= r_tick s')%nat -> P s'.

Lemma rtri_ask {A} P (f : nat -> A) : robust P ->
  rtri P (ask f) (fun a s => P s /\ exists n, (t0 <= n < r_tick s)%nat /\ a = f n).
Proof.
  intros Ht s Hs H0. simpl. split; [apply rtc_once; constructor|]. split; [lia|].
  split; [by apply (Ht s); [..|simpl; lia]|]. exists (r_tick s). simpl. split; [lia|done].
Qed.

Lemma rtri_for {A} P (l : list A) f :
  (forall a, a ∈ l -> rtri P (f a) (fun _ s => P s)) -> rtri P (for_ l f) (fun _ s => P s).
Proof.
  induction l as [|a l IH]; intros H; simpl; [by apply rtri_ret|].
  eapply rtri_bind; [apply H; by left|]. intros [].  apply IH. intros b Hb. apply H. by right.
Qed.

(** Each pass establishes its own postcondition and keeps the others'. *)
Lemma rtri_for_each {A} P (G : A -> rstate -> Prop) (l : list A) f :
  (forall a, a ∈ l -> rtri P (f a) (fun _ s => P s /\ G a s)) ->
  (forall a b, a ∈ l -> b ∈ l -> rtri (fun s => P s /\ G b s) (f a) (fun _ s => G b s)) ->
  rtri P (for_ l f) (fun _ s => P s /\ forall a, a ∈ l -> G a s).
Proof.
  intros H Hk. induction l as [|a l IH]; simpl.
  { apply rtri_ret. intros s Hs. split; [done|]. intros a Ha. by apply elem_of_nil in Ha. }
  eapply rtri_bind; [apply H; by left|]. intros []. 
  intros s [HP HG] Ht.
  assert (rtri P (for_ l f) (fun _ s => P s /\ forall a, a ∈ l -> G a s)) as IH'.
  { apply IH; [intros b Hb; apply H; by right|intros b c Hb Hc; apply Hk; by right]. }
  assert (rtri (fun s => P s /\ G a s) (for_ l f) (fun _ s => P s /\ G a s)) as Hkeep.
  { apply rtri_for. intros b Hb s' [HP' HG'] Ht'.
    destruct (H b ltac:(by right) s' HP' Ht') as (K1 & K2 & K3).
    destruct (Hk b a ltac:(by right) ltac:(by left) s' (conj HP' HG') Ht') as (_ & _ & K4).
    split_and!; [done..|]. destruct (fst (f b s')); [done|]. by destruct K3. }
  destruct (IH' s HP Ht) as (K1 & K2 & K3). destruct (Hkeep s (conj HP HG) Ht) as (_ & _ & K4).
  split_and!; [done..|]. destruct (fst (for_ l f s)); [done|]. destruct K3 as [K3 K5].
  split; [done|]. intros b [->|Hb]%elem_of_cons; [apply K4|by apply K5].
Qed.

Lemma rtri_effect P f (Q : unit -> rstate -> Prop) :
  (forall s, P s -> (t0 <= r_tick s)%nat ->
     let n := r_tick s in
     rstep p s (RState (fst (f n s)) (snd (f n s)) (S n))
     /\ Q tt (RState (fst (f n s)) (snd (f n s)) (S n))) ->
  rtri P (effect w f) Q.
Proof.
  intros H s Hs H0. unfold effect. destruct (rw_fault w (r_tick s)).
  - simpl. split_and!; [apply rtc_once; constructor|lia|done].
  - destruct (H s Hs H0) as [H1 H2].
    destruct (f (r_tick s) s) as [fs l]. simpl in *. split_and!; [by apply rtc_once|lia|done].
Qed.

Lemma rtri_ask_ {A B} P (f : nat -> A) (k : A -> R B) Q :
  robust P -> (forall a, rtri P (k a) Q) -> rtri P (mbind k (ask f)) Q.
Proof.
  intros Hr Hk. eapply rtri_bind; [by apply rtri_ask|]. intros a.
  eapply rtri_weaken; [apply (Hk a)|by intros s [? _]|done].
Qed.

Lemma rtri_assert_ {B} P b x (k : unit -> R B) Q :
  (b = true -> rtri P (k tt) Q) -> rtri P (mbind k (rassert b x)) Q.
Proof.
  intros H. eapply rtri_bind; [apply rtri_assert|]. intros [] s [Hs Hb]. by apply H.
Qed.

Lemma rtri_assert_last P b x (Q : unit -> rstate -> Prop) :
  (forall s, P s -> b = true -> Q tt s) -> rtri P (rassert b x) Q.
Proof. intros H. destruct b; [apply rtri_ret; auto|apply rtri_throw]. Qed.

Lemma rtri_lease P : robust P -> rtri P (_assert_lease w) (fun _ s => P s).
Proof.
  intros Hr. apply rtri_ask_; [done|]. intros b.
  by apply rtri_assert_last.
Qed.

Lemma rtri_state P it : rtri P (state_of op (bid it)) (fun st s => P s /\ st = state_in op (bid it) (r_ledger s)).
Proof.
  eapply rtri_bind; [apply rtri_get_ledger|]. intros l. apply rtri_ret. by intros s [? ->].
Qed.

Lemma rtri_absent P root q : rtri P (absent root q) (fun b s => P s /\ b = _absent (r_fs s) root q).
Proof.
  eapply rtri_bind; [apply rtri_get_fs|]. intros fs. apply rtri_ret. by intros s [? ->].
Qed.

Lemma robust_and P Q : robust P -> robust Q -> robust (fun s => P s /\ Q s).
Proof. intros H1 H2 s s' [? ?] ???. split; eauto. Qed.

Lemma robust_fs (Φ : fsys -> Prop) : robust (fun s => Φ (r_fs s)).
Proof. by intros s s' H -> _ _. Qed.

Lemma robust_true : robust (fun _ => True).
Proof. done. Qed.

Lemma robust_ledger (Φ : ledger -> Prop) : robust (fun s => Φ (default ∅ (r_ledger s))).
Proof. by intros s s' H _ -> _. Qed.

Lemma state_default o b l : state_in o b (Some (default ∅ l)) = state_in o b l.
Proof. done. Qed.

Lemma robust_state (Φ : (ManifestEntry -> option PayloadState) -> Prop) :
  robust (fun s => Φ (fun e => state_in op (me_backup e) (r_ledger s))).
Proof. intros s s' H _ E _. unfold state_in in *. by rewrite E. Qed.

Lemma robust_eligible e : robust (fun s => eligible (r_tick s) e).
Proof.
  intros s s' (c & n & n' & H1 & H2 & H) _ _ Ht. exists c, n, n'. split_and!; try lia; apply H.
Qed.

Lemma rtri_verify P e q cc : robust P ->
  rtri P (_verify_payload w e q cc)
    (fun _ s => P s /\ exists f, r_fs s !! q = Some (IFile f) /\ is_payload e f).
Proof.
  intros Hr. eapply rtri_bind; [apply rtri_get_fs|]. intros fs.
  destruct (lstat fs q) as [[f| | |]| | |] eqn:E; try apply rtri_throw. apply lstat_ok in E.
  apply rtri_assert_. intros H1. apply rtri_ask_.
  { apply robust_and; [done|]. intros s s' ? E' _ _. congruence. }
  intros b.
  apply rtri_assert_. intros H2. apply rtri_assert_. intros H3. apply rtri_assert_. intros H4.
  apply rtri_assert_. intros H5. apply rtri_assert_last.
  intros s [HP ->] H6. split; [done|]. exists f. split; [done|]. to_prop. done.
Qed.

Lemma rtri_eligible P e : robust P ->
  rtri P (_assert_catalog_eligible w e) (fun _ s => P s /\ eligible (r_tick s) e).
Proof.
  intros Hr. eapply rtri_bind; [by apply rtri_ask|]. intros [c|]; [|apply rtri_throw].
  apply rtri_assert_. intros H1. apply rtri_assert_. intros H2. apply rtri_assert_. intros H3. to_prop.
  set (Q := fun s : rstate => P s /\ exists n, (t0 <= n < r_tick s)%nat /\ Some c = rw_catalog w n (me_backup e)).
  assert (robust Q) as HQ.
  { intros s s' (HP & n & Hn & E) ? ? ?. split; [by apply (Hr s)|]. exists n. split; [lia|done]. }
  eapply rtri_bind; [by apply (rtri_ask Q)|]. intros states. apply rtri_assert_. intros H5.
  apply rtri_ask_.
  { intros s s' (HP & n & Hn & E) ? ? ?. split; [by apply (HQ s)|]. exists n. split; [lia|done]. }
  intros restores. apply rtri_assert_last.
  intros s ((HP & n & Hn & E) & n' & Hn' & ->) _. split; [done|].
  exists c, n, n'. split_and!; try done; lia.
Qed.

Lemma rtri_fsync P : robust P -> rtri P (_fsync_dir w) (fun _ s => P s).
Proof.
  intros Hr. apply rtri_effect. intros s Hs _. simpl. split; [constructor|]. by apply (Hr s); [..|simpl; lia].
Qed.

Lemma rtri_ensure P : robust P ->
  rtri P (ensure_ledger w) (fun _ s => P s /\ exists l, r_ledger s = Some l).
Proof.
  intros Hr s0 Hs0 Ht. unfold ensure_ledger, get_ledger, mbind, R_bind.
  destruct (r_ledger s0) as [l|] eqn:E.
  - simpl. split; [done|]. split; [lia|]. split; [done|]. by exists l.
  - refine (rtri_effect (fun s => P s /\ r_ledger s = None) _
      (fun _ s => P s /\ exists l, r_ledger s = Some l) _ s0 (conj Hs0 E) Ht).
    intros s [Hs El] _. simpl. split; [by constructor|]. split; [|by eexists].
    apply (Hr s); simpl; [done|done|by rewrite El|lia].
Qed.

Lemma rtri_write P it st error (Q : rstate -> Prop) :
  robust P -> it ∈ plan -> st ∈ writes p ->
  (forall s l stamp n, P s -> r_ledger s = Some l -> (r_tick s <= n)%nat ->
     ledger_check (op, bid it) (_row m it st stamp error) l = None ->
     Q (RState (r_fs s) (Some (upsert (op, bid it) (_row m it st stamp error) l)) n)) ->
  rtri P (write_state w m it st error) (fun _ s => Q s).
Proof.
  intros Hr Hit Hst HQ. apply rtri_ask_; [done|]. intros stamp.
  eapply rtri_bind; [by apply rtri_ensure|]. intros [].
  eapply rtri_bind; [apply rtri_get_ledger|]. intros l.
  eapply rtri_bind; [apply rtri_opt|]. intros [].
  apply rtri_effect. intros s (((HP & l' & El) & ->) & Hc) _. rewrite El in *. simpl in *. split.
  - by apply st_row.
  - apply HQ; [done..|lia|done].
Qed.

(** ** Moving and removing payloads *)

#[local] Abbreviation rows s := (default ∅ (r_ledger s)).

Lemma rtri_move (Φ : ledger -> Prop) it src dst :
  it ∈ plan ->
  (p = Quarantine /\ src = pe_archive it /\ dst = pe_quarantine it)
  \/ (p = Rollback /\ src = pe_quarantine it /\ dst = pe_archive it) ->
  rtri (fun s => Φ (rows s) /\ exists f, r_fs s !! src = Some (IFile f) /\ is_payload (pe_entry it) f)
    (rename_noreplace w src dst) (fun _ s => Φ (rows s)).
Proof.
  intros Hit Hdir. unfold rename_noreplace. destruct (negb (rw_noreplace w)); [apply rtri_throw|].
  eapply rtri_bind; [apply rtri_get_fs|]. intros fs.
  destruct (lstat fs src) as [i| | |] eqn:Es; try apply rtri_throw.
  destruct (lstat fs dst) as [j| | |] eqn:Ed; try apply rtri_throw.
  destruct (dir_exists fs (parent dst)) eqn:Edir; [|apply rtri_throw].
  apply rtri_effect. intros s [[HΦ (f & Hf & Hpay)] ->] _. simpl. split; [|done].
  apply lstat_ok in Es. rewrite Hf in Es. simplify_eq.
  assert (r_fs s !! dst = None) as Hnone.
  { unfold dir_exists in Edir. destruct (lstat (r_fs s) (parent dst)) as [[]| | |] eqn:Ep; try done.
    eapply missing_child; [done|]. by rewrite Ed. }
  destruct Hdir as [(-> & -> & ->)|(-> & -> & ->)].
  - by apply (st_quarantine _ s it f).
  - by apply (st_restore _ s it f).
Qed.

Lemma rtri_dir (Φ : ledger -> Prop) owner d :
  rtri (fun s => Φ (rows s)) (_ensure_private_dir w owner d) (fun _ s => Φ (rows s)).
Proof.
  eapply rtri_bind; [apply rtri_get_fs|]. intros fs.
  destruct (lstat fs (parent d)) as [[| uid mode | |]| | |] eqn:Ep; try apply rtri_throw.
  apply rtri_assert_. intros _. apply rtri_assert_. intros _.
  assert ((forall i, lstat fs d <> LOk i) ->
    rtri (fun s => Φ (rows s) /\ fs = r_fs s)
      (effect w (fun _ s => (<[d := IDir owner 0x1C0]> (r_fs s), r_ledger s)) ;; _fsync_dir w)
      (fun _ s => Φ (rows s))) as Hmk.
  { intros Hno. apply (rtri_bind _ _ (fun _ s => Φ (rows s)));
      [|intros []; apply (rtri_fsync (fun s => Φ (rows s))), robust_ledger].
    apply rtri_effect. intros s [HΦ ->] _. simpl. split; [|done].
    apply st_mkdir. by eapply missing_child. }
  destruct (lstat fs d) as [[| uid' mode' | |]| | |] eqn:Ed; try apply rtri_throw; try by apply Hmk.
  apply rtri_assert_last. by intros s [? _].
Qed.

(** A write that keeps a property of the rows. *)
Lemma rtri_write_keep (Φ Ψ : ledger -> Prop) it st error :
  it ∈ plan -> st ∈ writes p ->
  (forall l stamp, Φ l -> ledger_check (op, bid it) (_row m it st stamp error) l = None ->
     Ψ (upsert (op, bid it) (_row m it st stamp error) l)) ->
  rtri (fun s => Φ (rows s)) (write_state w m it st error) (fun _ s => Ψ (rows s)).
Proof.
  intros Hit Hst H. apply (rtri_write _ _ _ _ (fun s => Ψ (rows s))); [apply robust_ledger|done..|].
  intros s l stamp n HΦ El _ Hc. simpl. apply H; [|done]. by rewrite El in HΦ.
Qed.

Lemma rtri_boundaries P job : robust P -> rtri P (_assert_boundaries w job) (fun _ s => P s).
Proof.
  intros Hr. apply (rtri_bind _ _ (fun _ s => P s)).
  - apply rtri_ask_; [done|]. intros jobs. apply rtri_assert_last. intros s Hs _. exact Hs.
  - intros []. apply rtri_ask_; [done|]. intros restores. by apply rtri_assert_last.
Qed.

Lemma rtri_interlock {A} P owner (c : R A) Q : robust P -> rtri P c Q -> rtri P (with_interlock w owner c) Q.
Proof.
  intros Hr Hc. apply rtri_ask_; [done|]. intros l. eapply rtri_bind; [apply rtri_opt|].
  intros [] s [Hs _]. by apply Hc.
Qed.

Lemma rtri_prior P : rtri P _prior_ops (fun _ s => P s).
Proof. eapply rtri_bind; [apply rtri_get_ledger|]. intros l. apply rtri_ret. by intros s [? _]. Qed.

Lemma rtri_verify_ P e q cc : robust P -> rtri P (_verify_payload w e q cc) (fun _ s => P s).
Proof. intros Hr. eapply rtri_weaken; [by apply rtri_verify|done|by intros ? ? [? _]]. Qed.

Lemma rtri_preflight P roots : robust P -> rtri P (_assert_preflight w roots m) (fun _ s => P s).
Proof.
  intros Hr. eapply rtri_bind.
  { apply rtri_for. intros e _. eapply rtri_weaken; [by apply rtri_eligible|done|by intros ? ? [? _]]. }
  intros []. eapply rtri_bind; [apply rtri_prior|]. intros prior.
  eapply rtri_bind; [apply rtri_lift|]. intros l. eapply rtri_weaken.
  - apply (rtri_for P). intros it _. unfold preflight_item.
    eapply rtri_bind; [apply rtri_absent|]. intros a. eapply rtri_bind; [apply rtri_absent|]. intros b.
    eapply (rtri_weaken _ P); [|by intros s [[? _] _]|by intros ? ? H; exact H].
    destruct (negb a && negb b); [apply rtri_throw|]. destruct (negb b); [by apply rtri_verify_|].
    destruct (negb a); [by apply rtri_verify_|apply rtri_throw].
  - by intros s [? _].
  - done.
Qed.

Lemma rtri_binding P exact : rtri P (_assert_operation_binding m exact) (fun _ s => P s).
Proof.
  eapply rtri_bind; [apply rtri_get_ledger|]. intros l. simpl.
  destruct (op_rows op l) as [|x l']; [by apply rtri_ret; intros s [? _]|].
  apply rtri_assert_. intros _. eapply rtri_weaken; [apply rtri_opt|by intros s H; exact H|by intros ? ? [[? _] _]].
Qed.

Lemma first_error_none {A} (f : A -> option rexc) l a : first_error f l = None -> a ∈ l -> f a = None.
Proof.
  induction l as [|b l IH]; [by intros _ ?%elem_of_nil|]. simpl. destruct (f b) eqn:E; [done|].
  intros H [->|Ha]%elem_of_cons; [done|by apply IH].
Qed.

(** The states an admitted phase finds. *)
Lemma rtri_admissible P ph :
  rtri P (_assert_phase_admissible m ph)
    (fun _ s => P s /\ forall b st, state_in op b (r_ledger s) = Some st -> st ∈ _PHASE_RESUMABLE ph).
Proof.
  eapply rtri_bind; [apply rtri_get_ledger|]. intros l. eapply rtri_weaken; [apply rtri_opt|by intros s H; exact H|].
  intros [] s [[HP ->] Hall]. split; [done|]. intros b st Hst. unfold state_in in Hst.
  apply fmap_Some in Hst as (r & Hr & ->).
  apply op_rows_elem, (first_error_none _ _ _ Hall) in Hr. simpl in Hr.
  destruct (bool_decide _) eqn:E; [by to_prop|done].
Qed.
End Rules.

(** ** Quarantine *)

#[local] Abbreviation rows s := (default ∅ (r_ledger s)).

(** The state of an entry in a set of rows. *)
Definition row_state (it : PlanEntry) (l : ledger) : option PayloadState := lr_state <$> l !! (op, bid it).

Lemma row_state_in it s : state_in op (bid it) (r_ledger s) = row_state it (rows s).
Proof. done. Qed.

Lemma row_state_upsert it it' st stamp error l :
  row_state it (upsert (op, bid it') (_row m it' st stamp error) l) =
    if decide (bid it' = bid it) then Some st else row_state it l.
Proof.
  change (state_in op (bid it) (Some (upsert (op, bid it') (_row m it' st stamp error) l)) = 
    if decide (bid it' = bid it) then Some st else state_in op (bid it) (Some l)).
  rewrite state_upsert. destruct (decide (bid it' = bid it)) as [->|Hne].
  - by rewrite decide_True.
  - rewrite decide_False; [done|]. congruence.
Qed.

Lemma quarantine_item_tri (Φ Ψ : ledger -> Prop) prior it :
  it ∈ plan -> (forall l, Φ l -> row_state it l = Some QUARANTINED -> Ψ l) ->
  (forall l stamp, Φ l -> ledger_check (op, bid it) (_row m it QUARANTINED stamp None) l = None ->
     Ψ (upsert (op, bid it) (_row m it QUARANTINED stamp None) l)) ->
  rtri Quarantine (fun s => Φ (rows s)) (quarantine_item w m prior it) (fun _ s => Ψ (rows s)).
Proof.
  intros Hit Hdone Hwrite. assert (robust (fun s => Φ (rows s))) as Hr by apply robust_ledger.
  eapply rtri_bind; [by apply rtri_lease|]. intros []. eapply rtri_bind; [by apply rtri_eligible|]. intros [].
  eapply rtri_bind; [apply rtri_state|]. intros st.
  destruct (bool_decide (st = Some QUARANTINED)) eqn:Est.
  { to_prop. subst st. eapply rtri_weaken; [apply (rtri_verify_ Quarantine (fun s => Ψ (rows s))), robust_ledger| |done].
    intros s [[HΦ _] E]. apply Hdone; [done|]. by rewrite <- row_state_in. }
  apply (rtri_weaken Quarantine _ (fun s => Φ (rows s)) _ _ (fun _ s => Ψ (rows s))); [|by intros s [[? _] _]|done].
  assert (rtri Quarantine (fun s => Φ (rows s)) (write_state w m it QUARANTINED None)
    (fun _ s => Ψ (rows s))) as Hw.
  { apply rtri_write_keep; [done|set_solver|done]. }
  apply (rtri_bind _ _ _ (fun _ s => Φ (rows s))).
  { eapply rtri_bind; [apply rtri_get_fs|]. intros fs.
    apply (rtri_weaken _ _ (fun s => Φ (rows s)) _ _ (fun _ s => Φ (rows s))); [|by intros s [? _]|done].
    destruct (lstat fs _) as [[| | |]| | |]; try (by apply rtri_ret); try apply rtri_throw.
    eapply rtri_weaken; [by apply rtri_ask|done|by intros ? ? [? _]]. }
  intros there. destruct there.
  - eapply rtri_bind; [by apply rtri_verify_|]. intros []. eapply rtri_bind; [by apply rtri_lease|].
    intros []. exact Hw.
  - eapply rtri_bind; [by apply rtri_verify|]. intros []. eapply rtri_bind.
    { apply rtri_lease. apply robust_and; [done|]. intros s s' H E _ _. by rewrite E. }
    intros []. eapply rtri_bind; [apply (rtri_move Quarantine Φ it); [done|by left]|]. intros [].
    eapply rtri_bind; [by apply rtri_fsync|]. intros []. eapply rtri_bind; [by apply rtri_fsync|].
    intros []. exact Hw.
Qed.

Lemma prepare_row_tri it :
  it ∈ plan -> rtri Quarantine (fun _ => True) (prepare_row w m it) (fun _ _ => True).
Proof.
  intros Hit. eapply rtri_bind; [apply rtri_state|]. intros st.
  apply (rtri_weaken _ _ (fun _ => True) _ _ (fun _ _ => True)); [|done..].
  destruct (_ || _); [|by apply rtri_ret]. eapply rtri_bind; [by apply rtri_lease|]. intros [].
  apply (rtri_write_keep Quarantine (fun _ => True) (fun _ => True)); [done|set_solver|done].
Qed.

Lemma quarantine_tri owner roots job :
  plan = match _plan roots op (mf_entries m) with inr l => l | inl _ => [] end ->
  rtri Quarantine (fun _ => True) (quarantine w owner roots m job)
    (fun _ s => forall it, it ∈ plan -> state_in op (bid it) (r_ledger s) = Some QUARANTINED).
Proof.
  intros Hplan. assert (robust (fun _ : rstate => True)) as Hr by done.
  eapply rtri_bind; [apply rtri_binding|]. intros [].
  apply (rtri_bind _ _ _ (fun _ _ => True)).
  { eapply rtri_weaken; [apply (rtri_admissible Quarantine (fun _ => True) Quarantine)|done..]. }
  intros []. apply rtri_interlock; [done|]. eapply rtri_bind; [by apply rtri_boundaries|]. intros [].
  eapply rtri_bind; [apply rtri_prior|]. intros prior. eapply rtri_bind; [by apply rtri_preflight|].
  intros []. eapply rtri_bind; [apply rtri_lift|]. intros l.
  apply (rtri_weaken _ _ (fun _ => l = plan) _ _ (fun _ s => l = plan /\
    forall it, it ∈ plan -> state_in op (bid it) (r_ledger s) = Some QUARANTINED));
    [|by intros s [_ E]; rewrite E in Hplan|by intros [] s [_ H]].
  eapply rtri_bind; [apply (rtri_boundaries Quarantine (fun _ => l = plan)); by intros s s' H _ _ _|].
  intros [] s E. revert s E.
  assert (l = plan -> rtri Quarantine (fun _ => True)
    (for_ l (make_dirs w owner) ;; for_ l (prepare_row w m) ;; for_ l (quarantine_item w m prior))
    (fun _ s => forall it, it ∈ plan -> state_in op (bid it) (r_ledger s) = Some QUARANTINED)) as H.
  { intros ->. eapply rtri_bind.
    { apply rtri_for. intros it _. eapply rtri_bind; [apply (rtri_dir Quarantine (fun _ => True))|].
      intros []. apply (rtri_dir Quarantine (fun _ => True)). }
    intros []. eapply rtri_bind; [apply rtri_for; intros it Hit; by apply prepare_row_tri|]. intros [].
    eapply rtri_weaken; [apply (rtri_for_each Quarantine (fun _ => True)
      (fun it s => row_state it (rows s) = Some QUARANTINED))|done|by intros [] s [_ H]].
    - intros it Hit. eapply rtri_weaken; [apply (quarantine_item_tri (fun _ => True)
        (fun l => row_state it l = Some QUARANTINED)); [done|done|]|done|by intros [] s H].
      intros l stamp _ _. by rewrite row_state_upsert, decide_True.
    - intros a b Ha Hb. eapply rtri_weaken; [apply (quarantine_item_tri
        (fun l => row_state b l = Some QUARANTINED) (fun l => row_state b l = Some QUARANTINED));
        [done|done|]|by intros s [_ H]|done].
      intros l stamp Hs _. rewrite row_state_upsert. by destruct (decide _). }
  intros s E Ht. destruct (H E s I Ht) as (H1 & H2 & H3). split_and!; [done..|].
  by destruct (fst _).
Qed.

(** ** Purge *)

Definition intended (l : ledger) (it : PlanEntry) : Prop :=
  row_state it l = Some PURGE_PREPARED \/ row_state it l = Some PURGED.

(** Writing an intent or a purge keeps every intent. *)
Lemma intended_write it st stamp error l b :
  st = PURGE_PREPARED \/ st = PURGED -> intended l b ->
  intended (upsert (op, bid it) (_row m it st stamp error) l) b.
Proof.
  intros Hst Hb. unfold intended. rewrite row_state_upsert.
  destruct (decide _); [|done]. destruct Hst as [-> | ->]; auto.
Qed.

Lemma purged_write it stamp error l b st :
  row_state b l = Some PURGED -> ledger_check (op, bid it) (_row m it st stamp error) l = None ->
  row_state b (upsert (op, bid it) (_row m it st stamp error) l) = Some PURGED.
Proof.
  intros Hb Hc. rewrite row_state_upsert. destruct (decide (bid it = bid b)) as [E|]; [|done].
  unfold row_state in Hb. rewrite <- E in Hb.
  pose proof (ledger_check_transition _ _ _ _ _ Hc Hb) as Ht. simpl in Ht.
  apply list_elem_of_singleton in Ht. by subst st.
Qed.

Lemma rtri_receipt P :
  rtri Purge P (_assert_receipt m) (fun _ s => P s /\ forall e, e ∈ mf_entries m -> copied e).
Proof.
  apply rtri_assert_. intros H1. apply rtri_assert_. intros H2. apply rtri_assert_last.
  intros s HP H3. split; [done|]. intros e He. split; [done|]. rewrite forallb_forall in H3.
  specialize (H3 e (proj1 (list_elem_of_In _ _) He)). to_prop. unfold member_mismatch in H3.
  destruct (find_member (me_backup e) _) as [r|] eqn:Ef; [|done].
  apply find_some in Ef as [Hin Hid]. exists r. split; [by apply list_elem_of_In|].
  repeat (case_match; [done|]). by to_prop.
Qed.

Lemma purge_ready_tri (Φ : ledger -> Prop) roots :
  plan = match _plan roots op (mf_entries m) with inr l => l | inl _ => [] end ->
  (forall it, it ∈ plan -> pe_entry it ∈ mf_entries m) ->
  rtri Purge (fun s => Φ (rows s)) (_assert_purge_ready w roots m)
    (fun _ s => Φ (rows s) /\ forall it, it ∈ plan -> row_state it (rows s) <> None).
Proof.
  intros Hplan Hin. eapply rtri_bind; [apply rtri_get_ledger|]. intros l. apply rtri_assert_. intros Hall.
  to_prop. rewrite forallb_forall in H.
  set (Ψ := fun l' => Φ l' /\ forall it, it ∈ plan -> row_state it l' <> None).
  apply (rtri_weaken _ _ (fun s => Ψ (rows s)) _ _ (fun _ s => Ψ (rows s))); [| |done].
  - assert (robust (fun s => Ψ (rows s))) as Hr by apply robust_ledger.
    eapply rtri_bind; [apply rtri_lift|]. intros pl.
    apply (rtri_weaken _ _ (fun s => Ψ (rows s)) _ _ (fun _ s => Ψ (rows s))); [|by intros s [? _]|done].
    apply rtri_for. intros it _. eapply rtri_bind; [apply rtri_state|]. intros st.
    eapply rtri_bind; [apply rtri_absent|]. intros qa. eapply rtri_bind; [apply rtri_absent|]. intros aa.
    apply (rtri_weaken _ _ (fun s => Ψ (rows s)) _ _ (fun _ s => Ψ (rows s)));
      [|by intros s [[[? _] _] _]|done].
    assert (rtri Purge (fun s => Ψ (rows s)) (rassert (negb qa) (failed "quarantined payload is missing before purge") ;;
      _verify_payload w (pe_entry it) (pe_quarantine it) false) (fun _ s => Ψ (rows s))) as Hother.
    { apply rtri_assert_. intros _. by apply rtri_verify_. }
    destruct st as [[]|]; try exact Hother; [destruct (negb qa); [by apply rtri_verify_|]|];
      by apply rtri_assert_last.
  - intros s [HΦ ->]. split; [done|]. intros it Hit.
    specialize (H _ (proj1 (list_elem_of_In _ _) (Hin it Hit))). by to_prop.
Qed.

Lemma purge_item_tri (it : PlanEntry) (Φ Ψ : ledger -> Prop) :
  it ∈ plan -> copied (pe_entry it) -> (forall l, Φ l -> intended l it) ->
  (forall l, Φ l -> row_state it l = Some PURGED -> Ψ l) ->
  (forall l stamp, Φ l -> ledger_check (op, bid it) (_row m it PURGED stamp None) l = None ->
     Ψ (upsert (op, bid it) (_row m it PURGED stamp None) l)) ->
  rtri Purge (fun s => Φ (rows s)) (purge_item w m it) (fun _ s => Ψ (rows s)).
Proof.
  intros Hit Hcopy Hint Hdone Hwrite.
  assert (robust (fun s => Φ (rows s))) as Hr by apply robust_ledger.
  eapply rtri_bind; [by apply rtri_lease|]. intros []. eapply rtri_bind; [by apply rtri_eligible|]. intros [].
  eapply rtri_bind; [apply rtri_state|]. intros st. eapply rtri_bind; [apply rtri_absent|]. intros qa.
  assert (rtri Purge (fun s => Φ (rows s)) (write_state w m it PURGED None)
    (fun _ s => Ψ (rows s))) as Hw.
  { apply rtri_write_keep; [done|set_solver|done]. }
  destruct (bool_decide (st = Some PURGED)) eqn:Est.
  { to_prop. subst st. apply rtri_assert_last. intros s [[[HΦ _] E] _] _. by apply Hdone. }
  destruct qa.
  { apply (rtri_weaken _ _ (fun s => Φ (rows s)) _ _ (fun _ s => Ψ (rows s))); [|by intros s [[[? _] _] _]|done].
    apply rtri_assert_. intros _. eapply rtri_bind; [apply rtri_absent|]. intros aa.
    apply rtri_assert_. intros _. eapply rtri_weaken; [apply Hw|by intros s [? _]|done]. }
  to_prop. set (P := fun s => (Φ (rows s) /\ eligible (r_tick s) (pe_entry it))
    /\ row_state it (rows s) = Some PURGE_PREPARED).
  assert (robust P) as HP.
  { apply robust_and; [apply robust_and; [done|apply robust_eligible]|].
    apply (robust_ledger (fun l => row_state it l = Some PURGE_PREPARED)). }
  apply (rtri_weaken _ _ P _ _ (fun _ s => Ψ (rows s))); [| |done].
  2: { intros s [[[HΦ He] E] _]. split; [done|]. destruct (Hint _ HΦ) as [H|H]; [done|].
       rewrite row_state_in, H in E. by rewrite E in Est. }
  eapply rtri_bind; [by apply rtri_verify|]. intros []. eapply rtri_bind.
  { apply rtri_lease, robust_and; [done|]. intros s s' H E _ _. by rewrite E. }
  intros []. apply (rtri_bind _ _ _ (fun _ s => Φ (rows s))).
  { eapply rtri_bind; [apply rtri_get_fs|]. intros fs.
    assert (rtri Purge (fun s => (P s /\ exists f, r_fs s !! pe_quarantine it = Some (IFile f)
        /\ is_payload (pe_entry it) f) /\ fs = r_fs s)
      (effect w (fun _ s => (delete (pe_quarantine it) (r_fs s), r_ledger s))) (fun _ s => Φ (rows s))) as He.
    { apply rtri_effect. intros s [[[[HΦ He] Hst] (f & Hf & Hpay)] _] _. simpl. split; [|done].
      by apply (st_unlink _ s it f). }
    destruct (lstat fs (pe_quarantine it)) as [[]| | |]; first [apply rtri_throw|exact He]. }
  intros []. eapply rtri_bind; [by apply rtri_fsync|]. intros []. exact Hw.
Qed.

Lemma intend_purge_tri (it : PlanEntry) (Φ Ψ : ledger -> Prop) :
  it ∈ plan -> (forall l, Φ l -> row_state it l <> Some QUARANTINED -> Ψ l) ->
  (forall l stamp, Φ l -> ledger_check (op, bid it) (_row m it PURGE_PREPARED stamp None) l = None ->
     Ψ (upsert (op, bid it) (_row m it PURGE_PREPARED stamp None) l)) ->
  rtri Purge (fun s => Φ (rows s)) (intend_purge w m it) (fun _ s => Ψ (rows s)).
Proof.
  intros Hit Hdone Hwrite. eapply rtri_bind; [apply rtri_state|]. intros st.
  destruct (bool_decide (st = Some QUARANTINED)) eqn:Est; to_prop.
  - apply (rtri_weaken _ _ (fun s => Φ (rows s)) _ _ (fun _ s => Ψ (rows s))); [|by intros s [? _]|done].
    eapply rtri_bind; [apply rtri_lease, robust_ledger|]. intros [].
    apply rtri_write_keep; [done|set_solver|done].
  - apply rtri_ret. intros s [HΦ ->]. by apply Hdone.
Qed.

(** Quarantined or past it. *)
Definition purgeable (l : ledger) (it : PlanEntry) : Prop :=
  row_state it l = Some QUARANTINED \/ intended l it.

Lemma purge_loops :
  (forall it, it ∈ plan -> copied (pe_entry it)) ->
  rtri Purge (fun s => forall it, it ∈ plan -> purgeable (rows s) it)
    (for_ plan (intend_purge w m) ;; for_ plan (purge_item w m))
    (fun _ s => forall it, it ∈ plan -> row_state it (rows s) = Some PURGED).
Proof.
  intros Hcopy. set (Φ := fun l => forall it, it ∈ plan -> purgeable l it).
  set (Φ' := fun l => forall it, it ∈ plan -> intended l it).
  apply (rtri_bind _ _ _ (fun _ s => Φ' (rows s))).
  - eapply rtri_weaken; [apply (rtri_for_each Purge (fun s => Φ (rows s)) (fun it s => intended (rows s) it))|
      by intros s H|by intros [] s [_ H]].
    + intros it Hit. apply (intend_purge_tri it Φ (fun l => Φ l /\ intended l it)); [done|..].
      * intros l HΦ Hne. split; [done|]. by destruct (HΦ it Hit).
      * intros l stamp HΦ _. split; [|by left; rewrite row_state_upsert, decide_True].
        intros b Hb. unfold purgeable, intended. rewrite row_state_upsert.
        destruct (decide _); [by right; left|by apply HΦ].
    + intros a b Ha Hb. apply (intend_purge_tri a (fun l => Φ l /\ intended l b) (fun l => intended l b));
        [done|by intros l [_ H]|].
      intros l stamp [_ H] _. apply intended_write; auto.
  - intros []. eapply rtri_weaken; [apply (rtri_for_each Purge (fun s => Φ' (rows s))
      (fun it s => row_state it (rows s) = Some PURGED))|by intros s H|by intros [] s [_ H]].
    + intros it Hit. apply (purge_item_tri it Φ' (fun l => Φ' l /\ row_state it l = Some PURGED));
        [done|by apply Hcopy|by intros l H; apply H|done|].
      intros l stamp HΦ _. split; [|by rewrite row_state_upsert, decide_True].
      intros b Hb. apply intended_write; auto.
    + intros a b Ha Hb. apply (purge_item_tri a (fun l => Φ' l /\ row_state b l = Some PURGED)
        (fun l => row_state b l = Some PURGED)); [done|by apply Hcopy|by intros l [H _]; apply H|
        by intros l [_ H]|]. intros l stamp [_ H] Hc. by apply purged_write.
Qed.

Lemma purge_tri owner roots job :
  plan = match _plan roots op (mf_entries m) with inr l => l | inl _ => [] end ->
  (forall it, it ∈ plan -> pe_entry it ∈ mf_entries m) ->
  rtri Purge (fun _ => True) (purge w owner roots m job)
    (fun _ s => forall it, it ∈ plan -> state_in op (bid it) (r_ledger s) = Some PURGED).
Proof.
  intros Hplan Hin.
  eapply rtri_bind; [apply rtri_binding|]. intros [].
  set (Φ := fun l : ledger => forall it st, row_state it l = Some st -> st ∈ _PHASE_RESUMABLE Purge).
  apply (rtri_bind _ _ _ (fun _ s => Φ (rows s))).
  { eapply rtri_weaken; [apply (rtri_admissible Purge (fun _ => True) Purge)|done|].
    intros [] s [_ H] it st Hst. by apply (H (bid it)). }
  intros []. assert (robust (fun s => Φ (rows s))) as Hr by apply robust_ledger.
  apply rtri_interlock; [done|]. eapply rtri_bind; [by apply rtri_boundaries|]. intros [].
  eapply rtri_bind; [apply rtri_receipt|]. intros [].
  intros s [HΦ Hcopy] Ht. revert s HΦ Ht.
  change (rtri Purge (fun s => Φ (rows s))
    (for_ (mf_entries m) (_assert_catalog_eligible w) ;;
     _assert_purge_ready w roots m ;;
     plan ← rlift (_plan roots op (mf_entries m));
     _assert_boundaries w job ;;
     for_ plan (intend_purge w m) ;; for_ plan (purge_item w m))
    (fun _ s => forall it, it ∈ plan -> state_in op (bid it) (r_ledger s) = Some PURGED)).
  eapply rtri_bind.
  { apply rtri_for. intros e _. eapply rtri_weaken; [by apply rtri_eligible|done|by intros ? ? [? _]]. }
  intros []. eapply rtri_bind; [by apply (purge_ready_tri Φ)|]. intros [].
  set (Φ2 := fun l : ledger => Φ l /\ forall it, it ∈ plan -> row_state it l <> None).
  eapply rtri_bind; [apply (rtri_lift Purge (fun s => Φ2 (rows s)))|]. intros l.
  intros s [HΦ2 El] Ht. assert (l = plan) as -> by by rewrite El in Hplan. revert s HΦ2 El Ht.
  intros s HΦ2 _. revert s HΦ2.
  change (rtri Purge (fun s => Φ2 (rows s))
    (_assert_boundaries w job ;; for_ plan (intend_purge w m) ;; for_ plan (purge_item w m))
    (fun _ s => forall it, it ∈ plan -> state_in op (bid it) (r_ledger s) = Some PURGED)).
  eapply rtri_bind; [apply rtri_boundaries, (robust_ledger Φ2)|]. intros [].
  eapply rtri_weaken; [apply purge_loops| |done].
  - intros it Hit. by apply Hcopy, Hin.
  - intros s [H1 H2] it Hit. destruct (row_state it (rows s)) as [st|] eqn:E; [|by destruct (H2 it Hit)].
    specialize (H1 it st E). unfold purgeable, intended. rewrite E.
    repeat (apply elem_of_cons in H1 as [->|H1]; [auto|]). by apply elem_of_nil in H1.
Qed.

(** ** Rollback *)

(** What a finished rollback leaves of an entry that was only prepared. *)
Lemma prepared_write it b st stamp error l :
  st = ROLLED_BACK \/ st = PFAILED ->
  ledger_check (op, bid it) (_row m it st stamp error) l = None ->
  row_state b l = Some PREPARED \/ row_state b l = Some PFAILED ->
  row_state b (upsert (op, bid it) (_row m it st stamp error) l) = row_state b l
  \/ row_state b (upsert (op, bid it) (_row m it st stamp error) l) = Some PFAILED.
Proof.
  intros Hst Hc Hb. rewrite row_state_upsert. destruct (decide (bid it = bid b)) as [E|]; [|auto].
  right. unfold row_state in Hb. rewrite <- E in Hb.
  destruct Hb as [Hb|Hb]; pose proof (ledger_check_transition _ _ _ _ _ Hc Hb) as Ht; simpl in Ht;
    destruct Hst as [-> | ->]; try done; exfalso;
    repeat (apply elem_of_cons in Ht as [?|Ht]; [done|]); by apply elem_of_nil in Ht.
Qed.

Lemma rollback_item_tri (it : PlanEntry) (prior : string * string -> bool) (Φ Ψ : ledger -> Prop) :
  it ∈ plan ->
  (forall l, Φ l -> row_state it l <> Some PREPARED -> row_state it l <> Some QUARANTINED -> Ψ l) ->
  (forall l st stamp error, Φ l -> st = ROLLED_BACK \/ st = PFAILED ->
     ledger_check (op, bid it) (_row m it st stamp error) l = None ->
     Ψ (upsert (op, bid it) (_row m it st stamp error) l)) ->
  rtri Rollback (fun s => Φ (rows s)) (rollback_item w m prior it) (fun _ s => Ψ (rows s)).
Proof.
  intros Hit Hskip Hwrite. assert (robust (fun s => Φ (rows s))) as Hr by apply robust_ledger.
  assert (forall st error, st = ROLLED_BACK \/ st = PFAILED -> forall b : bool,
    rtri Rollback (fun s => Φ (rows s)) (write_state w m it st error ;; mret b) (fun _ s => Ψ (rows s))) as Hw.
  { intros st error Hst b. apply (rtri_bind _ _ _ (fun _ s => Ψ (rows s))); [|intros []; by apply rtri_ret].
    apply rtri_write_keep; [done|destruct Hst as [-> | ->]; set_solver|]. intros l stamp HΦ Hc. by apply Hwrite. }
  eapply rtri_bind; [by apply rtri_lease|]. intros [].
  eapply rtri_bind; [apply rtri_state|]. intros st.
  destruct (negb _) eqn:Est.
  { apply rtri_ret. intros s [HΦ ->]. rewrite row_state_in in Est. to_prop. by apply Hskip. }
  apply (rtri_weaken _ _ (fun s => Φ (rows s)) _ _ (fun _ s => Ψ (rows s))); [|by intros s [? _]|done].
  eapply rtri_bind; [apply rtri_absent|]. intros qa. eapply rtri_bind; [apply rtri_absent|]. intros aa.
  apply (rtri_weaken _ _ (fun s => Φ (rows s)) _ _ (fun _ s => Ψ (rows s))); [|by intros s [[? _] _]|done].
  destruct (negb qa).
  { eapply rtri_bind; [by apply rtri_verify|]. intros []. eapply rtri_bind.
    { apply rtri_lease, robust_and; [done|]. intros s s' H E _ _. by rewrite E. }
    intros []. eapply rtri_bind; [apply (rtri_move Rollback Φ it); [done|by right]|]. intros [].
    eapply rtri_bind; [by apply rtri_fsync|]. intros []. eapply rtri_bind; [by apply rtri_fsync|].
    intros []. apply Hw; auto. }
  destruct (negb aa); [|apply Hw; auto].
  eapply rtri_bind; [by apply rtri_verify_|]. intros []. apply Hw; auto.
Qed.

Lemma rollback_items_keep (l : list PlanEntry) (prior : string * string -> bool) (Φ : ledger -> Prop) :
  (forall it, it ∈ l -> rtri Rollback (fun s => Φ (rows s)) (rollback_item w m prior it)
     (fun _ s => Φ (rows s))) ->
  rtri Rollback (fun s => Φ (rows s)) (rollback_items w m prior l) (fun _ s => Φ (rows s)).
Proof.
  induction l as [|a l IH]; intros H; simpl; [by apply rtri_ret|].
  eapply rtri_bind; [apply H; by left|]. intros x.
  eapply rtri_bind; [apply IH; intros it Hit; apply H; by right|]. intros y. by apply rtri_ret.
Qed.

Definition prepared_or_failed (b : PlanEntry) (l : ledger) : Prop :=
  row_state b l = Some PREPARED \/ row_state b l = Some PFAILED.

Lemma rollback_item_failed (it b : PlanEntry) (prior : string * string -> bool) :
  it ∈ plan ->
  rtri Rollback (fun s => row_state b (rows s) = Some PFAILED) (rollback_item w m prior it)
    (fun _ s => row_state b (rows s) = Some PFAILED).
Proof.
  intros Hit. apply (rollback_item_tri it prior (fun l => row_state b l = Some PFAILED)
    (fun l => row_state b l = Some PFAILED)); [done|done|].
  intros r st stamp error HΦ Hst Hc.
  destruct (prepared_write it b st stamp error r Hst Hc (or_intror HΦ)) as [-> | ->]; auto.
Qed.

Lemma rollback_item_prepared (it b : PlanEntry) (prior : string * string -> bool) :
  it ∈ plan ->
  rtri Rollback (fun s => prepared_or_failed b (rows s)) (rollback_item w m prior it)
    (fun _ s => prepared_or_failed b (rows s) /\ (it = b -> row_state b (rows s) = Some PFAILED)).
Proof.
  intros Hit. apply (rollback_item_tri it prior (prepared_or_failed b)
    (fun l => prepared_or_failed b l /\ (it = b -> row_state b l = Some PFAILED))); [done|..].
  - intros l HΦ H1 H2. split; [done|]. intros ->. by destruct HΦ.
  - intros l st stamp error HΦ Hst Hc.
    pose proof (prepared_write it b st stamp error l Hst Hc HΦ) as H. split.
    + unfold prepared_or_failed. destruct H as [-> | ->]; auto.
    + intros <-. destruct H as [H|H]; [|done]. rewrite row_state_upsert, decide_True in H by done.
      destruct HΦ as [E|E]; rewrite E in H; destruct Hst as [-> | ->]; simplify_eq.
      by rewrite row_state_upsert, decide_True.
Qed.

Lemma rollback_items_tri (l : list PlanEntry) (prior : string * string -> bool) (b : PlanEntry) :
  (forall it, it ∈ l -> it ∈ plan) -> b ∈ l ->
  rtri Rollback (fun s => prepared_or_failed b (rows s)) (rollback_items w m prior l)
    (fun _ s => row_state b (rows s) = Some PFAILED).
Proof.
  induction l as [|a l IH]; intros Hl Hb; [by apply elem_of_nil in Hb|]. simpl.
  assert (a ∈ plan) as Ha by (apply Hl; by left).
  assert (forall it, it ∈ l -> it ∈ plan) as Hl' by (intros it Hit; apply Hl; by right).
  eapply rtri_bind; [by apply (rollback_item_prepared a b)|]. intros x.
  apply (rtri_bind _ _ _ (fun _ s => row_state b (rows s) = Some PFAILED)); [|intros y; by apply rtri_ret].
  apply elem_of_cons in Hb as [->|Hb].
  - eapply rtri_weaken; [apply (rollback_items_keep l prior (fun r => row_state a r = Some PFAILED))| |done].
    + intros it Hit. by apply rollback_item_failed, Hl'.
    + intros s [_ H]. by apply H.
  - eapply rtri_weaken; [by apply IH|by intros s [H _]|done].
Qed.

Lemma rtri_no_intent P : rtri Rollback P (_assert_no_purge_intent m) (fun _ s => P s).
Proof.
  eapply rtri_bind; [apply rtri_get_ledger|]. intros l. apply rtri_assert_last. by intros s [? _] _.
Qed.

(** A rollback and a property of the rows its loop establishes. *)
Lemma rollback_tri (owner : Z) (roots : string -> option path) (job : option string) (Φ Ψ : ledger -> Prop) :
  plan = match _plan roots op (mf_entries m) with inr l => l | inl _ => [] end ->
  (forall prior, rtri Rollback (fun s => Φ (rows s)) (rollback_items w m prior plan) (fun _ s => Ψ (rows s))) ->
  rtri Rollback (fun s => Φ (rows s)) (rollback w owner roots m job) (fun _ s => Ψ (rows s)).
Proof.
  intros Hplan Hloop. assert (robust (fun s => Φ (rows s))) as Hr by apply robust_ledger.
  eapply rtri_bind; [apply rtri_binding|]. intros [].
  apply (rtri_bind _ _ _ (fun _ s => Φ (rows s))).
  { eapply rtri_weaken; [apply (rtri_admissible Rollback (fun s => Φ (rows s)) Rollback)|done|by intros ? ? [? _]]. }
  intros []. apply rtri_interlock; [done|]. eapply rtri_bind; [by apply rtri_boundaries|]. intros [].
  eapply rtri_bind; [apply rtri_no_intent|]. intros [].
  eapply rtri_bind; [apply rtri_prior|]. intros prior.
  eapply rtri_bind; [apply rtri_lift|]. intros l s [HΦ El] Ht.
  assert (l = plan) as -> by by rewrite El in Hplan. by apply (Hloop prior).
Qed.
End Machine.
