(* ===== verification/RetirementTheorems.v ===== *)
(** The properties of payload retirement. *)
From S2P Require Import Prelude Slot Retirement RetirementFacts.

Definition plan_of (roots : string -> option path) (m : RetirementManifest) : list PlanEntry :=
  match _plan roots (mf_operation m) (mf_entries m) with inr l => l | inl _ => [] end.

Definition run_phase (w : rworld) (owner : Z) (roots : string -> option path)
    (m : RetirementManifest) (job : option string) (p : phase) : R unit :=
  match p with
  | Quarantine => quarantine w owner roots m job
  | Purge => purge w owner roots m job
  | Rollback => rollback w owner roots m job ;; mret tt
  end.

Lemma plan_entries roots op (es : list ManifestEntry) l it :
  _plan roots op es = inr l -> it ∈ l -> pe_entry it ∈ es.
Proof.
  revert l. induction es as [|e es IH]; intros l; simpl; [by intros [= <-] ?%elem_of_nil|].
  destruct (roots (me_profile e)) as [root|]; [|done].
  destruct (_plan roots op es) as [x|l']; [done|]. intros [= <-] [->|H]%elem_of_cons; [by left|].
  right. by apply (IH l').
Qed.

Lemma plan_of_entries roots m it : it ∈ plan_of roots m -> pe_entry it ∈ mf_entries m.
Proof.
  unfold plan_of. destruct (_plan _ _ _) as [x|l] eqn:E; [by intros ?%elem_of_nil|].
  by apply plan_entries with (roots := roots) (op := mf_operation m).
Qed.

(** The final states a phase that returns has recorded. *)
Definition completed (p : phase) (m : RetirementManifest) (plan : list PlanEntry) (s : rstate) : Prop :=
  match p with
  | Quarantine => forall it, it ∈ plan ->
      state_in (mf_operation m) (me_backup (pe_entry it)) (r_ledger s) = Some QUARANTINED
  | Purge => forall it, it ∈ plan ->
      state_in (mf_operation m) (me_backup (pe_entry it)) (r_ledger s) = Some PURGED
  | Rollback => True
  end.

Section Run.
Context (w : rworld) (owner : Z) (roots : string -> option path) (m : RetirementManifest)
        (job : option string).
#[local] Abbreviation plan := (plan_of roots m).

Lemma phase_runs p s :
  rtc (rstep w m plan (r_tick s) p) s (snd (run_phase w owner roots m job p s))
  /\ (fst (run_phase w owner roots m job p s) = inr tt ->
      completed p m plan (snd (run_phase w owner roots m job p s))).
Proof.
  assert (rtri w m plan (r_tick s) p (fun _ => True) (run_phase w owner roots m job p)
    (fun _ s => completed p m plan s)) as H.
  { destruct p; simpl.
    - by apply quarantine_tri.
    - apply purge_tri; [done|]. apply plan_of_entries.
    - eapply rtri_bind; [|intros b; by apply rtri_ret].
      apply (rollback_tri w m plan _ owner roots job (fun _ => True) (fun _ => True)); [done|].
      intros prior. apply (rollback_items_keep w m plan _ plan prior (fun _ => True)).
      intros it Hit. by apply (rollback_item_tri w m plan _ it prior (fun _ => True) (fun _ => True)). }
  destruct (H s I ltac:(lia)) as (H1 & _ & H3). split; [done|].
  intros E. by rewrite E in H3.
Qed.


(** ** No payload is lost *)

(** The payload is still on disk, where it was or at a planned place. *)
Definition retained (q0 : path) (f : finfo) (s : rstate) : Prop :=
  exists q g, r_fs s !! q = Some (IFile g) /\ same_payload f g
    /\ (q = q0 \/ exists it, it ∈ plan /\ (q = pe_archive it \/ q = pe_quarantine it)
                             /\ is_payload (pe_entry it) f).

(** The payload was deleted under an intent, with a verified copy elsewhere and
    an unprotected catalog entry. *)
Definition purged_legally (t0 : nat) (f : finfo) (s : rstate) : Prop :=
  exists it t, it ∈ plan /\ is_payload (pe_entry it) f /\ copied m (pe_entry it)
    /\ eligible w t0 t (pe_entry it)
    /\ (state_in (mf_operation m) (me_backup (pe_entry it)) (r_ledger s) = Some PURGE_PREPARED
        \/ state_in (mf_operation m) (me_backup (pe_entry it)) (r_ledger s) = Some PURGED).

Lemma payload_same e f g : same_payload f g -> is_payload e g -> is_payload e f.
Proof. intros (? & ? & ? & ? & ? & ?) (? & ? & ? & ? & ? & ?). unfold is_payload. by repeat split; etrans; eauto. Qed.

Lemma retained_move q0 f s it src dst g now n :
  it ∈ plan -> (src = pe_archive it /\ dst = pe_quarantine it) \/ (src = pe_quarantine it /\ dst = pe_archive it) ->
  r_fs s !! src = Some (IFile g) -> is_payload (pe_entry it) g -> r_fs s !! dst = None ->
  retained q0 f s ->
  retained q0 f (RState (<[dst := renamed now (IFile g)]> (delete src (r_fs s))) (r_ledger s) n).
Proof.
  intros Hit Hdir Hsrc Hpay Hdst (q & h & Hq & Hsame & Hwhere).
  destruct (decide (q = src)) as [->|Hne].
  - rewrite Hsrc in Hq. simplify_eq. eexists dst, _. simpl. rewrite lookup_insert_eq.
    split; [done|]. split; [by destruct Hsame as (? & ? & ? & ? & ? & ?)|]. right. exists it.
    split; [done|]. split; [destruct Hdir as [[_ ->]|[_ ->]]; auto|]. by apply (payload_same _ _ h).
  - exists q, h. simpl. split; [|done]. destruct (decide (q = dst)) as [->|Hd]; [congruence|].
    by rewrite lookup_insert_ne, lookup_delete_ne.
Qed.

Lemma retained_step t0 p q0 f s s' :
  rstep w m plan t0 p s s' -> retained q0 f s ->
  retained q0 f s' \/ (p = Purge /\ purged_legally t0 f s').
Proof.
  intros Hstep Hret. destruct Hstep as
    [s n|s n Hl|s d uid mode n Hd|s l it st stamp error n Hl Hit Hst Hc|s it g now n Hp Hit Hg Hpay Hno
    |s it g now n Hp Hit Hg Hpay Hno|s it g n Hp Hit Hg Hpay Hst Hcopy Hel]; simpl in *; try by left.
  - destruct Hret as (q & h & Hq & H). left. exists q, h. split; [|done]. simpl.
    rewrite lookup_insert_ne; [done|]. intros ->. congruence.
  - left. by apply (retained_move q0 f s it _ _ g now n Hit (or_introl (conj eq_refl eq_refl))).
  - left. by apply (retained_move q0 f s it _ _ g now n Hit (or_intror (conj eq_refl eq_refl))).
  - destruct Hret as (q & h & Hq & Hsame & Hwhere). destruct (decide (q = pe_quarantine it)) as [->|Hne].
    + rewrite Hg in Hq. simplify_eq. right. split; [done|]. exists it, (r_tick s). split_and!; try done.
      * by apply (payload_same _ _ h).
      * by left.
    + left. exists q, h. split; [|done]. simpl. by rewrite lookup_delete_ne.
Qed.

Lemma purged_legally_step t0 f s s' :
  rstep w m plan t0 Purge s s' -> purged_legally t0 f s -> purged_legally t0 f s'.
Proof.
  intros Hstep (it & t & Hit & Hpay & Hcopy & Hel & Hst). exists it, t. split_and!; try done.
  destruct Hstep as [s n|s n Hl|s d uid mode n Hd|s l it' st stamp error n Hl Hit' Hw Hc|s|s|s]; simpl in *;
    try done; [by rewrite Hl in Hst; destruct Hst|].
  rewrite Hl in Hst. rewrite state_upsert. destruct (decide _); [|done]. simpl.
  apply elem_of_cons in Hw as [->|Hw]; [auto|]. apply list_elem_of_singleton in Hw as ->. auto.
Qed.

(** C19.  No payload is ever lost: for every regular file in the file system
    before a phase, at whatever point the phase stops, the same file (device,
    inode, size, mtime, content) is still on disk, at its path or at the archive
    or quarantine place of the manifest entry that pins it; the only exception is
    a purge, for an entry whose intent is durable in the ledger, whose receipt
    names a verified copy with the same size and digest, and whose catalog row,
    read during this run, was verified and without any live protection. *)
Theorem payloads_are_never_lost p s q f :
  r_fs s !! q = Some (IFile f) ->
  let s' := snd (run_phase w owner roots m job p s) in
  retained q f s' \/ (p = Purge /\ purged_legally (r_tick s) f s').
Proof.
  intros Hf s'. destruct (phase_runs p s) as [Hrun _]. fold s' in Hrun.
  assert (retained q f s) as H0 by (exists q, f; split_and!; [done|done|by left]).
  remember (r_tick s) as t0 eqn:Et. clear Et Hf.
  assert (retained q f s \/ (p = Purge /\ purged_legally t0 f s)) as H by by left. clear H0.
  induction Hrun as [|s1 s2 s3 Hstep _ IH]; [done|]. apply IH. clear IH.
  destruct H as [H|[-> H]]; [by apply (retained_step t0 p q f s1)|].
  right. split; [done|]. by apply (purged_legally_step t0 f s1).
Qed.
End Run.

(** ** The life of a ledger row *)

(** One maintenance request: its manifest, environment, job and phase. *)
Record request := Request {
  rq_world : rworld; rq_manifest : RetirementManifest; rq_job : option string; rq_phase : phase }.

Definition run_requests (owner : Z) (roots : string -> option path) (l : list request) (s : rstate)
    : rstate :=
  foldl (fun s r => snd (run_phase (rq_world r) owner roots (rq_manifest r) (rq_job r) (rq_phase r) s)) s l.

(** Same operation, profile, file identity and digest. *)
Definition same_row (a b : lrow) : Prop := _same_identity a b = true.

Definition follows (a b : PayloadState) : Prop := b ∈ _TRANSITIONS a.

(** A row after the fact: kept, with its identity, in a state reached by permitted
    transitions. *)
Definition row_kept (k : string * string) (r : lrow) (s : rstate) : Prop :=
  exists r', default ∅ (r_ledger s) !! k = Some r' /\ same_row r r' /\ lr_created r' = lr_created r
    /\ rtc follows (lr_state r) (lr_state r').

Lemma same_row_refl a : same_row a a.
Proof. unfold same_row, _same_identity. by rewrite !String.eqb_refl, !Z.eqb_refl. Qed.

Lemma same_row_trans a b c : same_row a b -> same_row b c -> same_row a c.
Proof.
  unfold same_row, _same_identity. rewrite !andb_true_iff, !String.eqb_eq, !Z.eqb_eq.
  intros. destruct_and?. repeat split; congruence.
Qed.

Lemma row_kept_step w m plan t0 p k r s s' :
  rstep w m plan t0 p s s' -> row_kept k r s -> row_kept k r s'.
Proof.
  intros Hstep (r' & Hr & Hsame & Hcr & Hst). destruct Hstep as
    [s n|s n Hl|s d uid mode n Hd|s l it st stamp error n Hl Hit Hw Hc|s|s|s]; simpl in *;
    try by exists r'.
  - by rewrite Hl in Hr.
  - rewrite Hl in Hr. simpl in Hr. unfold row_kept. simpl.
    set (k' := (mf_operation m, me_backup (pe_entry it))) in *. unfold upsert, ledger_check in *.
    destruct (decide (k' = k)) as [->|Hne].
    + rewrite Hr in *. rewrite lookup_insert_eq. eexists. split; [done|].
      destruct (negb (_same_identity r' _)) eqn:E1; [done|]. destruct (negb (bool_decide _)) eqn:E2; [done|].
      to_prop. split; [by apply (same_row_trans r r')|]. split; [done|]. eapply rtc_r; [exact Hst|done].
    + exists r'. split; [|done]. destruct (l !! k'); by rewrite lookup_insert_ne.
Qed.

Lemma row_kept_steps w m plan t0 p k r s s' :
  rtc (rstep w m plan t0 p) s s' -> row_kept k r s -> row_kept k r s'.
Proof. induction 1 as [|s1 s2 s3 Hstep _ IH]; [done|]. intros H. by eapply IH, row_kept_step. Qed.

Lemma purged_final s : rtc follows PURGED s -> s = PURGED.
Proof.
  intros H. remember PURGED as a eqn:Ea. induction H as [|x y z Hxy _ IH]; [done|]. subst x.
  apply list_elem_of_singleton in Hxy. rewrite <- Hxy. by apply IH.
Qed.

(** C21.  The ledger is a permanent record: over any sequence of retirement
    requests, of any operations and with any faults, a row is never removed, its
    identity fields and creation time never change, its state moves only along the
    transition table, and a purged row stays purged. *)
Theorem ledger_rows_are_permanent owner roots reqs s k r :
  default ∅ (r_ledger s) !! k = Some r ->
  row_kept k r (run_requests owner roots reqs s)
  /\ (lr_state r = PURGED ->
      exists r', default ∅ (r_ledger (run_requests owner roots reqs s)) !! k = Some r' /\ lr_state r' = PURGED).
Proof.
  intros Hr. assert (row_kept k r (run_requests owner roots reqs s)) as H.
  { assert (row_kept k r s) as H0 by (exists r; split_and!; [done|apply same_row_refl|done|done]).
    clear Hr. revert s H0. induction reqs as [|q reqs IH]; intros s H0; [done|]. simpl. apply IH.
    destruct (phase_runs (rq_world q) owner roots (rq_manifest q) (rq_job q) (rq_phase q) s) as [Hrun _].
    by eapply row_kept_steps. }
  split; [done|]. intros E. destruct H as (r' & H1 & _ & _ & H2). exists r'. split; [done|].
  rewrite E in H2. by apply purged_final.
Qed.

(** ** Rolling back a prepared entry *)

(** A rollback cannot record the rollback of a prepared entry: the phase is
    admitted from state [PREPARED], but the transition table has no step from
    there to [ROLLED_BACK], so a rollback that returns has marked every such entry
    failed, and it raises whenever the payload of one is still present. *)
Theorem rollback_never_restores_prepared w owner roots m job s b s' it :
  rollback w owner roots m job s = (inr b, s') -> it ∈ plan_of roots m ->
  state_in (mf_operation m) (me_backup (pe_entry it)) (r_ledger s) = Some PREPARED ->
  state_in (mf_operation m) (me_backup (pe_entry it)) (r_ledger s') = Some PFAILED.
Proof.
  intros Hrun Hit Hst.
  pose proof (rollback_tri w m (plan_of roots m) (r_tick s) owner roots job (prepared_or_failed m it)
    (fun l => row_state m it l = Some PFAILED) eq_refl) as H.
  destruct (H ltac:(intros prior; by apply rollback_items_tri) s ltac:(by left) ltac:(lia)) as (_ & _ & H3).
  by rewrite Hrun in H3.
Qed.

(** ** Concrete runs *)

Definition demo_root : path := ["srv"; "backups"]%string.
Definition demo_roots (p : string) : option path :=
  if String.eqb p "minecraft" then Some demo_root else None.

Definition demo_file (ctime : Z) : finfo := FInfo 1 7 100 5 ctime 1 "sha".
Definition demo_entry (ctime : Z) : ManifestEntry := mkEntry "b1" "minecraft" 1 7 100 5 ctime "sha".
Definition demo_manifest (op : string) (ctime : Z) : RetirementManifest :=
  mkManifest op "proposal" [demo_entry ctime]
    (mkReceipt "laptop" true "2026-01-01T00:00:00Z" "receipt" [mkMember "b1" "minecraft" 100 "sha"]).

Definition demo_lock : sender_lock :=
  SenderLock (ManifestDir false false (Some (RStat TDir 0x1C0 0 1 0))) (Some (RStat TReg 0x180 0 1 0))
    false true.

(** A permissive environment that stops at the given tick. *)
Definition demo_world (stop : nat) : rworld :=
  RWorld (fun n => if (n =? stop)%nat then Some Crash else None) (fun _ => true)
    (fun _ _ => Some (CatalogRow "minecraft" 100 1 0)) (fun _ _ => []) (fun _ => []) (fun _ => [])
    (fun _ => false) (fun _ _ => false) (fun _ => 50) (fun _ => demo_lock) true.

Definition demo_fs : fsys :=
  list_to_map [(["srv"%string], IDir 0 0x1ED); (demo_root, IDir 0 0x1C0);
               (_archive demo_root "b1", IFile (demo_file 10))].
Definition demo_start : rstate := RState demo_fs None 0.

Definition demo_request (stop : nat) (op : string) (ctime : Z) (p : phase) : request :=
  Request (demo_world stop) (demo_manifest op ctime) None p.
Definition demo_run (l : list request) : rstate := run_requests 0 demo_roots l demo_start.
Definition demo_item (op : string) : PlanEntry :=
  mkPlan (demo_entry 10) demo_root (_archive demo_root "b1") (quarantine_of demo_root op "b1").

(** A quarantine that stops after its first row was written. *)
Definition demo_prepared : rstate := demo_run [demo_request 23 "op1" 10 Quarantine].


Lemma demo_prepared_state : state_in "op1" "b1" (r_ledger demo_prepared) = Some PREPARED.
Proof. vm_compute. reflexivity. Qed.

(** A quarantine that stopped between its rename and the ledger update is completed
    by the next request, and the payload then purged. *)
Lemma demo_resumed :
  state_in "op1" "b1" (r_ledger (demo_run
    [demo_request 24 "op1" 10 Quarantine; demo_request 0 "op1" 10 Quarantine])) = Some QUARANTINED
  /\ state_in "op1" "b1" (r_ledger (demo_run
       [demo_request 24 "op1" 10 Quarantine; demo_request 0 "op1" 10 Quarantine;
        demo_request 0 "op1" 10 Purge])) = Some PURGED.
Proof. split; vm_compute; reflexivity. Qed.

(** The rollback of a quarantine that stopped before or after its rename raises. *)
Lemma demo_rollback_raises :
  fst (rollback (demo_world 0) 0 demo_roots (demo_manifest "op1" 10) None demo_prepared)
    = inl (failed "ledger state transition is not permitted")
  /\ fst (rollback (demo_world 0) 0 demo_roots (demo_manifest "op1" 10) None
       (demo_run [demo_request 24 "op1" 10 Quarantine]))
    = inl (failed "ledger state transition is not permitted").
Proof. split; vm_compute; reflexivity. Qed.

(** Two operations can hold the same payload: a rolled back row is prepared
    again without the check for other active operations, so after operation [op2]
    stopped with its row prepared, resuming [op1] quarantines the payload, and
    both operations have a blocking row for it. *)
Theorem operations_can_share_a_payload :
  let s := demo_run [demo_request 0 "op1" 10 Quarantine; demo_request 0 "op1" 10 Rollback;
                     demo_request 59 "op2" 50 Quarantine; demo_request 0 "op1" 10 Quarantine] in
  state_in "op1" "b1" (r_ledger s) = Some QUARANTINED /\ blocking QUARANTINED = true
  /\ state_in "op2" "b1" (r_ledger s) = Some PREPARED /\ blocking PREPARED = true.
Proof. vm_compute. repeat split. Qed.

Lemma payloads_are_never_lost_witness :
  let s' := snd (run_phase (demo_world 24) 0 demo_roots (demo_manifest "op1" 10) None Quarantine demo_start) in
  retained demo_roots (demo_manifest "op1" 10) (_archive demo_root "b1") (demo_file 10) s'
  \/ (Quarantine = Purge /\ purged_legally (demo_world 24) demo_roots (demo_manifest "op1" 10) 0 (demo_file 10) s').
Proof.
  refine (payloads_are_never_lost (demo_world 24) 0 demo_roots (demo_manifest "op1" 10) None Quarantine
    demo_start (_archive demo_root "b1") (demo_file 10) _). vm_compute. reflexivity.
Defined.

Definition demo_row : lrow := _row (demo_manifest "op1" 10) (demo_item "op1") PREPARED 50 None.

Lemma ledger_rows_are_permanent_witness :
  row_kept ("op1", "b1")%string demo_row
    (run_requests 0 demo_roots [demo_request 0 "op1" 10 Quarantine; demo_request 0 "op1" 10 Purge] demo_prepared).
Proof.
  refine (proj1 (ledger_rows_are_permanent 0 demo_roots
    [demo_request 0 "op1" 10 Quarantine; demo_request 0 "op1" 10 Purge] demo_prepared ("op1", "b1")%string demo_row _)).
  vm_compute. reflexivity.
Defined.

(** The prepared payload disappeared. *)
Definition demo_missing : rstate :=
  RState (delete (_archive demo_root "b1") (r_fs demo_prepared)) (r_ledger demo_prepared) (r_tick demo_prepared).

Lemma rollback_never_restores_prepared_witness :
  state_in "op1" "b1" (r_ledger (snd (rollback (demo_world 0) 0 demo_roots (demo_manifest "op1" 10) None demo_missing)))
    = Some PFAILED.
Proof.
  refine (rollback_never_restores_prepared (demo_world 0) 0 demo_roots (demo_manifest "op1" 10) None
    demo_missing true _ (demo_item "op1") _ _ _); [|vm_compute; by left|vm_compute; reflexivity].
  vm_compute. reflexivity.
Defined.
