(* ===== verification/RetentionPlan.v ===== *)
(** [ops/laptop-backup/retention_plan.py]: enumeration of the archive objects that
    could be removed.  [build_plan] over the decoded inventory; the digests of the
    plan, the parsing of timestamps and the text order of ids are as in Python,
    with [datetime.fromisoformat] as a parameter.

    A set of aliases is the list of its members in insertion order; which reason
    an alias inherits may depend on the order of a Python set, so the reasons of
    [excluded] are not modelled beyond membership. *)
From S2P Require Import Prelude Slot.

Definition MIN_KEEP_NEWEST : Z := 2.

Inductive plan_scope := RemoteVault | LocalPayload.

#[export] Instance plan_scope_eq_dec : EqDecision plan_scope.
Proof. solve_decision. Defined.

Definition BLOCKING_LEDGER_STATES : list string :=
  ["prepared"; "quarantined"; "purge_prepared"; "purged"; "failed"; "ambiguous"]%string.
Definition KNOWN_LEDGER_STATES : list string :=
  BLOCKING_LEDGER_STATES ++ ["present"; "rolled_back"; "missing"]%string.

Definition in_strings (s : string) (l : list string) : bool := existsb (String.eqb s) l.

Record cat_entry := CatEntry {
  ce_backup : string;
  ce_profile : string;
  ce_size : Z;
  ce_digest : string;
  ce_created : string;
  ce_epoch : Z;
}.

Record candidate := Candidate { cd_digest : string; cd_size : Z; cd_backups : list string }.

Record plan := Plan {
  pl_scope : plan_scope;
  pl_keep : Z;
  pl_candidates : list candidate;
  pl_excluded : list string;
  pl_bytes : Z;
  pl_over_budget : Z;
  pl_under_reserve : Z;
}.

(** The decoded inventory. *)
Record inventory := Inventory {
  in_scope : plan_scope;
  in_keep : Z;
  in_budget : Z;
  in_reserve : Z;
  in_used : Z;
  in_available : Z;
  in_entries : list cat_entry;
  in_protected : list string;
  in_ledger : list (string * string);
  in_referenced : list (string * Z);
}.

(** [PlanRefused] with its reason, or a value. *)
Definition refusal (A : Type) : Type := string + A.

#[export] Instance refusal_ret : MRet refusal := fun _ a => inr a.
#[export] Instance refusal_bind : MBind refusal := fun _ _ k m =>
  match m with inl e => inl e | inr a => k a end.

Definition refuse {A} (reason : string) : refusal A := inl reason.
Definition demand (b : bool) (reason : string) : refusal unit := if b then inr tt else inl reason.

Definition _int (j : option json) (name : string) : refusal Z :=
  match j with
  | Some (JInt n) => if n <? 0 then refuse (name ++ " is invalid") else inr n
  | _ => refuse (name ++ " is invalid")
  end.

Definition _positive (j : option json) (name : string) : refusal Z :=
  n ← _int j name;
  if n <=? 0 then refuse (name ++ " must be positive") else inr n.

(** [DIGEST.match]: in the pattern a final newline may follow the digits. *)
Definition digest_match (s : string) : bool :=
  hex64 s ||
  ((String.length s =? 65)%nat && hex64 (String.substring 0 64 s)
   && String.eqb (String.substring 64 1 s) (String (Ascii.ascii_of_nat 10) EmptyString)).

Definition _digest (j : option json) (name : string) : refusal string :=
  match j with
  | Some (JStr s) => if digest_match s then inr s else refuse (name ++ " is not a sha256 digest")
  | _ => refuse (name ++ " is not a sha256 digest")
  end.

(** Newest first: [sort(key=(epoch, id), reverse=True)]. *)
Definition newer_entry (a b : cat_entry) : Prop :=
  ce_epoch b < ce_epoch a \/ (ce_epoch a = ce_epoch b /\ str_leb (ce_backup b) (ce_backup a) = true).
#[export] Instance newer_entry_dec a b : Decision (newer_entry a b).
Proof. unfold newer_entry. apply _. Defined.

Section Plan.
(** [_created_at] of a string: its epoch (in the unit of the clock), or why it is
    refused. *)
Context (created_at : string -> refusal Z).

Definition _created_at (j : option json) : refusal (string * Z) :=
  match j with
  | Some (JStr s) =>
      if negb (nonempty s) || (64 <? String.length s)%nat
      then refuse "catalog created_at is invalid"
      else t ← created_at s; inr (s, t)
  | _ => refuse "catalog created_at is invalid"
  end.

Definition find_backup (id : string) (l : list cat_entry) : option cat_entry :=
  List.find (fun e => String.eqb (ce_backup e) id) l.
Definition find_digest (d : string) (l : list cat_entry) : option cat_entry :=
  List.find (fun e => String.eqb (ce_digest e) d) l.

(** One catalog entry after the entries [seen]. *)
Definition read_entry (seen : list cat_entry) (j : json) : refusal cat_entry :=
  match j with
  | JObj raw =>
      match assoc "backup_id" raw, assoc "profile_id" raw with
      | Some (JStr bid), Some (JStr pid) =>
          demand (nonempty bid && nonempty pid) "catalog entry identity is invalid" ;;
          demand (bool_decide (find_backup bid seen = None)) "catalog contains a duplicate backup_id" ;;
          size ← _int (assoc "size_bytes" raw) "size_bytes";
          digest ← _digest (assoc "digest" raw) "digest";
          demand (match find_digest digest seen with Some e => ce_size e =? size | None => true end)
            "content-addressed digest has conflicting sizes" ;;
          '(text, epoch) ← _created_at (assoc "created_at" raw);
          inr (CatEntry bid pid size digest text epoch)
      | _, _ => refuse "catalog entry identity is invalid"
      end
  | _ => refuse "catalog entry is not an object"
  end.

Fixpoint read_catalog (seen : list cat_entry) (l : list json) : refusal (list cat_entry) :=
  match l with
  | [] => inr seen
  | j :: l' => e ← read_entry seen j; read_catalog (seen ++ [e]) l'
  end.

Fixpoint read_strings (l : list json) : option (list string) :=
  match l with
  | [] => Some []
  | JStr s :: l' => r ← read_strings l'; Some (s :: r)
  | _ :: _ => None
  end.

Definition read_protections (entries : list cat_entry) (j : option json) : refusal (list string) :=
  match j with
  | Some (JList l) =>
      match read_strings l with
      | None => refuse "protected_backup_ids is invalid"
      | Some ids =>
          demand (bool_decide (NoDup ids)) "protected_backup_ids contains a duplicate row" ;;
          demand (forallb (fun id => bool_decide (find_backup id entries <> None)) ids)
            "a protection row references an unknown backup" ;;
          inr ids
      end
  | _ => refuse "protected_backup_ids is invalid"
  end.

(** One ledger row after the rows [seen]. *)
Definition read_ledger_row (entries : list cat_entry) (seen : list (string * string)) (j : json)
    : refusal (string * string) :=
  match j with
  | JObj row =>
      match assoc "backup_id" row, assoc "state" row with
      | Some (JStr bid), Some (JStr st) =>
          demand (in_strings st KNOWN_LEDGER_STATES) "ledger row has an unknown state" ;;
          demand (bool_decide (find_backup bid entries <> None)) "ledger row references an unknown backup" ;;
          demand (match assoc bid seen with Some st' => String.eqb st' st | None => true end)
            "ledger has conflicting rows for one backup" ;;
          inr (bid, st)
      | _, _ => refuse "ledger row is malformed"
      end
  | _ => refuse "ledger row is not an object"
  end.

Fixpoint read_ledger (entries : list cat_entry) (seen : list (string * string)) (l : list json)
    : refusal (list (string * string)) :=
  match l with
  | [] => inr seen
  | j :: l' => r ← read_ledger_row entries seen j; read_ledger entries (seen ++ [r]) l'
  end.

(** The objects referenced by preserved manifests, with their sizes. *)
Definition read_member (seen : list (string * Z)) (j : json) : refusal (string * Z) :=
  match j with
  | JObj member =>
      digest ← _digest (assoc "digest" member) "manifest digest";
      size ← _int (assoc "size_bytes" member) "manifest size_bytes";
      demand (match assoc digest seen with Some n => n =? size | None => true end)
        "manifest digest has conflicting sizes" ;;
      inr (digest, size)
  | _ => refuse "manifest member is not an object"
  end.

Fixpoint read_manifests (seen : list (string * Z)) (l : list json) : refusal (list (string * Z)) :=
  match l with
  | [] => inr seen
  | j :: l' => r ← read_member seen j; read_manifests (seen ++ [r]) l'
  end.

(** ** Retention *)

Definition profile_entries (entries : list cat_entry) (p : string) : list cat_entry :=
  List.filter (fun e => String.eqb (ce_profile e) p) entries.

(** [items[:keep]] of the entry's profile, newest first. *)
Definition kept_newest (keep : Z) (entries : list cat_entry) (p : string) : list cat_entry :=
  take (Z.to_nat keep) (merge_sort newer_entry (profile_entries entries p)).

Definition within_keep (keep : Z) (entries : list cat_entry) (e : cat_entry) : bool :=
  existsb (fun x => String.eqb (ce_backup x) (ce_backup e)) (kept_newest keep entries (ce_profile e)).

(** The first reason to keep an entry. *)
Definition reason (scope : plan_scope) (keep : Z) (entries : list cat_entry) (protected : list string)
    (ledger : list (string * string)) (referenced : list (string * Z)) (e : cat_entry)
    : option string :=
  if within_keep keep entries e then Some "within_keep_newest"%string else
  if in_strings (ce_backup e) protected then Some "protected"%string else
  if existsb (fun r => String.eqb (fst r) (ce_backup e) && in_strings (snd r) BLOCKING_LEDGER_STATES) ledger
  then Some "blocking_ledger_state"%string else
  let known := bool_decide (assoc (ce_digest e) referenced <> None) in
  match scope with
  | RemoteVault => if known then Some "remote_object_referenced_by_manifest"%string else None
  | LocalPayload => if known then None else Some "no_remote_manifest_copy"%string
  end.

(** The entries of a digest: its aliases. *)
Definition aliases (entries : list cat_entry) (d : string) : list cat_entry :=
  List.filter (fun e => String.eqb (ce_digest e) d) entries.

(** The digests in order of first appearance. *)
Fixpoint digests (l : list cat_entry) : list string :=
  match l with
  | [] => []
  | e :: l' => ce_digest e :: List.filter (fun d => negb (String.eqb d (ce_digest e))) (digests l')
  end.

Definition candidate_of (r : cat_entry -> option string) (entries : list cat_entry) (d : string)
    : option candidate :=
  let al := aliases entries d in
  if forallb (fun e => bool_decide (r e = None)) al
  then e ← head al;
       Some (Candidate d (ce_size e) (merge_sort str_le (map ce_backup al)))
  else None.

(** The backups excluded, directly or through an alias. *)
Definition is_excluded (r : cat_entry -> option string) (entries : list cat_entry) (e : cat_entry)
    : bool :=
  existsb (fun x => bool_decide (r x <> None)) (aliases entries (ce_digest e)).

Definition by_digest (a b : candidate) : Prop := str_leb (cd_digest a) (cd_digest b) = true.
#[local] Instance by_digest_dec a b : Decision (by_digest a b).
Proof. unfold by_digest. apply _. Defined.

Definition make_plan (d : inventory) : plan :=
  let entries := in_entries d in
  let r := reason (in_scope d) (in_keep d) entries (in_protected d) (in_ledger d) (in_referenced d) in
  let candidates := merge_sort by_digest (omap (candidate_of r entries) (digests entries)) in
  Plan (in_scope d) (in_keep d) candidates
    (map ce_backup (List.filter (is_excluded r entries) entries))
    (foldr (fun c n => cd_size c + n) 0 candidates)
    (Z.max 0 (in_used d - in_budget d)) (Z.max 0 (in_reserve d - in_available d)).

(** [policy["scope"] in SCOPES] *)
Definition read_scope (j : option json) : refusal plan_scope :=
  match j with
  | Some (JStr s) =>
      if String.eqb s "remote-vault" then inr RemoteVault else
      if String.eqb s "local-payload" then inr LocalPayload else
      refuse "policy scope must be remote-vault or local-payload"
  | _ => refuse "policy scope must be remote-vault or local-payload"
  end.

(** The checks of [build_plan], in its order. *)
Definition read_inventory (j : json) : refusal inventory :=
  match j with
  | JObj inv =>
      demand (match assoc "schema" inv with Some (JInt 1) | Some (JBool true) => true
              | Some (JFloat (FFin f)) => f =? fl 1 | _ => false end)
        "unsupported inventory schema" ;;
      budget ← _positive (assoc "budget_bytes" inv) "budget_bytes";
      reserve ← _positive (assoc "reserve_bytes" inv) "reserve_bytes";
      used ← _int (assoc "used_bytes" inv) "used_bytes";
      available ← _int (assoc "available_bytes" inv) "available_bytes";
      match assoc "policy" inv with
      | Some (JObj policy) =>
          demand (bool_decide (assoc "keep_newest_per_profile" policy <> None))
            "explicit keep_newest_per_profile policy is required" ;;
          keep ← _int (assoc "keep_newest_per_profile" policy) "keep_newest_per_profile";
          demand (MIN_KEEP_NEWEST <=? keep) "keep_newest_per_profile must be >= 2" ;;
          scope ← read_scope (assoc "scope" policy);
          match assoc "catalog" inv with
          | Some (JList (raw :: l)) =>
              entries ← read_catalog [] (raw :: l);
              protected ← read_protections entries (assoc "protected_backup_ids" inv);
              match assoc "ledger" inv with
              | Some (JList rows) =>
                  ledger ← read_ledger entries [] rows;
                  match assoc "manifests" inv with
                  | Some (JList members) =>
                      referenced ← read_manifests [] members;
                      demand (forallb (fun r => match find_digest (fst r) entries with
                                                | Some e => ce_size e =? snd r | None => true end) referenced)
                        "catalog and manifest disagree on an object size" ;;
                      inr (Inventory scope keep budget reserve used available entries protected
                             ledger referenced)
                  | _ => refuse "manifests is invalid"
                  end
              | _ => refuse "ledger is invalid"
              end
          | _ => refuse "catalog is empty or invalid"
          end
      | _ => refuse "explicit retention policy is required"
      end
  | _ => refuse "inventory is not an object"
  end.

Definition build_plan (j : json) : refusal plan :=
  d ← read_inventory j; inr (make_plan d).
End Plan.
