(* ===== verification/RetentionPlanFacts.v ===== *)
(** What a retention plan proposes: [build_plan] of
    [ops/laptop-backup/retention_plan.py] against a specification that ranks an
    entry by the newer entries of its profile. *)
From S2P Require Import Prelude Slot RetentionPlan.

(** ** Specification *)

(** [x] is a newer backup of the profile of [e]. *)
Definition outranks (x e : cat_entry) : Prop :=
  ce_profile x = ce_profile e /\ ce_backup x <> ce_backup e /\ newer_entry x e.
#[export] Instance outranks_dec x e : Decision (outranks x e).
Proof. unfold outranks. apply _. Defined.

Definition rank (entries : list cat_entry) (e : cat_entry) : nat :=
  length (filter (fun x => outranks x e) entries).

(** Nothing in the inventory asks for the entry to be kept. *)
Record removable (d : inventory) (e : cat_entry) : Prop := {
  rm_rank : in_keep d <= Z.of_nat (rank (in_entries d) e);
  rm_unprotected : ce_backup e ∉ in_protected d;
  rm_ledger : forall st, (ce_backup e, st) ∈ in_ledger d -> st ∉ BLOCKING_LEDGER_STATES;
  rm_copy : match in_scope d with
            | RemoteVault => ce_digest e ∉ map fst (in_referenced d)
            | LocalPayload => ce_digest e ∈ map fst (in_referenced d)
            end;
}.

(** What decoding guarantees. *)
Record inventory_ok (d : inventory) : Prop := {
  ok_keep : MIN_KEEP_NEWEST <= in_keep d;
  ok_ids : NoDup (map ce_backup (in_entries d));
  ok_sizes : forall a b, a ∈ in_entries d -> b ∈ in_entries d -> ce_digest a = ce_digest b ->
             ce_size a = ce_size b;
}.

(** ** Booleans and lists *)

Lemma in_strings_spec s l : in_strings s l = true <-> s ∈ l.
Proof.
  unfold in_strings. rewrite existsb_exists. split.
  - intros (x & Hin & ->%String.eqb_eq). by apply list_elem_of_In.
  - intros H. exists s. split; [by apply list_elem_of_In|apply String.eqb_refl].
Qed.

Lemma elem_of_List_filter {A} (f : A -> bool) x l : x ∈ List.filter f l <-> x ∈ l /\ f x = true.
Proof. rewrite !list_elem_of_In. apply filter_In. Qed.

Lemma assoc_in {A} k (l : list (string * A)) : assoc k l <> None <-> k ∈ map fst l.
Proof.
  induction l as [|[k' v] l IH]; simpl.
  - split; [done|]. by intros ?%elem_of_nil.
  - rewrite elem_of_cons. destruct (String.eqb k k') eqn:E.
    + apply String.eqb_eq in E as ->. split; [by left|done].
    + apply String.eqb_neq in E. rewrite IH.
      split; [by right|by intros [->|?]].
Qed.

Lemma list_filter_all {A} (p : A -> Prop) `{!forall x, Decision (p x)} l : Forall p l -> filter p l = l.
Proof. induction 1; [done|]. rewrite filter_cons_True by done. by f_equal. Qed.

Lemma list_filter_none {A} (p : A -> Prop) `{!forall x, Decision (p x)} l :
  Forall (fun x => ~ p x) l -> filter p l = [].
Proof. induction 1; [done|]. by rewrite filter_cons_False by done. Qed.

#[export] Instance newer_total : Total newer_entry.
Proof.
  intros a b. unfold newer_entry.
  destruct (Z.lt_trichotomy (ce_epoch a) (ce_epoch b)) as [?|[?|?]]; auto.
  destruct (str_leb_total (ce_backup a) (ce_backup b)); auto.
Qed.

#[export] Instance newer_trans : Transitive newer_entry.
Proof.
  intros a b c. unfold newer_entry. intros [?|[? Hab]] [?|[? Hbc]]; [lia..|].
  right. split; [lia|]. eapply str_leb_trans; eauto.
Qed.

Lemma newer_antisym a b : newer_entry a b -> newer_entry b a -> ce_backup a = ce_backup b.
Proof.
  unfold newer_entry. intros [?|[? Hab]] [?|[? Hbc]]; try lia. by apply str_leb_antisym.
Qed.

(** ** Rank *)

Lemma mids_unique (l1 l2 : list cat_entry) e :
  NoDup (map ce_backup (l1 ++ e :: l2)) ->
  Forall (fun x => ce_backup x <> ce_backup e) (l1 ++ l2).
Proof.
  rewrite map_app, NoDup_app. simpl. intros (_ & Hx & [Hn _]%NoDup_cons).
  apply Forall_app; split; apply Forall_forall; intros x Hin Heq.
  - apply (Hx (ce_backup x)); [by apply list_elem_of_fmap_2|]. rewrite Heq. left.
  - apply Hn. rewrite <- Heq. by apply list_elem_of_fmap_2.
Qed.

(** In a sorted list the entries newer than [e] are those before it. *)
Lemma sorted_prefix (p : cat_entry -> Prop) `{!forall x, Decision (p x)} l1 l2 e :
  StronglySorted newer_entry (l1 ++ e :: l2) ->
  NoDup (map ce_backup (l1 ++ e :: l2)) ->
  (forall x, x ∈ l1 ++ e :: l2 -> p x <-> ce_backup x <> ce_backup e /\ newer_entry x e) ->
  filter p (l1 ++ e :: l2) = l1.
Proof.
  intros [Hs [Hs1 [Hs2 He]%StronglySorted_inv]]%StronglySorted_app [H1 H2]%mids_unique%Forall_app Hp.
  rewrite filter_app, filter_cons.
  rewrite decide_False by (rewrite Hp by set_solver; naive_solver).
  rewrite (list_filter_all p l1), (list_filter_none p l2), app_nil_r; [done|..].
  - rewrite Forall_forall in H2, He |- *. intros x Hin. rewrite Hp by set_solver.
    intros [Hne Hx]. apply Hne. apply newer_antisym; [done|by apply He].
  - rewrite Forall_forall in H1 |- *. intros x Hin. apply Hp; [set_solver|].
    split; [by apply H1|]. apply Hs; set_solver.
Qed.

Lemma profile_entries_filter entries p :
  profile_entries entries p = filter (fun e => ce_profile e = p) entries.
Proof.
  induction entries as [|e l IH]; [done|]. unfold profile_entries in *. simpl. rewrite IH, filter_cons.
  destruct (String.eqb_spec (ce_profile e) p); by case_decide.
Qed.

Lemma rank_in_profile entries e :
  rank entries e = length (filter (fun x => outranks x e) (profile_entries entries (ce_profile e))).
Proof.
  unfold rank. rewrite profile_entries_filter, list_filter_filter. f_equal.
  apply list_filter_iff. unfold outranks. tauto.
Qed.

Lemma in_take_nodup {A} (n : nat) (l1 l2 : list A) x :
  NoDup (l1 ++ x :: l2) -> x ∈ take n (l1 ++ x :: l2) <-> (length l1 < n)%nat.
Proof.
  intros Hnd. rewrite elem_of_take. split.
  - intros (i & Hi & Hlt). assert (Hl : (l1 ++ x :: l2) !! length l1 = Some x).
    { rewrite lookup_app_r, Nat.sub_diag by lia. done. }
    by rewrite (NoDup_lookup _ _ _ _ Hnd Hl Hi).
  - intros Hlt. exists (length l1). split; [|done]. rewrite lookup_app_r, Nat.sub_diag by lia. done.
Qed.

Lemma nodup_id_eq (l : list cat_entry) a b :
  NoDup (map ce_backup l) -> a ∈ l -> b ∈ l -> ce_backup a = ce_backup b -> a = b.
Proof.
  intros Hnd (i & Hi)%list_elem_of_lookup (j & Hj)%list_elem_of_lookup Heq.
  assert (i = j) as ->; [|congruence].
  eapply (NoDup_lookup _ _ _ (ce_backup a) Hnd); change (map ce_backup l) with (ce_backup <$> l);
    rewrite list_lookup_fmap, ?Hi, ?Hj; simpl; by rewrite ?Heq.
Qed.

Lemma profile_entries_nodup entries p :
  NoDup (map ce_backup entries) -> NoDup (map ce_backup (profile_entries entries p)).
Proof.
  intros Hnd. rewrite profile_entries_filter.
  eapply sublist_NoDup; [exact Hnd|]. apply fmap_sublist, sublist_filter.
Qed.

Lemma within_keep_rank keep entries e :
  NoDup (map ce_backup entries) -> e ∈ entries ->
  within_keep keep entries e = true <-> Z.of_nat (rank entries e) < keep.
Proof.
  intros Hnd Hin. unfold within_keep, kept_newest. rewrite rank_in_profile.
  set (pe := profile_entries entries (ce_profile e)).
  assert (Hpe : e ∈ pe) by (unfold pe; rewrite profile_entries_filter, list_elem_of_filter; done).
  assert (Hndp : NoDup (map ce_backup pe)) by by apply profile_entries_nodup.
  pose proof (merge_sort_Permutation newer_entry pe) as Hperm.
  assert (Hnds : NoDup (map ce_backup (merge_sort newer_entry pe))) by by rewrite Hperm.
  pose proof (StronglySorted_merge_sort newer_entry pe) as Hs.
  rewrite <- (filter_Permutation _ _ _ Hperm).
  assert (He : e ∈ merge_sort newer_entry pe) by by rewrite Hperm.
  assert (Hprof : forall x, x ∈ merge_sort newer_entry pe -> ce_profile x = ce_profile e).
  { intros x. rewrite Hperm. unfold pe. rewrite profile_entries_filter, list_elem_of_filter. tauto. }
  revert He Hs Hnds Hprof. generalize (merge_sort newer_entry pe). clear. intros s He Hs Hnds Hprof.
  apply list_elem_of_split in He as (l1 & l2 & ->).
  rewrite (sorted_prefix (fun x => outranks x e) l1 l2 e) by
    (try done; intros x Hx; unfold outranks; pose proof (Hprof x Hx); tauto).
  rewrite existsb_exists. transitivity (e ∈ take (Z.to_nat keep) (l1 ++ e :: l2)).
  - split.
    + intros (x & Hx%list_elem_of_In & Heq%String.eqb_eq).
      assert (x = e) as <-; [|done]. eapply nodup_id_eq; [exact Hnds| |set_solver|done].
      apply elem_of_take in Hx as (i & Hi & _). by eapply list_elem_of_lookup_2.
    + intros Hx. exists e. split; [by apply list_elem_of_In|apply String.eqb_refl].
  - rewrite in_take_nodup by by eapply NoDup_fmap_1. lia.
Qed.

(** ** The reasons are the specification *)

Definition reason_of (d : inventory) : cat_entry -> option string :=
  reason (in_scope d) (in_keep d) (in_entries d) (in_protected d) (in_ledger d) (in_referenced d).

Lemma blocking_spec (e : cat_entry) (ledger : list (string * string)) :
  existsb (fun r => String.eqb (fst r) (ce_backup e) && in_strings (snd r) BLOCKING_LEDGER_STATES)
    ledger = false <->
  forall st, (ce_backup e, st) ∈ ledger -> st ∉ BLOCKING_LEDGER_STATES.
Proof.
  rewrite <- not_true_iff_false, existsb_exists. split.
  - intros H st Hin Hst. apply H. exists (ce_backup e, st). split; [by apply list_elem_of_In|].
    cbn [fst snd]. rewrite String.eqb_refl. by apply in_strings_spec.
  - intros H ([id st] & Hin%list_elem_of_In & [Hid%String.eqb_eq Hst%in_strings_spec]%andb_prop).
    simpl in Hid. subst id. by apply (H st).
Qed.

Lemma reason_removable d e :
  NoDup (map ce_backup (in_entries d)) -> e ∈ in_entries d ->
  reason_of d e = None <-> removable d e.
Proof.
  intros Hnd Hin. unfold reason_of, reason.
  pose proof (within_keep_rank (in_keep d) _ _ Hnd Hin) as Hk.
  pose proof (in_strings_spec (ce_backup e) (in_protected d)) as Hp.
  pose proof (blocking_spec e (in_ledger d)) as Hb.
  pose proof (assoc_in (ce_digest e) (in_referenced d)) as Ha.
  destruct (within_keep _ _ _); [split; [done|intros [? _ _ _]; lia]|].
  destruct (in_strings _ (in_protected d)); [split; [done|intros [_ ? _ _]; tauto]|].
  destruct (existsb _ _); [split; [done|intros [_ _ ? _]; destruct Hb as [_ Hb]; by specialize (Hb ltac:(done))]|].
  assert (in_keep d <= Z.of_nat (rank (in_entries d) e)).
  { apply Z.nlt_ge. intros Hlt. by apply Hk in Hlt. }
  assert (Hn : ce_backup e ∉ in_protected d) by (intros Hx; by apply Hp in Hx).
  apply proj1 in Hb. specialize (Hb eq_refl).
  split.
  - intros Hr. constructor; [done..|].
    destruct (in_scope d); case_bool_decide; try done; tauto.
  - intros [_ _ _ Hc]. destruct (in_scope d); case_bool_decide; try done; tauto.
Qed.

(** ** Digests and candidates *)

Lemma in_digests l x : x ∈ digests l <-> exists e, e ∈ l /\ ce_digest e = x.
Proof.
  induction l as [|e l IH]; simpl; [set_solver|].
  rewrite elem_of_cons, elem_of_List_filter, IH. setoid_rewrite elem_of_cons.
  destruct (String.eqb_spec x (ce_digest e)) as [->|Hne]; [set_solver|]. naive_solver.
Qed.

Lemma digests_nodup l : NoDup (digests l).
Proof.
  induction l as [|e l IH]; simpl; constructor.
  - rewrite elem_of_List_filter, String.eqb_refl. by intros [_ ?].
  - apply NoDup_ListNoDup, List.NoDup_filter. by apply NoDup_ListNoDup.
Qed.

Lemma in_aliases entries x e : e ∈ aliases entries x <-> e ∈ entries /\ ce_digest e = x.
Proof. unfold aliases. by rewrite elem_of_List_filter, String.eqb_eq. Qed.

Lemma candidate_of_some r entries x c :
  candidate_of r entries x = Some c <->
  (forall e, e ∈ aliases entries x -> r e = None) /\
  exists e, head (aliases entries x) = Some e /\
  c = Candidate x (ce_size e) (merge_sort str_le (map ce_backup (aliases entries x))).
Proof.
  unfold candidate_of. destruct (forallb _ _) eqn:E.
  - rewrite forallb_forall in E. destruct (head _) as [e|] eqn:Hh; simpl.
    + split; [intros [= <-]|by intros (_ & ? & [= ->] & ->)]. split; [|eauto].
      intros x' Hx%list_elem_of_In%E. by apply bool_decide_eq_true in Hx.
    + split; [done|]. by intros (_ & ? & ? & _).
  - split; [done|]. intros [H _]. apply not_true_iff_false in E. contradict E.
    apply forallb_forall. intros e He%list_elem_of_In. apply bool_decide_eq_true. by apply H.
Qed.

Lemma in_candidates d c :
  c ∈ pl_candidates (make_plan d) <->
  candidate_of (reason_of d) (in_entries d) (cd_digest c) = Some c.
Proof.
  unfold make_plan. cbn [pl_candidates]. rewrite merge_sort_Permutation, list_elem_of_omap. split.
  - intros (x & _ & Hx). pose proof Hx as (_ & e & _ & ->)%candidate_of_some. done.
  - intros Hx. exists (cd_digest c). split; [|done].
    apply candidate_of_some in Hx as (_ & e & He & _). apply in_digests.
    apply head_Some_elem_of, in_aliases in He. eauto.
Qed.

Lemma candidate_digests d x :
  x ∈ map cd_digest (pl_candidates (make_plan d)) <->
  (exists e, e ∈ in_entries d /\ ce_digest e = x) /\
  forall e, e ∈ in_entries d -> ce_digest e = x -> reason_of d e = None.
Proof.
  rewrite list_elem_of_fmap. split.
  - intros (c & -> & Hc%in_candidates). pose proof Hc as (Hr & e & He & _)%candidate_of_some.
    apply head_Some_elem_of, in_aliases in He. split; [eauto|]. intros e' ? ?. apply Hr.
    by apply in_aliases.
  - intros ((e & He & Hd) & Hr).
    assert (Hal : e ∈ aliases (in_entries d) x) by by apply in_aliases.
    destruct (aliases (in_entries d) x) as [|e0 al] eqn:Eal; [by apply elem_of_nil in Hal|].
    exists (Candidate x (ce_size e0) (merge_sort str_le (map ce_backup (aliases (in_entries d) x)))).
    split; [done|]. apply in_candidates, candidate_of_some. split.
    + intros e' [? ?]%in_aliases. by apply Hr.
    + exists e0. simpl. by rewrite Eal.
Qed.

Lemma candidates_nodup d : NoDup (map cd_digest (pl_candidates (make_plan d))).
Proof.
  unfold make_plan. cbn [pl_candidates]. rewrite merge_sort_Permutation.
  pose proof (digests_nodup (in_entries d)) as Hnd. revert Hnd.
  generalize (digests (in_entries d)). intros l. induction 1 as [|x l Hx Hnd IH]; [constructor|].
  simpl. destruct (candidate_of _ _ x) as [c|] eqn:E; [|done]. simpl. constructor; [|done].
  rewrite list_elem_of_fmap. intros (c' & Hc & (y & Hy & Hcy)%list_elem_of_omap).
  apply candidate_of_some in E as (_ & ? & _ & ->), Hcy as (_ & ? & _ & ->). simpl in Hc. congruence.
Qed.

Lemma excluded_spec d e :
  NoDup (map ce_backup (in_entries d)) -> e ∈ in_entries d ->
  ce_backup e ∈ pl_excluded (make_plan d) <->
  exists x, x ∈ in_entries d /\ ce_digest x = ce_digest e /\ reason_of d x <> None.
Proof.
  intros Hnd Hin. unfold make_plan. cbn [pl_excluded]. rewrite list_elem_of_fmap.
  fold (reason_of d). unfold is_excluded. split.
  - intros (y & Heq & [Hy Hx]%elem_of_List_filter).
    assert (y = e) as -> by by eapply nodup_id_eq.
    apply existsb_exists in Hx as (x & [? ?]%list_elem_of_In%in_aliases & Hr%bool_decide_eq_true). eauto.
  - intros (x & Hx & Hd & Hr). exists e. split; [done|]. apply elem_of_List_filter. split; [done|].
    apply existsb_exists. exists x. split; [by apply list_elem_of_In, in_aliases|].
    by apply bool_decide_eq_true.
Qed.

(** ** Decoding *)

Lemma refusal_bind_inv {A B} (m : refusal A) (k : A -> refusal B) b :
  (m ≫= k) = inr b -> exists a, m = inr a /\ k a = inr b.
Proof. destruct m; simpl; [done|eauto]. Qed.

Lemma demand_inv {A} b r (k : refusal A) a : (demand b r ;; k) = inr a -> b = true /\ k = inr a.
Proof. destruct b; [done|discriminate]. Qed.

Ltac refusal_inv H :=
  repeat match type of H with
  | (demand _ _ ;; _) = inr _ =>
      let Hg := fresh "Hg" in apply demand_inv in H as [Hg H]; rewrite ?bool_decide_eq_true in Hg
  | (_ ≫= _) = inr _ =>
      let x := fresh "x" in let Hx := fresh "Hx" in apply refusal_bind_inv in H as (x & Hx & H)
  | (match ?x with _ => _ end) = inr _ => destruct x eqn:?; try discriminate H
  end.

Definition catalog_ok (l : list cat_entry) : Prop :=
  NoDup (map ce_backup l) /\
  forall a b, a ∈ l -> b ∈ l -> ce_digest a = ce_digest b -> ce_size a = ce_size b.

Lemma read_entry_fresh ca seen j e :
  read_entry ca seen j = inr e ->
  find_backup (ce_backup e) seen = None /\
  (forall x, find_digest (ce_digest e) seen = Some x -> ce_size x = ce_size e).
Proof.
  unfold read_entry. intros H. refusal_inv H. injection H as <-. simpl. split; [done|].
  intros y Hy. rewrite Hy in *. by apply Z.eqb_eq.
Qed.

Lemma catalog_ok_snoc l e :
  catalog_ok l -> find_backup (ce_backup e) l = None ->
  (forall x, find_digest (ce_digest e) l = Some x -> ce_size x = ce_size e) ->
  catalog_ok (l ++ [e]).
Proof.
  intros [Hnd Hsz] Hb Hd. split.
  - rewrite map_app, NoDup_app. split; [done|]. split; [|apply NoDup_singleton].
    intros id (x & -> & Hx)%list_elem_of_fmap Heq%list_elem_of_singleton.
    apply list_elem_of_In, (List.find_none _ _ Hb), String.eqb_neq in Hx. done.
  - assert (He : forall a, a ∈ l -> ce_digest a = ce_digest e -> ce_size a = ce_size e).
    { intros a Ha Heq. destruct (find_digest (ce_digest e) l) as [x|] eqn:E.
      - rewrite <- (Hd x eq_refl). apply List.find_some in E as [Hx Hxe%String.eqb_eq].
        apply Hsz; [done|by apply list_elem_of_In|congruence].
      - apply list_elem_of_In, (List.find_none _ _ E), String.eqb_neq in Ha. done. }
    intros a b. rewrite !elem_of_app, !list_elem_of_singleton.
    intros [Ha| ->] [Hb'| ->] Heq; auto. symmetry. by apply He.
Qed.

Lemma read_catalog_ok ca l : forall seen entries,
  catalog_ok seen -> read_catalog ca seen l = inr entries -> catalog_ok entries.
Proof.
  induction l as [|j l IH]; intros seen entries Hok H; simpl in H; [by injection H as <-|].
  refusal_inv H. apply read_entry_fresh in Hx as [? ?].
  eapply IH; [|exact H]. by apply catalog_ok_snoc.
Qed.

Lemma read_inventory_ok ca j d : read_inventory ca j = inr d -> inventory_ok d.
Proof.
  unfold read_inventory. intros H. refusal_inv H. injection H as <-.
  match goal with Hc : read_catalog _ [] _ = inr _ |- _ => apply read_catalog_ok in Hc as [? ?] end.
  - constructor; simpl; [by apply Z.leb_le|done..].
  - split; [constructor|]. intros ? ? []%elem_of_nil.
Qed.

(** ** The floor *)

Lemma floor_is_kept d p :
  inventory_ok d ->
  Z.min (in_keep d) (Z.of_nat (length (profile_entries (in_entries d) p))) <=
  Z.of_nat (length (filter (fun e => ce_backup e ∈ pl_excluded (make_plan d))
                           (profile_entries (in_entries d) p))).
Proof.
  intros [Hk Hnd _]. set (pe := profile_entries (in_entries d) p).
  pose proof (merge_sort_Permutation newer_entry pe) as Hperm.
  assert (Hsub : kept_newest (in_keep d) (in_entries d) p ⊆+
                 filter (fun e => ce_backup e ∈ pl_excluded (make_plan d)) pe).
  { apply NoDup_submseteq.
    - unfold kept_newest. fold pe. eapply sublist_NoDup; [|apply sublist_take].
      rewrite Hperm. eapply NoDup_fmap_1. by apply profile_entries_nodup.
    - intros e He. pose proof He as (i & Hi & _)%elem_of_take.
      apply list_elem_of_lookup_2 in Hi. fold pe in Hi. rewrite Hperm in Hi.
      pose proof Hi as Hi'. unfold pe in Hi'. rewrite profile_entries_filter, list_elem_of_filter in Hi'.
      destruct Hi' as [<- Hin]. apply list_elem_of_filter. split; [|done].
      apply excluded_spec; [done..|]. exists e. split_and!; [done..|]. unfold reason_of, reason.
      replace (within_keep _ _ _) with true; [done|]. symmetry. apply existsb_exists. exists e.
      split; [by apply list_elem_of_In|apply String.eqb_refl]. }
  apply submseteq_length in Hsub. unfold kept_newest in Hsub. fold pe in Hsub.
  rewrite length_take, Hperm in Hsub. lia.
Qed.

(** C24.  Retention plans: a digest of the archive is proposed for removal exactly
    when each catalog entry that names it is removable: at least
    [keep_newest_per_profile] (two or more) backups of its profile are newer, it is
    unprotected, no blocking ledger row names it, and a preserved manifest does
    ([local-payload]) or does not ([remote-vault]) reference the object.  A proposal
    lists all the backups that share the object, with its size, each object is
    proposed once, a backup is excluded exactly when its object is not proposed, and
    in each profile the backups excluded include at least the retention floor. *)
Theorem retention_plan_is_safe ca j pl :
  build_plan ca j = inr pl ->
  exists d, read_inventory ca j = inr d /\ MIN_KEEP_NEWEST <= in_keep d /\
  (forall x, x ∈ map cd_digest (pl_candidates pl) <->
     (exists e, e ∈ in_entries d /\ ce_digest e = x) /\
     forall e, e ∈ in_entries d -> ce_digest e = x -> removable d e) /\
  (forall c, c ∈ pl_candidates pl ->
     (forall id, id ∈ cd_backups c <->
        exists e, e ∈ in_entries d /\ ce_digest e = cd_digest c /\ ce_backup e = id) /\
     forall e, e ∈ in_entries d -> ce_digest e = cd_digest c -> ce_size e = cd_size c) /\
  NoDup (map cd_digest (pl_candidates pl)) /\
  (forall e, e ∈ in_entries d ->
     ce_backup e ∈ pl_excluded pl <-> ce_digest e ∉ map cd_digest (pl_candidates pl)) /\
  (forall p, Z.min (in_keep d) (Z.of_nat (length (profile_entries (in_entries d) p))) <=
     Z.of_nat (length (filter (fun e => ce_backup e ∈ pl_excluded pl)
                              (profile_entries (in_entries d) p)))).
Proof.
  unfold build_plan. intros (d & Hd & [= <-])%refusal_bind_inv.
  exists d. pose proof (read_inventory_ok _ _ _ Hd) as Hok. pose proof Hok as [Hk Hnd Hsz].
  split_and!; [done..| | | | |].
  - intros x. rewrite candidate_digests. split; intros [He Hr]; (split; [done|]); intros e Hin Hde;
      apply reason_removable; auto.
  - intros c (_ & e0 & He0 & ->)%in_candidates%candidate_of_some. simpl. split.
    + intros id. rewrite merge_sort_Permutation, list_elem_of_fmap.
      setoid_rewrite in_aliases. naive_solver.
    + apply head_Some_elem_of, in_aliases in He0 as [? He0]. intros e ? ?. apply Hsz; congruence.
  - apply candidates_nodup.
  - intros e He. rewrite excluded_spec, candidate_digests by done. split.
    + intros (x & Hx & Hxd & Hr) [_ H]. by apply Hr, H.
    + intros H. destruct (decide (Forall (fun x => ce_digest x = ce_digest e -> reason_of d x = None)
        (in_entries d))) as [Ha|Ha].
      * rewrite Forall_forall in Ha. exfalso. apply H. eauto.
      * apply not_Forall_Exists in Ha; [|apply _]. apply Exists_exists in Ha as (x & Hx & Hn).
        exists x. destruct (decide (ce_digest x = ce_digest e)) as [Heq|Hne]; [|by exfalso; apply Hn; intros ?].
        split_and!; [done..|]. intros Hr. by apply Hn.
  - intros p. by apply floor_is_kept.
Qed.

Definition hexd (c : string) : string := String.concat "" (repeat c 64).

(** Three backups of one profile, the oldest also alone in its object. *)
Definition sample_inventory : json :=
  JObj [("schema", JInt 1); ("budget_bytes", JInt 100); ("reserve_bytes", JInt 10);
        ("used_bytes", JInt 130); ("available_bytes", JInt 4);
        ("policy", JObj [("keep_newest_per_profile", JInt 2); ("scope", JStr "remote-vault")]);
        ("catalog", JList (map (fun r => JObj [("backup_id", JStr (fst r)); ("profile_id", JStr "atm10");
            ("size_bytes", JInt 50); ("digest", JStr (hexd (snd r))); ("created_at", JStr (fst r))])
          [("b", "a"); ("bb", "b"); ("bbb", "c")]));
        ("protected_backup_ids", JList []);
        ("ledger", JList [JObj [("backup_id", JStr "bb"); ("state", JStr "quarantined")]]);
        ("manifests", JList [])]%string.

Definition sample_created (s : string) : refusal Z := inr (Z.of_nat (String.length s)).

Lemma retention_plan_is_safe_witness :
  build_plan sample_created sample_inventory =
    inr (Plan RemoteVault 2 [Candidate (hexd "a") 50 ["b"%string]] ["bb"; "bbb"]%string 50 30 6) /\
  exists d, read_inventory sample_created sample_inventory = inr d /\ MIN_KEEP_NEWEST <= in_keep d.
Proof.
  split; [vm_compute; reflexivity|].
  destruct (retention_plan_is_safe sample_created sample_inventory
    (Plan RemoteVault 2 [Candidate (hexd "a") 50 ["b"%string]] ["bb"; "bbb"]%string 50 30 6)) as (d & H1 & H2 & _).
  - vm_compute; reflexivity.
  - exists d. exact (conj H1 H2).
Defined.
