(* ===== verification/Status.v ===== *)
(** [status.py] and [benchmark_safety.py]: how a status snapshot is sampled, cached
    and overlaid with lifecycle intent, and the evidence a scheduled benchmark
    needs.

    The probes (adapter, health checker, player tracker, disk usage, UPS, sessions,
    wake evidence) are parameters; the owner a slot observer reports is the profile
    [ProfileStatus] accepts.  Process metrics, versions, telemetry and player
    sessions, which no decision of the controller reads, are left out of a status. *)
From S2P Require Import Prelude Models Slot ControllerDb ControllerDbFacts Readiness Lifecycle.

(** ** [derive_state] *)

Definition derive_state (active_job : option string) (process_alive conflicting : bool) : ObservedState :=
  if bool_decide (active_job = Some "start"%string) then STARTING else
  if bool_decide (active_job = Some "stop"%string) then STOPPING else
  if bool_decide (active_job = Some "failed"%string) then FAILED else
  if process_alive then RUNNING else
  if conflicting then BLOCKED else STOPPED.

(** ** Update activity *)

Record UpdateActivity := mkUpdateActivity {
  ua_source : string;
  ua_operation : option string;
  ua_expires : option Z;
}.

#[export] Instance UpdateActivity_eq_dec : EqDecision UpdateActivity.
Proof. solve_decision. Defined.

(** What the reservation provider found for a profile. *)
Record live_reservation := LiveReservation {
  lr_kind : string;
  lr_operation : option string;
  lr_expires : option Z;
}.

Definition _update_activity (reservation : option live_reservation) (job : option string)
    : option UpdateActivity :=
  let from_job := if bool_decide (job = Some "update"%string)
                  then Some (mkUpdateActivity "job" None None) else None in
  match reservation with
  | Some r =>
      if String.eqb (lr_kind r) "update"
      then Some (mkUpdateActivity "reservation"
                   (match lr_operation r with Some o => if nonempty o then Some o else None | None => None end)
                   (lr_expires r))
      else from_job
  | None => from_job
  end.

(** ** Sampling *)

Record observation := Observation {
  ob_running : bool;
  ob_healthy : option bool;
  ob_players : option Z;
  ob_ports : option bool;
}.

(** A [HealthResult]; [None] for an attribute it does not have. *)
Record check_result := CheckResult {
  ck_state : HealthState;
  ck_ports : option (option bool);
  ck_alive : option bool;
}.

Inductive check_outcome :=
  | NoChecker
  | CheckFails
  | Checked (r : check_result).

(** One round of probes: [pb_observe] is [None] when the adapter raises
    [AdapterError] or [RuntimeError]. *)
Record probes := Probes {
  pb_observe : ProfileId -> option observation;
  pb_check : ProfileId -> observation -> check_outcome;
  pb_count : option (ProfileId -> bool -> option Z);
  pb_reservation : ProfileId -> option live_reservation;
}.

(** A [ProfileStatus]: the fields the controller decides on, with health and
    update activity. *)
Record full_status := FullStatus {
  fs_core : profile_status;
  fs_health : HealthState;
  fs_update : option UpdateActivity;
}.

Definition stopped_observation : observation := Observation false None None None.

Section Sample.
Context (has_observer : bool) (slot_owner : option ProfileId) (job_of : ProfileId -> option string)
        (pb : probes).

Definition full_probe (p : ProfileId) : bool :=
  negb has_observer || bool_decide (job_of p <> None) || bool_decide (slot_owner = Some p).

Definition conflicting (p : ProfileId) : bool :=
  match slot_owner with Some o => negb (bool_decide (o = p)) | None => false end.

Definition sample_idle (p : ProfileId) : full_status :=
  FullStatus (ProfileStatus p (derive_state (job_of p) false (conflicting p)) slot_owner (job_of p) None
                (Some false))
    UNKNOWN (_update_activity (pb_reservation pb p) (job_of p)).

(** Health, required ports and liveness from observation and health checker. *)
Definition probe_health (p : ProfileId) (observed : option observation)
    : option HealthState * option bool * bool * bool :=
  match observed with
  | None => (None, None, false, false)
  | Some o =>
      match pb_check pb p o with
      | NoChecker => (None, ob_ports o, false, false)
      | CheckFails => (None, ob_ports o, false, true)
      | Checked r => (Some (ck_state r), default (ob_ports o) (ck_ports r), default false (ck_alive r), false)
      end
  end.

Definition sample_full (p : ProfileId) : full_status :=
  let observed := pb_observe pb p in
  let o := default stopped_observation observed in
  let '(health, ports, alive, health_error) := probe_health p observed in
  let fallback :=
    match (if health_error then None else o ← observed; ob_healthy o) with
    | Some true => HEALTHY
    | Some false => UNHEALTHY
    | None => UNKNOWN
    end in
  let players :=
    match ob_players o, pb_count pb with
    | None, Some count => count p (ob_running o)
    | n, _ => n
    end in
  FullStatus (ProfileStatus p (derive_state (job_of p) alive (conflicting p)) slot_owner (job_of p) players
                (Some (default false ports)))
    (default fallback health) (_update_activity (pb_reservation pb p) (job_of p)).

Definition _sample (profiles : list ProfileId) : list full_status :=
  map (fun p => if full_probe p then sample_full p else sample_idle p) profiles.
End Sample.

(** ** Snapshots *)

Record snapshot := mkSnapshot { sn_observed_at : Z; sn_profiles : list full_status }.

Record status_cache := StatusCache {
  sc_snapshot : option snapshot;
  sc_cached_at : option Z;
}.

Definition STATUS_SNAPSHOT_TTL : Z := 2 * 1000000.

(** Does a demand read at [now] use the cache? *)
Definition cache_hit (persist force : bool) (now : Z) (c : status_cache) : option snapshot :=
  if persist || force then None else
  match sc_snapshot c, sc_cached_at c with
  | Some s, Some t => if now - t <? STATUS_SNAPSHOT_TTL then Some s else None
  | _, _ => None
  end.

(** [StatusService.snapshot]; [sampled] is what [_sample] gives, or its exception. *)
Definition status_snapshot (persist force : bool) (now : Z) (sampled : snapshot + exc) (c : status_cache)
    : (snapshot + exc) * status_cache :=
  match cache_hit persist force now c with
  | Some s => (inl s, c)
  | None =>
      match sampled with
      | inl s => (inl s, StatusCache (Some s) (if persist then None else Some now))
      | inr x => (inr x, c)
      end
  end.

Definition _safe_job (job : option string) : option string :=
  match job with
  | Some j => if existsb (String.eqb j) ["start"; "stop"; "failed"]%string then Some j else None
  | None => None
  end.

Definition overlay_status (job_of : ProfileId -> option string)
    (reservation : ProfileId -> option live_reservation) (st : full_status) : full_status :=
  let c := fs_core st in
  let p := ps_profile c in
  let upd := _update_activity (reservation p) (job_of p) in
  match _safe_job (job_of p) with
  | None => FullStatus c (fs_health st) upd
  | Some j =>
      FullStatus (ProfileStatus p (derive_state (Some j) false false) (ps_owner c) (Some j) (ps_players c)
                    (ps_ports_ready c)) (fs_health st) upd
  end.

Definition _overlay_active_jobs (job_of : ProfileId -> option string)
    (reservation : ProfileId -> option live_reservation) (s : snapshot) : snapshot :=
  mkSnapshot (sn_observed_at s) (map (overlay_status job_of reservation) (sn_profiles s)).

(** A status before any sample was taken. *)
Definition cold_status (job_of : ProfileId -> option string)
    (reservation : ProfileId -> option live_reservation) (p : ProfileId) : full_status :=
  let j := _safe_job (job_of p) in
  FullStatus (ProfileStatus p (derive_state j false false) None j None (Some false)) UNKNOWN
    (_update_activity (reservation p) (job_of p)).

Definition cached_snapshot (now : Z) (profiles : list ProfileId) (job_of : ProfileId -> option string)
    (reservation : ProfileId -> option live_reservation) (c : status_cache) : snapshot :=
  match sc_snapshot c with
  | Some s => _overlay_active_jobs job_of reservation s
  | None => mkSnapshot now (map (cold_status job_of reservation) profiles)
  end.

(** ** Evidence for benchmarks *)

Record EvidenceItem := mkEvidenceItem { ei_check : string; ei_result : bool; ei_source : string }.

Definition _LEGACY_KEYS : list string :=
  ["maintenance_window"; "storage_acceptable"; "ups_acceptable"; "quiet_period"; "no_wake_session";
   "no_conflicting_jobs"; "rollback_safe_public_wake"]%string.

(** [{item.check: item.result for item in items}]: the last item of a name wins. *)
Definition legacy_value (items : list EvidenceItem) (key : string) : bool :=
  match List.find (fun i => String.eqb (ei_check i) key) (rev items) with
  | Some i => ei_result i
  | None => false
  end.

Definition legacy_mapping (items : list EvidenceItem) : list (string * bool) :=
  map (fun k => (k, legacy_value items k)) _LEGACY_KEYS.

(** What the providers of [BenchmarkPreflight] answer: free bytes per storage path
    ([None] when the probe fails), the UPS probe, the player session table (the end
    of the latest session and whether one is open) and the wake evidence. *)
Record preflight_probes := PreflightProbes {
  pp_storage : list (option Z);
  pp_ups : option bool;
  pp_sessions : option (option Z * bool);
  pp_wake_clear : bool;
}.

Definition _storage (pp : preflight_probes) : EvidenceItem :=
  mkEvidenceItem "storage_acceptable"
    (bool_decide (pp_storage pp <> [])
     && forallb (fun f => match f with Some n => 5 * 1024 ^ 3 <=? n | None => false end) (pp_storage pp))
    "root storage".

Definition _ups (pp : preflight_probes) : EvidenceItem :=
  mkEvidenceItem "ups_acceptable" (bool_decide (pp_ups pp = Some true)) "UPS provider".

Definition _sessions (observed_at : Z) (pp : preflight_probes) : list EvidenceItem :=
  let '(quiet, active) :=
    match pp_sessions pp with
    | None => (false, false)
    | Some (latest, open) =>
        (match latest with None => true | Some t => t <=? observed_at - 900 * 1000000 end, negb open)
    end in
  [mkEvidenceItem "quiet_period" quiet "root session state";
   mkEvidenceItem "no_wake_session" active "root session state"].

(** [state == "stopped" and players_online == 0 and active_job_id is None] *)
Definition proven_stopped (st : profile_status) : bool :=
  bool_decide (ps_state st = STOPPED) && bool_decide (ps_players st = Some 0)
  && bool_decide (ps_active_job st = None).

Definition evaluate (statuses : list profile_status) (observed_at : Z)
    (maintenance_window rollback_safe : bool) (wake_policy : string) (pp : preflight_probes)
    : list EvidenceItem :=
  let sessions := _sessions observed_at pp in
  let session_ok := match sessions with [_; i] => ei_result i | _ => false end in
  [mkEvidenceItem "maintenance_window" maintenance_window "schedule policy";
   mkEvidenceItem "no_conflicting_jobs" (forallb proven_stopped statuses) "fresh status snapshot";
   mkEvidenceItem "rollback_safe_public_wake" (rollback_safe && String.eqb wake_policy "safe") "schedule policy";
   _storage pp; _ups pp] ++ sessions ++
  [mkEvidenceItem "no_wake_session" (session_ok && pp_wake_clear pp) "root wake evidence"].

Definition benchmark_eligibility (statuses : list profile_status) (observed_at : Z)
    (maintenance_window rollback_safe : bool) (wake_policy : string) (pp : preflight_probes)
    : list (string * bool) :=
  legacy_mapping (evaluate statuses observed_at maintenance_window rollback_safe wake_policy pp).

(** ** Facts *)

(** A sample behind a slot observer never proves a profile of it idle: what is not
    probed has no player count, what is probed has an owner or a job. *)
Lemma sampled_not_idle owner job_of pb (p : ProfileId) profiles :
  p ∈ profiles ->
  exists st, st ∈ map fs_core (_sample true owner job_of pb profiles) /\
             (ps_players st = None \/ ps_active_job st <> None \/ ps_owner st <> None).
Proof.
  intros Hp.
  exists (fs_core (if full_probe true owner job_of p then sample_full owner job_of pb p
                   else sample_idle owner job_of pb p)).
  split.
  { apply list_elem_of_fmap. eexists. split; [done|]. apply list_elem_of_fmap. by exists p. }
  destruct (full_probe true owner job_of p) eqn:E; [|by left].
  right. unfold sample_full. destruct (probe_health _ _ _) as [[[? ?] ?] ?]. simpl.
  unfold full_probe in E. simpl in E. apply orb_true_iff in E as [E|E]; apply bool_decide_eq_true in E.
  - by left.
  - right. by rewrite E.
Qed.

Lemma benchmark_evidence_conflicts statuses t mw rs wp pp :
  assoc "no_conflicting_jobs" (benchmark_eligibility statuses t mw rs wp pp) =
  Some (forallb proven_stopped statuses).
Proof.
  unfold benchmark_eligibility, legacy_mapping, evaluate, _sessions, legacy_value, _storage, _ups.
  by destruct (pp_sessions pp) as [[? ?]|].
Qed.
