(* ===== verification/MaintenanceTick.v ===== *)
(** [controller.py], the maintenance tick: idle stops ([idle_stop.py]) and schedules
    applied to a fresh status snapshot, on top of the request handlers.

    The tick runs under the controller's maintenance lock, so its state (streaks,
    schedule book) is its own; [fired] lists the fires a tick went on to execute
    after claiming them. *)
From Stdlib Require Import Ascii.
From S2P Require Import Prelude Models Slot ControllerDb ControllerDbFacts Readiness Lifecycle Maintenance Schedule Status.

(** ** [IdleStopTracker] *)

Record _Streak := Streak { sk_started : Z; sk_attempted : bool }.

(** A zero-player sample of a running profile without an active job. *)
Definition idle_sample (st : profile_status) : bool :=
  bool_decide (ps_state st = RUNNING) && bool_decide (ps_players st = Some 0)
  && bool_decide (ps_active_job st = None).

(** [observe] for one profile: its streak before and after. *)
Definition idle_observe (minutes now : Z) (st : profile_status) (streak : option _Streak)
    : bool * option _Streak :=
  if minutes <=? 0 then (false, None) else
  if negb (idle_sample st) then (false, None) else
  match streak with
  | None => (false, Some (Streak now false))
  | Some k =>
      if sk_attempted k then (false, Some k) else
      if now - sk_started k <? minutes * us_minute then (false, Some k) else
      (true, Some (Streak (sk_started k) true))
  end.

Definition streak_of (p : ProfileId) (l : list (ProfileId * _Streak)) : option _Streak :=
  snd <$> List.find (fun x => bool_decide (fst x = p)) l.
Definition set_streak (p : ProfileId) (k : option _Streak) (l : list (ProfileId * _Streak))
    : list (ProfileId * _Streak) :=
  let rest := List.filter (fun x => negb (bool_decide (fst x = p))) l in
  match k with Some k => (p, k) :: rest | None => rest end.

(** One call of [observe]: the profile, its setting, the clock and the status. *)
Record idle_call := IdleCall {
  ic_profile : ProfileId;
  ic_minutes : Z;
  ic_now : Z;
  ic_status : profile_status;
}.

(** [IdleStopTracker.observe] on the streaks of all profiles. *)
Definition tracker_step (c : idle_call) (l : list (ProfileId * _Streak))
    : bool * list (ProfileId * _Streak) :=
  let '(b, k) := idle_observe (ic_minutes c) (ic_now c) (ic_status c) (streak_of (ic_profile c) l) in
  (b, set_streak (ic_profile c) k l).

(** ** The state of a tick *)

Record tst := Tst {
  t_core : cst;
  t_streaks : list (ProfileId * _Streak);
  t_book : ScheduleBook;
  t_fired : list (ProfileId * string);
}.

Definition T (A : Type) : Type := tst -> ctl A * tst.

#[export] Instance T_ret : MRet T := fun A a s => (Val a, s).
#[export] Instance T_bind : MBind T := fun A B k m s =>
  match m s with
  | (Val a, s') => k a s'
  | (Exc x, s') => (Exc x, s')
  end.
Definition tcatch {A} (m : T A) (h : exc -> T A) : T A := fun s =>
  match m s with
  | (Val a, s') => (Val a, s')
  | (Exc x, s') => h x s'
  end.
Definition tthrow {A} (x : exc) : T A := fun s => (Exc x, s).

(** [try: m except Exception: h] *)
Definition texcept {A} (m : T A) (h : exc -> T A) : T A :=
  tcatch m (fun x => if is_exception x then h x else tthrow x).

(** A handler call inside the tick. *)
Definition mcall {A} (m : M A) : T A := fun s =>
  let '(r, c) := m (t_core s) in (r, Tst c (t_streaks s) (t_book s) (t_fired s)).

(** [self._idle_stop.observe(profile, status)] *)
Definition tracker_observe (p : ProfileId) (minutes now : Z) (st : profile_status) : T bool := fun s =>
  let '(b, l) := tracker_step (IdleCall p minutes now st) (t_streaks s) in
  (Val b, Tst (t_core s) l (t_book s) (t_fired s)).

Fixpoint titer {A} (f : A -> T unit) (l : list A) : T unit :=
  match l with
  | [] => mret tt
  | a :: l' => f a ;; titer f l'
  end.

(** ** Fire keys *)

Definition digit (n : Z) : string := String (ascii_of_nat (48 + Z.to_nat (n mod 10))) EmptyString.
Definition pad2 (n : Z) : string := digit (n / 10) ++ digit n.
Definition pad4 (n : Z) : string := digit (n / 1000) ++ digit (n / 100) ++ pad2 n.

(** [minute.isoformat()] of a UTC time. *)
Definition iso_minute (t : Z) : string :=
  pad4 (dt_year t) ++ "-" ++ pad2 (dt_month t) ++ "-" ++ pad2 (dt_dom t) ++ "T" ++ pad2 (dt_hour t)
  ++ ":" ++ pad2 (dt_minute t) ++ ":00+00:00".

Section Tick.
Context (w : world) (cfg : config).
Context (rid : string).
(** [profile.idle_stop_minutes], [str] of a campaign that is not text, the answer
    of [benchmark_eligibility] ([None]: no mapping), whether [RunBenchmark] accepts
    the presets, the text of a confirmation id, and what [_run_benchmark] takes
    from outside. *)
Context (idle_stop_minutes : ProfileId -> Z) (json_text : json -> string)
        (evidence_of : ScheduleEntry -> option (list (string * bool)))
        (presets_ok : ScheduleEntry -> bool) (uuid_text : Z -> string)
        (closed : bool) (frozen_ok : ctl unit).

Definition IDLE_ACTOR : string := "system:idle-stop".

(** A best-effort notification. *)
Definition notify : T unit :=
  if has_service cfg "notifications" "send" then mcall (pause w) else mret tt.

Definition record (p : ProfileId) (code message : string) : T unit := mcall (record_event w p code message).

(** ** [_apply_idle_stops] *)

Definition apply_idle_stop (st : profile_status) : T unit :=
  match cf_profiles cfg (ps_profile st) with
  | None => mret tt
  | Some p =>
      n ← mcall now_tick;
      due ← tracker_observe (pf_id p) (idle_stop_minutes (pf_id p)) (w_now w n) st;
      if negb due then mret tt else
      record (pf_id p) "idle_stop" "idle-stop threshold reached" ;;
      notify ;;
      texcept (mcall (_stop w cfg (pf_id p) IDLE_ACTOR rid) ;; mret tt)
        (fun _ => record (pf_id p) "idle_stop" "idle-stop request failed")
  end.

Definition _apply_idle_stops (snapshot : list profile_status) : T unit := titer apply_idle_stop snapshot.

(** ** [_apply_schedules] *)

Definition campaign_text (j : json) : string :=
  match j with
  | JStr s => if nonempty s then s else "none"%string
  | _ => if truthy j then json_text j else "none"%string
  end.

Definition _schedule_fire_key (e : ScheduleEntry) (observed_at : Z) : string :=
  iso_minute observed_at ++ ":" ++ profile_value (se_profile e) ++ ":" ++ se_operation e ++ ":"
  ++ match se_destination e with Some d => destination_value d | None => "none" end ++ ":"
  ++ se_cron e ++ ":" ++ campaign_text (se_campaign e).

Definition fire_marker (p : ProfileId) (key : string) (ev : event_row) : bool :=
  bool_decide (ev_profile ev = Some p) && String.eqb (ev_code ev) "scheduled_fire"
  && String.eqb (ev_message ev) key.

Definition _schedule_fire_seen (e : ScheduleEntry) (observed_at : Z) (d : db) : bool :=
  existsb (fire_marker (se_profile e) (_schedule_fire_key e observed_at)) (events d).

Definition fire_seen (e : ScheduleEntry) (observed_at : Z) : T bool :=
  mcall (gets (fun s => _schedule_fire_seen e observed_at (c_db s))).

Definition mark_fired (p : ProfileId) (key : string) : T unit := fun s =>
  (Val tt, Tst (t_core s) (t_streaks s) (t_book s) (t_fired s ++ [(p, key)])).

(** Check and claim one fire; [true] when it goes on to run. *)
Definition claim_fire (e : ScheduleEntry) (observed_at : Z) : T bool :=
  seen ← fire_seen e observed_at;
  if negb seen then
    record (se_profile e) "scheduled_fire" (_schedule_fire_key e observed_at) ;;
    mark_fired (se_profile e) (_schedule_fire_key e observed_at) ;;
    mret true
  else mret false.

Definition evidence_keys : list string :=
  ["maintenance_window"; "storage_acceptable"; "ups_acceptable"; "quiet_period"; "no_wake_session";
   "no_conflicting_jobs"; "rollback_safe_public_wake"]%string.

Definition evidence_ok (evidence : option (list (string * bool))) : bool :=
  match evidence with
  | Some l => forallb (fun k => match assoc k l with Some b => b | None => false end) evidence_keys
  | None => false
  end.

(** [item.state not in {"stopped", "failed", "blocked", "unknown"}] and the rest. *)
Definition busy_status (st : profile_status) : bool :=
  negb (bool_decide (ps_players st = Some 0)) || bool_decide (ps_active_job st <> None)
  || negb (bool_decide (ps_state st ∈ [STOPPED; FAILED; BLOCKED])).

Definition entry_policy (e : ScheduleEntry) : bool :=
  truthy (se_maintenance e) && truthy (se_rollback_safe e)
  && match se_wake_policy e with JStr s => String.eqb s "safe" | _ => false end.

Definition benchmark_eligible (statuses : list profile_status) (evidence : option (list (string * bool)))
    (due : list ScheduleEntry) : bool :=
  negb (existsb busy_status statuses)
  && negb (existsb (fun st => bool_decide (ps_owner st <> None)) statuses)
  && evidence_ok evidence && forallb entry_policy due.

Definition is_benchmark (e : ScheduleEntry) : bool := String.eqb (se_operation e) "benchmark".

Definition run_benchmark_entry (eligible : bool) (observed_at : Z) (e : ScheduleEntry) : T unit :=
  go ← claim_fire e observed_at;
  if negb go then mret tt else
  if negb eligible
  then record (se_profile e) "scheduled_benchmark_skipped" "benchmark eligibility evidence unavailable" else
  texcept ((if presets_ok e then mret tt else tthrow (PyExc (ValueError "RunBenchmark"))) ;;
           mcall (_run_benchmark w cfg (se_profile e) sched_actor rid closed frozen_ok) ;;
           record (se_profile e) "scheduled_benchmark" "scheduled benchmark dispatched")
    (fun _ => record (se_profile e) "scheduled_benchmark_failed" "scheduled benchmark dispatch failed").

(** The benchmark entries of a tick. *)
Definition run_benchmarks (statuses : list profile_status) (observed_at : Z) (due : list ScheduleEntry)
    : T unit :=
  match due with
  | [] => mret tt
  | policy :: _ =>
      let reader := has_service cfg "status" "benchmark_eligibility" in
      (if reader then mcall (pause w) else mret tt) ;;
      let evidence := if reader then evidence_of policy else None in
      let eligible := benchmark_eligible statuses evidence due in
      titer (run_benchmark_entry eligible observed_at) due
  end.

Definition backup_failure (e : ScheduleEntry) (x : exc) : T unit :=
  let deferred := match x with SafeErr c _ _ => String.eqb c "profile_running" | _ => false end in
  (if deferred then record (se_profile e) "scheduled_backup_deferred" "scheduled backup deferred"
   else record (se_profile e) "scheduled_backup_failed" "scheduled backup failed") ;;
  if deferred then mret tt else notify.

(** Claim one entry and run it when it is a backup; switches are collected. *)
Definition run_entry (observed_at : Z) (e : ScheduleEntry) : T (list ScheduleEntry) :=
  go ← claim_fire e observed_at;
  if negb go then mret [] else
  let switch := if String.eqb (se_operation e) "switch" then [e] else [] in
  if negb (String.eqb (se_operation e) "backup") || bool_decide (se_destination e = None)
  then mret switch else
  texcept (mcall (_run_scheduled_backup w cfg (se_profile e) rid) ;;
           record (se_profile e) "scheduled_backup" "scheduled backup completed")
    (backup_failure e) ;;
  mret switch.

Fixpoint run_entries (observed_at : Z) (l : list ScheduleEntry) : T (list ScheduleEntry) :=
  match l with
  | [] => mret []
  | e :: l' => a ← run_entry observed_at e; b ← run_entries observed_at l'; mret (a ++ b)
  end.

Definition run_switch (owner : ProfileId) (e : ScheduleEntry) : T unit :=
  if bool_decide (se_profile e = owner)
  then record (se_profile e) "scheduled_switch" "scheduled profile is already the owner" else
  texcept (id ← mcall (_prepare_switch w cfg owner (se_profile e) (SwitchOptions false true false) sched_actor);
           mcall (_confirm_switch w cfg id (uuid_text id) sched_actor) ;;
           record (se_profile e) "scheduled_switch" "scheduled switch completed")
    (fun _ => record (se_profile e) "scheduled_switch" "scheduled switch failed").

Definition run_switches (statuses : list profile_status) (due : list ScheduleEntry) : T unit :=
  match due with
  | [] => mret tt
  | _ =>
      let skipped := titer (fun e => record (se_profile e) "scheduled_switch_skipped" "no active owner") due in
      match (st ← List.find (fun st => bool_decide (ps_owner st <> None)) statuses; ps_owner st) with
      | None => skipped
      | Some owner =>
          match find_status owner (rev statuses) with
          | None => skipped
          | Some current =>
              if negb (bool_decide (ps_players current = Some 0))
                 || bool_decide (ps_active_job current <> None)
              then titer (fun e => if bool_decide (se_profile e = owner) then mret tt
                                   else record (se_profile e) "scheduled_switch_skipped"
                                          "current owner has players or an active job") due
              else titer (run_switch owner) due
          end
      end
  end.

(** [self._schedule.due(observed_at)] *)
Definition book_due (observed_at : Z) : T (list ScheduleEntry) := fun s =>
  let '(l, b) := due observed_at (t_book s) in
  (Val l, Tst (t_core s) (t_streaks s) b (t_fired s)).

Definition _apply_schedules (statuses : list profile_status) (observed_at : Z) : T unit :=
  (fun s => match sb_entries (t_book s) with
   | [] => (Val tt, s)
   | _ =>
       (due ← book_due observed_at;
        run_benchmarks statuses observed_at (List.filter is_benchmark due) ;;
        switches ← run_entries observed_at (List.filter (fun e => negb (is_benchmark e)) due);
        run_switches statuses switches) s
   end).

(** [maintenance_tick]; [snapshot] is what the status service gave, with its time. *)
Definition maintenance_tick (snapshot : option (list profile_status * Z)) : T unit :=
  match snapshot with
  | Some (statuses, observed_at) =>
      _apply_idle_stops statuses ;; _apply_schedules statuses observed_at
  | None => mret tt
  end.
End Tick.
