(* ===== verification/IdleFacts.v ===== *)
(** When an idle stop is requested ([idle_stop.py]), and that a scheduled benchmark
    is never found eligible behind a slot observer. *)
From S2P Require Import Prelude Models Slot ControllerDb ControllerDbFacts Readiness Lifecycle Maintenance Schedule Status MaintenanceTick.

(** ** Streaks *)

Definition idle_enabled (c : idle_call) : Prop := 0 < ic_minutes c /\ idle_sample (ic_status c) = true.

(** The threshold of [c] is reached in a streak that began with [first]. *)
Definition reached (first c : idle_call) : Prop :=
  ic_minutes c * us_minute <= ic_now c - ic_now first.

#[export] Instance reached_dec a b : Decision (reached a b).
Proof. unfold reached. apply _. Defined.
#[export] Instance idle_enabled_dec c : Decision (idle_enabled c).
Proof. unfold idle_enabled. apply _. Defined.

(** Nothing, or a call that ended the streak. *)
Definition streak_break (pre : list idle_call) : Prop :=
  match last pre with None => True | Some c => ~ idle_enabled c end.

(** [calls] ends in the streak [first :: rest]. *)
Definition in_streak (calls : list idle_call) (first : idle_call) (rest : list idle_call) : Prop :=
  exists pre, calls = pre ++ first :: rest /\ streak_break pre /\ Forall idle_enabled (first :: rest).

(** The streak the tracker keeps after [calls]. *)
Definition tracks (calls : list idle_call) (k : option _Streak) : Prop :=
  match k with
  | None => streak_break calls
  | Some k => exists first rest, in_streak calls first rest /\ sk_started k = ic_now first /\
                (sk_attempted k = true <-> Exists (reached first) rest)
  end.

Definition observe_call (c : idle_call) (k : option _Streak) : bool * option _Streak :=
  idle_observe (ic_minutes c) (ic_now c) (ic_status c) k.

Lemma observe_disabled c k : ~ idle_enabled c -> observe_call c k = (false, None).
Proof.
  intros H. unfold observe_call, idle_observe. destruct (Z.leb_spec (ic_minutes c) 0); [done|].
  destruct (idle_sample (ic_status c)) eqn:E; [|done]. by destruct H.
Qed.

Lemma observe_enabled c k :
  idle_enabled c ->
  observe_call c k =
  match k with
  | None => (false, Some (Streak (ic_now c) false))
  | Some k =>
      if sk_attempted k then (false, Some k) else
      if ic_now c - sk_started k <? ic_minutes c * us_minute then (false, Some k) else
      (true, Some (Streak (sk_started k) true))
  end.
Proof.
  intros [Hm Hs]. unfold observe_call, idle_observe. rewrite Hs.
  destruct (Z.leb_spec (ic_minutes c) 0); [lia|done].
Qed.

Lemma streak_break_snoc pre c : streak_break (pre ++ [c]) <-> ~ idle_enabled c.
Proof. unfold streak_break. by rewrite last_snoc. Qed.

Lemma in_streak_snoc calls first rest c :
  in_streak calls first rest -> idle_enabled c -> in_streak (calls ++ [c]) first (rest ++ [c]).
Proof.
  intros (pre & -> & Hb & Hf) Hc. exists pre. split_and!; [by rewrite <- app_assoc|done|].
  rewrite app_comm_cons. apply Forall_app. split; [done|by apply Forall_singleton].
Qed.

(** A streak cannot begin inside another one. *)
Lemma break_not_inside pre first rest l :
  Forall idle_enabled (first :: rest) -> streak_break (pre ++ l) -> l `prefix_of` first :: rest -> l = [].
Proof.
  intros Hf Hb [k Hk]. destruct l as [|c l _] using rev_ind; [done|]. exfalso.
  rewrite app_assoc in Hb. apply streak_break_snoc in Hb. apply Hb.
  rewrite Forall_forall in Hf. apply Hf. rewrite Hk. set_solver.
Qed.

(** The last streak is determined by the calls. *)
Lemma in_streak_unique calls f1 r1 f2 r2 :
  in_streak calls f1 r1 -> in_streak calls f2 r2 -> f1 = f2 /\ r1 = r2.
Proof.
  intros (p1 & -> & Hb1 & Hf1) (p2 & Heq & Hb2 & Hf2).
  apply app_eq_inv in Heq as [(l & -> & Heq)|(l & -> & Heq)].
  - apply (break_not_inside _ f2 r2) in Hb1 as ->; [by simplify_list_eq|done|]. by exists (f1 :: r1).
  - apply (break_not_inside _ f1 r1) in Hb2 as ->; [by simplify_list_eq|done|]. by exists (f2 :: r2).
Qed.

Lemma break_not_streak calls first rest : streak_break calls -> ~ in_streak calls first rest.
Proof.
  intros Hb (pre & -> & _ & Hf). by apply (break_not_inside _ first rest) in Hb.
Qed.

(** ** What the tracker keeps *)

Lemma tracks_step calls k c :
  tracks calls k ->
  tracks (calls ++ [c]) (snd (observe_call c k)) /\
  (fst (observe_call c k) = true <->
   exists first rest, in_streak calls first rest /\ idle_enabled c /\ reached first c /\
                      Forall (fun x => ~ reached first x) rest).
Proof.
  intros Hk. destruct (decide (idle_enabled c)) as [Hc|Hc].
  2:{ rewrite observe_disabled by done. simpl. rewrite streak_break_snoc. split; [done|].
      split; [done|]. by intros (? & ? & _ & ? & _). }
  rewrite observe_enabled by done. destruct k as [k|]; simpl in Hk.
  - destruct Hk as (first & rest & Hs & Hst & Ha).
    pose proof (in_streak_snoc _ _ _ _ Hs Hc) as Hs'.
    destruct (sk_attempted k) eqn:Eat.
    + simpl. split.
      * exists first, (rest ++ [c]). split_and!; [done..|]. rewrite Eat, Exists_app. tauto.
      * split; [done|]. intros (f & r & Hs2 & _ & _ & Hn).
        apply (in_streak_unique _ _ _ _ _ Hs) in Hs2 as [<- <-].
        destruct Ha as [Ha _]. specialize (Ha eq_refl). rewrite Exists_exists in Ha.
        rewrite Forall_forall in Hn. naive_solver.
    + assert (Hn : Forall (fun x => ~ reached first x) rest).
      { apply Forall_Exists_neg. intros H. by apply Ha in H. }
      destruct (Z.ltb_spec (ic_now c - sk_started k) (ic_minutes c * us_minute)) as [Hlt|Hge]; simpl.
      * assert (Hnr : ~ reached first c) by (unfold reached; rewrite <- Hst; lia). split.
        -- exists first, (rest ++ [c]). split_and!; [done..|]. rewrite Eat, Exists_app, Exists_cons, Exists_nil.
           tauto.
        -- split; [done|]. intros (f & r & Hs2 & _ & Hr & _).
           apply (in_streak_unique _ _ _ _ _ Hs) in Hs2 as [<- <-]. done.
      * assert (Hr : reached first c) by (unfold reached; rewrite <- Hst; lia). split; [|naive_solver].
        exists first, (rest ++ [c]). split_and!; [done..|]. split; [|done]. intros _.
        apply Exists_app. right. by constructor.
  - simpl. split.
    + exists c, []. split_and!; [|done|by rewrite Exists_nil].
      exists calls. split_and!; [done..|]. by apply Forall_singleton.
    + split; [done|]. intros (f & r & Hs & _). by apply break_not_streak in Hs.
Qed.

(** ** All profiles *)

Lemma streak_of_set p q k l :
  streak_of p (set_streak q k l) = if bool_decide (p = q) then k else streak_of p l.
Proof.
  unfold streak_of, set_streak. case_bool_decide as Hpq.
  - subst q. destruct k as [k|]; simpl; [by rewrite bool_decide_true|].
    induction l as [|[r k] l IH]; [done|]. simpl. destruct (bool_decide_reflect (r = p)); simpl; [done|].
    by rewrite bool_decide_false.
  - assert (Hl : List.find (fun x => bool_decide (fst x = p))
                   (List.filter (fun x => negb (bool_decide (fst x = q))) l)
                 = List.find (fun x : ProfileId * _Streak => bool_decide (fst x = p)) l).
    { induction l as [|[r k'] l IH]; [done|]. simpl.
      destruct (bool_decide_reflect (r = q)); simpl.
      - subst. rewrite bool_decide_false by done. done.
      - destruct (bool_decide (r = p)); [done|]. exact IH. }
    destruct k as [k|]; simpl; [rewrite bool_decide_false by done|]; by rewrite Hl.
Qed.

(** The streaks after a sequence of calls on a new tracker. *)
Definition tracker_run (calls : list idle_call) : list (ProfileId * _Streak) :=
  fold_left (fun l c => snd (tracker_step c l)) calls [].

Definition calls_of (p : ProfileId) (calls : list idle_call) : list idle_call :=
  filter (fun c => ic_profile c = p) calls.

Lemma tracker_step_eq c l :
  tracker_step c l =
  (fst (observe_call c (streak_of (ic_profile c) l)),
   set_streak (ic_profile c) (snd (observe_call c (streak_of (ic_profile c) l))) l).
Proof. unfold tracker_step, observe_call. by destruct (idle_observe _ _ _ _). Qed.

Lemma tracker_tracks p calls : tracks (calls_of p calls) (streak_of p (tracker_run calls)).
Proof.
  induction calls as [|c calls IH] using rev_ind; [done|].
  unfold tracker_run, calls_of. rewrite fold_left_app, filter_app. simpl. fold (tracker_run calls).
  rewrite tracker_step_eq. cbn [snd]. rewrite streak_of_set, filter_cons, filter_nil.
  case_bool_decide as Hp; case_decide as Hp'; try congruence.
  - subst p. by apply tracks_step.
  - by rewrite app_nil_r.
Qed.

(** C23.  Idle stops: after any sequence of observations of any profiles, an
    observation asks for a stop exactly when the observations of its profile end in
    an unbroken run of enabled zero-player samples of the running profile without a
    job, the configured minutes have passed since the first of them, and none of
    the samples in between had already reached its threshold: each streak asks for
    one stop, as soon as it is long enough. *)
Theorem idle_stop_once_per_streak calls c :
  fst (tracker_step c (tracker_run calls)) = true <->
  exists first rest, in_streak (calls_of (ic_profile c) calls) first rest /\ idle_enabled c /\
    reached first c /\ Forall (fun x => ~ reached first x) rest.
Proof.
  rewrite tracker_step_eq. cbn [fst].
  destruct (tracks_step _ _ c (tracker_tracks (ic_profile c) calls)) as [_ H]. exact H.
Qed.

(** Scheduled benchmarks: in every snapshot that [StatusService._sample] takes
    of at least one profile with a slot observer configured, whatever the owner, the
    jobs and the probes say, the benchmark entries of the tick are not eligible, and
    the preflight evidence denies [no_conflicting_jobs]: a profile that is not
    probed has no player count, and [None != 0]. *)
Theorem scheduled_benchmark_never_eligible owner job_of pb profiles evidence entries t mw rs wp pp :
  profiles <> [] ->
  let statuses := map fs_core (_sample true owner job_of pb profiles) in
  benchmark_eligible statuses evidence entries = false /\
  (owner = None -> assoc "no_conflicting_jobs" (benchmark_eligibility statuses t mw rs wp pp) = Some false).
Proof.
  intros Hne statuses. destruct profiles as [|p profiles]; [done|].
  destruct (sampled_not_idle owner job_of pb p (p :: profiles)) as (st & Hst & Hbusy); [left|].
  fold statuses in Hst. split.
  - unfold benchmark_eligible. destruct Hbusy as [Hb|[Hb|Hb]].
    1,2: replace (existsb busy_status statuses) with true; [done|symmetry; apply existsb_exists; exists st];
      (split; [by apply list_elem_of_In|]); unfold busy_status.
    + by rewrite Hb.
    + rewrite (bool_decide_true (ps_active_job st <> None)) by done. by rewrite orb_true_r.
    + replace (existsb (fun x => bool_decide (ps_owner x <> None)) statuses) with true;
        [by rewrite andb_false_r|symmetry; apply existsb_exists; exists st].
      split; [by apply list_elem_of_In|]. by apply bool_decide_eq_true.
  - intros ->. rewrite benchmark_evidence_conflicts. f_equal. apply not_true_iff_false.
    rewrite forallb_forall. intros H. apply list_elem_of_In in Hst. pose proof (H _ Hst) as Hp.
    unfold proven_stopped in Hp. to_prop. destruct Hbusy as [Hb|[Hb|Hb]]; [congruence..|].
    apply Hb. apply list_elem_of_In, list_elem_of_fmap in Hst as (y & -> & Hy).
    apply list_elem_of_fmap in Hy as (q & -> & _). case_match; [|done].
    unfold sample_full. by destruct (probe_health _ _ _) as [[[? ?] ?] ?].
Qed.

Definition quiet_probes : probes :=
  Probes (fun _ => None) (fun _ _ => NoChecker) None (fun _ => None).

Lemma scheduled_benchmark_never_eligible_witness :
  _sample true None (fun _ => None) quiet_probes [MINECRAFT] =
    [FullStatus (ProfileStatus MINECRAFT STOPPED None None None (Some false)) UNKNOWN None] /\
  benchmark_eligible (map fs_core (_sample true None (fun _ => None) quiet_probes [MINECRAFT])) None [] = false.
Proof.
  split; [vm_compute; reflexivity|].
  exact (proj1 (scheduled_benchmark_never_eligible None (fun _ => None) quiet_probes [MINECRAFT] None [] 0
    true true "safe" (PreflightProbes [] None None false) ltac:(discriminate))).
Defined.
