(* ===== verification/TickFacts.v ===== *)
(** The maintenance tick: each scheduled fire runs at most once, across restarts and
    configuration changes. *)
From S2P Require Import Prelude Models Slot ControllerDb ControllerDbFacts Readiness Lifecycle Maintenance Hoare Dispatch LeaseFacts Schedule Status MaintenanceTick.

(** ** Events are never removed *)

(** Is this the call of the backup service for a schedule? *)
Definition sched_work (e : Lifecycle.event) : bool :=
  match e with EWork op _ => String.eqb op sched_op | _ => false end.

Definition worked (s : cst) : nat := length (List.filter sched_work (c_trace s)).

(** Events are kept and no scheduled backup is run. *)
Definition grow (s s' : cst) : Prop :=
  events (c_db s) ⊆ events (c_db s') /\ worked s' = worked s.

#[export] Instance grow_preorder : PreOrder grow.
Proof.
  split; [by split|]. intros a b c [H1 H2] [H3 H4]. split; [by etrans|congruence].
Qed.

#[local] Abbreviation grows := (stable grow).

Lemma run_dbop_events o d : events d ⊆ events (run_dbop o d).
Proof.
  destruct o; simpl; try done;
    unfold _record_event, _consume_confirmation; repeat (split_match; simpl; try done); set_solver.
Qed.

Lemma run_dbops_events l d : events d ⊆ events (run_dbops l d).
Proof.
  revert d. induction l as [|o l IH]; intros d; [done|]. simpl. etrans; [apply run_dbop_events|apply IH].
Qed.

Section Grow.
Context (w : world) (cfg : config).

Lemma grows_log e : sched_work e = false -> grows (log e).
Proof. intros He s. split; [done|]. unfold worked. simpl. by rewrite List.filter_app, length_app; simpl; rewrite He. Qed.

Lemma grows_modify f :
  (forall s, c_db (f s) = c_db s /\ c_trace (f s) = c_trace s) -> grows (modify f).
Proof. intros Hf s. destruct (Hf s) as [H1 H2]. unfold grow, worked. simpl. by rewrite H1, H2. Qed.

Lemma grows_db f : (forall d, events d ⊆ events (f d)) -> grows (modify (fun s => set_db (f (c_db s)) s)).
Proof. intros Hf s. by split. Qed.

Lemma grows_pass : grows (pass w).
Proof. intros s. split; [|done]. simpl. apply run_dbops_events. Qed.

Lemma grows_now_tick : grows now_tick.
Proof. by split. Qed.

Lemma grows_transaction {A} (f : Z -> db -> ctl A * db) :
  (forall now d, events d ⊆ events (snd (f now d))) -> grows (_transaction w f).
Proof.
  intros Hf s. unfold _transaction, mbind, M_bind, gets, modify, lift, throw. simpl.
  destruct (w_tx w (c_tick s)) as [x|after]; simpl.
  - split; [apply run_dbops_events|done].
  - match goal with |- context [f ?n ?d] => specialize (Hf n d); destruct (f n d) as [r d'] end.
    simpl in *. split; [|destruct after; done].
    trans (events (run_dbops (w_db w (c_tick s)) (c_db s))); [apply run_dbops_events|].
    by destruct after.
Qed.

Lemma grows_in_frame {A} (m : M A) : grows m -> grows (in_frame m).
Proof.
  intros Hm s. unfold in_frame. specialize (Hm (set_frame empty_frame s)).
  destruct (m _) as [r s']. exact Hm.
Qed.

Lemma grows_io {A} (call : env -> node -> res A * node) c : grows (_reservation_io w call c).
Proof.
  intros s. unfold _reservation_io, mbind, M_bind, gets, modify. simpl.
  destruct (call _ _) as [r f']. simpl. pose proof (run_dbops_events (w_db w (c_tick s)) (c_db s)).
  destruct (w_io_cancelled w (c_tick s)), r, c; simpl; (split; [|done]);
    try done; etrans; [done|apply run_dbops_events].
Qed.

Lemma grows_begin p : grows (begin_ticket p).
Proof. intros s. unfold begin_ticket. by destruct (ready_begin _ _) as [[?|?] ?]. Qed.

Lemma grows_finish id actor action p ok c d st : grows (finish w id actor action p ok c d st).
Proof.
  unfold finish. apply (stable_bind grow); [|intro; by apply grows_log].
  apply grows_transaction. done.
Qed.

Lemma grows_job_intent actor action p : grows (job_intent w actor action p).
Proof.
  unfold job_intent. apply (stable_bind grow).
  - apply grows_transaction. done.
  - intro. apply (stable_bind grow); [by apply grows_log|]. intro. apply (stable_ret grow).
Qed.

Lemma grows_audit actor action p r c d : grows (_record_audit w actor action p r c d).
Proof. by apply grows_transaction. Qed.

Lemma grows_audit_sync actor action p c d : grows (_audit_rejection_sync w actor action p c d).
Proof.
  unfold _audit_rejection_sync. apply (stable_bind grow); [apply grows_now_tick|]. intro n.
  by apply (grows_db (fun d0 => _audit (w_now w n) actor action (Some p) "rejected" (Some c) d d0)).
Qed.

Lemma grows_record_event p c m : grows (record_event w p c m).
Proof.
  apply grows_transaction. intros now d. apply (run_dbop_events (OEvent (w_recent w) now (Some p) c m)).
Qed.

Lemma grows_create actor action p payload : grows (create_confirmation w actor action p payload).
Proof.
  unfold create_confirmation. apply (stable_bind grow); [apply grows_now_tick|intro n].
  apply (stable_bind grow); [apply (stable_gets grow)|intro d]. by apply grows_transaction.
Qed.

Lemma grows_consume actor action id : grows (consume_confirmation w actor action id).
Proof.
  apply grows_transaction. intros now d. pose proof (run_dbop_events (OConsume now actor action id) d) as H.
  simpl in H. by destruct (_consume_confirmation _ _ _ _ _) as [[?|?] ?].
Qed.

Create HintDb grows.
#[local] Hint Resolve grows_pass grows_now_tick grows_io grows_begin grows_finish grows_job_intent
  grows_audit grows_audit_sync grows_record_event grows_create grows_consume : grows.

(** Unfold the handler at the head of a computation. *)
Ltac unfold_head m := lazymatch m with ?f _ => unfold_head f | ?f => unfold f end.

Ltac grows_step :=
  first
    [ assumption
    | apply (stable_ret grow) | apply (stable_throw grow) | apply (stable_lift grow)
    | apply (stable_gets grow) | apply (stable_getf grow) | apply (stable_when grow)
    | apply grows_log; (done || match goal with H : sched_work _ = false |- _ => exact H end)
    | apply grows_modify; by intros ?
    | apply grows_transaction; done
    | solve [auto with grows]
    | match goal with
      | |- grows (mbind _ _) => apply (stable_bind grow); [|intro]
      | |- grows (catch _ _) => apply (stable_catch grow); [|intro]
      | |- grows (finally _ _) => apply (stable_finally grow); [|intro]
      | |- grows (work _ _) => apply (stable_work grow); intro
      | |- grows (in_frame _) => apply grows_in_frame
      | |- grows (match ?x with _ => _ end) => destruct x eqn:?
      | |- grows (let _ := _ in _) => cbv zeta
      | |- grows (setf _) => unfold setf
      | |- grows ?m => unfold_head m
      end ].
Ltac grows_tac := repeat grows_step.

Lemma grows_await c r d :
  (match c with Some e => sched_work e = false | None => True end) -> grows (_await_lease w c r d).
Proof. intros Hc. unfold _await_lease, lost_lease, _assert_lease. destruct c; by grows_tac. Qed.
Lemma grows_assert r : grows (_assert_lease w r).
Proof. unfold _assert_lease. by grows_tac. Qed.
Lemma grows_find p : grows (find_profile cfg p).
Proof. unfold find_profile. by grows_tac. Qed.
Lemma grows_adapter p : grows (_adapter cfg p).
Proof. unfold _adapter. by grows_tac. Qed.
Lemma grows_require p o actor : grows (_require_operation w p o actor).
Proof. unfold _require_operation. by grows_tac. Qed.
Lemma grows_drain r : grows (_drain_renewal w r).
Proof. unfold _drain_renewal. by grows_tac. Qed.
#[local] Hint Resolve grows_assert grows_find grows_adapter grows_require grows_drain : grows.
#[local] Hint Extern 1 (grows (_await_lease _ _ _ _)) => apply grows_await; done : grows.

Lemma grows_pause : grows (pause w).
Proof. unfold pause. by grows_tac. Qed.
Lemma grows_clear l : grows (_clear_reservation w cfg l).
Proof. unfold _clear_reservation. by grows_tac. Qed.
#[local] Hint Resolve grows_pause grows_clear : grows.
Lemma grows_release p l r : grows (_release_lease w cfg p l r).
Proof. unfold _release_lease. by grows_tac. Qed.
Lemma grows_reserve p op id actor : grows (_reserve w cfg p op id actor).
Proof. unfold _reserve, reserve_lease, reserve_failed. by grows_tac. Qed.
#[local] Hint Resolve grows_release grows_reserve : grows.
Lemma grows_free p r : grows (_wait_for_free_slot w p r).
Proof. unfold _wait_for_free_slot. by grows_tac. Qed.
Lemma grows_probe p r : grows (_probe_start_health w p r).
Proof. unfold _probe_start_health. by grows_tac. Qed.
Lemma grows_start p r : grows (adapter_start w cfg p r).
Proof. unfold adapter_start. by grows_tac. Qed.
Lemma grows_graceful p r : grows (adapter_graceful_stop w cfg p r).
Proof. unfold adapter_graceful_stop. by grows_tac. Qed.
Lemma grows_force p r : grows (adapter_force_stop w cfg p r).
Proof. unfold adapter_force_stop. by grows_tac. Qed.
#[local] Hint Resolve grows_free grows_probe grows_start grows_graceful grows_force : grows.
Lemma grows_release_frame b : grows (release_frame w cfg b).
Proof. unfold release_frame. by grows_tac. Qed.
Lemma grows_finish_job actor action p ok c d : grows (finish_job w actor action p ok c d).
Proof. unfold finish_job. by grows_tac. Qed.
#[local] Hint Resolve grows_release_frame grows_finish_job : grows.

Lemma grows_stop pid actor rid : grows (_stop w cfg pid actor rid).
Proof. grows_tac. Qed.

Lemma grows_prepare_switch c t o actor : grows (_prepare_switch w cfg c t o actor).
Proof. grows_tac. Qed.

Lemma grows_confirm_switch id lid actor : grows (_confirm_switch w cfg id lid actor).
Proof. grows_tac. Qed.

Lemma grows_run_benchmark pid actor rid closed fz : grows (_run_benchmark w cfg pid actor rid closed fz).
Proof. grows_tac. Qed.
End Grow.

(** ** Computations that run at most [n] scheduled backups *)

Definition upto {A} (n : nat) (m : M A) : Prop := forall s,
  events (c_db s) ⊆ events (c_db (snd (m s))) /\ (worked (snd (m s)) <= n + worked s)%nat.

Lemma upto_grows {A} n (m : M A) : stable grow m -> upto n m.
Proof. intros Hm s. destruct (Hm s) as [H1 H2]. split; [done|lia]. Qed.

Lemma upto_bind {A B} n k (m : M A) (f : A -> M B) :
  upto n m -> (forall a, upto k (f a)) -> upto (n + k) (mbind f m).
Proof.
  intros Hm Hf s. destruct (Hm s) as [H1 H2]. unfold mbind, M_bind.
  destruct (m s) as [[a|x] s']; simpl in *; [|split; [done|lia]].
  destruct (Hf a s') as [H3 H4]. split; [by etrans|lia].
Qed.

Lemma upto_catch {A} n k (m : M A) h :
  upto n m -> (forall x, upto k (h x)) -> upto (n + k) (catch m h).
Proof.
  intros Hm Hf s. destruct (Hm s) as [H1 H2]. unfold catch.
  destruct (m s) as [[a|x] s']; simpl in *; [split; [done|lia]|].
  destruct (Hf x s') as [H3 H4]. split; [by etrans|lia].
Qed.

Lemma upto_finally {A} n k (m : M A) f :
  upto n m -> (forall b, upto k (f b)) -> upto (n + k) (finally m f).
Proof.
  intros Hm Hf s. destruct (Hm s) as [H1 H2]. unfold finally.
  destruct (m s) as [[a|x] s1]; simpl in *; [destruct (Hf false s1) as [H3 H4]; destruct (f false s1) as [[?|?] s2]
    |destruct (Hf true s1) as [H3 H4]; destruct (f true s1) as [[?|?] s2]]; simpl in *; (split; [by etrans|lia]).
Qed.

Lemma upto_work w e r d : upto 1 (_await_lease w (Some e) r d).
Proof.
  intros s. change (_await_lease w (Some e) r d s) with (_await_lease w None r d (add_trace e s)).
  destruct (grows_await w None r d I (add_trace e s)) as [H1 H2]. split; [done|].
  rewrite H2. unfold worked. simpl. rewrite List.filter_app, length_app. simpl. destruct (sched_work e); simpl; lia.
Qed.

Section Scheduled.
Context (w : world) (cfg : config).

Lemma upto_scheduled_backup pid rid : upto 1 (_run_scheduled_backup w cfg pid rid).
Proof.
  unfold _run_scheduled_backup, _operation_lease.
  apply (upto_bind 0 1); [apply upto_grows, grows_find|intros p].
  destruct (negb _); [by apply upto_grows, (stable_throw grow)|].
  apply (upto_bind 0 1); [apply upto_grows, grows_reserve|intros l].
  apply (upto_finally 1 0); [|intros b; apply upto_grows, grows_release].
  apply (upto_bind 0 1); [apply upto_grows, grows_assert|intros _].
  apply (upto_bind 0 1); [apply upto_grows, grows_job_intent|intros id].
  apply (upto_bind 1 0).
  - apply (upto_catch 1 0).
    + apply (upto_bind 1 0); [apply upto_work|intros b; apply upto_grows, (stable_ret grow)].
    + intros x. apply upto_grows. destruct x; cbv zeta; apply (stable_bind grow);
        solve [apply grows_finish | intro; apply (stable_throw grow)].
  - intros _. apply upto_grows, (stable_bind grow); [apply grows_finish|intro; apply (stable_ret grow)].
Qed.

(** A recorded event is in the table. *)
Lemma record_event_marks p code m s s' a :
  record_event w p code m s = (Val a, s') ->
  exists ev, ev ∈ events (c_db s') /\ ev_profile ev = Some p /\ ev_code ev = code /\ ev_message ev = cut512 m.
Proof.
  unfold record_event, _transaction, mbind, M_bind, gets, modify, lift, throw. simpl.
  destruct (w_tx w (c_tick s)) as [x|[x|]]; simpl; [done..|]. intros [= _ <-]. simpl.
  unfold ControllerDb._record_event. destruct (existsb _ _) eqn:E.
  - apply existsb_exists in E as (ev & Hin & Hev). exists ev. to_prop. split; [by apply list_elem_of_In|done].
  - eexists. split; [simpl; apply elem_of_app; right; by left|done].
Qed.
End Scheduled.

(** ** The invariant of a tick *)

(** A key that [message[:512]] does not cut. *)
Definition short (k : string) : Prop := (String.length k <= 512)%nat.
#[export] Instance short_dec k : Decision (short k).
Proof. unfold short. apply _. Defined.

Lemma substring_all n s : (String.length s <= n)%nat -> String.substring 0 n s = s.
Proof.
  revert n. induction s as [|c s IH]; intros [|n] H; simpl in *; try done; [lia|].
  f_equal. apply IH. lia.
Qed.

Lemma cut512_short k : short k -> cut512 k = k.
Proof. apply substring_all. Qed.

Definition marked (p : ProfileId) (k : string) (d : db) : Prop :=
  exists ev, ev ∈ events d /\ fire_marker p k ev = true.

Lemma marked_seen p k d : marked p k d <-> existsb (fire_marker p k) (events d) = true.
Proof. rewrite existsb_exists. unfold marked. by setoid_rewrite list_elem_of_In. Qed.

(** The short fires are distinct and marked, and [n] more fires than scheduled
    backups were run. *)
Record tinv (n : nat) (s : tst) : Prop := {
  ti_nodup : NoDup (filter (fun f => short (snd f)) (t_fired s));
  ti_marked : forall p k, (p, k) ∈ t_fired s -> short k -> marked p k (c_db (t_core s));
  ti_worked : (worked (t_core s) + n <= length (t_fired s))%nat;
}.

Definition tgood {A} (n : nat) (m : T A) (post : A -> nat) : Prop := forall s, tinv n s ->
  match m s with (Val a, s') => tinv (post a) s' | (Exc _, s') => tinv 0 s' end.

Lemma tinv_weaken n k s : (k <= n)%nat -> tinv n s -> tinv k s.
Proof. intros Hle [H1 H2 H3]. constructor; [done..|lia]. Qed.

Lemma tinv_core n k s c :
  tinv n s -> events (c_db (t_core s)) ⊆ events (c_db c) -> (worked c + k <= worked (t_core s) + n)%nat ->
  tinv k (Tst c (t_streaks s) (t_book s) (t_fired s)).
Proof.
  intros [H1 H2 H3] He Hw. constructor; simpl; [done| |lia].
  intros p key Hin Hs. destruct (H2 p key Hin Hs) as (ev & Hev & Hm). exists ev. split; [by apply He|done].
Qed.

Lemma tgood_ret {A} n (a : A) (post : A -> nat) : (post a <= n)%nat -> tgood n (mret a) post.
Proof. intros Hle s Hs. by eapply tinv_weaken. Qed.

Lemma tgood_throw {A} n x (post : A -> nat) : tgood n (tthrow x) post.
Proof. intros s Hs. eapply tinv_weaken; [|done]. lia. Qed.

Lemma tgood_bind {A B} n (m : T A) (f : A -> T B) mid post :
  tgood n m mid -> (forall a, tgood (mid a) (f a) post) -> tgood n (mbind f m) post.
Proof.
  intros Hm Hf s Hs. specialize (Hm s Hs). unfold mbind, T_bind.
  destruct (m s) as [[a|x] s']; [by apply Hf|done].
Qed.

Lemma tgood_seq {A B} (m : T A) (f : A -> T B) :
  tgood 0 m (fun _ => 0%nat) -> (forall a, tgood 0 (f a) (fun _ => 0%nat)) -> tgood 0 (mbind f m) (fun _ => 0%nat).
Proof. apply tgood_bind. Qed.

Lemma tgood_except {A} n (m : T A) h post :
  tgood n m post -> (forall x, tgood 0 (h x) post) -> tgood n (texcept m h) post.
Proof.
  intros Hm Hh s Hs. specialize (Hm s Hs). unfold texcept, tcatch.
  destruct (m s) as [[a|x] s']; [done|]. destruct (is_exception x); [by apply Hh|done].
Qed.

Lemma tgood_pre {A} n k (m : T A) post : (k <= n)%nat -> tgood k m post -> tgood n m post.
Proof. intros Hle Hm s Hs. apply Hm. by eapply tinv_weaken. Qed.

Lemma tgood_upto {A} n k (m : M A) : upto n m -> tgood (n + k) (mcall m) (fun _ => k).
Proof.
  intros Hm s Hs. unfold mcall. destruct (Hm (t_core s)) as [H1 H2].
  destruct (m (t_core s)) as [[a|x] c]; simpl in *; (eapply tinv_core; [done|done|lia]).
Qed.

Lemma tgood_call {A} n (m : M A) : stable grow m -> tgood n (mcall m) (fun _ => n).
Proof. intros Hm. by apply (tgood_upto 0), upto_grows. Qed.

Lemma tgood_iter {A} (f : A -> T unit) l :
  (forall a, tgood 0 (f a) (fun _ => 0%nat)) -> tgood 0 (titer f l) (fun _ => 0%nat).
Proof.
  intros Hf. induction l as [|a l IH]; [by apply tgood_ret|]. by apply tgood_seq.
Qed.

Section Ticks.
Context (w : world) (cfg : config) (rid : string).
Context (idle_stop_minutes : ProfileId -> Z) (json_text : json -> string)
        (evidence_of : ScheduleEntry -> option (list (string * bool)))
        (presets_ok : ScheduleEntry -> bool) (uuid_text : Z -> string)
        (closed : bool) (frozen_ok : ctl unit).

Lemma tgood_record n p c m : tgood n (record w p c m) (fun _ => n).
Proof. apply tgood_call, grows_record_event. Qed.

Lemma tgood_notify : tgood 0 (notify w cfg) (fun _ => 0%nat).
Proof.
  unfold notify. destruct (has_service _ _ _); [apply tgood_call, grows_pause|by apply tgood_ret].
Qed.

Lemma tgood_idle st : tgood 0 (apply_idle_stop w cfg rid idle_stop_minutes st) (fun _ => 0%nat).
Proof.
  unfold apply_idle_stop. destruct (cf_profiles _ _) as [p|]; [|by apply tgood_ret].
  apply tgood_seq; [apply tgood_call, grows_now_tick|intros n]. apply tgood_seq.
  { intros s Hs. unfold tracker_observe. destruct (tracker_step _ _) as [b l]. by destruct Hs. }
  intros due. destruct (negb due); [by apply tgood_ret|].
  apply tgood_seq; [apply tgood_record|intros _]. apply tgood_seq; [apply tgood_notify|intros _].
  apply tgood_except; [|intros x; apply tgood_record].
  apply tgood_seq; [apply tgood_call, grows_stop|intros _; by apply tgood_ret].
Qed.

(** A claimed fire is new, and marked before it runs. *)
Lemma tgood_claim e t : tgood 0 (claim_fire w json_text e t) (fun b => if b then 1 else 0)%nat.
Proof.
  intros s Hs. unfold claim_fire, fire_seen, mcall, mbind, T_bind, gets. simpl.
  destruct (_schedule_fire_seen _ _ _ _) eqn:Eseen; simpl; [by destruct Hs|].
  unfold record, mcall. set (key := _schedule_fire_key json_text e t).
  pose proof (grows_record_event w (se_profile e) "scheduled_fire" key (t_core s)) as [Hg Hw].
  destruct (record_event _ _ _ _ _) as [[[]|x] c] eqn:Erec; simpl in *.
  2:{ eapply tinv_core; [exact Hs|done|]. rewrite Hw. lia. }
  pose proof (record_event_marks _ _ _ _ _ _ _ Erec) as (ev & Hev & Hp & Hc & Hm).
  destruct Hs as [H1 H2 H3]. constructor; simpl.
  - rewrite filter_app, filter_cons, filter_nil. case_decide as Hk; [|by rewrite app_nil_r].
    apply NoDup_app. split_and!; [done| |apply NoDup_singleton].
    intros f [_ Hf]%list_elem_of_filter ->%list_elem_of_singleton.
    apply (H2 _ _ Hf), marked_seen in Hk. unfold _schedule_fire_seen in Eseen. fold key in Eseen. congruence.
  - intros p k [Hin|[= -> ->]%list_elem_of_singleton]%elem_of_app Hk.
    + destruct (H2 p k Hin Hk) as (ev' & Hev' & Hm'). exists ev'. split; [by apply Hg|done].
    + exists ev. split; [done|]. unfold fire_marker. rewrite Hp, Hc, Hm, cut512_short by done.
      by rewrite bool_decide_true, !String.eqb_refl.
  - rewrite length_app. simpl. lia.
Qed.

Lemma tgood_benchmark b t e :
  tgood 0 (run_benchmark_entry w cfg rid json_text presets_ok closed frozen_ok b t e) (fun _ => 0%nat).
Proof.
  eapply tgood_bind; [apply tgood_claim|]. intros go. apply (tgood_pre _ 0); [destruct go; lia|].
  destruct (negb go); [by apply tgood_ret|]. destruct (negb b); [apply tgood_record|].
  apply tgood_except; [|intros x; apply tgood_record].
  apply tgood_seq; [destruct (presets_ok e); [by apply tgood_ret|apply tgood_throw]|intros _].
  apply tgood_seq; [apply tgood_call, grows_run_benchmark|intros _; apply tgood_record].
Qed.

Lemma tgood_benchmarks sts t due :
  tgood 0 (run_benchmarks w cfg rid json_text evidence_of presets_ok closed frozen_ok sts t due) (fun _ => 0%nat).
Proof.
  destruct due as [|e due]; [by apply tgood_ret|]. unfold run_benchmarks.
  apply tgood_seq; [destruct (has_service _ _ _); [apply tgood_call, grows_pause|by apply tgood_ret]|intros _].
  apply tgood_iter. intros a. apply tgood_benchmark.
Qed.

Lemma tgood_backup_failure e x : tgood 0 (backup_failure w cfg e x) (fun _ => 0%nat).
Proof.
  unfold backup_failure. cbv zeta. apply tgood_seq; intros.
  - case_match; apply tgood_record.
  - case_match; [by apply tgood_ret|apply tgood_notify].
Qed.

Lemma tgood_entry t e : tgood 0 (run_entry w cfg rid json_text t e) (fun _ => 0%nat).
Proof.
  eapply tgood_bind; [apply tgood_claim|]. intros go. destruct go; [|by apply tgood_ret]. cbv zeta. simpl.
  destruct (_ || _); [apply tgood_ret; lia|].
  eapply tgood_bind; [|intros u; by apply (tgood_ret 0)].
  apply tgood_except; [|intros x; apply tgood_backup_failure].
  eapply tgood_bind; [apply (tgood_upto 1 0), upto_scheduled_backup|]. intros u; apply tgood_record.
Qed.

Lemma tgood_entries t l : tgood 0 (run_entries w cfg rid json_text t l) (fun _ => 0%nat).
Proof.
  induction l as [|e l IH]; [by apply tgood_ret|]. simpl.
  apply tgood_seq; [apply tgood_entry|intros a]. apply tgood_seq; [done|intros b]. by apply tgood_ret.
Qed.

Lemma tgood_switch owner e : tgood 0 (run_switch w cfg uuid_text owner e) (fun _ => 0%nat).
Proof.
  unfold run_switch. case_bool_decide; [apply tgood_record|].
  apply tgood_except; [|intros x; apply tgood_record].
  apply tgood_seq; [apply tgood_call, grows_prepare_switch|intros id].
  apply tgood_seq; [apply tgood_call, grows_confirm_switch|intros _; apply tgood_record].
Qed.

Lemma tgood_switches sts due : tgood 0 (run_switches w cfg uuid_text sts due) (fun _ => 0%nat).
Proof.
  destruct due as [|e due]; [by apply tgood_ret|]. unfold run_switches. cbv zeta.
  destruct (mbind _ _) as [owner|]; [|apply tgood_iter; intros a; apply tgood_record].
  destruct (find_status _ _) as [cur|]; [|apply tgood_iter; intros a; apply tgood_record].
  destruct (_ || _); apply tgood_iter; intros a; [|apply tgood_switch].
  case_bool_decide; [by apply tgood_ret|apply tgood_record].
Qed.

Lemma tgood_tick snapshot :
  tgood 0 (maintenance_tick w cfg rid idle_stop_minutes json_text evidence_of presets_ok uuid_text closed
             frozen_ok snapshot) (fun _ => 0%nat).
Proof.
  destruct snapshot as [[sts t]|]; [|by apply tgood_ret]. simpl.
  apply tgood_seq; [apply tgood_iter; intros st; apply tgood_idle|intros _].
  intros s Hs. unfold _apply_schedules. destruct (sb_entries (t_book s)) as [|e es]; [done|].
  revert s Hs. change (tgood 0 (due ← book_due t;
     run_benchmarks w cfg rid json_text evidence_of presets_ok closed frozen_ok sts t (List.filter is_benchmark due) ;;
     switches ← run_entries w cfg rid json_text t (List.filter (fun e => negb (is_benchmark e)) due);
     run_switches w cfg uuid_text sts switches) (fun _ => 0%nat)).
  apply tgood_seq.
  { intros s Hs. unfold book_due. destruct (due _ _) as [l b]. by destruct Hs. }
  intros due. apply tgood_seq; [apply tgood_benchmarks|intros _].
  apply tgood_seq; [apply tgood_entries|intros l]. apply tgood_switches.
Qed.
End Ticks.

(** ** Histories *)

(** What a tick takes from outside. *)
Record tick_args := TickArgs {
  ta_world : world;
  ta_config : config;
  ta_rid : string;
  ta_minutes : ProfileId -> Z;
  ta_text : json -> string;
  ta_evidence : ScheduleEntry -> option (list (string * bool));
  ta_presets : ScheduleEntry -> bool;
  ta_uuid : Z -> string;
  ta_closed : bool;
  ta_frozen : ctl unit;
  ta_snapshot : option (list profile_status * Z);
}.

Definition run_tick (a : tick_args) (s : tst) : tst :=
  snd (maintenance_tick (ta_world a) (ta_config a) (ta_rid a) (ta_minutes a) (ta_text a) (ta_evidence a)
         (ta_presets a) (ta_uuid a) (ta_closed a) (ta_frozen a) (ta_snapshot a) s).

(** A tick (ended by an exception or not), other work of the controller, which adds
    rows and runs no scheduled backup, a new schedule ([set_schedules]), and a
    restart, which keeps only the database. *)
Inductive tstep : tst -> tst -> Prop :=
  | ts_tick a s : tstep s (run_tick a s)
  | ts_other s c : grow (t_core s) c -> tstep s (Tst c (t_streaks s) (t_book s) (t_fired s))
  | ts_schedules s entries :
      tstep s (Tst (t_core s) (t_streaks s) (mkScheduleBook entries None) (t_fired s))
  | ts_restart s entries :
      tstep s (Tst (t_core s) [] (mkScheduleBook entries None) (t_fired s)).

Lemma tstep_inv s s' : tinv 0 s -> tstep s s' -> tinv 0 s'.
Proof.
  intros Hs. destruct 1 as [a s|s c [He Hw]|s es|s es].
  - unfold run_tick. pose proof (tgood_tick (ta_world a) (ta_config a) (ta_rid a) (ta_minutes a) (ta_text a)
      (ta_evidence a) (ta_presets a) (ta_uuid a) (ta_closed a) (ta_frozen a) (ta_snapshot a) s Hs) as H.
    by destruct (maintenance_tick _ _ _ _ _ _ _ _ _ _ _ _) as [[?|?] s'].
  - eapply tinv_core; [done..|lia].
  - by destruct Hs.
  - by destruct Hs.
Qed.


(** Every minute, to the local destination. *)
Definition minutely : list ScheduleEntry :=
  match parse_schedule 63900000000000000 (JList [JObj [("cron", JStr "* * * * *"); ("profile", JStr "minecraft");
    ("backup_destination", JStr "local")]])%string with
  | Ret l => l
  | Raise _ => []
  end.

Definition demo_tick (t : Z) : tick_args :=
  TickArgs demo_world demo_cfg "req-1" (fun _ => 0) (fun _ => EmptyString) (fun _ => None) (fun _ => true)
    (fun _ => EmptyString) false (Val tt) (Some ([], t)).

Definition tick_start : tst := Tst demo_state [] (mkScheduleBook minutely None) [].

(** Two polls in one minute, with a restart in between, and one in the next. *)
Definition tick_end : tst :=
  let s1 := run_tick (demo_tick 63900000000000000) tick_start in
  let s2 := Tst (t_core s1) [] (mkScheduleBook minutely None) (t_fired s1) in
  run_tick (demo_tick 63900000060000000) (run_tick (demo_tick 63900000030000000) s2).

