(* ===== verification/Restore.v ===== *)
(** [backups.py], [RestoreService]: restoring a backup over the approved roots of a
    profile with a journal, committing or rolling it back, and the reconciliation
    of interrupted restores at startup.

    The disk is the map of the directory trees at the paths involved (destinations,
    staging and rollback directories) with the journals of the backup root.  A tree
    is its generation, and whether it is whole: a recursive removal that stops
    leaves a part.  Every durable effect can be preceded by a fault: an exception,
    or the death of the process ([CrashX]), after which no handler runs.

    A path is its parent and its name; a rename onto an existing directory fails (as
    it does when that directory is not empty).  What a journal holds is its decoded
    record; validation of the archive and the pre-restore backup are calls whose
    outcome is a parameter. *)
From S2P Require Import Prelude.

(** ** Disk *)

Definition path : Type := (string * string)%type.
Definition pa_parent (p : path) : string := fst p.
Definition pa_name (p : path) : string := snd p.

#[export] Instance path_eq_dec : EqDecision path.
Proof. unfold path. apply _. Defined.
#[export] Instance path_countable : Countable path.
Proof. unfold path. apply _. Defined.

Record dir := Dir { dr_data : string; dr_whole : bool }.

Record jroot := JRoot {
  jr_id : string;
  jr_destination : path;
  jr_staging : path;
  jr_rollback : option path;
  jr_existed : bool;
}.

Record journal := Journal {
  j_phase : string;
  j_backup : option string;
  j_displaced : list string;
  j_activated : list string;
  j_roots : list jroot;
}.

(** A journal file: its record, or something else. *)
Inductive jfile := JText (j : journal) | JCorrupt.

(** ** Effects *)

(** [SafeError] with its code, any other exception, the end of the process. *)
Inductive sexc := SafeX (code : string) | IoX | CrashX.

Definition is_crash (x : sexc) : bool := match x with CrashX => true | _ => false end.

(** The locals of [restore] its exception handler reads. *)
Record locals := Locals {
  lo_rollback : list (string * option path);
  lo_displaced : list string;
  lo_activated : list string;
}.

Record sstate := SState {
  s_dirs : gmap path dir;
  s_journals : list (string * jfile);
  s_local : locals;
  s_tick : nat;
}.

Definition set_dirs (d : gmap path dir) (s : sstate) : sstate :=
  SState d (s_journals s) (s_local s) (s_tick s).
Definition set_journals (l : list (string * jfile)) (s : sstate) : sstate :=
  SState (s_dirs s) l (s_local s) (s_tick s).
Definition set_local (l : locals) (s : sstate) : sstate :=
  SState (s_dirs s) (s_journals s) l (s_tick s).

Definition RM (A : Type) : Type := sstate -> (sexc + A) * sstate.

#[export] Instance RM_ret : MRet RM := fun A a s => (inr a, s).
#[export] Instance RM_bind : MBind RM := fun A B k m s =>
  match m s with
  | (inr a, s') => k a s'
  | (inl x, s') => (inl x, s')
  end.

Definition sthrow {A} (x : sexc) : RM A := fun s => (inl x, s).

(** [try: m except Exception as x: h x] *)
Definition sexcept {A} (m : RM A) (h : sexc -> RM A) : RM A := fun s =>
  match m s with
  | (inl x, s') => if is_crash x then (inl x, s') else h x s'
  | r => r
  end.

(** [try: m finally: f] *)
Definition sfinally {A} (m : RM A) (f : RM unit) : RM A := fun s =>
  match m s with
  | (inl CrashX, s') => (inl CrashX, s')
  | (r, s') => match f s' with
               | (inl y, s'') => (inl y, s'')
               | (inr _, s'') => (r, s'')
               end
  end.

Fixpoint sfor {A} (l : list A) (f : A -> RM unit) : RM unit :=
  match l with
  | [] => mret tt
  | a :: l' => f a ;; sfor l' f
  end.

Definition local {A} (f : locals -> A) : RM A := fun s => (inr (f (s_local s)), s).
Definition setl (f : locals -> locals) : RM unit := fun s => (inr tt, set_local (f (s_local s)) s).
Definition present (p : path) : RM bool := fun s => (inr (bool_decide (s_dirs s !! p <> None)), s).

Fixpoint set_journal (name : string) (j : jfile) (l : list (string * jfile)) : list (string * jfile) :=
  match l with
  | [] => [(name, j)]
  | (n, x) :: l' => if String.eqb n name then (name, j) :: l' else (n, x) :: set_journal name j l'
  end.
Definition drop_journal (name : string) (l : list (string * jfile)) : list (string * jfile) :=
  List.filter (fun x => negb (String.eqb (fst x) name)) l.

Section Effects.
(** Faults, and whether the lease check passes, per tick. *)
Context (fault : nat -> option sexc) (lease : nat -> bool).

Definition effect (f : sstate -> sstate) : RM unit := fun s =>
  let s' := SState (s_dirs s) (s_journals s) (s_local s) (S (s_tick s)) in
  match fault (s_tick s) with
  | Some x => (inl x, s')
  | None => (inr tt, f s')
  end.

Definition nop : RM unit := effect (fun s => s).
Definition _fsync_dir : RM unit := nop.

Definition _assert_lease : RM unit := fun s =>
  (if lease (s_tick s) then inr tt else inl (SafeX "slot_conflict"),
   SState (s_dirs s) (s_journals s) (s_local s) (S (s_tick s))).

(** [shutil.rmtree]: some entries go, then the rest. *)
Definition rmtree (p : path) : RM unit := fun s =>
  match s_dirs s !! p with
  | None => (inl IoX, s)
  | Some d =>
      (effect (fun s => set_dirs (<[p := Dir (dr_data d) false]> (s_dirs s)) s) ;;
       effect (fun s => set_dirs (delete p (s_dirs s)) s)) s
  end.

(** [shutil.rmtree(p, ignore_errors=True)] *)
Definition rmtree_ignore (p : path) : RM unit := sexcept (rmtree p) (fun _ => mret tt).

Definition os_replace (src dst : path) : RM unit := fun s =>
  match s_dirs s !! src, s_dirs s !! dst with
  | Some d, None => effect (fun s => set_dirs (<[dst := d]> (delete src (s_dirs s))) s) s
  | _, _ => (inl IoX, s)
  end.

(** [_write_json_fsync]: the temporary file, the rename, the directory sync. *)
Definition _write_json_fsync (name : string) (j : journal) : RM unit :=
  nop ;;
  effect (fun s => set_journals (set_journal name (JText j) (s_journals s)) s) ;;
  nop.

Definition unlink_journal (name : string) : RM unit :=
  effect (fun s => set_journals (drop_journal name (s_journals s)) s).

(** [if p.exists(): rmtree(p)], then the check that it is gone. *)
Definition remove_checked (p : path) (code : string) : RM unit :=
  b ← present p;
  (if (b : bool) then rmtree p else mret tt) ;;
  b' ← present p;
  if (b' : bool) then sthrow (SafeX code) else mret tt.

(** ** Restore *)

Record target := Target { tg_id : string; tg_path : path; tg_existed : bool }.

(** The validated request: the answer of the checks that precede any effect, the
    targets of the archive, and whether each has the space. *)
Record request := Request {
  rq_stopped : option bool;
  rq_approved : bool;
  rq_available : bool;
  rq_is_file : bool;
  rq_targets : sexc + list target;
  rq_space : target -> bool;
  rq_backup : string;
}.

Record RestoreResult := mkRestoreResult {
  rr_rollbacks : list (option path);
  rr_destinations : list path;
  rr_journal : string;
}.

(** The names [mkdtemp] and [uuid4] give, and the generation of each root in the
    archive. *)
Context (staging_of rollback_of : target -> path) (journal_name : string)
        (archived : target -> string).

Definition recorded (t : target) (rb : list (string * option path)) : option path :=
  match assoc (tg_id t) rb with Some o => o | None => None end.

Definition journal_roots (targets : list target) (rb : list (string * option path)) : list jroot :=
  map (fun t => JRoot (tg_id t) (tg_path t) (staging_of t) (recorded t rb) (tg_existed t)) targets.

Definition write_phase (backup : string) (targets : list target) (ph : string)
    (displaced activated : locals -> list string) : RM unit :=
  l ← local id;
  _write_json_fsync journal_name
    (Journal ph (Some backup) (displaced l) (activated l) (journal_roots targets (lo_rollback l))).

Definition none_listed (l : locals) : list string := [].

Definition set_rollback (t : target) (o : option path) (l : locals) : locals :=
  Locals ((tg_id t, o) :: lo_rollback l) (lo_displaced l) (lo_activated l).
Definition add_displaced (t : target) (l : locals) : locals :=
  Locals (lo_rollback l) (lo_displaced l ++ [tg_id t]) (lo_activated l).
Definition add_activated (t : target) (l : locals) : locals :=
  Locals (lo_rollback l) (lo_displaced l) (lo_activated l ++ [tg_id t]).

Definition extract (t : target) : RM unit :=
  effect (fun s => set_dirs (<[staging_of t := Dir (archived t) true]> (s_dirs s)) s).

Definition _assert_target_unchanged (t : target) : RM unit :=
  b ← present (tg_path t);
  if Bool.eqb b (tg_existed t) then mret tt else sthrow (SafeX "invalid_destination").

Definition displace (backup : string) (targets : list target) (t : target) : RM unit :=
  setl (set_rollback t (Some (rollback_of t))) ;;
  write_phase backup targets "displacing" lo_displaced none_listed ;;
  _assert_lease ;;
  b ← present (tg_path t);
  (if (b : bool) then os_replace (tg_path t) (rollback_of t) else setl (set_rollback t None)) ;;
  setl (add_displaced t) ;;
  (if (b : bool) then _fsync_dir else mret tt) ;;
  write_phase backup targets "displacing" lo_displaced none_listed.

Definition publish (backup : string) (targets : list target) (t : target) : RM unit :=
  write_phase backup targets "publishing" none_listed lo_activated ;;
  _assert_lease ;;
  os_replace (staging_of t) (tg_path t) ;;
  setl (add_activated t) ;;
  _fsync_dir ;;
  write_phase backup targets "publishing" none_listed lo_activated.

Definition find_target (id : string) (targets : list target) : option target :=
  List.find (fun t => String.eqb (tg_id t) id) targets.

(** The handler of a failed publication. *)
Definition undo_activated (targets : list target) (rid : string) : RM unit :=
  match find_target rid targets with
  | None => sthrow IoX
  | Some t =>
      b ← present (tg_path t);
      if (b : bool) then rmtree (tg_path t) ;; _fsync_dir else mret tt
  end.

Definition undo_displaced (targets : list target) (rid : string) : RM unit :=
  match find_target rid targets with
  | None => sthrow IoX
  | Some t =>
      rb ← local lo_rollback;
      match recorded t rb with
      | None => mret tt
      | Some p =>
          b ← present p;
          if (b : bool) then os_replace p (tg_path t) ;; _fsync_dir else mret tt
      end
  end.

Definition undo (targets : list target) (x : sexc) : RM unit :=
  act ← local lo_activated;
  sfor act (undo_activated targets) ;;
  dis ← local lo_displaced;
  sfor dis (undo_displaced targets) ;;
  sthrow x.

Definition move_in (backup : string) (targets : list target) : RM unit :=
  sfor targets (displace backup targets) ;;
  write_phase backup targets "displaced" none_listed none_listed ;;
  sfor targets (publish backup targets).

(** [finalize] *)
Definition finalize (r : RestoreResult) : RM unit :=
  sexcept (fun s => match assoc (rr_journal r) (s_journals s) with
           | Some (JText j) =>
               _write_json_fsync (rr_journal r)
                 (Journal "committed" (j_backup j) (j_displaced j) (j_activated j) (j_roots j)) s
           | _ => (inl IoX, s)
           end) (fun _ => sthrow (SafeX "restore_finalize_failed")) ;;
  sfor (rr_rollbacks r) (fun o => match o with
    | None => mret tt
    | Some p => remove_checked p "restore_finalize_failed" ;; _fsync_dir
    end) ;;
  sexcept (unlink_journal (rr_journal r)) (fun _ => sthrow (SafeX "restore_finalize_failed")) ;;
  _fsync_dir.

(** [RestoreService.rollback] *)
Definition rollback_root (dr : path * option path) : RM unit :=
  let '(dst, o) := dr in
  match o with
  | None =>
      b ← present dst;
      if (b : bool) then rmtree_ignore dst ;; _fsync_dir else mret tt
  | Some p =>
      b ← present p;
      if (b : bool) then
        d ← present dst;
        (if (d : bool) then rmtree dst else mret tt) ;;
        os_replace p dst ;;
        _fsync_dir
      else mret tt
  end.

Definition rollback (r : RestoreResult) : RM unit :=
  sfor (zip (rr_destinations r) (rr_rollbacks r)) rollback_root ;;
  unlink_journal (rr_journal r).

(** The part of [restore] between the first journal and the cleanup of staging. *)
Definition restore_body (health : option (path -> bool)) (backup : string) (targets : list target)
    : RM RestoreResult :=
  sfor targets extract ;;
  sfor targets (fun t => nop ;; _assert_target_unchanged t) ;;
  sexcept (move_in backup targets) (undo targets) ;;
  rb ← local lo_rollback;
  let result := mkRestoreResult (map (fun t => recorded t rb) targets) (map tg_path targets) journal_name in
  write_phase backup targets "activated" none_listed none_listed ;;
  (match health with
   | Some h => if forallb h (map tg_path targets) then finalize result else mret tt
   | None => mret tt
   end) ;;
  mret result.

Definition drop_stagings (targets : list target) : RM unit :=
  sfor targets (fun t =>
    b ← present (staging_of t);
    if (b : bool) then rmtree_ignore (staging_of t) else mret tt).

Definition as_restore_error {A} (m : RM A) : RM A :=
  sexcept m (fun x => match x with SafeX _ => sthrow x | _ => sthrow (SafeX "restore_failed") end).

Definition need (b : bool) (code : string) : RM unit := if b then mret tt else sthrow (SafeX code).

Definition restore (health : option (path -> bool)) (rq : request) : RM RestoreResult :=
  need (bool_decide (rq_stopped rq = Some true)) "profile_running" ;;
  need (rq_approved rq) "invalid_backup" ;;
  need (rq_available rq) "backup_not_found" ;;
  need (rq_is_file rq) "backup_not_found" ;;
  as_restore_error (
    targets ← (fun s => (rq_targets rq, s));
    need (forallb (rq_space rq) targets) "insufficient_space" ;;
    nop ;;
    sfor targets (fun t => effect (fun s => set_dirs (<[staging_of t := Dir EmptyString true]> (s_dirs s)) s)) ;;
    setl (fun _ => Locals [] [] []) ;;
    write_phase (rq_backup rq) targets "staged" none_listed none_listed ;;
    nop ;;
    sfinally
      (sexcept (restore_body health (rq_backup rq) targets)
         (fun x => match x with
          | SafeX _ => sfor targets (fun t => rmtree_ignore (staging_of t)) ;; sthrow x
          | _ => sthrow x
          end))
      (drop_stagings targets)).

(** [confirm_restore]'s worker: the restored roots are kept when they are all
    directories. *)
Definition restore_work (rq : request) : RM RestoreResult :=
  r ← restore None rq;
  ok ← (fun s => (inr (forallb (fun p => bool_decide (s_dirs s !! p <> None)) (rr_destinations r)), s));
  if (ok : bool) then finalize r ;; mret r
  else rollback r ;; sthrow (SafeX "restore_health_failed").
End Effects.

(** ** Reconciliation *)

Section Reconcile.
Context (fault : nat -> option sexc).
(** The approved roots of the profile, [_root_id], whether a journal file passes
    the ownership checks, and the health check of the service. *)
Context (approved : list path) (root_id_of : path -> string) (trusted : string -> bool)
        (health : option (path -> bool)).

Definition bad {A} : sexc + A := inl (SafeX "restore_reconcile_failed").
Definition failed {A} : RM A := sthrow (SafeX "restore_reconcile_failed").

Definition journal_phases : list string :=
  ["staged"; "displacing"; "displaced"; "publishing"; "activated"; "committed"]%string.

Definition id_ok (rid : string) (dst : path) : bool :=
  String.eqb rid (root_id_of dst) || (bool_decide (length approved = 1%nat) && String.eqb rid "root-0").

(** [candidate.parent == parent] and the name extends the prefix. *)
Definition name_ok (prefix : string) (p dst : path) : bool :=
  String.eqb (pa_parent p) (pa_parent dst) && String.prefix prefix (pa_name p)
  && negb (String.eqb (pa_name p) prefix).

Definition root_ok (r : jroot) : bool :=
  bool_decide (jr_destination r ∈ approved) && id_ok (jr_id r) (jr_destination r)
  && name_ok (".restore-" ++ jr_id r ++ "-") (jr_staging r) (jr_destination r)
  && match jr_rollback r with Some p => name_ok ".rollback-" p (jr_destination r) | None => true end.

Definition listed_ok (ids l : list string) : bool :=
  bool_decide (NoDup l) && forallb (fun x => bool_decide (x ∈ ids)) l.

Definition _validate_journal (j : journal) : bool :=
  let ids := map jr_id (j_roots j) in
  bool_decide (j_backup j <> None) && bool_decide (j_phase j ∈ journal_phases)
  && bool_decide (length (j_roots j) = length approved)
  && forallb root_ok (j_roots j)
  && bool_decide (NoDup (map jr_destination (j_roots j)))
  && forallb (fun p => bool_decide (p ∈ map jr_destination (j_roots j))) approved
  && listed_ok ids (j_activated j) && listed_ok ids (j_displaced j).

Definition discard (p : path) : RM unit := remove_checked fault p "restore_reconcile_failed".

(** A committed restore: the displaced generation goes. *)
Definition drop_rollback (r : jroot) : RM unit :=
  match jr_rollback r with Some p => discard p ;; _fsync_dir fault | None => mret tt end.

(** An undecided restore: the displaced generation comes back. *)
Definition recover_root (j : journal) (r : jroot) : RM unit :=
  let dst := jr_destination r in
  moved ← match jr_rollback r with Some p => present p | None => mret false end;
  d ← present dst;
  staged ← present (jr_staging r);
  (if (moved : bool) then
     (if (d : bool) then rmtree fault dst else mret tt) ;;
     match jr_rollback r with Some p => os_replace fault p dst | None => mret tt end ;;
     _fsync_dir fault
   else if negb (jr_existed r)
           && (bool_decide (jr_id r ∈ j_activated j) || bool_decide (jr_id r ∈ j_displaced j)
               || (negb staged && d))
        then if (d : bool) then rmtree fault dst ;; _fsync_dir fault else mret tt
        else mret tt) ;;
  discard (jr_staging r).

Definition reconcile_journal (name : string) (j : journal) : RM unit :=
  (if String.eqb (j_phase j) "staged" then sfor (j_roots j) (fun r => discard (jr_staging r))
   else if String.eqb (j_phase j) "committed" then
     sfor (j_roots j) (fun r => drop_rollback r ;; discard (jr_staging r))
   else if String.eqb (j_phase j) "activated"
           && match health with Some h => forallb (fun r => h (jr_destination r)) (j_roots j) | None => false end
   then
     _write_json_fsync fault name
       (Journal "committed" (j_backup j) (j_displaced j) (j_activated j) (j_roots j)) ;;
     sfor (j_roots j) drop_rollback
   else sfor (j_roots j) (recover_root j)) ;;
  unlink_journal fault name ;;
  _fsync_dir fault.

Definition reconcile_one (nf : string * jfile) : RM unit :=
  let '(name, f) := nf in
  sexcept
    (if negb (trusted name) then failed else
     match f with
     | JCorrupt => failed
     | JText j => if _validate_journal j then reconcile_journal name j else failed
     end)
    (fun _ => failed).

Definition reconcile : RM unit := fun s => sfor (s_journals s) reconcile_one s.
End Reconcile.
