(* ===== verification/RestoreFacts.v ===== *)
(** Restores are atomic: whatever fault or crash ends a restore, and however often
    reconciliation is itself interrupted, the roots of a profile end up all in the
    generation from before the restore or all in the restored one. *)
From S2P Require Import Prelude Restore.

#[export] Instance target_eq_dec : EqDecision target.
Proof. solve_decision. Defined.

(** ** Triples *)

(** Assertions on the disk, the journals and the locals. *)
Definition assertion : Type := gmap path dir -> list (string * jfile) -> locals -> Prop.

Section Triples.
Context (fault : nat -> option sexc).

Definition faulted (x : sexc) : Prop := exists n, fault n = Some x.

Definition stri {A} (P : assertion) (m : RM A) (Q : A -> assertion) (E : sexc -> assertion) : Prop :=
  forall s, P (s_dirs s) (s_journals s) (s_local s) ->
  match m s with
  | (inr a, s') => Q a (s_dirs s') (s_journals s') (s_local s')
  | (inl x, s') => E x (s_dirs s') (s_journals s') (s_local s')
  end.

Lemma stri_conseq {A} (P P' : assertion) (m : RM A) (Q Q' : A -> assertion) (E E' : sexc -> assertion) :
  stri P' m Q' E' -> (forall d j l, P d j l -> P' d j l) -> (forall a d j l, Q' a d j l -> Q a d j l) ->
  (forall x d j l, E' x d j l -> E x d j l) -> stri P m Q E.
Proof.
  intros Hm HP HQ HE s Hs. specialize (Hm s (HP _ _ _ Hs)). destruct (m s) as [[x|a] s']; auto.
Qed.

Lemma stri_pre {A} (P P' : assertion) (m : RM A) Q E :
  stri P' m Q E -> (forall d j l, P d j l -> P' d j l) -> stri P m Q E.
Proof. intros Hm HP s Hs. by apply Hm, HP. Qed.

Lemma stri_ret {A} (a : A) (P : assertion) (Q : A -> assertion) E :
  (forall d j l, P d j l -> Q a d j l) -> stri P (mret a) Q E.
Proof. intros H s Hs. by apply H. Qed.

Lemma stri_throw {A} x (P : assertion) (Q : A -> assertion) (E : sexc -> assertion) :
  (forall d j l, P d j l -> E x d j l) -> stri P (sthrow x) Q E.
Proof. intros H s Hs. by apply H. Qed.

Lemma stri_bind {A B} P (m : RM A) (k : A -> RM B) R Q E :
  stri P m R E -> (forall a, stri (R a) (k a) Q E) -> stri P (mbind k m) Q E.
Proof.
  intros Hm Hk s Hs. specialize (Hm s Hs). unfold mbind, RM_bind.
  destruct (m s) as [[x|a] s']; [done|by apply Hk].
Qed.

Lemma stri_seq {B} P (m : RM unit) (k : RM B) R Q E :
  stri P m (fun _ => R) E -> stri R k Q E -> stri P (m ;; k) Q E.
Proof. intros Hm Hk. by eapply stri_bind. Qed.

Lemma stri_if {A} (b : bool) P (m1 m2 : RM A) Q E :
  (b = true -> stri P m1 Q E) -> (b = false -> stri P m2 Q E) -> stri P (if b then m1 else m2) Q E.
Proof. destruct b; auto. Qed.

Lemma stri_except {A} P (m : RM A) h Q (E E' : sexc -> assertion) :
  stri P m Q E' -> (forall x, is_crash x = false -> stri (E' x) (h x) Q E) ->
  (forall x d j l, is_crash x = true -> E' x d j l -> E x d j l) -> stri P (sexcept m h) Q E.
Proof.
  intros Hm Hh Hc s Hs. specialize (Hm s Hs). unfold sexcept.
  destruct (m s) as [[x|a] s']; [|done]. destruct (is_crash x) eqn:E0; [by apply Hc|by apply Hh].
Qed.

Lemma stri_finally {A} P (m : RM A) f (Q R : A -> assertion) (E E' : sexc -> assertion) :
  stri P m R E' -> (forall a, stri (R a) f (fun _ => Q a) E) ->
  (forall x, is_crash x = false -> stri (E' x) f (fun _ => E x) E) ->
  (forall d j l, E' CrashX d j l -> E CrashX d j l) -> stri P (sfinally m f) Q E.
Proof.
  intros Hm Hf Hx Hc s Hs. specialize (Hm s Hs). unfold sfinally. destruct (m s) as [[x|a] s'].
  - destruct x; [specialize (Hx (SafeX code) eq_refl s' Hm)|specialize (Hx IoX eq_refl s' Hm)|by apply Hc];
      by destruct (f s') as [[?|?] ?].
  - specialize (Hf a s' Hm). by destruct (f s') as [[?|?] ?].
Qed.

(** A loop, with the elements already handled. *)
Lemma stri_for {A} (I : list A -> assertion) (l : list A) (f : A -> RM unit) E :
  (forall pre a post, l = pre ++ a :: post -> stri (I pre) (f a) (fun _ => I (pre ++ [a])) E) ->
  stri (I []) (sfor l f) (fun _ => I l) E.
Proof.
  intros Hf. enough (H : forall post pre, l = pre ++ post -> stri (I pre) (sfor post f) (fun _ => I l) E)
    by exact (H l [] eq_refl).
  induction post as [|a post IH]; intros pre Hl; simpl.
  - apply stri_ret. rewrite Hl, app_nil_r. done.
  - eapply stri_seq; [by eapply Hf|]. apply IH. rewrite Hl. by rewrite <- app_assoc.
Qed.

(** ** Effects *)

Lemma stri_effect P f Q E :
  (forall x d j l, faulted x -> P d j l -> E x d j l) ->
  (forall s, P (s_dirs s) (s_journals s) (s_local s) ->
     Q (s_dirs (f s)) (s_journals (f s)) (s_local (f s))) ->
  stri P (effect fault f) (fun _ => Q) E.
Proof.
  intros HE HQ s Hs. unfold effect. destruct (fault (s_tick s)) as [x|] eqn:E0.
  - apply HE; [by exists (s_tick s)|done].
  - by apply HQ.
Qed.

Lemma stri_nop P E : (forall x d j l, faulted x -> P d j l -> E x d j l) -> stri P (nop fault) (fun _ => P) E.
Proof. intros HE. by apply stri_effect. Qed.

Lemma stri_present p P :
  forall E, stri P (present p) (fun b d j l => P d j l /\ b = bool_decide (d !! p <> None)) E.
Proof. intros E s Hs. done. Qed.

Lemma stri_local {A} (f : locals -> A) P E :
  stri P (local f) (fun a d j l => P d j l /\ a = f l) E.
Proof. intros s Hs. done. Qed.

Lemma stri_setl f (P Q : assertion) E :
  (forall d j l, P d j l -> Q d j (f l)) -> stri P (setl f) (fun _ => Q) E.
Proof. intros H s Hs. by apply H. Qed.

Lemma stri_rmtree p (P Q : assertion) E :
  (forall d j l, P d j l -> exists x, d !! p = Some x /\ Q (delete p d) j l /\
     forall e, faulted e -> E e d j l /\ E e (<[p := Dir (dr_data x) false]> d) j l) ->
  stri P (rmtree fault p) (fun _ => Q) E.
Proof.
  intros H s Hs. destruct (H _ _ _ Hs) as (x & Hx & HQ & HE). unfold rmtree. rewrite Hx.
  unfold mbind, RM_bind, effect. simpl.
  destruct (fault (s_tick s)) as [e|] eqn:E0; [by apply HE; exists (s_tick s)|]. simpl.
  destruct (fault (S (s_tick s))) as [e|] eqn:E1; simpl; [by apply HE; exists (S (s_tick s))|].
  by rewrite delete_insert_eq.
Qed.

(** A removal of what may be missing. *)
Lemma stri_rmtree_any p (P Q : assertion) E :
  (forall d j l, P d j l -> (forall e, E e d j l) /\
     forall x, d !! p = Some x -> (forall e, E e (<[p := Dir (dr_data x) false]> d) j l) /\ Q (delete p d) j l) ->
  stri P (rmtree fault p) (fun _ => Q) E.
Proof.
  intros H s Hs. destruct (H _ _ _ Hs) as [HE HQ]. unfold rmtree.
  destruct (s_dirs s !! p) as [x|] eqn:Hx; [|done]. destruct (HQ x eq_refl) as [HE' HQ'].
  unfold mbind, RM_bind, effect. simpl. destruct (fault (s_tick s)) as [e|]; [done|]. simpl.
  destruct (fault (S (s_tick s))) as [e|]; simpl; [done|]. by rewrite delete_insert_eq.
Qed.

Lemma stri_exists {A B} (P : B -> assertion) (m : RM A) Q E :
  (forall b, stri (P b) m Q E) -> stri (fun d j l => exists b, P b d j l) m Q E.
Proof. intros H s [b Hb]. by apply (H b). Qed.

Lemma stri_replace src dst (P Q : assertion) E :
  (forall d j l, P d j l -> exists x, d !! src = Some x /\ d !! dst = None /\
     Q (<[dst := x]> (delete src d)) j l /\ forall e, faulted e -> E e d j l) ->
  stri P (os_replace fault src dst) (fun _ => Q) E.
Proof.
  intros H s Hs. destruct (H _ _ _ Hs) as (x & Hx & Hd & HQ & HE). unfold os_replace. rewrite Hx, Hd.
  unfold effect. destruct (fault (s_tick s)) as [e|] eqn:E0; [apply HE; by exists (s_tick s)|done].
Qed.

(** A rename that may find its target in place. *)
Lemma stri_replace_any src dst (P Q : assertion) E :
  (forall d j l, P d j l -> (forall e, E e d j l) /\
     forall x, d !! src = Some x -> d !! dst = None -> Q (<[dst := x]> (delete src d)) j l) ->
  stri P (os_replace fault src dst) (fun _ => Q) E.
Proof.
  intros H s Hs. destruct (H _ _ _ Hs) as [HE HQ]. unfold os_replace.
  destruct (s_dirs s !! src) as [x|]; [|done]. destruct (s_dirs s !! dst); [done|].
  unfold effect. destruct (fault (s_tick s)); [done|]. by apply HQ.
Qed.

Lemma stri_write name j' (P Q : assertion) E :
  (forall d j l, P d j l -> Q d (set_journal name (JText j') j) l) ->
  (forall e d j l, faulted e -> P d j l -> E e d j l) ->
  (forall e d j l, faulted e -> Q d j l -> E e d j l) ->
  stri P (_write_json_fsync fault name j') (fun _ => Q) E.
Proof.
  intros HQ HP HE. eapply stri_seq; [by apply stri_nop|].
  eapply (stri_seq _ _ _ Q); [|by apply stri_nop].
  apply stri_effect; [done|]. intros s Hs. by apply HQ.
Qed.

Lemma stri_remove_checked p code (P Q : assertion) E :
  (forall d j l, P d j l -> d !! p = None -> Q d j l) ->
  (forall d j l x, P d j l -> d !! p = Some x -> Q (delete p d) j l /\
     forall e, faulted e -> E e d j l /\ E e (<[p := Dir (dr_data x) false]> d) j l) ->
  stri P (remove_checked fault p code) (fun _ => Q) E.
Proof.
  intros H0 H1. unfold remove_checked. eapply stri_bind; [apply stri_present|]. intros b.
  eapply (stri_seq _ _ _ (fun d j l => Q d j l /\ d !! p = None)).
  - apply stri_if; intros ->.
    + apply stri_rmtree. intros d j l [HP Hb]. symmetry in Hb. apply bool_decide_eq_true in Hb.
      destruct (d !! p) as [x|] eqn:Hx; [|done]. exists x. destruct (H1 _ _ _ _ HP Hx) as [HQ HE].
      split; [done|]. split; [|done]. split; [done|]. by rewrite lookup_delete_eq.
    + apply stri_ret. intros d j l [HP Hb]. symmetry in Hb. apply bool_decide_eq_false in Hb.
      destruct (d !! p) eqn:Hx; [by destruct Hb|]. split; [by apply H0|done].
  - eapply stri_bind; [apply stri_present|]. intros b'. apply stri_if; intros ->.
    + intros s [[_ Hn] Hb]. rewrite Hn in Hb. by rewrite bool_decide_false in Hb by naive_solver.
    + apply stri_ret. by intros d j l [[? _] _].
Qed.
End Triples.

(** ** One restore *)

Section Run.
Context (staging_of rollback_of : target -> path) (jn : string) (archived orig : target -> string).
Context (targets : list target).
(** The targets are distinct, and so are all the paths involved. *)
Hypothesis Hids : NoDup (map tg_id targets).
Hypothesis Hpaths : NoDup (map tg_path targets ++ map staging_of targets ++ map rollback_of targets).

#[local] Abbreviation roots := (journal_roots staging_of targets).

(** The paths of a target. *)
Definition paths (t : target) : list path := [tg_path t; staging_of t; rollback_of t].

Lemma in_paths_D t : tg_path t ∈ paths t.
Proof. left. Qed.
Lemma in_paths_S t : staging_of t ∈ paths t.
Proof. right; left. Qed.
Lemma in_paths_B t : rollback_of t ∈ paths t.
Proof. right; right; left. Qed.

Definition agree (t : target) (d d' : gmap path dir) : Prop := forall p, p ∈ paths t -> d' !! p = d !! p.

Lemma targets_inj (f : target -> path) a b :
  NoDup (map f targets) -> a ∈ targets -> b ∈ targets -> f a = f b -> a = b.
Proof.
  intros Hnd (i & Hi)%list_elem_of_lookup (k & Hk)%list_elem_of_lookup Heq.
  assert (i = k) as ->; [|congruence].
  eapply (NoDup_lookup _ _ _ (f a) Hnd); change (map f targets) with (f <$> targets);
    rewrite list_lookup_fmap, ?Hi, ?Hk; simpl; by rewrite ?Heq.
Qed.

Lemma paths_disjoint t t' p : t ∈ targets -> t' ∈ targets -> p ∈ paths t -> p ∈ paths t' -> t = t'.
Proof.
  intros Ht Ht' Hp Hp'.
  apply NoDup_app in Hpaths as (Hd & Hds & (Hs & Hsb & Hb)%NoDup_app).
  assert (Hmap : forall (f : target -> path) u, u ∈ targets -> f u ∈ map f targets)
    by (intros f u Hu; apply list_elem_of_fmap; eauto).
  assert (Hds1 : forall u v, u ∈ targets -> v ∈ targets -> tg_path u <> staging_of v).
  { intros u v Hu Hv E. apply (Hds (tg_path u)); [by apply Hmap|]. rewrite E. apply elem_of_app. left. auto. }
  assert (Hds2 : forall u v, u ∈ targets -> v ∈ targets -> tg_path u <> rollback_of v).
  { intros u v Hu Hv E. apply (Hds (tg_path u)); [by apply Hmap|]. rewrite E. apply elem_of_app. right. auto. }
  assert (Hsb1 : forall u v, u ∈ targets -> v ∈ targets -> staging_of u <> rollback_of v).
  { intros u v Hu Hv E. apply (Hsb (staging_of u)); [by apply Hmap|]. rewrite E. auto. }
  unfold paths in *. rewrite !elem_of_cons, elem_of_nil in Hp, Hp'.
  destruct Hp as [->|[->|[->|[]]]], Hp' as [E|[E|[E|[]]]];
    first [ exact (targets_inj tg_path t t' Hd Ht Ht' E) | exact (targets_inj staging_of t t' Hs Ht Ht' E)
          | exact (targets_inj rollback_of t t' Hb Ht Ht' E)
          | destruct (Hds1 t t' Ht Ht' E) | destruct (Hds2 t t' Ht Ht' E) | destruct (Hsb1 t t' Ht Ht' E)
          | destruct (Hds1 t' t Ht' Ht (eq_sym E)) | destruct (Hds2 t' t Ht' Ht (eq_sym E))
          | destruct (Hsb1 t' t Ht' Ht (eq_sym E)) ].
Qed.

Lemma paths_nodup t : t ∈ targets -> tg_path t <> staging_of t /\ tg_path t <> rollback_of t /\ staging_of t <> rollback_of t.
Proof.
  intros Ht. apply NoDup_app in Hpaths as (Hd & Hds & (Hs & Hsb & Hb)%NoDup_app).
  assert (Hmap : forall f : target -> path, f t ∈ map f targets) by (intros f; apply list_elem_of_fmap; eauto).
  split_and!; intros E.
  - apply (Hds (tg_path t)); [done|]. rewrite E. apply elem_of_app. auto.
  - apply (Hds (tg_path t)); [done|]. rewrite E. apply elem_of_app. auto.
  - apply (Hsb (staging_of t)); [done|]. rewrite E. auto.
Qed.

Lemma agree_insert t t' p x d :
  t ∈ targets -> t' ∈ targets -> t <> t' -> p ∈ paths t' -> agree t d (<[p := x]> d).
Proof.
  intros Ht Ht' Hne Hp q Hq. rewrite lookup_insert_ne; [done|]. intros ->. apply Hne. by eapply paths_disjoint.
Qed.
Lemma agree_delete t t' p d :
  t ∈ targets -> t' ∈ targets -> t <> t' -> p ∈ paths t' -> agree t d (delete p d).
Proof.
  intros Ht Ht' Hne Hp q Hq. rewrite lookup_delete_ne; [done|]. intros ->. apply Hne. by eapply paths_disjoint.
Qed.
Lemma agree_trans t d1 d2 d3 : agree t d1 d2 -> agree t d2 d3 -> agree t d1 d3.
Proof. intros H1 H2 p Hp. by rewrite H2, H1. Qed.

(** ** Where a target can be *)

Definition orig_dir (t : target) : option dir :=
  if tg_existed t then Some (Dir (orig t) true) else None.
Definition new_dir (t : target) : dir := Dir (archived t) true.

(** Nothing, or what is left of the restored generation. *)
Definition newish (t : target) (o : option dir) : Prop :=
  o = None \/ exists b, o = Some (Dir (archived t) b).

Definition settled (d : gmap path dir) (t : target) : Prop :=
  d !! tg_path t = orig_dir t /\ d !! rollback_of t = None.

(** The old generation can be brought back, when the journal records [rb]. *)
Definition undecided (rb : option path) (d : gmap path dir) (t : target) : Prop :=
  if tg_existed t
  then settled d t \/
       (rb = Some (rollback_of t) /\ d !! rollback_of t = orig_dir t /\ newish t (d !! tg_path t))
  else d !! rollback_of t = None /\ newish t (d !! tg_path t) /\
       (d !! tg_path t <> None -> d !! staging_of t = None).

Definition all_orig (d : gmap path dir) : Prop := forall t, t ∈ targets -> settled d t.
Definition all_new (d : gmap path dir) : Prop := forall t, t ∈ targets -> d !! tg_path t = Some (new_dir t).

Lemma settled_agree d d' t : agree t d d' -> settled d t -> settled d' t.
Proof. intros Ha [H1 H2]. unfold settled. by rewrite !Ha by (unfold paths; set_solver). Qed.

Lemma undecided_agree rb d d' t : agree t d d' -> undecided rb d t -> undecided rb d' t.
Proof.
  intros Ha. unfold undecided, settled.
  by rewrite (Ha (tg_path t)), (Ha (staging_of t)), (Ha (rollback_of t)) by (unfold paths; set_solver).
Qed.

Lemma settled_undecided rb d t : settled d t -> undecided rb d t.
Proof.
  unfold undecided. destruct (tg_existed t) eqn:E; [by left|]. intros [H1 H2].
  unfold orig_dir in H1. rewrite E in H1. split_and!; [done|by left|]. by rewrite H1.
Qed.

(** ** Journals *)

(** A recorded rollback path is the one of its target. *)
Definition rb_ok (rb : list (string * option path)) : Prop :=
  forall t, t ∈ targets -> recorded t rb = None \/ recorded t rb = Some (rollback_of t).

Definition ids_ok (l : list string) : Prop := NoDup l /\ l ⊆ map tg_id targets.

Record describes (j : journal) (rb : list (string * option path)) : Prop := {
  de_roots : j_roots j = roots rb;
  de_rb : rb_ok rb;
  de_backup : j_backup j <> None;
  de_displaced : ids_ok (j_displaced j);
  de_activated : ids_ok (j_activated j);
}.

Definition mid_phases : list string := ["displacing"; "displaced"; "publishing"; "activated"]%string.

(** The restore is not decided: the old generation is in place or comes back. *)
Definition OLD (d : gmap path dir) (js : list (string * jfile)) : Prop :=
  (js = [] /\ all_orig d) \/
  exists j rb, js = [(jn, JText j)] /\ describes j rb /\
    ((j_phase j = "staged"%string /\ all_orig d) \/
     (j_phase j ∈ mid_phases /\ forall t, t ∈ targets -> undecided (recorded t rb) d t)).

(** The restore is committed: the new generation is in place. *)
Definition NEW (d : gmap path dir) (js : list (string * jfile)) : Prop :=
  all_new d /\
  (js = [] \/ exists j rb, js = [(jn, JText j)] /\ describes j rb /\ j_phase j = "committed"%string).

Definition old : assertion := fun d js _ => OLD d js.
Definition new : assertion := fun d js _ => NEW d js.
Definition either : assertion := fun d js _ => OLD d js \/ NEW d js.

(** Changes that keep what [OLD] speaks about. *)
Lemma OLD_map d d' js :
  (forall rb t, t ∈ targets -> undecided rb d t -> undecided rb d' t) ->
  (forall t, t ∈ targets -> settled d t -> settled d' t) -> OLD d js -> OLD d' js.
Proof.
  intros Hu Hs [[-> H]|(j & rb & -> & Hd & H)]; [left; split; [done|]; intros t Ht; auto|].
  right. exists j, rb. split_and!; [done..|]. destruct H as [[Hp H]|[Hp H]]; [left|right]; (split; [done|]); auto.
  intros t Ht; auto.
Qed.

(** Staging directories do not matter. *)
Lemma staging_undecided rb d d' t :
  t ∈ targets -> (forall p, p <> staging_of t -> d' !! p = d !! p) ->
  (d !! staging_of t = None -> d' !! staging_of t = None) ->
  undecided rb d t -> undecided rb d' t.
Proof.
  intros Ht Ha Hn. destruct (paths_nodup t Ht) as (H1 & H2 & H3). unfold undecided, settled.
  rewrite !(Ha (tg_path t)), !(Ha (rollback_of t)) by congruence. destruct (tg_existed t); [done|]. tauto.
Qed.

Lemma staging_settled d d' t :
  t ∈ targets -> (forall p, p <> staging_of t -> d' !! p = d !! p) -> settled d t -> settled d' t.
Proof.
  intros Ht Ha. destruct (paths_nodup t Ht) as (H1 & H2 & H3). unfold settled.
  by rewrite !(Ha (tg_path t)), !(Ha (rollback_of t)) by congruence.
Qed.

(** A change at the staging path of [u] only. *)
Lemma OLD_staging u d d' js :
  u ∈ targets -> (forall p, p <> staging_of u -> d' !! p = d !! p) ->
  (d !! staging_of u = None -> d' !! staging_of u = None) -> OLD d js -> OLD d' js.
Proof.
  intros Hu Ha Hn.
  assert (Hag : forall t, t ∈ targets -> t <> u -> agree t d d').
  { intros t Ht Hne p Hp. apply Ha. intros ->. apply Hne. eapply paths_disjoint; [done..|]. unfold paths; set_solver. }
  apply OLD_map.
  - intros rb t Ht. destruct (decide (t = u)) as [->|Hne]; [by apply staging_undecided|].
    apply undecided_agree. auto.
  - intros t Ht. destruct (decide (t = u)) as [->|Hne]; [by apply staging_settled|].
    apply settled_agree. auto.
Qed.

Lemma NEW_staging u d d' js :
  u ∈ targets -> (forall p, p <> staging_of u -> d' !! p = d !! p) -> NEW d js -> NEW d' js.
Proof.
  intros Hu Ha [Hn Hj]. split; [|done]. intros t Ht. rewrite <- (Hn t Ht). apply Ha. intros E.
  destruct (decide (t = u)) as [->|Hne]; [by apply paths_nodup in E|].
  apply Hne. apply (paths_disjoint t u (tg_path t)); [done..|apply in_paths_D|rewrite E; apply in_paths_S].
Qed.

(** ** Reconciliation *)

Section Reconciled.
Context (fault : nat -> option sexc) (approved : list path) (root_id_of : path -> string) (trusted : string -> bool).

(** A failed reconciliation had a fault. *)
Definition disturbed : Prop := exists e, faulted fault e.

Lemma sfor_map {A B} (g : A -> B) (f : B -> RM unit) l s : sfor (map g l) f s = sfor l (fun a => f (g a)) s.
Proof.
  revert s. induction l as [|a l IH]; intros s; [done|]. simpl. unfold mbind, RM_bind.
  destruct (f (g a) s) as [[?|?] ?]; [done|apply IH].
Qed.

Lemma stri_for_map {A B} (g : A -> B) (f : B -> RM unit) l P Q E :
  stri P (sfor l (fun a => f (g a))) Q E -> stri P (sfor (map g l) f) Q E.
Proof. intros H s Hs. rewrite sfor_map. by apply H. Qed.

Lemma discard_old t E :
  t ∈ targets -> (forall e d js l, faulted fault e -> OLD d js -> E e d js l) ->
  stri old (discard fault (staging_of t)) (fun _ => old) E.
Proof.
  intros Ht HE. apply stri_remove_checked; [done|]. intros d js l x Ho Hx. split.
  - eapply (OLD_staging t); [done|..|exact Ho]; intros; [by rewrite lookup_delete_ne|by rewrite lookup_delete_eq].
  - intros e He. split; [by apply HE|]. apply HE; [done|].
    eapply (OLD_staging t); [done|..|exact Ho]; intros; [by rewrite lookup_insert_ne|congruence].
Qed.

(** Committed, with the journals [js0]. *)
Definition new_at (js0 : list (string * jfile)) : assertion := fun d js _ => NEW d js /\ js = js0.

Lemma discard_new js0 t E :
  t ∈ targets -> (forall e d js l, faulted fault e -> NEW d js -> E e d js l) ->
  stri (new_at js0) (discard fault (staging_of t)) (fun _ => new_at js0) E.
Proof.
  intros Ht HE. apply stri_remove_checked; [done|]. intros d js l x [Ho Hj] Hx. split.
  - split; [|done]. eapply (NEW_staging t); [done|..|exact Ho]; intros; by rewrite lookup_delete_ne.
  - intros e He. split; [by apply HE|]. apply HE; [done|].
    eapply (NEW_staging t); [done|..|exact Ho]; intros; by rewrite lookup_insert_ne.
Qed.

(** Removing the rollback directories of a committed restore. *)
Lemma NEW_rollback t d d' js :
  t ∈ targets -> (forall p, p <> rollback_of t -> d' !! p = d !! p) -> NEW d js -> NEW d' js.
Proof.
  intros Hu Ha [Hn Hj]. split; [|done]. intros u Ht. rewrite <- (Hn u Ht). apply Ha. intros E.
  destruct (decide (u = t)) as [->|Hne]; [by apply paths_nodup in E|].
  apply Hne. apply (paths_disjoint u t (tg_path u)); [done..|apply in_paths_D|rewrite E; apply in_paths_B].
Qed.

Lemma remove_rollback_new js0 code t E :
  t ∈ targets -> (forall e d js l, faulted fault e -> NEW d js -> E e d js l) ->
  stri (new_at js0) (remove_checked fault (rollback_of t) code ;; _fsync_dir fault) (fun _ => new_at js0) E.
Proof.
  intros Ht HE. eapply (stri_seq _ _ _ (new_at js0)); [|apply stri_nop; intros ? ? ? ? ? [? _]; by apply HE].
  apply stri_remove_checked; [done|]. intros d js l x [Ho Hj] Hx. split.
  - split; [|done]. eapply (NEW_rollback t); [done|..|exact Ho]; intros; by rewrite lookup_delete_ne.
  - intros e He. split; [by apply HE|]. apply HE; [done|].
    eapply (NEW_rollback t); [done|..|exact Ho]; intros; by rewrite lookup_insert_ne.
Qed.

(** ** Bringing one root back *)

(** The journal [j] with the targets [pre] already settled. *)
Definition recovering (j : journal) (rb : list (string * option path)) (pre : list target) : assertion :=
  fun d js _ => js = [(jn, JText j)] /\ (forall t, t ∈ targets -> undecided (recorded t rb) d t) /\
                forall t, t ∈ pre -> settled d t.

(** A change of the paths of [t] that keeps or settles it. *)
Lemma recovering_change j rb pre t d d' js l :
  t ∈ targets -> (forall u, u ∈ pre -> u ∈ targets /\ u <> t) ->
  (forall u, u ∈ targets -> u <> t -> agree u d d') ->
  undecided (recorded t rb) d' t -> recovering j rb pre d js l -> recovering j rb pre d' js l.
Proof.
  intros Ht Hpre Ha Hu (-> & Hall & Hset). split_and!; [done|..].
  - intros u Hin. destruct (decide (u = t)) as [->|Hne]; [done|]. eapply undecided_agree; [by apply Ha|auto].
  - intros u Hin. destruct (Hpre u Hin). eapply settled_agree; [by apply Ha|auto].
Qed.

Lemma recovering_old j rb pre d js l :
  describes j rb -> j_phase j ∈ mid_phases -> recovering j rb pre d js l -> OLD d js.
Proof. intros Hd Hp (-> & Hall & _). right. exists j, rb. split_and!; [done..|]. by right. Qed.

Lemma delete_agree t p d u :
  t ∈ targets -> p ∈ paths t -> u ∈ targets -> u <> t -> agree u d (delete p d).
Proof. intros. by apply (agree_delete _ t). Qed.
Lemma insert_agree t p x d u :
  t ∈ targets -> p ∈ paths t -> u ∈ targets -> u <> t -> agree u d (<[p := x]> d).
Proof. intros. by apply (agree_insert _ t). Qed.

Lemma undecided_intro rb d t :
  newish t (d !! tg_path t) ->
  (tg_existed t = true -> rb = Some (rollback_of t) /\ d !! rollback_of t = orig_dir t) ->
  (tg_existed t = false -> d !! rollback_of t = None /\ d !! staging_of t = None) -> undecided rb d t.
Proof.
  intros Hn H1 H2. unfold undecided. destruct (tg_existed t).
  - right. destruct (H1 eq_refl). auto.
  - destruct (H2 eq_refl). auto.
Qed.

Lemma stri_absurd {A} (P : assertion) (m : RM A) Q E : (forall d j l, P d j l -> False) -> stri P m Q E.
Proof. intros H s Hs. by apply H in Hs. Qed.

Lemma newish_part t (d : gmap path dir) x : newish t (d !! tg_path t) -> d !! tg_path t = Some x -> dr_data x = archived t.
Proof. intros [H|[b H]] Hx; rewrite Hx in H; [done|]. by injection H as ->. Qed.

Section Root.
Context (j : journal) (rb : list (string * option path)) (pre : list target) (t : target) (E : sexc -> assertion).
Hypothesis Ht : t ∈ targets.
Hypothesis Hpre : forall u, u ∈ pre -> u ∈ targets /\ u <> t.
Hypothesis Hrb : recorded t rb = None \/ recorded t rb = Some (rollback_of t).
Hypothesis HE : forall e d js l, faulted fault e -> recovering j rb pre d js l -> E e d js l.

#[local] Abbreviation rec := (recovering j rb pre).

(** The destination holds what is left of the restored generation. *)
Definition strippable (d : gmap path dir) : Prop :=
  newish t (d !! tg_path t) /\ d !! rollback_of t = orig_dir t /\
  (tg_existed t = true -> recorded t rb = Some (rollback_of t)) /\
  (tg_existed t = false -> d !! staging_of t = None).

Lemma strippable_undecided d : strippable d -> undecided (recorded t rb) d t.
Proof.
  intros (Hn & Hb & H1 & H2). apply undecided_intro; [done|by split; auto|].
  intros He. split; [|auto]. rewrite Hb. unfold orig_dir. by rewrite He.
Qed.

Lemma strip_destination :
  stri (fun d js l => rec d js l /\ strippable d /\ d !! tg_path t <> None) (rmtree fault (tg_path t))
       (fun _ d js l => rec d js l /\ strippable d /\ d !! tg_path t = None) E.
Proof.
  apply stri_rmtree. intros d js l (Hr & Hk & Hp).
  destruct (d !! tg_path t) as [x|] eqn:Hx; [|done]. exists x. split; [done|].
  destruct (paths_nodup t Ht) as (N1 & N2 & N3). pose proof Hk as (Hn & Hb & H1 & H2).
  assert (Hi : strippable (<[tg_path t := Dir (dr_data x) false]> d)).
  { unfold strippable. rewrite lookup_insert_eq, !lookup_insert_ne by congruence. split_and!; [|done..].
    right. exists false. do 2 f_equal. by eapply newish_part. }
  assert (Hd : strippable (delete (tg_path t) d)).
  { unfold strippable. rewrite lookup_delete_eq, !lookup_delete_ne by congruence. split_and!; [by left|done..]. }
  split.
  - split_and!; [|done|by rewrite lookup_delete_eq].
    apply (recovering_change j rb pre t d); [done..| |by apply strippable_undecided|done].
    intros u Hu Hne. eapply delete_agree; [exact Ht|apply in_paths_D|done..].
  - intros e He. split; apply HE; [done..|].
    apply (recovering_change j rb pre t d); [done..| |by apply strippable_undecided|done].
    intros u Hu Hne. eapply insert_agree; [exact Ht|apply in_paths_D|done..].
Qed.

Lemma discard_recovering pre' :
  (forall e d js l, faulted fault e -> recovering j rb pre' d js l -> E e d js l) ->
  (forall u, u ∈ pre' -> u ∈ targets) ->
  stri (recovering j rb pre') (discard fault (staging_of t)) (fun _ => recovering j rb pre') E.
Proof.
  intros HE' Hin.
  assert (Hch : forall d d' js l, (forall p, p <> staging_of t -> d' !! p = d !! p) ->
     (d !! staging_of t = None -> d' !! staging_of t = None) ->
     recovering j rb pre' d js l -> recovering j rb pre' d' js l).
  { intros d d' js l Ha Hn (-> & Hall & Hset).
    assert (Hag : forall u, u ∈ targets -> u <> t -> agree u d d').
    { intros u Hu Hne p Hp. apply Ha. intros ->. apply Hne. eapply paths_disjoint; [done..|apply in_paths_S]. }
    split_and!; [done|..].
    - intros u Hu. destruct (decide (u = t)) as [->|Hne]; [by eapply staging_undecided; auto|].
      eapply undecided_agree; [by apply Hag|auto].
    - intros u Hu. destruct (decide (u = t)) as [->|Hne]; [by eapply staging_settled; auto|].
      eapply settled_agree; [by apply Hag; auto|auto]. }
  apply stri_remove_checked; [done|]. intros d js l x Hr Hx. split.
  - eapply Hch; [..|exact Hr]; intros; [by rewrite lookup_delete_ne|by rewrite lookup_delete_eq].
  - intros e He. split; [by apply HE'|]. apply HE'; [done|].
    eapply Hch; [..|exact Hr]; intros; [by rewrite lookup_insert_ne|congruence].
Qed.

(** Once settled, [t] joins the recovered targets. *)
Lemma recovering_settle d js l : rec d js l -> settled d t -> recovering j rb (pre ++ [t]) d js l.
Proof.
  intros (-> & Hall & Hset) Hs. split_and!; [done..|]. intros u. rewrite elem_of_app, list_elem_of_singleton.
  intros [?| ->]; auto.
Qed.

(** The old generation is moved back to its place. *)
Lemma replace_back (dst := tg_path t) :
  tg_existed t = true -> recorded t rb = Some (rollback_of t) ->
  stri (fun d js l => rec d js l /\ d !! rollback_of t = orig_dir t /\ d !! dst = None)
       (os_replace fault (rollback_of t) dst) (fun _ => recovering j rb (pre ++ [t])) E.
Proof.
  intros He Hrec. apply stri_replace. intros d js l (Hr & Hb & Hd).
  assert (Ho : orig_dir t = Some (Dir (orig t) true)) by (unfold orig_dir; by rewrite He).
  rewrite Ho in Hb. eexists. split_and!; [exact Hb|done| |intros e Hf; by apply HE].
  destruct (paths_nodup t Ht) as (N1 & N2 & N3).
  assert (Hs : settled (<[dst := Dir (orig t) true]> (delete (rollback_of t) d)) t).
  { split; [by rewrite lookup_insert_eq|]. by rewrite lookup_insert_ne, lookup_delete_eq. }
  apply recovering_settle; [|done]. apply (recovering_change j rb pre t d); [done..| |by apply settled_undecided|done].
  intros u Hu Hne. eapply agree_trans; [|eapply insert_agree; [exact Ht|apply in_paths_D|done..]].
  eapply delete_agree; [exact Ht|apply in_paths_B|done..].
Qed.

(** ** The three cases of a root *)

#[local] Abbreviation entry := (JRoot (tg_id t) (tg_path t) (staging_of t) (recorded t rb) (tg_existed t)).

Definition root_step (moved d staged : bool) : RM unit :=
  if moved then
    (if d then rmtree fault (tg_path t) else mret tt) ;;
    match recorded t rb with Some p => os_replace fault p (tg_path t) | None => mret tt end ;;
    _fsync_dir fault
  else if negb (tg_existed t)
          && (bool_decide (tg_id t ∈ j_activated j) || bool_decide (tg_id t ∈ j_displaced j) || (negb staged && d))
       then if d then rmtree fault (tg_path t) ;; _fsync_dir fault else mret tt
       else mret tt.

(** The reads of [recover_root], and what follows them. *)
Lemma recover_root_reads s :
  recover_root fault j entry s =
  (root_step (match recorded t rb with Some p => bool_decide (s_dirs s !! p <> None) | None => false end)
     (bool_decide (s_dirs s !! tg_path t <> None)) (bool_decide (s_dirs s !! staging_of t <> None)) ;;
   discard fault (staging_of t)) s.
Proof. unfold recover_root, root_step. by destruct (recorded t rb). Qed.

#[local] Abbreviation post := (fun _ => recovering j rb (pre ++ [t])).

Hypothesis HE' : forall e d js l, faulted fault e -> recovering j rb (pre ++ [t]) d js l -> E e d js l.

Lemma root_displaced d0 st :
  tg_existed t = true -> recorded t rb = Some (rollback_of t) ->
  stri (fun d js l => rec d js l /\ strippable d /\ d0 = bool_decide (d !! tg_path t <> None))
       (root_step true d0 st) post E.
Proof.
  intros He Hrec. unfold root_step. rewrite Hrec.
  eapply (stri_seq _ _ _ (fun d js l => rec d js l /\ strippable d /\ d !! tg_path t = None)).
  - apply stri_if; intros ->.
    + eapply stri_pre; [apply strip_destination|]. intros d js l (? & ? & Hb). split_and!; [done..|].
      symmetry in Hb. by apply bool_decide_eq_true in Hb.
    + apply stri_ret. intros d js l (? & ? & Hb). split_and!; [done..|]. symmetry in Hb.
      apply bool_decide_eq_false in Hb. by destruct (d !! tg_path t); [destruct Hb|].
  - eapply stri_seq; [|by apply stri_nop]. eapply stri_pre; [by apply replace_back|].
    by intros d js l (? & (_ & ? & _) & ?).
Qed.

Lemma root_created d0 st :
  tg_existed t = false ->
  stri (fun d js l => rec d js l /\ d0 = bool_decide (d !! tg_path t <> None) /\
                      st = bool_decide (d !! staging_of t <> None)) (root_step false d0 st) post E.
Proof.
  intros He. unfold root_step. rewrite He. simpl.
  assert (Hund : forall d js l, rec d js l -> d !! rollback_of t = None /\ newish t (d !! tg_path t) /\
    (d !! tg_path t <> None -> d !! staging_of t = None)).
  { intros d js l (_ & Hall & _). specialize (Hall t Ht). unfold undecided in Hall. by rewrite He in Hall. }
  assert (Hor : orig_dir t = None) by (unfold orig_dir; by rewrite He).
  destruct d0.
  - apply stri_if; intros Hcond.
    + eapply stri_seq; [|apply stri_nop; done]. eapply stri_conseq; [apply strip_destination|..|done].
      * intros d js l (Hr & Hb & Hst). destruct (Hund _ _ _ Hr) as (H1 & H2 & H3).
        symmetry in Hb. apply bool_decide_eq_true in Hb. split_and!; [done| |done].
        split_and!; [done|by rewrite Hor|by rewrite He|auto].
      * intros _ d js l (Hr & (_ & Hb & _) & Hd). apply recovering_settle; [done|]. split; congruence.
    + apply stri_absurd. intros d js l (Hr & Hb & Hst). destruct (Hund _ _ _ Hr) as (H1 & H2 & H3).
      symmetry in Hb. apply bool_decide_eq_true in Hb. rewrite (H3 Hb) in Hst.
      rewrite bool_decide_false in Hst by naive_solver. subst st. simpl in Hcond. by rewrite orb_true_r in Hcond.
  - eapply (stri_pre _ (recovering j rb (pre ++ [t]))); [apply stri_if; intros _; by apply stri_ret|].
    intros d js l (Hr & Hb & _). destruct (Hund _ _ _ Hr) as (H1 & H2 & H3).
    symmetry in Hb. apply bool_decide_eq_false in Hb. apply recovering_settle; [done|].
    split; [|done]. rewrite Hor. by destruct (d !! tg_path t); [destruct Hb|].
Qed.

Lemma root_in_place d0 st :
  tg_existed t = true -> stri (fun d js l => rec d js l /\ settled d t) (root_step false d0 st) post E.
Proof.
  intros He. unfold root_step. rewrite He. simpl. apply stri_ret. intros d js l [Hr Hs]. by apply recovering_settle.
Qed.

Lemma moved_absent (d : gmap path dir) :
  d !! rollback_of t = None ->
  match recorded t rb with Some p => bool_decide (d !! p <> None) | None => false end = false.
Proof. intros Hb. destruct Hrb as [-> | ->]; [done|]. rewrite Hb. by apply bool_decide_eq_false; intros []. Qed.

Lemma recover_root_spec : stri rec (recover_root fault j entry) post E.
Proof.
  intros s Hs. rewrite recover_root_reads. revert Hs.
  assert (Htail : forall P (m : RM unit), stri P m post E -> stri P (m ;; discard fault (staging_of t)) post E).
  { intros P m Hm. eapply stri_seq; [exact Hm|]. apply discard_recovering; [done|].
    intros u [Hu| ->%list_elem_of_singleton]%elem_of_app; [by apply Hpre|done]. }
  intros Hs. pose proof Hs as (_ & Hall & _). specialize (Hall t Ht). unfold undecided in Hall.
  destruct (tg_existed t) eqn:He.
  - destruct Hall as [[Hd Hb]|(Hrec & Hb & Hn)].
    + rewrite moved_absent by done. apply (Htail _ _ (root_in_place _ _ He)). by split.
    + rewrite Hrec. rewrite bool_decide_true by (rewrite Hb; unfold orig_dir; by rewrite He).
      apply (Htail _ _ (root_displaced _ _ He Hrec)). split_and!; [done| |done].
      split_and!; [done..|by rewrite He].
  - rewrite moved_absent by tauto. by apply (Htail _ _ (root_created _ _ He)).
Qed.
End Root.

(** ** A whole reconciliation *)

(** The journals of this restore pass the ownership and path checks. *)
Hypothesis Htrusted : trusted jn = true.
Hypothesis Happroved : map tg_path targets ≡ₚ approved.
Hypothesis Hroot_ids : forall t, t ∈ targets -> id_ok approved root_id_of (tg_id t) (tg_path t) = true.
Hypothesis Hnames : forall t, t ∈ targets ->
  name_ok (".restore-" ++ tg_id t ++ "-") (staging_of t) (tg_path t) = true /\
  name_ok ".rollback-" (rollback_of t) (tg_path t) = true.

Lemma roots_map {A} (f : jroot -> A) (g : target -> A) rb :
  (forall t o, f (JRoot (tg_id t) (tg_path t) (staging_of t) o (tg_existed t)) = g t) ->
  map f (roots rb) = map g targets.
Proof. intros H. unfold journal_roots. rewrite map_map. apply map_ext. intros t. apply H. Qed.

Lemma listed_ok_ids l : ids_ok l -> listed_ok (map tg_id targets) l = true.
Proof.
  intros [Hn Hs]. unfold listed_ok. rewrite bool_decide_true by done. apply forallb_forall.
  intros x Hx%list_elem_of_In. apply bool_decide_eq_true. by apply Hs.
Qed.

Lemma journal_validates j rb :
  describes j rb -> j_phase j ∈ journal_phases -> _validate_journal approved root_id_of j = true.
Proof.
  intros [Hr Hrb Hb Hd Ha] Hp. unfold _validate_journal. rewrite Hr.
  rewrite (roots_map jr_id tg_id), (roots_map jr_destination tg_path) by done.
  apply NoDup_app in Hpaths as (Hdst & _).
  rewrite !listed_ok_ids, !bool_decide_true; try done.
  - simpl. rewrite !andb_true_r. apply andb_true_intro. split.
    + apply forallb_forall. intros r (t & <- & Ht%list_elem_of_In)%in_map_iff. unfold root_ok. simpl.
      destruct (Hnames t Ht) as [H1 H2]. rewrite (Hroot_ids t Ht), H1.
      rewrite bool_decide_true by (rewrite <- Happroved; apply list_elem_of_fmap; eauto).
      by destruct (Hrb t Ht) as [-> | ->].
    + apply forallb_forall. intros p Hp'%list_elem_of_In. apply bool_decide_eq_true. by rewrite Happroved.
  - unfold journal_roots. rewrite length_map, <- Happroved, length_map. done.
Qed.

Definition gave_up (side : assertion) : sexc -> assertion := fun _ d js l => side d js l /\ disturbed.

Lemma gave_up_fault side e d js l : faulted fault e -> side d js l -> gave_up side e d js l.
Proof. intros He Hs. split; [done|by exists e]. Qed.

(** The end of [reconcile_journal]: the journal is removed. *)
Lemma unlink_spec (side P : assertion) Q :
  (forall d js l, P d js l -> side d js l) -> (forall d js l, Q d js l -> side d js l) ->
  (forall d j l, P d [(jn, JText j)] l -> Q d [] l) ->
  (forall d js l, P d js l -> exists j, js = [(jn, JText j)]) ->
  stri P (unlink_journal fault jn ;; _fsync_dir fault) (fun _ => Q) (gave_up side).
Proof.
  intros H1 H2 HQ HJ. eapply (stri_seq _ _ _ Q).
  - apply stri_effect; [intros; by apply gave_up_fault; auto|]. intros s Hs. destruct (HJ _ _ _ Hs) as [j Hj].
    simpl. rewrite Hj in *. simpl. rewrite String.eqb_refl. simpl. by eapply HQ.
  - apply stri_nop. intros; by apply gave_up_fault; auto.
Qed.

Lemma staged_spec j rb :
  describes j rb -> j_phase j = "staged"%string ->
  stri (fun d js _ => js = [(jn, JText j)] /\ all_orig d) (reconcile_journal fault None jn j)
       (fun _ d js _ => js = [] /\ all_orig d) (gave_up old).
Proof.
  intros Hd Hp. unfold reconcile_journal. rewrite Hp. simpl.
  set (P := fun (d : gmap path dir) (js : list (string * jfile)) (_ : locals) => js = [(jn, JText j)] /\ all_orig d).
  assert (HPO : forall d js l, P d js l -> old d js l).
  { intros d js l [-> Ho]. right. exists j, rb. split_and!; [done..|]. by left. }
  eapply (stri_seq _ _ _ P).
  - rewrite (de_roots _ _ Hd). apply stri_for_map. apply (stri_for (fun _ => P)). intros pre t post Hl. simpl.
    assert (Ht : t ∈ targets) by (rewrite Hl; set_solver).
    apply stri_remove_checked; [done|]. intros d js l x [-> Ho] Hx.
    assert (Hch : forall d', (forall p, p <> staging_of t -> d' !! p = d !! p) -> P d' [(jn, JText j)] l).
    { intros d' Ha. split; [done|]. intros u Hu. destruct (decide (u = t)) as [->|Hne].
      - eapply staging_settled; [done..|]. by apply Ho.
      - eapply settled_agree; [|by apply Ho]. intros p Hp'. apply Ha. intros ->. apply Hne.
        eapply paths_disjoint; [done..|apply in_paths_S]. }
    split; [apply Hch; intros; by rewrite lookup_delete_ne|]. intros e He. split; apply gave_up_fault; try done.
    + by apply HPO.
    + apply HPO, Hch. intros. by rewrite lookup_insert_ne.
  - apply unlink_spec; [done| | |].
    + intros d js l [-> Ho]. by left.
    + by intros d j' l [_ ?].
    + intros d js l [-> _]. eauto.
Qed.

Lemma committed_spec j rb :
  describes j rb -> j_phase j = "committed"%string ->
  stri (new_at [(jn, JText j)]) (reconcile_journal fault None jn j)
       (fun _ d js _ => js = [] /\ all_new d) (gave_up new).
Proof.
  intros Hd Hp. unfold reconcile_journal. rewrite Hp. simpl.
  eapply (stri_seq _ _ _ (new_at [(jn, JText j)])).
  - rewrite (de_roots _ _ Hd). apply stri_for_map. apply (stri_for (fun _ => new_at _)).
    intros pre t post Hl. simpl. assert (Ht : t ∈ targets) by (rewrite Hl; set_solver).
    eapply (stri_seq _ _ _ (new_at _)); [|apply discard_new; [done|intros; by apply gave_up_fault]].
    unfold drop_rollback. simpl. destruct (de_rb _ _ Hd t Ht) as [-> | ->]; [by apply stri_ret|].
    apply remove_rollback_new; [done|intros; by apply gave_up_fault].
  - apply unlink_spec.
    + by intros d js l [? _].
    + intros d js l [-> Ho]. split; [done|by left].
    + by intros d j' l [[? _] _].
    + intros d js l [_ ->]. eauto.
Qed.

Lemma recover_spec j rb :
  describes j rb -> j_phase j ∈ mid_phases ->
  stri (recovering j rb []) (reconcile_journal fault None jn j)
       (fun _ d js _ => js = [] /\ all_orig d) (gave_up old).
Proof.
  intros Hd Hp. unfold reconcile_journal.
  assert (Hph : String.eqb (j_phase j) "staged" = false /\ String.eqb (j_phase j) "committed" = false).
  { unfold mid_phases in Hp. rewrite !elem_of_cons, elem_of_nil in Hp.
    destruct Hp as [->|[->|[->|[->|[]]]]]; done. }
  destruct Hph as [-> ->]. rewrite andb_false_r.
  assert (HE : forall pre e d js l, faulted fault e -> recovering j rb pre d js l -> gave_up old e d js l).
  { intros pre e d js l He Hr. apply gave_up_fault; [done|]. by eapply recovering_old. }
  eapply (stri_seq _ _ _ (recovering j rb targets)).
  - rewrite (de_roots _ _ Hd). apply stri_for_map. apply (stri_for (fun pre => recovering j rb pre)).
    intros pre t post Hl. simpl. assert (Ht : t ∈ targets) by (rewrite Hl; set_solver).
    apply recover_root_spec; [done| |by apply (de_rb _ _ Hd)|apply HE|apply HE].
    intros u Hu. split; [rewrite Hl; set_solver|]. intros ->.
    rewrite Hl, map_app, NoDup_app in Hids. destruct Hids as (_ & Hx & _).
    apply (Hx (tg_id t)); [by apply list_elem_of_fmap_2|left].
  - apply (unlink_spec old).
    + intros d js l Hr. by eapply recovering_old.
    + intros d js l [-> Ho]. by left.
    + intros d j' l (_ & _ & Hs). split; [done|]. intros t Ht. auto.
    + intros d js l (-> & _). eauto.
Qed.

Lemma mid_known ph : ph ∈ mid_phases -> ph ∈ journal_phases.
Proof. unfold mid_phases, journal_phases. set_solver. Qed.

(** One journal of this restore. *)
Lemma reconcile_one_spec (side P : assertion) Q j rb :
  describes j rb -> j_phase j ∈ journal_phases ->
  stri P (reconcile_journal fault None jn j) Q (gave_up side) ->
  stri P (reconcile_one fault approved root_id_of trusted None (jn, JText j)) Q (gave_up side).
Proof.
  intros Hd Hp Hm. unfold reconcile_one. rewrite Htrusted, (journal_validates j rb) by done. simpl.
  eapply stri_except; [exact Hm|..]; [|by intros].
  intros x _. apply stri_throw. by intros d js l [? ?].
Qed.

Lemma sfor_one {A} (a : A) (f : A -> RM unit) s : sfor [a] f s = f a s.
Proof. simpl. unfold mbind, RM_bind. by destruct (f a s) as [[?|[]] ?]. Qed.

#[local] Abbreviation recon := (reconcile fault approved root_id_of trusted None).

(** Reconciliation settles an undecided restore on the old generation, and fails
    only after a fault. *)
Lemma reconcile_old : stri old recon (fun _ d js _ => js = [] /\ all_orig d) (gave_up old).
Proof.
  intros s Hs. unfold reconcile. destruct Hs as [[Hj Ho]|(j & rb & Hj & Hd & H)]; rewrite Hj; [done|].
  rewrite sfor_one. destruct H as [[Hp Ho]|[Hp Ho]].
  - refine (reconcile_one_spec old _ _ j rb Hd _ (staged_spec j rb Hd Hp) s _); [rewrite Hp; left|by split].
  - refine (reconcile_one_spec old _ _ j rb Hd (mid_known _ Hp) (recover_spec j rb Hd Hp) s _).
    split_and!; [done..|]. by intros ? ?%elem_of_nil.
Qed.

Lemma reconcile_new : stri new recon (fun _ d js _ => js = [] /\ all_new d) (gave_up new).
Proof.
  intros s Hs. unfold reconcile. pose proof Hs as [Hn [Hj|(j & rb & Hj & Hd & Hp)]]; rewrite Hj; [done|].
  rewrite sfor_one. refine (reconcile_one_spec new _ _ j rb Hd _ (committed_spec j rb Hd Hp) s _).
  - rewrite Hp. unfold journal_phases. set_solver.
  - by split.
Qed.
End Reconciled.

(** ** The restore itself *)

Section Restored.
Context (fault : nat -> option sexc) (lease : nat -> bool) (backup : string).

(** A target before it is displaced, after it, and once it is published. *)
Definition fresh (d : gmap path dir) (t : target) : Prop :=
  d !! tg_path t = orig_dir t /\ d !! rollback_of t = None /\ d !! staging_of t = Some (new_dir t).
Definition displaced (d : gmap path dir) (t : target) : Prop :=
  d !! tg_path t = None /\ d !! rollback_of t = orig_dir t /\ d !! staging_of t = Some (new_dir t).
Definition published (d : gmap path dir) (t : target) : Prop :=
  d !! tg_path t = Some (new_dir t) /\ d !! rollback_of t = orig_dir t /\ d !! staging_of t = None.

Definition placed (dis pubs : list target) (d : gmap path dir) (t : target) : Prop :=
  if bool_decide (t ∈ pubs) then published d t else if bool_decide (t ∈ dis) then displaced d t else fresh d t.

(** The rollback paths of [l] are recorded in [rb]. *)
Definition records (l : list target) (rb : list (string * option path)) : Prop :=
  forall t, t ∈ l -> tg_existed t = true -> recorded t rb = Some (rollback_of t).

(** The state between two steps: the journal is in phase [ph] and records [rec],
    the locals record [lrec] and list [ld]; [dis] are displaced and [pubs] published. *)
Record running (ph : string) (rec lrec ld dis pubs : list target)
    (d : gmap path dir) (js : list (string * jfile)) (l : locals) : Prop := {
  ru_journal : exists j rb, js = [(jn, JText j)] /\ describes j rb /\ j_phase j = ph /\ records rec rb;
  ru_local : records lrec (lo_rollback l) /\ rb_ok (lo_rollback l);
  ru_displaced : lo_displaced l = map tg_id ld /\ NoDup ld /\ forall t, t ∈ ld -> t ∈ targets;
  ru_activated : lo_activated l = map tg_id pubs;
  ru_placed : forall t, t ∈ targets -> placed dis pubs d t;
  ru_sub : (forall t, t ∈ pubs -> t ∈ dis) /\ (forall t, t ∈ dis -> t ∈ rec) /\ forall t, t ∈ lrec -> t ∈ targets;
}.

Definition phase_ok (ph : string) (dis : list target) : Prop :=
  ph ∈ mid_phases \/ (ph = "staged"%string /\ dis = []).

Lemma placed_undecided rec dis pubs rb d t :
  (forall t, t ∈ pubs -> t ∈ dis) -> (forall t, t ∈ dis -> t ∈ rec) -> records rec rb ->
  placed dis pubs d t -> undecided (recorded t rb) d t.
Proof.
  intros H1 H2 Hr. unfold placed. case_bool_decide as Hp; [|case_bool_decide as Hd].
  - intros (HD & HB & HS). apply undecided_intro; [right; by exists true|..]; intros He.
    + split; [apply Hr; auto|done].
    + split; [|done]. rewrite HB. unfold orig_dir. by rewrite He.
  - intros (HD & HB & HS). unfold undecided. destruct (tg_existed t) eqn:He.
    + right. split_and!; [apply Hr; auto|done|by left].
    + split_and!; [|by left|by rewrite HD]. rewrite HB. unfold orig_dir. by rewrite He.
  - intros (HD & HB & HS). by apply settled_undecided.
Qed.

Lemma running_old ph rec lrec ld dis pubs d js l :
  phase_ok ph dis -> running ph rec lrec ld dis pubs d js l -> OLD d js.
Proof.
  intros Hph [(j & rb & -> & Hd & <- & Hrec) _ _ _ Hpl (Hs1 & Hs2 & _)]. right. exists j, rb. split_and!; [done..|].
  destruct Hph as [Hph|[Hph ->]]; [right|left]; (split; [done|]); intros t Ht.
  - by eapply placed_undecided; auto.
  - specialize (Hpl t Ht). unfold placed in Hpl.
    rewrite bool_decide_false in Hpl by (intros ?%Hs1%elem_of_nil; done).
    rewrite bool_decide_false in Hpl by (by intros ?%elem_of_nil). destruct Hpl as (? & ? & _). by split.
Qed.

(** What the handler of a failed publication relies on. *)
Definition undoable : sexc -> assertion := fun _ d js l =>
  OLD d js /\ rb_ok (lo_rollback l) /\
  forall t, t ∈ targets -> tg_id t ∈ lo_activated l -> tg_existed t = true -> d !! rollback_of t = orig_dir t.

Lemma id_target t u : t ∈ targets -> u ∈ targets -> tg_id t = tg_id u -> t = u.
Proof.
  intros (i & Hi)%list_elem_of_lookup (k & Hk)%list_elem_of_lookup Heq.
  assert (i = k) as ->; [|congruence].
  eapply (NoDup_lookup _ _ _ (tg_id t) Hids); change (map tg_id targets) with (tg_id <$> targets);
    rewrite list_lookup_fmap, ?Hi, ?Hk; simpl; by rewrite ?Heq.
Qed.

Lemma running_undoable ph rec lrec ld dis pubs e d js l :
  phase_ok ph dis -> (forall t, t ∈ dis -> t ∈ targets) -> running ph rec lrec ld dis pubs d js l -> undoable e d js l.
Proof.
  intros Hph Hin Hr. split; [by eapply running_old|]. destruct Hr as [_ [_ Hrb] _ Hact Hpl (Hs1 & _)].
  split; [done|]. intros t Ht Hid He. rewrite Hact in Hid. apply list_elem_of_fmap in Hid as (u & Hu & Hpu).
  apply id_target in Hu as <-; [|done|auto]. specialize (Hpl t Ht). unfold placed in Hpl.
  rewrite bool_decide_true in Hpl by done. by destruct Hpl as (_ & ? & _).
Qed.

(** ** Journal writes *)

Lemma ids_of l : NoDup l -> (forall t, t ∈ l -> t ∈ targets) -> ids_ok (map tg_id l).
Proof.
  intros Hnd Hin. split.
  - apply NoDup_fmap_2_strong; [|done]. intros a b Ha Hb. apply id_target; auto.
  - intros x (u & -> & Hu)%list_elem_of_fmap. apply list_elem_of_fmap. exists u. auto.
Qed.

Lemma write_phase_spec ph ph' rec lrec ld dis pubs (fd fa : locals -> list string) :
  phase_ok ph dis -> phase_ok ph' dis -> (forall t, t ∈ dis -> t ∈ lrec) ->
  (forall l, fd l = [] \/ fd l = lo_displaced l) -> (forall l, fa l = [] \/ fa l = lo_activated l) ->
  NoDup pubs ->
  stri (running ph rec lrec ld dis pubs) (write_phase fault staging_of jn backup targets ph' fd fa)
       (fun _ => running ph' lrec lrec ld dis pubs) undoable.
Proof.
  intros Hp Hp' Hsub Hfd Hfa Hnd. unfold write_phase. eapply stri_bind; [apply stri_local|]. intros l0.
  eapply (stri_conseq _ (fun d js l => running ph rec lrec ld dis pubs d js l /\ l0 = l) _ _
    (fun _ d js l => running ph' lrec lrec ld dis pubs d js l) _ undoable); [|done..].
  assert (Hdt : forall d js l, running ph rec lrec ld dis pubs d js l -> forall t, t ∈ dis -> t ∈ targets).
  { intros d js l [_ _ _ _ _ (_ & _ & H3)] t Ht. auto. }
  apply stri_write.
  - intros d js l [[(j & rb & -> & Hd & Hph & Hrec) [Hl Hrb] (Hld & Hnld & Hinld) Hla Hpl (H1 & H2 & H3)] ->].
    constructor; [|by repeat split..|done|by repeat split]. simpl. rewrite String.eqb_refl.
    eexists _, (lo_rollback l). split; [done|]. split; [|done]. constructor; simpl; try done.
    + destruct (Hfd l) as [-> | ->]; [split; [constructor|set_solver]|]. rewrite Hld. by apply ids_of.
    + destruct (Hfa l) as [-> | ->]; [split; [constructor|set_solver]|]. rewrite Hla. apply ids_of; auto.
  - intros e d js l _ [Hr _]. eapply running_undoable; [exact Hp|by eapply Hdt|exact Hr].
  - intros e d js l _ Hr. eapply running_undoable; [exact Hp'| |exact Hr].
    destruct Hr as [_ _ _ _ _ (_ & H2 & H3)]. auto.
Qed.

(** ** Displacing and publishing *)

Lemma placed_agree dis pubs d d' u : agree u d d' -> placed dis pubs d u -> placed dis pubs d' u.
Proof.
  intros Ha. unfold placed, published, displaced, fresh.
  by rewrite (Ha (tg_path u)), (Ha (staging_of u)), (Ha (rollback_of u))
    by (apply in_paths_D || apply in_paths_S || apply in_paths_B).
Qed.

Lemma placed_other dis pubs t d u : u <> t -> placed dis pubs d u <-> placed (dis ++ [t]) pubs d u.
Proof.
  intros Hne. unfold placed. rewrite (bool_decide_ext (u ∈ dis ++ [t]) (u ∈ dis)); [done|].
  rewrite elem_of_app, list_elem_of_singleton. tauto.
Qed.
Lemma placed_other_pub dis pubs t d u : u <> t -> placed dis pubs d u <-> placed dis (pubs ++ [t]) d u.
Proof.
  intros Hne. unfold placed. rewrite (bool_decide_ext (u ∈ pubs ++ [t]) (u ∈ pubs)); [done|].
  rewrite elem_of_app, list_elem_of_singleton. tauto.
Qed.

Lemma recorded_other t u o rb : tg_id u <> tg_id t -> recorded u ((tg_id t, o) :: rb) = recorded u rb.
Proof. intros Hne. unfold recorded. simpl. by rewrite (proj2 (String.eqb_neq _ _) Hne). Qed.
Lemma recorded_here t o rb : recorded t ((tg_id t, o) :: rb) = o.
Proof. unfold recorded. simpl. by rewrite String.eqb_refl. Qed.

Lemma split_targets pre t post :
  targets = pre ++ t :: post -> t ∈ targets /\ t ∉ pre /\ (forall u, u ∈ pre -> u ∈ targets).
Proof.
  intros Hl. split_and!; [rewrite Hl; set_solver| |rewrite Hl; set_solver].
  intros Hp. rewrite Hl, map_app, NoDup_app in Hids. destruct Hids as (_ & Hx & _).
  apply (Hx (tg_id t)); [by apply list_elem_of_fmap_2|left].
Qed.

(** Recording a rollback path in the locals. *)
Lemma set_rollback_running ph rec lrec ld dis pubs t o d js l :
  t ∈ targets -> t ∉ lrec -> (o = None \/ o = Some (rollback_of t)) ->
  (tg_existed t = true -> o = Some (rollback_of t)) ->
  running ph rec lrec ld dis pubs d js l -> running ph rec (lrec ++ [t]) ld dis pubs d js (set_rollback t o l).
Proof.
  intros Ht Hnl Ho He [Hj [Hl Hrb] Hd Ha Hp (H1 & H2 & H3)]. constructor; [done| |done..|].
  - simpl. split.
    + intros u [Hu| ->%list_elem_of_singleton]%elem_of_app Heu; [|rewrite recorded_here; auto].
      rewrite recorded_other; [by apply Hl|]. intros E. apply id_target in E as ->; auto.
    + intros u Hu. destruct (decide (u = t)) as [->|Hne]; [by rewrite recorded_here|].
      rewrite recorded_other; [by apply Hrb|]. intros E. by apply id_target in E.
  - split_and!; [done..|]. intros u [Hu| ->%list_elem_of_singleton]%elem_of_app; auto.
Qed.

(** Overwriting the path of a target that did not exist. *)
Lemma unset_rollback_running ph rec lrec ld dis pubs t d js l :
  t ∈ targets -> tg_existed t = false ->
  running ph rec lrec ld dis pubs d js l -> running ph rec lrec ld dis pubs d js (set_rollback t None l).
Proof.
  intros Ht He [Hj [Hl Hrb] Hd Ha Hp Hs]. constructor; [done| |done..]. simpl. split.
  - intros u Hu Heu. rewrite recorded_other; [by apply Hl|]. intros E. destruct Hs as (_ & _ & H3).
    apply id_target in E as ->; [congruence|auto..].
  - intros u Hu. destruct (decide (u = t)) as [->|Hne]; [rewrite recorded_here; by left|].
    rewrite recorded_other; [by apply Hrb|]. intros E. by apply id_target in E.
Qed.

(** One more target displaced. *)
Lemma running_displaced ph rec lrec ld pre t d d' js l :
  t ∈ targets -> t ∈ rec -> (forall u, u ∈ targets -> u <> t -> agree u d d') -> displaced d' t ->
  running ph rec lrec ld pre [] d js l -> running ph rec lrec ld (pre ++ [t]) [] d' js l.
Proof.
  intros Ht Hr Ha Hdis [Hj Hl Hd Hac Hp (H1 & H2 & H3)]. constructor; [done..| |].
  - intros u Hu. destruct (decide (u = t)) as [->|Hne].
    + unfold placed. rewrite bool_decide_false by (by intros ?%elem_of_nil). by rewrite bool_decide_true by set_solver.
    + apply placed_other; [done|]. eapply placed_agree; [by apply Ha|auto].
  - split_and!; [by intros u ?%elem_of_nil| |done]. intros u [Hu| ->%list_elem_of_singleton]%elem_of_app; auto.
Qed.

Lemma running_fresh ph rec lrec ld pre t d js l :
  t ∈ targets -> t ∉ pre -> running ph rec lrec ld pre [] d js l -> fresh d t.
Proof.
  intros Ht Hn [_ _ _ _ Hp _]. specialize (Hp t Ht). unfold placed in Hp.
  by rewrite !bool_decide_false in Hp by (done || by intros ?%elem_of_nil).
Qed.

Lemma displace_spec ph pre t post :
  targets = pre ++ t :: post -> phase_ok ph pre -> NoDup pre ->
  stri (running ph pre pre pre pre [])
       (displace fault lease staging_of rollback_of jn backup targets t)
       (fun _ => running "displacing" (pre ++ [t]) (pre ++ [t]) (pre ++ [t]) (pre ++ [t]) []) undoable.
Proof.
  intros Hl Hph Hnd. destruct (split_targets _ _ _ Hl) as (Ht & Hnp & Hpre).
  assert (Hmid : forall dis, phase_ok "displacing" dis) by (left; left).
  assert (Hin : forall u, u ∈ pre ++ [t] -> u ∈ targets)
    by (intros u [?| ->%list_elem_of_singleton]%elem_of_app; auto).
  unfold displace. eapply stri_seq; [apply stri_setl|].
  { intros d js l Hr. eapply (set_rollback_running _ _ pre); [done..|by right|done|exact Hr]. }
  eapply stri_seq; [apply (write_phase_spec _ "displacing"); [done|done|set_solver|by right|by left|constructor]|].
  eapply (stri_seq _ _ _ (running "displacing" (pre ++ [t]) (pre ++ [t]) pre pre [])).
  { intros s Hs. unfold _assert_lease. destruct (lease _); simpl; [done|].
    eapply running_undoable; [apply Hmid|exact Hpre|exact Hs]. }
  eapply stri_bind; [apply stri_present|]. intros b.
  eapply (stri_seq _ _ _ (running "displacing" (pre ++ [t]) (pre ++ [t]) pre (pre ++ [t]) [])).
  { apply stri_if; intros ->.
    - apply stri_replace. intros d js l [Hr Hb]. destruct (running_fresh _ _ _ _ _ _ _ _ _ Ht Hnp Hr) as (F1 & F2 & F3).
      symmetry in Hb. apply bool_decide_eq_true in Hb. destruct (d !! tg_path t) as [x|] eqn:Hx; [|done].
      exists x. split_and!; [done..| |intros e _; eapply running_undoable; [apply Hmid|exact Hpre|exact Hr]].
      destruct (paths_nodup t Ht) as (N1 & N2 & N3).
      eapply running_displaced; [done|set_solver| | |exact Hr].
      + intros u Hu Hne. eapply agree_trans; [|eapply insert_agree; [exact Ht|apply in_paths_B|done..]].
        eapply delete_agree; [exact Ht|apply in_paths_D|done..].
      + split_and!.
        * by rewrite lookup_insert_ne, lookup_delete_eq by congruence.
        * by rewrite lookup_insert_eq.
        * by rewrite lookup_insert_ne, lookup_delete_ne by congruence.
    - apply stri_setl. intros d js l [Hr Hb]. destruct (running_fresh _ _ _ _ _ _ _ _ _ Ht Hnp Hr) as (F1 & F2 & F3).
      symmetry in Hb. apply bool_decide_eq_false in Hb. assert (Hn : d !! tg_path t = None).
      { by destruct (d !! tg_path t); [destruct Hb|]. }
      assert (He : tg_existed t = false). { rewrite Hn in F1. unfold orig_dir in F1. by destruct (tg_existed t). }
      apply unset_rollback_running; [done..|]. eapply running_displaced; [done|set_solver|done| |exact Hr].
      split_and!; [done|congruence|done]. }
  eapply (stri_seq _ _ _ (running "displacing" (pre ++ [t]) (pre ++ [t]) (pre ++ [t]) (pre ++ [t]) [])).
  { apply stri_setl. intros d js l [Hj Hlo (Hd1 & Hd2 & Hd3) Ha Hp Hs]. constructor; try done. simpl.
    split_and!; [by rewrite Hd1, map_app| |done]. apply NoDup_app. split_and!; [done| |apply NoDup_singleton].
    intros u Hu ->%list_elem_of_singleton. done. }
  eapply (stri_seq _ _ _ (running "displacing" (pre ++ [t]) (pre ++ [t]) (pre ++ [t]) (pre ++ [t]) [])).
  { apply stri_if; intros _; [|by apply stri_ret]. apply stri_nop. intros e d js l _ Hr.
    eapply running_undoable; [apply Hmid|exact Hin|exact Hr]. }
  apply (write_phase_spec "displacing" "displacing"); [done..|by right|by left|constructor].
Qed.

(** All displaced, [pubs] published. *)
#[local] Abbreviation moving ph pubs := (running ph targets targets targets targets pubs).

Lemma targets_nodup : NoDup targets.
Proof. by eapply NoDup_fmap_1. Qed.

Lemma publish_spec ph pre t post :
  targets = pre ++ t :: post -> ph ∈ mid_phases -> NoDup pre ->
  stri (moving ph pre) (publish fault lease staging_of jn backup targets t)
       (fun _ => moving "publishing" (pre ++ [t])) undoable.
Proof.
  intros Hl Hph Hnd. destruct (split_targets _ _ _ Hl) as (Ht & Hnp & Hpre).
  assert (Hmid : forall dis, phase_ok "publishing" dis) by (left; right; right; left).
  assert (Hnd' : NoDup (pre ++ [t])).
  { apply NoDup_app. split_and!; [done| |apply NoDup_singleton]. intros u Hu ->%list_elem_of_singleton. done. }
  assert (Hund : forall pubs e d js l, moving "publishing" pubs d js l -> undoable e d js l).
  { intros pubs e d js l Hr. by eapply running_undoable; [apply Hmid|..|exact Hr]. }
  unfold publish.
  eapply stri_seq; [apply (write_phase_spec _ "publishing"); [by left|done|done|by left|by right|done]|].
  eapply (stri_seq _ _ _ (moving "publishing" pre)).
  { intros s Hs. unfold _assert_lease. destruct (lease _); simpl; [done|]. by eapply Hund. }
  eapply (stri_seq _ _ _ (fun d js l => moving "publishing" (pre ++ [t]) d js (add_activated t l))).
  { apply stri_replace. intros d js l Hr. pose proof Hr as [Hj Hlo Hd Ha Hp (H1 & H2 & H3)].
    pose proof (Hp t Ht) as Hpt. unfold placed in Hpt.
    rewrite bool_decide_false, bool_decide_true in Hpt by done. destruct Hpt as (P1 & P2 & P3).
    exists (new_dir t). split_and!; [done..| |intros e _; by eapply Hund].
    destruct (paths_nodup t Ht) as (N1 & N2 & N3). constructor; try done.
    - simpl. by rewrite Ha, map_app.
    - intros u Hu. destruct (decide (u = t)) as [->|Hne].
      + unfold placed. rewrite bool_decide_true by set_solver. split_and!.
        * by rewrite lookup_insert_eq.
        * by rewrite lookup_insert_ne, lookup_delete_ne by congruence.
        * by rewrite lookup_insert_ne, lookup_delete_eq by congruence.
      + apply placed_other_pub; [done|]. eapply placed_agree; [|by apply Hp].
        eapply agree_trans; [|eapply insert_agree; [exact Ht|apply in_paths_D|done..]].
        eapply delete_agree; [exact Ht|apply in_paths_S|done..].
    - split_and!; [|done..]. intros u [?| ->%list_elem_of_singleton]%elem_of_app; auto. }
  eapply (stri_seq _ _ _ (moving "publishing" (pre ++ [t]))); [by apply stri_setl|].
  eapply (stri_seq _ _ _ (moving "publishing" (pre ++ [t]))).
  { apply stri_nop. intros e d js l _ Hr. by eapply Hund. }
  apply (write_phase_spec "publishing" "publishing"); [done..|by left|by right|done].
Qed.

Lemma move_in_spec :
  stri (running "staged" [] [] [] [] []) (move_in fault lease staging_of rollback_of jn backup targets)
       (fun _ d js l => exists ph, ph ∈ mid_phases /\ moving ph targets d js l) undoable.
Proof.
  unfold move_in.
  eapply (stri_seq _ _ _ (fun d js l => exists ph, phase_ok ph targets /\ moving ph [] d js l)).
  { eapply stri_conseq; [apply (stri_for (fun pre d js l => exists ph, phase_ok ph pre /\
       running ph pre pre pre pre [] d js l))|..].
    - intros pre t post Hl s (ph & Hph & Hs).
      assert (Hnd : NoDup pre). { pose proof targets_nodup as H. rewrite Hl in H. by apply NoDup_app in H as (? & _). }
      pose proof (displace_spec ph pre t post Hl Hph Hnd s Hs) as H.
      destruct (displace _ _ _ _ _ _ _ _ _) as [[x|a] s']; [done|]. exists "displacing"%string. split; [left; left|done].
    - intros d js l Hr. exists "staged"%string. split; [by right|done].
    - by intros.
    - by intros. }
  eapply (stri_seq _ _ _ (moving "displaced" [])).
  { intros s (ph & Hph & Hs). revert s Hs.
    apply (write_phase_spec ph "displaced"); [done|left; right; left|done|by left|by left|constructor]. }
  eapply stri_conseq; [apply (stri_for (fun pre d js l => exists ph, ph ∈ mid_phases /\ moving ph pre d js l))|..].
  - intros pre t post Hl s (ph & Hph & Hs).
    assert (Hnd : NoDup pre). { pose proof targets_nodup as H. rewrite Hl in H. by apply NoDup_app in H as (? & _). }
    pose proof (publish_spec ph pre t post Hl Hph Hnd s Hs) as H.
    destruct (publish _ _ _ _ _ _ _ _) as [[x|a] s']; [done|]. exists "publishing"%string.
    split; [unfold mid_phases; set_solver|done].
  - intros d js l Hr. exists "displaced"%string. split; [unfold mid_phases; set_solver|done].
  - by intros.
  - by intros.
Qed.

(** ** The handler of a failed publication *)

Definition undoing (act : list string) : assertion := fun d js l =>
  undoable IoX d js l /\ lo_activated l = act.

Definition to_old : sexc -> assertion := fun _ => old.

Lemma find_target_Some rid t : find_target rid targets = Some t -> t ∈ targets /\ tg_id t = rid.
Proof. intros [H1%list_elem_of_In H2%String.eqb_eq]%List.find_some. done. Qed.

(** An undecided target whose destination is there and is not the original. *)
Lemma OLD_strip t d d' js x :
  t ∈ targets -> (tg_existed t = true -> d !! rollback_of t = orig_dir t) -> d !! tg_path t = Some x ->
  (forall p, p <> tg_path t -> d' !! p = d !! p) ->
  (d' !! tg_path t = None \/ d' !! tg_path t = Some (Dir (dr_data x) false)) ->
  OLD d js -> OLD d' js.
Proof.
  intros Ht Hb Hx Ha Hd'. destruct (paths_nodup t Ht) as (N1 & N2 & N3).
  assert (Hag : forall u, u ∈ targets -> u <> t -> agree u d d').
  { intros u Hu Hne p Hp. apply Ha. intros ->. apply Hne. eapply paths_disjoint; [done..|apply in_paths_D]. }
  assert (Hns : ~ settled d t).
  { intros [H1 H2]. unfold orig_dir in *. destruct (tg_existed t); [|congruence].
    specialize (Hb eq_refl). congruence. }
  apply OLD_map.
  - intros rb u Hu Hund. destruct (decide (u = t)) as [->|Hne]; [|by eapply undecided_agree; [apply Hag|]].
    unfold undecided in *. rewrite !(Ha (rollback_of t)), !(Ha (staging_of t)) by congruence.
    assert (Hnew : newish t (d !! tg_path t) -> newish t (d' !! tg_path t)).
    { intros Hn. pose proof (newish_part t d x Hn Hx) as Hdx.
      destruct Hd' as [-> | ->]; [by left|right; exists false; by rewrite Hdx]. }
    destruct (tg_existed t).
    + destruct Hund as [?|(? & ? & ?)]; [done|]. right. auto.
    + destruct Hund as (? & ? & HS). split_and!; [done|auto|]. intros _. apply HS. by rewrite Hx.
  - intros u Hu Hs. destruct (decide (u = t)) as [->|Hne]; [done|]. eapply settled_agree; [by apply Hag|done].
Qed.

Lemma undo_activated_spec act rid :
  rid ∈ act -> stri (undoing act) (undo_activated fault targets rid) (fun _ => undoing act) to_old.
Proof.
  intros Hin. unfold undo_activated. destruct (find_target rid targets) as [t|] eqn:Hf.
  2:{ apply stri_throw. by intros d js l [[? _] _]. }
  apply find_target_Some in Hf as [Ht <-]. eapply stri_bind; [apply stri_present|]. intros b.
  apply stri_if; intros ->; [|by apply stri_ret; intros d js l [? _]].
  eapply (stri_seq _ _ _ (undoing act)); [|by apply stri_nop; intros e d js l _ [[? _] _]].
  apply stri_rmtree. intros d js l [[(Ho & Hrb & Hact) Hl] Hb]. symmetry in Hb. apply bool_decide_eq_true in Hb.
  destruct (d !! tg_path t) as [x|] eqn:Hx; [|done]. exists x. split; [done|].
  assert (Hbt : tg_existed t = true -> d !! rollback_of t = orig_dir t) by (apply Hact; [done|by rewrite Hl]).
  destruct (paths_nodup t Ht) as (N1 & N2 & N3). split.
  - split; [|done]. split_and!; [|done|].
    + eapply (OLD_strip t d); [done..| | |exact Ho]; [intros; by rewrite lookup_delete_ne|left; by rewrite lookup_delete_eq].
    + intros u Hu Hid He. rewrite lookup_delete_ne; [by apply Hact|]. intros E.
      destruct (decide (u = t)) as [->|Hne]; [done|]. apply Hne.
      apply (paths_disjoint u t (rollback_of u)); [done..|apply in_paths_B|rewrite <- E; apply in_paths_D].
  - intros e _. split; [done|].
    eapply (OLD_strip t d); [done..| | |exact Ho]; [intros; by rewrite lookup_insert_ne|right; by rewrite lookup_insert_eq].
Qed.

(** A displaced target moved back. *)
Lemma OLD_move_back t d js x :
  t ∈ targets -> d !! rollback_of t = Some x -> d !! tg_path t = None -> OLD d js ->
  OLD (<[tg_path t := x]> (delete (rollback_of t) d)) js.
Proof.
  intros Ht Hx Hd. destruct (paths_nodup t Ht) as (N1 & N2 & N3).
  assert (Hag : forall u, u ∈ targets -> u <> t -> agree u d (<[tg_path t := x]> (delete (rollback_of t) d))).
  { intros u Hu Hne. eapply agree_trans; [|eapply insert_agree; [exact Ht|apply in_paths_D|done..]].
    eapply delete_agree; [exact Ht|apply in_paths_B|done..]. }
  apply OLD_map.
  - intros rb u Hu Hund. destruct (decide (u = t)) as [->|Hne]; [|by eapply undecided_agree; [apply Hag|]].
    apply settled_undecided. unfold undecided, settled in *. rewrite Hx in Hund.
    rewrite lookup_insert_eq, lookup_insert_ne, lookup_delete_eq by done. split; [|done].
    destruct (tg_existed t); naive_solver.
  - intros u Hu Hs. destruct (decide (u = t)) as [->|Hne]; [destruct Hs; congruence|].
    eapply settled_agree; [by apply Hag|done].
Qed.

Lemma undo_displaced_spec rid :
  stri (fun d js l => OLD d js /\ rb_ok (lo_rollback l)) (undo_displaced fault targets rid)
       (fun _ d js l => OLD d js /\ rb_ok (lo_rollback l)) to_old.
Proof.
  unfold undo_displaced. destruct (find_target rid targets) as [t|] eqn:Hf.
  2:{ apply stri_throw. by intros d js l [? _]. }
  apply find_target_Some in Hf as [Ht <-]. eapply stri_bind; [apply stri_local|]. intros rb.
  destruct (recorded t rb) as [p|] eqn:Hrec; [|by apply stri_ret; intros d js l [? _]].
  eapply (stri_pre _ (fun d js l => (OLD d js /\ rb_ok (lo_rollback l)) /\ p = rollback_of t)).
  2:{ intros d js l [[Ho Hrb] ->]. split; [done|]. destruct (Hrb t Ht); congruence. }
  eapply stri_bind; [apply stri_present|]. intros b.
  apply stri_if; intros ->; [|by apply stri_ret; intros d js l [[? _] _]].
  eapply (stri_seq _ _ _ (fun d js l => OLD d js /\ rb_ok (lo_rollback l)));
    [|by apply stri_nop; intros e d js l _ [? _]].
  apply stri_replace_any. intros d js l [[[Ho Hrb] ->] _]. split; [done|]. intros x Hx Hd. split; [|done].
  by apply OLD_move_back.
Qed.

Lemma undo_spec x : stri (undoable x) (undo fault targets x) (fun _ _ _ _ => False) to_old.
Proof.
  unfold undo. eapply stri_bind; [apply stri_local|]. intros act.
  eapply (stri_seq _ _ _ (undoing act)).
  { eapply stri_pre; [apply (stri_for (fun _ => undoing act))|by intros d js l [H ->]].
    intros pre a post ->. apply undo_activated_spec. set_solver. }
  eapply stri_bind; [apply stri_local|]. intros dis.
  eapply (stri_seq _ _ _ (fun d js l => OLD d js /\ rb_ok (lo_rollback l))).
  { eapply stri_pre; [apply (stri_for (fun _ d js l => OLD d js /\ rb_ok (lo_rollback l)))|
      by intros d js l [[(? & ? & _) _] _]].
    intros pre a post _. apply undo_displaced_spec. }
  apply stri_throw. by intros d js l [? _].
Qed.

(** ** The body of a restore *)

Lemma all_orig_staging t d d' :
  t ∈ targets -> (forall p, p <> staging_of t -> d' !! p = d !! p) -> all_orig d -> all_orig d'.
Proof.
  intros Ht Ha Ho u Hu. destruct (decide (u = t)) as [->|Hne]; [by eapply staging_settled; auto|].
  eapply settled_agree; [|by apply Ho]. intros p Hp. apply Ha. intros ->. apply Hne.
  eapply paths_disjoint; [done..|apply in_paths_S].
Qed.

(** The archive is extracted for [pre]. *)
Definition extracted (pre : list target) : assertion := fun d js l =>
  (exists j, js = [(jn, JText j)] /\ describes j [] /\ j_phase j = "staged"%string) /\ l = Locals [] [] [] /\
  all_orig d /\ forall t, t ∈ pre -> d !! staging_of t = Some (new_dir t).

Lemma extracted_old pre d js l : extracted pre d js l -> OLD d js.
Proof. intros ((j & -> & Hd & Hp) & _ & Ho & _). right. exists j, []. split_and!; [done..|]. by left. Qed.

Lemma extract_spec pre t post :
  targets = pre ++ t :: post ->
  stri (extracted pre) (extract fault staging_of archived t) (fun _ => extracted (pre ++ [t])) to_old.
Proof.
  intros Hl. destruct (split_targets _ _ _ Hl) as (Ht & Hnp & Hpre). apply stri_effect.
  - intros e d js l _. apply extracted_old.
  - intros s (Hj & Hlo & Ho & Hs). simpl. split_and!; [done..| |].
    + eapply all_orig_staging; [done| |exact Ho]. intros. by rewrite lookup_insert_ne.
    + intros u [Hu| ->%list_elem_of_singleton]%elem_of_app; [|by rewrite lookup_insert_eq].
      rewrite lookup_insert_ne; [by apply Hs|]. intros E. assert (u = t); [|congruence].
      apply (paths_disjoint u t (staging_of u)); [auto|done|apply in_paths_S|rewrite <- E; apply in_paths_S].
Qed.

Lemma extracted_running d js l : extracted targets d js l -> running "staged" [] [] [] [] [] d js l.
Proof.
  intros ((j & -> & Hd & Hp) & -> & Ho & Hs). constructor; simpl; try done.
  - exists j, []. split_and!; [done..|]. by intros ? ?%elem_of_nil.
  - split; [by intros ? ?%elem_of_nil|]. intros t Ht. by left.
  - split_and!; [done|constructor|by intros ? ?%elem_of_nil].
  - intros t Ht. unfold placed. rewrite !bool_decide_false by (by intros ?%elem_of_nil).
    destruct (Ho t Ht). split_and!; auto.
  - split_and!; by intros ? ?%elem_of_nil.
Qed.

(** The roots are published and the journal says so. *)
Definition activated (r : RestoreResult) : assertion := fun d js l =>
  moving "activated" targets d js l /\ rr_journal r = jn /\ rr_destinations r = map tg_path targets /\
  forall o, o ∈ rr_rollbacks r -> o = None \/ exists t, t ∈ targets /\ o = Some (rollback_of t).

Lemma undoable_old e d js l : undoable e d js l -> OLD d js.
Proof. by intros [? _]. Qed.

Lemma restore_body_spec :
  stri (extracted []) (restore_body fault lease staging_of rollback_of jn archived None backup targets)
       activated to_old.
Proof.
  unfold restore_body.
  eapply stri_seq; [apply (stri_for extracted); intros pre t post; apply extract_spec|].
  eapply (stri_seq _ _ _ (extracted targets)).
  { apply (stri_for (fun _ => extracted targets)). intros pre t post Hl.
    eapply (stri_seq _ _ _ (extracted targets)); [apply stri_nop; intros e d js l _; apply extracted_old|].
    unfold _assert_target_unchanged. eapply stri_bind; [apply stri_present|]. intros b.
    apply stri_if; intros _; [by apply stri_ret; intros d js l [? _]|].
    apply stri_throw. intros d js l [H _]. by eapply extracted_old. }
  eapply (stri_seq _ _ _ (fun d js l => exists ph, ph ∈ mid_phases /\ moving ph targets d js l)).
  { eapply stri_except.
    - eapply stri_pre; [apply move_in_spec|apply extracted_running].
    - intros x _. eapply stri_conseq; [apply undo_spec|done|done|done].
    - intros x d js l _. apply undoable_old. }
  eapply stri_bind; [apply stri_local|]. intros rb. cbv zeta.
  eapply (stri_seq _ _ _ (fun d js l => moving "activated" targets d js l /\ rb_ok rb)).
  - intros s [(ph & Hph & Hs) ->]. pose proof Hs as [_ [_ Hrb] _ _ _ _].
    pose proof (write_phase_spec ph "activated" targets targets targets targets targets none_listed none_listed) as H.
    specialize (H ltac:(by left) ltac:(left; unfold mid_phases; set_solver) ltac:(done) ltac:(by left) ltac:(by left)
      targets_nodup s Hs).
    destruct (write_phase _ _ _ _ _ _ _ _ _) as [[x|a] s']; [by apply undoable_old in H|by split].
  - eapply (stri_seq _ _ _ (fun d js l => moving "activated" targets d js l /\ rb_ok rb)); [by apply stri_ret|].
    apply stri_ret. intros d js l [Hm Hrb].
    split_and!; [done..|]. simpl. intros o (t & -> & Ht)%list_elem_of_fmap.
    destruct (Hrb t Ht) as [-> | ->]; [by left|right; eauto].
Qed.

(** ** Cleaning up staging *)

Lemma rmtree_ignore_old t :
  t ∈ targets -> stri old (rmtree_ignore fault (staging_of t)) (fun _ => old) to_old.
Proof.
  intros Ht. unfold rmtree_ignore. eapply (stri_except _ _ _ _ _ to_old); [|by intros; apply stri_ret|done].
  apply stri_rmtree_any. intros d js l Ho. split; [done|]. intros x Hx. split.
  - intros e. eapply (OLD_staging t); [done| | |exact Ho]; intros; [by rewrite lookup_insert_ne|congruence].
  - eapply (OLD_staging t); [done| | |exact Ho]; intros; [by rewrite lookup_delete_ne|by rewrite lookup_delete_eq].
Qed.

Lemma drop_stagings_old : stri old (drop_stagings fault staging_of targets) (fun _ => old) to_old.
Proof.
  apply (stri_for (fun _ => old)). intros pre t post Hl. destruct (split_targets _ _ _ Hl) as (Ht & _).
  eapply stri_bind; [apply stri_present|]. intros b. apply stri_if; intros _.
  - eapply stri_pre; [by apply rmtree_ignore_old|by intros d js l [? _]].
  - apply stri_ret. by intros d js l [? _].
Qed.

Lemma drop_stagings_activated r : stri (activated r) (drop_stagings fault staging_of targets) (fun _ => activated r) to_old.
Proof.
  apply (stri_for (fun _ => activated r)). intros pre t post Hl. destruct (split_targets _ _ _ Hl) as (Ht & _).
  eapply stri_bind; [apply stri_present|]. intros b. apply stri_if; intros ->.
  - apply stri_absurd. intros d js l [[[_ _ _ _ Hp _] _] Hb]. specialize (Hp t Ht). unfold placed in Hp.
    rewrite bool_decide_true in Hp by done. destruct Hp as (_ & _ & Hs). rewrite Hs in Hb.
    by rewrite bool_decide_false in Hb by naive_solver.
  - apply stri_ret. by intros d js l [? _].
Qed.

(** ** The whole restore *)

Definition untouched : assertion := fun d js _ => js = [] /\ all_orig d.

Lemma untouched_old d js l : untouched d js l -> OLD d js.
Proof. intros [-> Ho]. by left. Qed.

Lemma need_spec b code (P : assertion) E :
  (forall e d js l, P d js l -> E e d js l) -> stri P (need b code) (fun _ => P) E.
Proof. intros HE. destruct b; [by apply stri_ret|apply stri_throw; auto]. Qed.

Lemma restore_spec rq :
  rq_targets rq = inr targets -> rq_backup rq = backup ->
  stri untouched (restore fault lease staging_of rollback_of jn archived None rq) activated to_old.
Proof.
  intros Hrq Hbk. unfold restore.
  do 4 (eapply (stri_seq _ _ _ untouched); [apply need_spec; intros e d js l; apply untouched_old|]).
  unfold as_restore_error. eapply (stri_except _ _ _ _ _ to_old); [|by intros [] ?; apply stri_throw|done].
  eapply (stri_bind _ _ _ (fun a d js l => untouched d js l /\ a = targets)).
  { intros s Hs. by rewrite Hrq. }
  intros ts. eapply (stri_conseq _ (fun d js l => untouched d js l /\ ts = targets) _ _ activated _ to_old); [|done..].
  intros s [Hs ->]. revert s Hs. change (stri untouched
    (need (forallb (rq_space rq) targets) "insufficient_space" ;;
     nop fault ;;
     sfor targets (fun t => effect fault (fun s => set_dirs (<[staging_of t := Dir EmptyString true]> (s_dirs s)) s)) ;;
     setl (fun _ => Locals [] [] []) ;;
     write_phase fault staging_of jn (rq_backup rq) targets "staged" none_listed none_listed ;;
     nop fault ;;
     sfinally
       (sexcept (restore_body fault lease staging_of rollback_of jn archived None (rq_backup rq) targets)
          (fun x => match x with
           | SafeX _ => sfor targets (fun t => rmtree_ignore fault (staging_of t)) ;; sthrow x
           | _ => sthrow x
           end))
       (drop_stagings fault staging_of targets)) activated to_old).
  eapply (stri_seq _ _ _ untouched); [apply need_spec; intros e d js l; apply untouched_old|].
  eapply (stri_seq _ _ _ untouched); [apply stri_nop; intros e d js l _; apply untouched_old|].
  eapply (stri_seq _ _ _ untouched).
  { apply (stri_for (fun _ => untouched)). intros pre t post Hl. destruct (split_targets _ _ _ Hl) as (Ht & _).
    apply stri_effect; [intros e d js l _; apply untouched_old|]. intros s [Hj Ho]. split; [done|].
    eapply all_orig_staging; [done| |exact Ho]. intros. simpl. by rewrite lookup_insert_ne. }
  eapply (stri_seq _ _ _ (fun d js l => untouched d js l /\ l = Locals [] [] [])); [by apply stri_setl|].
  eapply (stri_seq _ _ _ (extracted [])).
  { rewrite Hbk. unfold write_phase. eapply stri_bind; [apply stri_local|]. intros l0. apply stri_write.
    - intros d js l [[[-> Ho] ->] ->]. split_and!; [|done..|by intros ? ?%elem_of_nil].
      eexists. split; [done|]. split; [|done]. constructor; simpl; try done.
      + by left.
      + split; [constructor|set_solver].
      + split; [constructor|set_solver].
    - intros e d js l _ [[H _] _]. by eapply untouched_old.
    - intros e d js l _. apply extracted_old. }
  eapply (stri_seq _ _ _ (extracted [])); [apply stri_nop; intros e d js l _; apply extracted_old|].
  eapply (stri_finally _ _ _ _ activated _ to_old).
  - eapply (stri_except _ _ _ _ _ to_old); [rewrite Hbk; apply restore_body_spec| |done].
    intros [c| |] _; try by apply stri_throw.
    eapply (stri_seq _ _ _ old); [|by apply stri_throw]. apply (stri_for (fun _ => old)).
    intros pre t post Hl. destruct (split_targets _ _ _ Hl) as (Ht & _). by apply rmtree_ignore_old.
  - intros r. apply drop_stagings_activated.
  - intros x _. apply drop_stagings_old.
  - done.
Qed.

(** ** Committing *)

Definition to_either : sexc -> assertion := fun _ => either.

Lemma published_new d js l : moving "activated" targets d js l -> all_new d.
Proof.
  intros [_ _ _ _ Hp _] t Ht. specialize (Hp t Ht). unfold placed in Hp.
  rewrite bool_decide_true in Hp by done. by destruct Hp as (? & _).
Qed.

Lemma finalize_spec r :
  stri (activated r) (finalize fault r) (fun _ d js _ => js = [] /\ all_new d) to_either.
Proof.
  set (committed := fun (d : gmap path dir) (js : list (string * jfile)) (l : locals) =>
    (exists j, new_at [(jn, JText j)] d js l) /\ rr_journal r = jn /\
    forall o, o ∈ rr_rollbacks r -> o = None \/ exists t, t ∈ targets /\ o = Some (rollback_of t)).
  assert (Hact : forall e d js l, activated r d js l -> to_either e d js l).
  { intros e d js l [Hm _]. left. eapply running_old; [|exact Hm]. left. unfold mid_phases. set_solver. }
  assert (Hcom : forall e d js l, committed d js l -> to_either e d js l).
  { intros e d js l [(j & Hn & _) _]. by right. }
  unfold finalize. eapply (stri_seq _ _ _ committed).
  { eapply (stri_except _ _ _ _ _ to_either); [|intros x _; by apply stri_throw|done].
    intros s Hs. pose proof Hs as (Hm & Hjn & _ & Hrb). pose proof Hm as [(j & rb & Hj & Hd & _) _ _ _ _ _].
    rewrite Hj, Hjn. simpl. rewrite String.eqb_refl. revert s Hs Hm Hj. intros s Hs _ Hj.
    set (j' := Journal "committed" (j_backup j) (j_displaced j) (j_activated j) (j_roots j)).
    assert (Hd' : describes j' rb) by by destruct Hd.
    refine (stri_write fault jn j' (fun d js l => activated r d js l /\ js = [(jn, JText j)]) committed to_either _ _ _ s _);
      [|by intros e d js l _ [? _]; apply Hact|by intros; apply Hcom|by split].
    intros d js l [Ha ->]. simpl. rewrite String.eqb_refl. split_and!; [|done..]. exists j'. split; [|done].
    split; [destruct Ha as [Ha _]; by eapply published_new|]. right. exists j', rb. done. }
  eapply (stri_seq _ _ _ committed).
  { apply (stri_for (fun _ => committed)). intros pre o post Hl s Hs. pose proof Hs as ((j & Hn) & Hjn & Hrb).
    destruct (Hrb o) as [->|(t & Ht & ->)]; [rewrite Hl; set_solver|done|].
    pose proof (remove_rollback_new fault [(jn, JText j)] "restore_finalize_failed" t to_either Ht) as H.
    specialize (H ltac:(by intros; right) s Hn).
    destruct ((remove_checked _ _ _ ;; _) s) as [[x|a] s']; [done|]. split_and!; [by exists j|done..]. }
  eapply (stri_seq _ _ _ (fun d js _ => js = [] /\ all_new d)).
  { eapply (stri_except _ _ _ _ _ to_either); [|intros x _; by apply stri_throw|done].
    apply stri_effect; [by intros; apply Hcom|]. intros s ((j & [Hn _] & Hj) & -> & _). simpl. rewrite Hj. simpl.
    by rewrite String.eqb_refl. }
  apply stri_nop. intros e d js l _ [-> Hn]. right. split; [done|by left].
Qed.

Lemma restore_work_spec rq :
  rq_targets rq = inr targets -> rq_backup rq = backup ->
  stri untouched (restore_work fault lease staging_of rollback_of jn archived rq)
       (fun _ d js _ => js = [] /\ all_new d) to_either.
Proof.
  intros Hrq Hbk. unfold restore_work. eapply stri_bind.
  { eapply stri_conseq; [by apply restore_spec|done|done|by left]. }
  intros r. eapply (stri_bind _ _ _ (fun ok d js l => activated r d js l /\ ok = true)).
  { intros s Hs. split; [done|]. apply forallb_forall. intros p Hp%list_elem_of_In.
    destruct Hs as (Hm & _ & Hd & _). rewrite Hd in Hp. apply list_elem_of_fmap in Hp as (t & -> & Ht).
    apply bool_decide_eq_true. by rewrite (published_new _ _ _ Hm t Ht). }
  intros ok. apply stri_if; intros ->; [|apply stri_absurd; by intros d js l [_ ?]].
  eapply (stri_seq _ _ _ (fun d js _ => js = [] /\ all_new d)); [|by apply stri_ret]. eapply stri_pre; [apply finalize_spec|by intros d js l [? _]].
Qed.
End Restored.
End Run.
