(* ===== verification/RestoreTheorems.v ===== *)
(** The theorems of the restore journal: whatever interrupts a restore or the
    reconciliations after it, the roots end up all old or all new; and what a
    journal that outlives its restore does to the next one. *)
From S2P Require Import Prelude Restore RestoreFacts.



(** What one restore works on: its targets, the names it draws, what the archive
    holds and what the roots held before. *)
Record plan := Plan {
  pl_targets : list target;
  pl_staging : target -> path;
  pl_rollback : target -> path;
  pl_journal : string;
  pl_archived : target -> string;
  pl_orig : target -> string;
}.

(** The profile as the reconciliation sees it. *)
Record site := Site {
  st_approved : list path;
  st_root_id : path -> string;
  st_trusted : string -> bool;
}.

(** Root ids and paths are distinct, the targets are the approved roots, and the
    names have the form the journal checks accept. *)
Record sound (p : plan) (w : site) : Prop := {
  so_ids : NoDup (map tg_id (pl_targets p));
  so_paths : NoDup (map tg_path (pl_targets p) ++ map (pl_staging p) (pl_targets p)
                    ++ map (pl_rollback p) (pl_targets p));
  so_trusted : st_trusted w (pl_journal p) = true;
  so_approved : map tg_path (pl_targets p) ≡ₚ st_approved w;
  so_root_ids : forall t, t ∈ pl_targets p ->
    id_ok (st_approved w) (st_root_id w) (tg_id t) (tg_path t) = true;
  so_names : forall t, t ∈ pl_targets p ->
    name_ok (".restore-" ++ tg_id t ++ "-") (pl_staging p t) (tg_path t) = true /\
    name_ok ".rollback-" (pl_rollback p t) (tg_path t) = true;
}.

Definition worker (p : plan) (fault : nat -> option sexc) (lease : nat -> bool) (rq : request) : RM RestoreResult :=
  restore_work fault lease (pl_staging p) (pl_rollback p) (pl_journal p) (pl_archived p) rq.

Definition startup (w : site) (fault : nat -> option sexc) : RM unit :=
  reconcile fault (st_approved w) (st_root_id w) (st_trusted w) None.

(** One start of the service, its reconciliation interrupted or not. *)
Definition reboot (w : site) (s s' : sstate) : Prop := exists fault, s' = snd (startup w fault s).

Definition no_fault : nat -> option sexc := fun _ => None.

(** Every root as it was before the restore, with nothing set aside; every root as
    in the archive. *)
Definition old_roots (p : plan) (d : gmap path dir) : Prop :=
  forall t, t ∈ pl_targets p ->
    d !! tg_path t = (if tg_existed t then Some (Dir (pl_orig p t) true) else None) /\
    d !! pl_rollback p t = None.
Definition new_roots (p : plan) (d : gmap path dir) : Prop :=
  forall t, t ∈ pl_targets p -> d !! tg_path t = Some (Dir (pl_archived p t) true).

Section Atomic.
Context (p : plan) (w : site) (Hsound : sound p w).

#[local] Abbreviation open := (either (pl_staging p) (pl_rollback p) (pl_journal p) (pl_archived p) (pl_orig p) (pl_targets p)).

(** A start keeps the restore recoverable, and ends it unless it is disturbed. *)
Lemma startup_spec fault s :
  open (s_dirs s) (s_journals s) (s_local s) ->
  match startup w fault s with
  | (inl _, s') => open (s_dirs s') (s_journals s') (s_local s') /\ disturbed fault
  | (inr _, s') => s_journals s' = [] /\ (old_roots p (s_dirs s') \/ new_roots p (s_dirs s'))
  end.
Proof.
  destruct Hsound as [Hi Hp Ht Ha Hr Hn]. unfold startup. intros [Ho|Hw].
  - pose proof (reconcile_old (pl_staging p) (pl_rollback p) (pl_journal p) (pl_archived p) (pl_orig p)
      (pl_targets p) Hi Hp fault _ _ _ Ht Ha Hr Hn s Ho) as H.
    destruct (reconcile _ _ _ _ _ _) as [[x|a] s']; destruct H as [H H']; [|by auto].
    by split; [left|].
  - pose proof (reconcile_new (pl_staging p) (pl_rollback p) (pl_journal p) (pl_archived p) (pl_orig p)
      (pl_targets p) Hi Hp fault _ _ _ Ht Ha Hr Hn s Hw) as H.
    destruct (reconcile _ _ _ _ _ _) as [[x|a] s']; destruct H as [H H']; [|by auto].
    by split; [right|].
Qed.

Lemma settled_open d l : old_roots p d \/ new_roots p d -> open d [] l.
Proof. intros [H|H]; [left; by left|right; split; [done|by left]]. Qed.

Lemma reboots_open s s' :
  rtc (reboot w) s s' -> open (s_dirs s) (s_journals s) (s_local s) ->
  open (s_dirs s') (s_journals s') (s_local s').
Proof.
  induction 1 as [|s s1 s' [fault ->] _ IH]; [done|]. intros Ho. apply IH. clear IH.
  pose proof (startup_spec fault s Ho) as H. destruct (startup w fault s) as [[x|a] s1]; simpl; [by destruct H|].
  destruct H as [-> H]. by apply settled_open.
Qed.
End Atomic.


(** ** A concrete restore *)

(** A profile with a world that exists and a directory of mods that does not. *)
Definition world : target := Target "world" ("/srv", "world")%string true.
Definition mods : target := Target "mods" ("/srv", "mods")%string false.

Definition demo : plan := Plan [world; mods]
  (fun t => ("/srv", ".restore-" ++ tg_id t ++ "-a")%string)
  (fun t => ("/srv", ".rollback-" ++ tg_id t)%string)
  ".restore-journal-1.json" (fun _ => "archived"%string) (fun _ => "original"%string).

Definition home : site := Site [("/srv", "world"); ("/srv", "mods")]%string pa_name (fun _ => true).

Definition ask : request := Request (Some true) true true true (inr [world; mods]) (fun _ => true) "backup-1".

Definition blank : sstate :=
  SState {[("/srv", "world")%string := Dir "original" true]} [] (Locals [] [] []) 0.

(** The process dies at tick [n]. *)
Definition dies_at (n : nat) : nat -> option sexc := fun k => if bool_decide (k = n) then Some CrashX else None.
Definition held : nat -> bool := fun _ => true.

Lemma demo_sound : sound demo home.
Proof.
  split; try by vm_compute.
  - by apply (bool_decide_unpack _); vm_compute.
  - by apply (bool_decide_unpack _); vm_compute.
  - intros t Ht. repeat (apply elem_of_cons in Ht as [->|Ht]; [by vm_compute|]). by apply elem_of_nil in Ht.
  - intros t Ht. repeat (apply elem_of_cons in Ht as [->|Ht]; [by vm_compute|]). by apply elem_of_nil in Ht.
Qed.

Lemma blank_old : old_roots demo (s_dirs blank).
Proof.
  intros t Ht. repeat (apply elem_of_cons in Ht as [->|Ht]; [by vm_compute|]). by apply elem_of_nil in Ht.
Qed.


(** The next restore of the same roots, with names of its own. *)
Definition again : plan := Plan [world; mods]
  (fun t => ("/srv", ".restore-" ++ tg_id t ++ "-b")%string)
  (fun t => ("/srv", ".rollback-" ++ tg_id t ++ "-b")%string)
  ".restore-journal-2.json" (fun _ => "archived"%string) (fun _ => "original"%string).

(** A failed restore keeps its journal.  The handler of a failed publication
    puts the displaced roots back but leaves the journal behind.  When the lease is
    lost at the first displacement, the restore fails with the roots as before; the
    next restore of the profile succeeds and is finalized; and the next start of the
    service then reconciles the journal of the failed one, which deletes the
    restored root that did not exist before the first restore, and keeps the
    other: the committed restore is undone in part. *)
Theorem stale_journal_deletes_restored_root :
  let s1 := snd (worker demo no_fault (fun _ => false) ask blank) in
  let s2 := snd (worker again no_fault held ask s1) in
  let s3 := snd (startup home no_fault s2) in
  fst (worker demo no_fault (fun _ => false) ask blank) = inl (SafeX "slot_conflict") /\
  s_dirs s1 = s_dirs blank /\
  (exists r, fst (worker again no_fault held ask s1) = inr r) /\ new_roots again (s_dirs s2) /\
  fst (startup home no_fault s2) = inr tt /\
  s_dirs s3 !! tg_path world = Some (Dir "archived" true) /\ s_dirs s3 !! tg_path mods = None.
Proof.
  cbv zeta. split_and!; try (vm_compute; reflexivity).
  - eexists. vm_compute. reflexivity.
  - intros t Ht. repeat (apply elem_of_cons in Ht as [->|Ht]; [by vm_compute|]). by apply elem_of_nil in Ht.
Qed.
