(* ===== verification/Archive.v ===== *)
(** [backups.py]: what a backup archive holds.  The walk of a data root, the
    snapshot and its manifest, the verification of a new archive, the validation of
    an archive before a restore, and the extraction into staging directories.

    A data root is a tree of directories, regular files, symbolic links and other
    nodes.  An archive is its sequence of members; [tar] and [zstd] are not
    modelled.  The manifest an archive holds is any JSON value: the checks of the
    code are made on it.  SHA-256 and the JSON codec are parameters. *)
From Stdlib Require Import Ascii.
From S2P Require Import Prelude.

(** ** Errors *)

(** [SafeError] with its code; [OSError], [tarfile.TarError], [ValueError] and
    [KeyError], which the callers turn into one; any other exception. *)
Inductive aexc := Safe (code : string) | Caught | Uncaught.

Definition AR (A : Type) : Type := (aexc + A)%type.

#[export] Instance AR_ret : MRet AR := fun A a => inr a.
#[export] Instance AR_bind : MBind AR := fun A B k m => match m with inl x => inl x | inr a => k a end.

Definition safe {A} (code : string) : AR A := inl (Safe code).
Definition require (b : bool) (code : string) : AR unit := if b then inr tt else safe code.

Fixpoint each {A} (f : A -> AR unit) (l : list A) : AR unit :=
  match l with [] => inr tt | a :: l' => f a ;; each f l' end.

(** ** Paths *)

(** [s.split("/")] *)
Fixpoint split_slash (s : string) : list string :=
  match s with
  | EmptyString => [EmptyString]
  | String c s' =>
      if Ascii.eqb c "/"%char then EmptyString :: split_slash s'
      else match split_slash s' with
           | [] => [String c EmptyString]
           | p :: ps => String c p :: ps
           end
  end.

(** The components of [PurePosixPath(s)] after its root. *)
Definition parts (s : string) : list string :=
  List.filter (fun p => negb (String.eqb p EmptyString) && negb (String.eqb p ".")) (split_slash s).

Definition is_absolute (s : string) : bool := String.prefix "/" s.

(** [as_posix] of a relative path. *)
Fixpoint as_posix (p : list string) : string :=
  match p with
  | [] => EmptyString
  | [x] => x
  | x :: p' => (x ++ String "/" (as_posix p'))%string
  end.

Fixpoint has_nul (s : string) : bool :=
  match s with
  | EmptyString => false
  | String c s' => Ascii.eqb c Ascii.zero || has_nul s'
  end.

Definition ends_with (suffix s : string) : bool :=
  let k := (String.length s - String.length suffix)%nat in
  (String.length suffix <=? String.length s)%nat && String.eqb (String.substring k (String.length suffix) s) suffix.

Definition has_dotdot (s : string) : bool := bool_decide (".."%string ∈ parts s).

(** ** Data roots *)

Inductive node :=
  | NFile (content : string) (mode uid gid : Z)
  | NDir (readable : bool) (children : list (string * node))
  | NLink
  | NSpecial.

Record source := Source {
  src_path : list string;
  src_content : string;
  src_mode : Z;
  src_uid : Z;
  src_gid : Z;
}.

(** [sorted(scan, key=name, reverse=True)] *)
Definition name_ge (a b : string * node) : Prop := str_leb (fst b) (fst a) = true.
#[export] Instance name_ge_dec a b : Decision (name_ge a b).
Proof. unfold name_ge. apply _. Defined.

(** One directory of [_walk]: what it yields and what it pushes, in order. *)
Fixpoint scan_children (excluded : list string) (here : list string) (children : list (string * node))
    : list source * list (list string * node) :=
  match children with
  | [] => ([], [])
  | (name, n) :: rest =>
      let '(fs, ds) := scan_children excluded here rest in
      if (bool_decide (here = []) && bool_decide (name ∈ excluded)) || ends_with ".partial" name
      then (fs, ds)
      else match n with
           | NLink | NSpecial => (fs, ds)
           | NDir _ _ => (fs, (here ++ [name], n) :: ds)
           | NFile c m u g => (Source (here ++ [name]) c m u g :: fs, ds)
           end
  end.

(** [_walk]: the top of the stack comes first. *)
Fixpoint walk_loop (fuel : nat) (excluded : list string) (stack : list (list string * node)) : AR (list source) :=
  match fuel with
  | O => inl Uncaught
  | S fuel' =>
      match stack with
      | [] => inr []
      | (here, NDir true children) :: stack' =>
          let '(fs, ds) := scan_children excluded here (merge_sort name_ge children) in
          rest ← walk_loop fuel' excluded (rev ds ++ stack');
          inr (fs ++ rest)
      | (_, _) :: _ => safe "backup_failed"
      end
  end.

(** The number of directories, which bounds the iterations. *)
Fixpoint dirs_of (n : node) : nat :=
  match n with
  | NDir _ children => S (list_sum (map (fun x => dirs_of (snd x)) children))
  | _ => O
  end.

Definition _walk (root : node) (excluded : list string) : AR (list source) :=
  walk_loop (S (dirs_of root)) excluded [([], root)].

(** ** Snapshot *)

Record entry := Entry {
  e_path : string;
  e_root_id : string;
  e_archive_path : string;
  e_size : Z;
  e_mode : Z;
  e_uid : Z;
  e_gid : Z;
  e_sha256 : string;
}.

(** A root to back up: its path, whether [_walk_source] filters it, what is there. *)
Record data_root := DataRoot {
  dr_path : string;
  dr_redundant : bool;
  dr_node : option node;
}.

Definition is_link (n : option node) : bool := match n with Some NLink => true | _ => false end.

Section Hash.
Context (sha256 : string -> string).

Definition _root_identity (root : string) : string := sha256 root.
Definition _root_id (root : string) : string := ("root-" ++ String.substring 0 24 (_root_identity root))%string.

Definition _SUNLIT_REDUNDANT_BACKUP_DIRS : list string := ["backups"%string].

(** Archives a server version made of itself. *)
Definition versioned_backup (p : list string) : bool :=
  match p with
  | a :: _ :: b :: _ :: _ => String.eqb a ".versions" && String.eqb b "backups"
  | _ => false
  end.

Definition _walk_source (r : data_root) (n : node) : AR (list source) :=
  if dr_redundant r
  then l ← _walk n _SUNLIT_REDUNDANT_BACKUP_DIRS; inr (List.filter (fun s => negb (versioned_backup (src_path s))) l)
  else _walk n [].

Definition _estimate (roots : list data_root) : AR Z :=
  foldr (fun r acc =>
    n ← (match dr_node r with
         | None | Some NLink => inr 0
         | Some n => l ← _walk_source r n;
                     inr (foldr (fun s a => Z.of_nat (String.length (src_content s)) + a) 0 l)
         end : AR Z);
    a ← acc;
    inr (n + a)) (inr 65536) roots.

Definition make_entry (single : bool) (root_id : string) (s : source) : entry :=
  let relative := as_posix (src_path s) in
  Entry relative root_id
    (if single then "payload/" ++ relative else "payload/" ++ root_id ++ "/" ++ relative)%string
    (Z.of_nat (String.length (src_content s))) (src_mode s) (src_uid s) (src_gid s) (sha256 (src_content s)).

(** [entries.sort(key=path)] *)
Definition entry_le (a b : entry) : Prop := str_leb (e_path a) (e_path b) = true.
#[export] Instance entry_le_dec a b : Decision (entry_le a b).
Proof. unfold entry_le. apply _. Defined.

Section Snapshot.
(** What staging a file raises: the deadline, or a file that cannot be read. *)
Context (stage : string -> source -> option aexc).

Fixpoint stage_files (single : bool) (root_id : string) (l : list source) : AR (list entry) :=
  match l with
  | [] => inr []
  | s :: l' =>
      if existsb (ends_with ".partial") (src_path s) then stage_files single root_id l'
      else match stage root_id s with
           | Some x => inl x
           | None => es ← stage_files single root_id l'; inr (make_entry single root_id s :: es)
           end
  end.

Definition snapshot_root (single : bool) (r : data_root) : AR (list entry) :=
  match dr_node r with
  | Some NLink => safe "backup_failed"
  | None => inr []
  | Some n => l ← _walk_source r n; stage_files single (_root_id (dr_path r)) l
  end.

(** Each root gets its payload directory, which must be new. *)
Fixpoint snapshot_roots (single : bool) (seen : list string) (roots : list data_root) : AR (list entry) :=
  match roots with
  | [] => inr []
  | r :: roots' =>
      let root_id := _root_id (dr_path r) in
      (if bool_decide (root_id ∈ seen) && negb (is_link (dr_node r)) then inl Caught else inr tt) ;;
      es ← snapshot_root single r;
      es' ← snapshot_roots single (root_id :: seen) roots';
      inr (es ++ es')
  end.

Definition _snapshot (roots : list data_root) : AR (list entry) :=
  es ← snapshot_roots (bool_decide (length roots = 1%nat)) [] roots;
  inr (merge_sort entry_le es).
End Snapshot.

(** ** Manifest *)

Definition _MANIFEST : string := "manifest.json".

Definition json_of_entry (e : entry) : json :=
  JObj [("path", JStr (e_path e)); ("root_id", JStr (e_root_id e)); ("archive_path", JStr (e_archive_path e));
        ("size", JInt (e_size e)); ("mode", JInt (e_mode e)); ("uid", JInt (e_uid e)); ("gid", JInt (e_gid e));
        ("sha256", JStr (e_sha256 e))]%string.

Definition json_of_root (r : data_root) : json :=
  JObj [("id", JStr (_root_id (dr_path r))); ("identity", JStr (_root_identity (dr_path r)))]%string.

(** The manifest [create] writes; [create_online] adds its marker. *)
Definition make_manifest (online : bool) (profile_id backup_id created_at : string)
    (roots : list data_root) (entries : list entry) : list (string * json) :=
  let several := (1 <? length roots)%nat in
  [("schema", JInt (if several then 2 else 1)); ("profile_id", JStr profile_id);
   ("backup_id", JStr backup_id); ("created_at", JStr created_at)]%string
  ++ (if online then [("online_consistent", JBool true)]%string else [])
  ++ [("entries", JList (map json_of_entry entries))]%string
  ++ (if several then [("roots", JList (map json_of_root roots))]%string else []).

(** ** Archives *)

Inductive mtype := MReg | MDir | MSym | MHard | MDev | MFifo | MOther.

Record member := Member {
  mb_name : string;
  mb_type : mtype;
  mb_size : Z;
  mb_uid : Z;
  mb_gid : Z;
  mb_content : string;
}.

Definition isfile (m : member) : bool := match mb_type m with MReg => true | _ => false end.
Definition islink (m : member) : bool := match mb_type m with MSym | MHard => true | _ => false end.
Definition isdev (m : member) : bool := match mb_type m with MDev | MFifo => true | _ => false end.

(** [archive.extractfile(member)] of a member that is not a link. *)
Definition extractfile (m : member) : option string := if isfile m then Some (mb_content m) else None.

Definition get_member (name : string) (l : list member) : option member :=
  List.find (fun m => String.eqb (mb_name m) name) l.

(** [archive.getmember(name)]: the last member of that name. *)
Definition getmember (name : string) (l : list member) : option member := get_member name (rev l).

Definition names (l : list member) : list string := map mb_name l.

Definition _MAX_ID : Z := 2 ^ 32 - 1.
Definition id_in_range (n : Z) : bool := (0 <=? n) && (n <=? _MAX_ID).

Definition _bounded_id (code : string) (j : option json) : AR Z :=
  match j with
  | Some (JInt n) => if id_in_range n then inr n else safe code
  | _ => safe code
  end.

Definition _entry_owner (code : string) (e : list (string * json)) : AR (Z * Z) :=
  uid ← _bounded_id code (assoc "uid" e);
  gid ← _bounded_id code (assoc "gid" e);
  inr (uid, gid).

Definition _validate_member (m : member) : AR unit :=
  let name := mb_name m in
  require (nonempty name && negb (has_nul name) && negb (is_absolute name) && negb (has_dotdot name)) "invalid_backup" ;;
  require (negb (islink m || isdev m)) "invalid_backup" ;;
  require (isfile m || String.eqb name _MANIFEST) "invalid_backup" ;;
  require (id_in_range (mb_uid m)) "invalid_backup" ;;
  require (id_in_range (mb_gid m)) "invalid_backup".

Definition same_set (l k : list string) : bool :=
  forallb (fun x => bool_decide (x ∈ k)) l && forallb (fun x => bool_decide (x ∈ l)) k.

(** ** Verification of a new archive *)

Definition verify_entry (members : list member) (e : entry) : AR unit :=
  match getmember (e_archive_path e) members with
  | None => safe "backup_failed"
  | Some m =>
      require (isfile m) "backup_failed" ;;
      require (id_in_range (e_uid e)) "backup_failed" ;;
      require (id_in_range (e_gid e)) "backup_failed" ;;
      require ((mb_uid m =? e_uid e) && (mb_gid m =? e_gid e)) "backup_failed" ;;
      require (bool_decide (sha256 <$> extractfile m = Some (e_sha256 e))) "backup_failed"
  end.

(** [_verify_archive] when [tarfile] reads the archive. *)
Definition _verify_archive (members : list member) (entries : list entry) : AR unit :=
  each _validate_member members ;;
  require (bool_decide (_MANIFEST ∈ names members)) "backup_failed" ;;
  require (same_set (names members) (_MANIFEST :: map e_archive_path entries)) "backup_failed" ;;
  each (verify_entry members) entries.

Section Stream.
(** [json.loads] *)
Context (loads : string -> option json).

Fixpoint last_entry (name : string) (entries : list entry) : option entry :=
  match entries with
  | [] => None
  | e :: l => match last_entry name l with
              | Some x => Some x
              | None => if String.eqb (e_archive_path e) name then Some e else None
              end
  end.

Fixpoint verify_stream (entries : list entry) (seen : list string) (members : list member) : AR (list string) :=
  match members with
  | [] => inr seen
  | m :: rest =>
      require (Z.of_nat (length seen) <? 1000000) "backup_failed" ;;
      require (String.length (mb_name m) <=? 4096)%nat "backup_failed" ;;
      require (negb (bool_decide (mb_name m ∈ seen))) "backup_failed" ;;
      _validate_member m ;;
      (if String.eqb (mb_name m) _MANIFEST
       then match extractfile m with
            | Some c => require (bool_decide (is_Some (loads c))) "backup_failed"
            | None => safe "backup_failed"
            end
       else match last_entry (mb_name m) entries with
            | None => safe "backup_failed"
            | Some e =>
                require (isfile m && (mb_size m =? e_size e)) "backup_failed" ;;
                require ((mb_uid m =? e_uid e) && (mb_gid m =? e_gid e)) "backup_failed" ;;
                require (bool_decide (sha256 <$> extractfile m = Some (e_sha256 e))) "backup_failed"
            end) ;;
      verify_stream entries (mb_name m :: seen) rest
  end.

(** [_verify_zstd_stream] of a stream the decompressor ends with status 0. *)
Definition _verify_zstd_stream (members : list member) (entries : list entry) : AR unit :=
  each (fun e => require (id_in_range (e_uid e)) "backup_failed" ;; require (id_in_range (e_gid e)) "backup_failed") entries ;;
  seen ← verify_stream entries [] members;
  require (same_set seen (_MANIFEST :: map e_archive_path entries)) "backup_failed".

(** ** Validation of an archive to restore *)

(** [d.get(k)] with a missing value as [None]. *)
Definition field (k : string) (d : list (string * json)) : json :=
  match assoc k d with Some v => v | None => JNull end.

(** [v == n] for an int. *)
Definition equals_int (v : json) (n : Z) : bool :=
  match v with
  | JInt k => k =? n
  | JBool b => (if b then 1 else 0) =? n
  | JFloat (FFin k) => k =? fl n
  | _ => false
  end.

Definition hashable (v : json) : bool := match v with JList _ | JObj _ => false | _ => true end.

(** [v == w] of hashable values. *)
Definition scalar_eq (v w : json) : bool :=
  match v, w with
  | JNull, JNull => true
  | JStr a, JStr b => String.eqb a b
  | (JInt _ | JBool _ | JFloat _), JInt n => equals_int v n
  | (JInt _ | JBool _ | JFloat _), JBool b => equals_int v (if b then 1 else 0)
  | JInt n, JFloat (FFin k) => k =? fl n
  | JBool b, JFloat (FFin k) => k =? fl (if b then 1 else 0)
  | JFloat (FFin a), JFloat (FFin b) => a =? b
  | JFloat FInf, JFloat FInf | JFloat FNegInf, JFloat FNegInf => true
  | _, _ => false
  end.

(** [int(s)] of a string. *)
Definition is_space (c : Ascii.ascii) : bool :=
  let n := Ascii.nat_of_ascii c in ((9 <=? n) && (n <=? 13) || (28 <=? n) && (n <=? 32))%nat.
Definition digit (c : Ascii.ascii) : option Z :=
  let n := Z.of_nat (Ascii.nat_of_ascii c) in
  if (48 <=? n) && (n <=? 57) then Some (n - 48) else None.

(** Digits with single underscores between them; [after] tells that one precedes. *)
Fixpoint int_digits (acc : Z) (after : bool) (l : list Ascii.ascii) : option Z :=
  match l with
  | [] => if after then Some acc else None
  | c :: l' =>
      match digit c with
      | Some d => int_digits (10 * acc + d) true l'
      | None => if (after && Ascii.eqb c "_"%char)%bool then int_digits acc false l' else None
      end
  end.

Fixpoint lstrip (l : list Ascii.ascii) : list Ascii.ascii :=
  match l with
  | c :: l' => if is_space c then lstrip l' else l
  | [] => []
  end.

Definition int_of_string (s : string) : option Z :=
  match rev (lstrip (rev (lstrip (String.list_ascii_of_string s)))) with
  | c :: l => if Ascii.eqb c "-"%char then Z.opp <$> int_digits 0 false l
              else if Ascii.eqb c "+"%char then int_digits 0 false l
              else int_digits 0 false (c :: l)
  | [] => None
  end.

(** [int(v)] *)
Definition py_int (v : json) : AR Z :=
  match v with
  | JInt n => inr n
  | JBool b => inr (if b then 1 else 0)
  | JFloat (FFin k) => inr (Z.quot k fscale)
  | JFloat FNan => inl Caught
  | JFloat _ => inl Uncaught
  | JStr s => match int_of_string s with Some n => inr n | None => inl Caught end
  | _ => inl Uncaught
  end.

Definition entry_size (e : list (string * json)) : AR Z :=
  match assoc "size" e with Some v => py_int v | None => inr (-1) end.

(** [{item.get("id") for item in manifest.get("roots", ())}] *)
Fixpoint root_ids (l : list json) : AR (list json) :=
  match l with
  | [] => inr []
  | JObj d :: l' =>
      ids ← root_ids l';
      if hashable (field "id" d) then inr (field "id" d :: ids) else inl Uncaught
  | _ :: _ => inl Uncaught
  end.

Definition manifest_root_ids (m : list (string * json)) : AR (list json) :=
  match assoc "roots" m with
  | None | Some (JObj []) | Some (JStr EmptyString) => inr []
  | Some (JList l) => root_ids l
  | _ => inl Uncaught
  end.

(** The root of an entry is one of the manifest's. *)
Definition check_root (m e : list (string * json)) : AR unit :=
  if equals_int (field "schema" m) 2 then
    ids ← manifest_root_ids m;
    if hashable (field "root_id" e) then
      require (existsb (scalar_eq (field "root_id" e)) ids) "invalid_backup"
    else inl Uncaught
  else inr tt.

Definition safe_path (nul : bool) (v : json) : bool :=
  match v with
  | JStr p => nonempty p && negb (nul && has_nul p) && negb (is_absolute p) && negb (has_dotdot p)
  | _ => false
  end.

Definition str_field (k : string) (d : list (string * json)) : string :=
  match assoc k d with Some (JStr s) => s | _ => EmptyString end.

Definition dicts (l : list json) : option (list (list (string * json))) :=
  mapM (fun j => match j with JObj d => Some d | _ => None end) l.

(** The manifest's own checks: its profile, and its entries. *)
Definition manifest_entries (profile_id : string) (v : json) : AR (list (string * json) * list (list (string * json))) :=
  match v with
  | JObj m =>
      require ((equals_int (field "schema" m) 1 || equals_int (field "schema" m) 2)
               && match field "profile_id" m with JStr p => String.eqb p profile_id | _ => false end) "wrong_profile" ;;
      match field "entries" m with
      | JList l => match dicts l with Some es => inr (m, es) | None => safe "invalid_backup" end
      | _ => safe "invalid_backup"
      end
  | _ => inl Uncaught
  end.

(** The checks of the whole, after those of the entries. *)
Definition manifest_matches (members : list member) (m : list (string * json)) (es : list (list (string * json))) : AR unit :=
  let aps := map (str_field "archive_path") es in
  require (bool_decide (NoDup aps) && negb (bool_decide (_MANIFEST ∈ aps)) && same_set (names members) (_MANIFEST :: aps))
          "invalid_backup" ;;
  each (check_root m) es ;;
  require (match field "backup_id" m with JStr s => nonempty s | _ => false end) "invalid_backup".

Definition validate_entry (members : list member) (m e : list (string * json)) : AR unit :=
  match field "archive_path" e with
  | JStr an =>
      match get_member an members with
      | None => safe "invalid_backup"
      | Some mb =>
          require (safe_path true (field "path" e)) "invalid_backup" ;;
          check_root m e ;;
          require (isfile mb) "invalid_backup" ;;
          own ← _entry_owner "ownership_mismatch" e;
          require (negb (String.eqb an _MANIFEST) && (mb_uid mb =? fst own) && (mb_gid mb =? snd own)) "ownership_mismatch" ;;
          size ← entry_size e;
          require (size =? mb_size mb) "checksum_mismatch" ;;
          require (match field "sha256" e with
                   | JStr h => bool_decide (sha256 <$> extractfile mb = Some h)
                   | _ => false
                   end) "checksum_mismatch"
      end
  | _ => safe "invalid_backup"
  end.

Definition _validate_archive (profile_id : string) (members : list member)
    : AR (list (string * json) * list (list (string * json))) :=
  require (bool_decide (NoDup (names members))) "invalid_backup" ;;
  each _validate_member members ;;
  match get_member _MANIFEST members with
  | None => safe "invalid_backup"
  | Some mm =>
      match extractfile mm with
      | None => safe "invalid_backup"
      | Some c =>
          match loads c with
          | None => safe "invalid_backup"
          | Some v =>
              me ← manifest_entries profile_id v;
              each (validate_entry members (fst me)) (snd me) ;;
              manifest_matches members (fst me) (snd me) ;;
              inr me
          end
      end
  end.

(** [_ExternalArchive]: the members of the decompressed stream. *)
Fixpoint read_stream (seen : list string) (members : list member) : AR unit :=
  match members with
  | [] => inr tt
  | m :: rest =>
      require (Z.of_nat (length seen) <? 1000000) "invalid_backup" ;;
      require (String.length (mb_name m) <=? 4096)%nat "invalid_backup" ;;
      require (negb (bool_decide (mb_name m ∈ seen))) "invalid_backup" ;;
      _validate_member m ;;
      read_stream (mb_name m :: seen) rest
  end.

Definition validate_external_entry (members : list member) (m e : list (string * json)) : AR unit :=
  match field "archive_path" e with
  | JStr an =>
      match get_member an members with
      | None => safe "invalid_backup"
      | Some mb =>
          require (safe_path false (field "path" e)) "invalid_backup" ;;
          check_root m e ;;
          require (isfile mb) "invalid_backup" ;;
          own ← _entry_owner "ownership_mismatch" e;
          require ((mb_uid mb =? fst own) && (mb_gid mb =? snd own)) "ownership_mismatch" ;;
          size ← entry_size e;
          require (mb_size mb =? size) "checksum_mismatch" ;;
          require (match field "sha256" e with
                   | JStr h => bool_decide (sha256 <$> extractfile mb = Some h)
                   | _ => false
                   end) "checksum_mismatch"
      end
  | _ => safe "invalid_backup"
  end.

Definition _validate_external (profile_id : string) (members : list member)
    : AR (list (string * json) * list (list (string * json))) :=
  require (bool_decide (NoDup (names members))) "invalid_backup" ;;
  match get_member _MANIFEST members with
  | None => safe "invalid_backup"
  | Some mm =>
      match extractfile mm with
      | None => safe "invalid_backup"
      | Some c =>
          match loads c with
          | None => safe "invalid_backup"
          | Some v =>
              me ← manifest_entries profile_id v;
              each (validate_external_entry members (fst me)) (snd me) ;;
              manifest_matches members (fst me) (snd me) ;;
              inr me
          end
      end
  end.
End Stream.

(** ** Targets *)

(** The destination of a root: its path and owner. *)
Record rtarget := RTarget { rt_path : string; rt_uid : Z; rt_gid : Z }.

Section Targets.
(** [_read_target]: the destination as it is on disk. *)
Context (read_target : string -> AR rtarget).

Definition descriptor_ok (roots : list string) (d : list (string * json)) : bool :=
  match field "identity" d, field "id" d with
  | JStr i, JStr x => existsb (fun r => String.eqb i (_root_identity r) && String.eqb x (_root_id r)) roots
  | _, _ => false
  end.

Definition root_of_identity (roots : list string) (i : string) : option string :=
  List.find (fun r => String.eqb (_root_identity r) i) roots.

Fixpoint read_all (l : list (string * string)) : AR (list (string * rtarget)) :=
  match l with
  | [] => inr []
  | (rid, root) :: l' =>
      t ← read_target root;
      ts ← read_all l';
      inr ((rid, t) :: ts)
  end.

(** The dict the targets are collected in: one per id. *)
Definition by_id (l : list (string * rtarget)) : list (string * rtarget) :=
  foldl (fun acc x => if bool_decide (fst x ∈ map fst acc) then acc else acc ++ [x]) [] l.

Definition _read_targets (roots : list string) (m : list (string * json)) : AR (list (string * rtarget)) :=
  if equals_int (field "schema" m) 1 then
    match roots with
    | [r] => read_all [("root-0"%string, r)]
    | _ => safe "invalid_backup"
    end
  else if equals_int (field "schema" m) 2 then
    match field "roots" m with
    | JList l =>
        match dicts l with
        | Some ds =>
            let ids := map (str_field "identity") ds in
            if forallb (fun d => match field "identity" d with JStr _ => true | _ => false end) ds
               && same_set ids (map _root_identity roots)
               && bool_decide (length (remove_dups ids) = length roots)
               && forallb (descriptor_ok roots) ds
            then ts ← read_all (omap (fun d => (fun r => (str_field "id" d, r)) <$> root_of_identity roots (str_field "identity" d)) ds);
                 inr (by_id ts)
            else safe "invalid_backup"
        | None => safe "invalid_backup"
        end
    | _ => safe "invalid_backup"
    end
  else safe "invalid_backup".
End Targets.
End Hash.

(** ** Extraction *)

Record xfile := XFile { xf_content : string; xf_mode : Z; xf_uid : Z; xf_gid : Z }.

(** The file system below the staging directories, by absolute components. *)
Record xstate := XState {
  x_dirs : gset (list string);
  x_files : gmap (list string) xfile;
}.

(** [staging / PurePosixPath(relative)] *)
Definition join_path (base : list string) (relative : string) : list string :=
  if is_absolute relative then parts relative else base ++ parts relative.

Definition _within (p root : list string) : bool := bool_decide (root `prefix_of` p).

(** The directories above a path, the nearest included. *)
Definition ancestors (p : list string) : list (list string) := map (fun k => take k p) (seq 0 (length p)).

(** [target.parent.mkdir(parents=True, exist_ok=True)] *)
Definition mkdirs (p : list string) (s : xstate) : AR xstate :=
  if existsb (fun a => bool_decide (is_Some (x_files s !! a))) (ancestors p) then inl Caught
  else inr (XState (list_to_set (ancestors p) ∪ x_dirs s) (x_files s)).

(** [target.open("xb")], or [open("wb")], and what follows on the new file. *)
Definition write_file (exclusive : bool) (p : list string) (f : xfile) (s : xstate) : AR xstate :=
  if bool_decide (p ∈ x_dirs s) || (exclusive && bool_decide (is_Some (x_files s !! p))) then inl Caught
  else inr (XState (x_dirs s) (<[p := f]> (x_files s))).

(** The steps for one file; its content is opened once its directory exists. *)
Definition place (exclusive : bool) (base : list string) (relative : string) (content : AR string) (t : rtarget)
    (s : xstate) : AR xstate :=
  let target := join_path base relative in
  require (_within target base) "invalid_backup" ;;
  s' ← mkdirs target s;
  c ← content;
  write_file exclusive target (XFile c 416 (rt_uid t) (rt_gid t)) s'.

(** [relative[2:]] of the first archives, whose only root was called [0]. *)
Definition strip_legacy (relative : string) : string :=
  match relative with
  | String a (String b rest) => if Ascii.eqb a "0"%char && Ascii.eqb b "/"%char then rest else relative
  | _ => relative
  end.

(** The dict of the entries by their archive path. *)
Fixpoint entry_for (name : string) (es : list (list (string * json))) : option (list (string * json)) :=
  match es with
  | [] => None
  | e :: l => match entry_for name l with
              | Some x => Some x
              | None => if String.eqb (str_field "archive_path" e) name then Some e else None
              end
  end.

Definition staged_root := (list string * rtarget)%type.

Definition member_content (m : member) : AR string :=
  match extractfile m with Some c => inr c | None => safe "restore_failed" end.

(** One member of [_extract]. *)
Definition extract_member (es : list (list (string * json))) (base : list string) (t : rtarget) (m : member) (s : xstate) : AR xstate :=
  if String.eqb (mb_name m) _MANIFEST then inr s
  else match entry_for (mb_name m) es with
       | None => inl Caught
       | Some e =>
           place true base (strip_legacy (str_field "path" e)) (member_content m) t s
       end.

(** One member of [_extract_multi] with the second schema. *)
Definition extract_member_multi (es : list (list (string * json))) (stagings : list (string * staged_root)) (m : member) (s : xstate) : AR xstate :=
  if String.eqb (mb_name m) _MANIFEST then inr s
  else match entry_for (mb_name m) es with
       | None => inl Caught
       | Some e =>
           match assoc (str_field "root_id" e) stagings with
           | None => inl Caught
           | Some (base, t) =>
               place true base (str_field "path" e) (member_content m) t s
           end
       end.

Fixpoint run_all {A} (f : A -> xstate -> AR xstate) (l : list A) (s : xstate) : AR xstate :=
  match l with [] => inr s | a :: l' => s' ← f a s; run_all f l' s' end.

Definition _extract_multi (members : list member) (m : list (string * json)) (es : list (list (string * json)))
    (stagings : list (string * staged_root)) (s : xstate) : AR xstate :=
  if equals_int (field "schema" m) 1 then
    match assoc "root-0" stagings with
    | None => inl Caught
    | Some (base, t) => run_all (extract_member es base t) members s
    end
  else run_all (extract_member_multi es stagings) members s.

(** [_ExternalArchive.open] *)
Definition external_open (name : string) (members : list member) : AR string :=
  match get_member name members with
  | Some m => if isfile m then inr (mb_content m) else safe "invalid_backup"
  | None => safe "invalid_backup"
  end.

Definition extract_external_entry (exclusive : bool) (members : list member) (base : list string) (t : rtarget)
    (e : list (string * json)) (s : xstate) : AR xstate :=
  place exclusive base (str_field "path" e) (external_open (str_field "archive_path" e) members) t s.

Definition _extract_external_multi (members : list member) (m : list (string * json)) (es : list (list (string * json)))
    (stagings : list (string * staged_root)) (s : xstate) : AR xstate :=
  if equals_int (field "schema" m) 1 then
    match assoc "root-0" stagings with
    | None => inl Caught
    | Some (base, t) => run_all (extract_external_entry false members base t) es s
    end
  else run_all (fun e s =>
    match assoc (str_field "root_id" e) stagings with
    | None => inl Caught
    | Some (base, t) => extract_external_entry true members base t e s
    end) es s.

(** ** Both readers *)

Section Readers.
Context (sha256 : string -> string) (loads : string -> option json).
(** Whether [tarfile] cannot read the archive, so that [zstd] decompresses it. *)
Context (external : bool).

Definition verify_new (members : list member) (entries : list entry) : AR unit :=
  if external then _verify_zstd_stream sha256 loads members entries else _verify_archive sha256 members entries.

(** The part of [restore] from the archive to the staged roots: its validation, the
    targets, and the extraction into new staging directories. *)
Definition unpack (profile_id : string) (roots : list string) (read_target : string -> AR rtarget)
    (base_of : string -> list string) (members : list member) : AR xstate :=
  me ← (if external then read_stream [] members ;; _validate_external sha256 loads profile_id members
        else _validate_archive sha256 loads profile_id members);
  ts ← _read_targets sha256 read_target roots (fst me);
  let stagings := map (fun x => (fst x, (base_of (fst x), snd x))) ts in
  let s := XState (list_to_set (map (fun x => base_of (fst x)) ts)) ∅ in
  if external then _extract_external_multi members (fst me) (snd me) stagings s
  else _extract_multi members (fst me) (snd me) stagings s.
End Readers.
