(* ===== verification/ArchiveFacts.v ===== *)
(** Facts on the walk of a data root, on the paths of its files and on the snapshot:
    the stack loop of [_walk] against a structural definition, the round trip of
    relative paths, and what the entries of a snapshot are. *)
From Stdlib Require Import Ascii.
From S2P Require Import Prelude Archive.

(** ** Trees *)

Section NodeInd.
Context (P : node -> Prop).
Context (Hfile : forall c m u g, P (NFile c m u g)) (Hlink : P NLink) (Hspecial : P NSpecial).
Context (Hdir : forall r ch, Forall (fun x => P (snd x)) ch -> P (NDir r ch)).

(** Induction through the children of a directory. *)
Fixpoint node_nested_ind (n : node) : P n :=
  match n with
  | NFile c m u g => Hfile c m u g
  | NLink => Hlink
  | NSpecial => Hspecial
  | NDir r ch => Hdir r ch
      ((fix go (l : list (string * node)) : Forall (fun x => P (snd x)) l :=
          match l with
          | [] => List.Forall_nil _
          | x :: l' => List.Forall_cons _ _ _ (node_nested_ind (snd x)) (go l')
          end) ch)
  end.
End NodeInd.

Definition skipped (excluded here : list string) (name : string) : bool :=
  (bool_decide (here = []) && bool_decide (name ∈ excluded)) || ends_with ".partial" name.

(** The regular files of a tree that a walk visits. *)
Fixpoint regular_files (excluded here : list string) (n : node) : list source :=
  match n with
  | NFile c m u g => [Source here c m u g]
  | NDir _ ch =>
      flat_map (fun x => if skipped excluded here (fst x) then []
                         else regular_files excluded (here ++ [fst x]) (snd x)) ch
  | _ => []
  end.

(** Every directory a walk visits can be read. *)
Fixpoint all_readable (excluded here : list string) (n : node) : bool :=
  match n with
  | NDir r ch =>
      r && forallb (fun x => skipped excluded here (fst x) || all_readable excluded (here ++ [fst x]) (snd x)) ch
  | _ => true
  end.

Definition is_dir (n : node) : bool := match n with NDir _ _ => true | _ => false end.

(** The reference walk: all the files, unless some directory cannot be read. *)
Definition stack_files (excluded : list string) (stack : list (list string * node)) : list source :=
  flat_map (fun x => regular_files excluded (fst x) (snd x)) stack.
Definition stack_readable (excluded : list string) (stack : list (list string * node)) : bool :=
  forallb (fun x => all_readable excluded (fst x) (snd x)) stack.
Definition stack_dirs (stack : list (list string * node)) : nat :=
  list_sum (map (fun x => dirs_of (snd x)) stack).

Lemma scan_children_spec excluded here ch :
  let '(fs, ds) := scan_children excluded here ch in
  fs ++ stack_files excluded ds ≡ₚ regular_files excluded here (NDir true ch) /\
  stack_readable excluded ds = all_readable excluded here (NDir true ch) /\
  forallb (fun x => is_dir (snd x)) ds = true /\
  (stack_dirs ds <= list_sum (map (fun x => dirs_of (snd x)) ch))%nat.
Proof.
  induction ch as [|[name n] ch IH]; simpl; [done|].
  destruct (scan_children excluded here ch) as [fs ds]. destruct IH as (Hf & Hr & Hd & Hn). simpl in *.
  fold (skipped excluded here name). destruct (skipped excluded here name); simpl; [split_and!; [done..|lia]|].
  destruct n; simpl in *; unfold stack_dirs in *; simpl; rewrite ?Hf, ?Hr, ?Hd.
  - split_and!; [done..|lia].
  - split_and!; [|done..|lia]. unfold stack_files in *. simpl. rewrite <- Hf. by rewrite !app_assoc, (Permutation_app_comm fs).
  - split_and!; [done..|lia].
  - split_and!; [done..|lia].
Qed.

Lemma regular_files_perm excluded here r r' ch ch' :
  ch ≡ₚ ch' -> regular_files excluded here (NDir r ch) ≡ₚ regular_files excluded here (NDir r' ch').
Proof. intros H. simpl. by apply Permutation_flat_map. Qed.

Lemma forallb_perm {A} (f : A -> bool) l l' : l ≡ₚ l' -> forallb f l = forallb f l'.
Proof. induction 1; simpl; try congruence. by rewrite !andb_assoc, (andb_comm (f y)). Qed.

Lemma list_sum_perm l l' : l ≡ₚ l' -> list_sum l = list_sum l'.
Proof. induction 1; simpl; lia. Qed.

Lemma stack_files_app e a b : stack_files e (a ++ b) = stack_files e a ++ stack_files e b.
Proof. unfold stack_files. by rewrite flat_map_app. Qed.

Lemma stack_files_rev e a : stack_files e (rev a) ≡ₚ stack_files e a.
Proof. apply Permutation_flat_map. symmetry. apply Permutation_rev. Qed.

Lemma walk_loop_spec excluded fuel stack :
  (stack_dirs stack < fuel)%nat -> forallb (fun x => is_dir (snd x)) stack = true ->
  match walk_loop fuel excluded stack with
  | inr l => stack_readable excluded stack = true /\ l ≡ₚ stack_files excluded stack
  | inl x => stack_readable excluded stack = false /\ x = Safe "backup_failed"
  end.
Proof.
  revert stack. induction fuel as [|fuel IH]; intros stack Hn Hd; [lia|].
  destruct stack as [|[here n] stack]; [done|]. simpl in Hd. apply andb_true_iff in Hd as [Hn0 Hd].
  destruct n as [|[|] ch| |]; try done.
  simpl. pose proof (merge_sort_Permutation name_ge ch) as Hp.
  pose proof (scan_children_spec excluded here (merge_sort name_ge ch)) as Hs.
  destruct (scan_children excluded here (merge_sort name_ge ch)) as [fs ds].
  destruct Hs as (Hf & Hr & Hds & Hsum). rewrite (regular_files_perm _ _ _ true _ ch Hp) in Hf.
  simpl in Hr. rewrite (forallb_perm _ _ ch Hp) in Hr.
  rewrite (list_sum_perm _ _ (Permutation_map _ Hp)) in Hsum.
  unfold stack_dirs in Hn. simpl in Hn.
  assert (Hrev : rev ds ≡ₚ ds) by (symmetry; apply Permutation_rev).
  assert (Hpush : forall f : list string * node -> bool, forallb f (rev ds ++ stack) = forallb f ds && forallb f stack)
    by (intros f; by rewrite forallb_app, (forallb_perm _ _ ds Hrev)).
  assert (Hfuel : (stack_dirs (rev ds ++ stack) < fuel)%nat).
  { unfold stack_dirs in *. rewrite map_app, list_sum_app, (list_sum_perm _ _ (Permutation_map _ Hrev)).
    lia. }
  specialize (IH _ Hfuel). rewrite Hpush, Hds in IH. specialize (IH Hd).
  unfold stack_readable in *. rewrite Hpush in IH. simpl. rewrite <- Hr.
  destruct (walk_loop fuel excluded (rev ds ++ stack)) as [x|l]; [done|].
  destruct IH as [H1 H2]. split; [done|]. rewrite H2, stack_files_app, stack_files_rev, app_assoc, Hf. done.
Qed.

(** The walk of a data root returns exactly the regular files a recursive visit
    reaches, and fails exactly when it meets a directory it cannot read. *)
Lemma walk_spec excluded r ch :
  match _walk (NDir r ch) excluded with
  | inr l => all_readable excluded [] (NDir r ch) = true /\ l ≡ₚ regular_files excluded [] (NDir r ch)
  | inl x => all_readable excluded [] (NDir r ch) = false /\ x = Safe "backup_failed"
  end.
Proof.
  pose proof (walk_loop_spec excluded (S (dirs_of (NDir r ch))) [([], NDir r ch)]) as H.
  unfold _walk. destruct (walk_loop _ _ _) as [x|l]; unfold stack_readable, stack_files, stack_dirs in H; cbn -[dirs_of regular_files all_readable] in H;
    rewrite ?andb_true_r, ?app_nil_r in H; apply H; done || lia.
Qed.

(** ** Names and relative paths *)

Fixpoint has_slash (s : string) : bool :=
  match s with EmptyString => false | String c s' => Ascii.eqb c "/"%char || has_slash s' end.

(** What a directory entry can be called. *)
Definition name_valid (s : string) : Prop :=
  s <> EmptyString /\ s <> "."%string /\ s <> ".."%string /\ has_slash s = false /\ has_nul s = false.

Definition path_valid (p : list string) : Prop := p <> [] /\ Forall name_valid p.

(** Names are valid, and distinct in their directory. *)
Fixpoint tree_ok (n : node) : Prop :=
  match n with
  | NDir _ ch =>
      NoDup (map fst ch) /\ (fix all l := match l with [] => True | x :: l' => (name_valid (fst x) /\ tree_ok (snd x)) /\ all l' end) ch
  | _ => True
  end.

Lemma tree_ok_dir r ch :
  tree_ok (NDir r ch) <-> NoDup (map fst ch) /\ Forall (fun x => name_valid (fst x) /\ tree_ok (snd x)) ch.
Proof.
  simpl. apply and_iff_compat_l. induction ch as [|x ch IH]; [by split|].
  rewrite Forall_cons, IH. done.
Qed.

Lemma split_slash_cons s : split_slash s <> [].
Proof. destruct s as [|c s]; simpl; [done|]. by repeat case_match. Qed.

Lemma split_slash_clean s : has_slash s = false -> split_slash s = [s].
Proof.
  induction s as [|c s IH]; [done|]. simpl. intros [Hc Hs]%orb_false_iff. by rewrite Hc, (IH Hs).
Qed.

Lemma split_slash_app a b : has_slash a = false -> split_slash (a ++ String "/" b) = a :: split_slash b.
Proof.
  induction a as [|c a IH]; [done|]. simpl. intros [Hc Ha]%orb_false_iff. by rewrite Hc, (IH Ha).
Qed.

Lemma as_posix_cons x p : p <> [] -> as_posix (x :: p) = (x ++ String "/" (as_posix p))%string.
Proof. by destruct p. Qed.

Lemma split_as_posix p : path_valid p -> split_slash (as_posix p) = p.
Proof.
  intros [Hne Hv]. induction Hv as [|x p (_ & _ & _ & Hx & _) Hv IH]; [done|].
  destruct p as [|y p]; [by apply split_slash_clean|].
  rewrite as_posix_cons, split_slash_app by done. f_equal. by apply IH.
Qed.

(** The components of a relative path are the ones it was made of. *)
Lemma parts_as_posix p : path_valid p -> parts (as_posix p) = p.
Proof.
  intros Hp. unfold parts. rewrite split_as_posix by done. destruct Hp as [_ Hv].
  induction Hv as [|x p (H1 & H2 & _) Hv IH]; [done|]. simpl.
  apply String.eqb_neq in H1, H2. by rewrite H1, H2, IH.
Qed.

Lemma as_posix_inj p q : path_valid p -> path_valid q -> as_posix p = as_posix q -> p = q.
Proof. intros Hp Hq E. rewrite <- (parts_as_posix p), <- (parts_as_posix q) by done. by rewrite E. Qed.

Lemma has_nul_app a b : has_nul (a ++ b) = has_nul a || has_nul b.
Proof. induction a as [|c a IH]; [done|]. simpl. by rewrite IH, orb_assoc. Qed.

Lemma as_posix_nul p : Forall name_valid p -> has_nul (as_posix p) = false.
Proof.
  induction 1 as [|x p (_ & _ & _ & _ & Hx) Hv IH]; [done|].
  destruct p as [|y p]; [done|]. rewrite as_posix_cons, has_nul_app, Hx by done. simpl. exact IH.
Qed.

Lemma as_posix_nonempty p : path_valid p -> nonempty (as_posix p) = true.
Proof.
  intros [Hne Hv]. destruct Hv as [|x p (Hx & _) Hv]; [done|]. destruct x as [|c x]; [done|]. by destruct p.
Qed.

Lemma as_posix_relative p : path_valid p -> is_absolute (as_posix p) = false.
Proof.
  intros [Hne Hv]. destruct Hv as [|x p (Hx & _ & _ & Hs & _) Hv]; [done|].
  destruct x as [|c x]; [done|]. simpl in Hs. apply orb_false_iff in Hs as [Hc _].
  assert (exists s, as_posix (String c x :: p) = String c s) as [s ->] by (destruct p; simpl; eauto).
  unfold is_absolute. apply not_true_iff_false. simpl. case_match; [subst|done]. by rewrite Ascii.eqb_refl in Hc.
Qed.

Lemma as_posix_no_dotdot p : path_valid p -> has_dotdot (as_posix p) = false.
Proof.
  intros Hp. unfold has_dotdot. rewrite parts_as_posix by done. apply bool_decide_eq_false.
  destruct Hp as [_ Hv]. rewrite Forall_forall in Hv. by intros (_ & _ & ? & _)%Hv.
Qed.

Lemma as_posix_safe nul p : path_valid p -> safe_path nul (JStr (as_posix p)) = true.
Proof.
  intros Hp. simpl. rewrite as_posix_nonempty, as_posix_relative, as_posix_no_dotdot, as_posix_nul by (done || apply Hp).
  by rewrite andb_false_r.
Qed.

(** ** The files of a tree *)

Lemma in_children s e here r ch :
  s ∈ regular_files e here (NDir r ch) <->
  exists name n, (name, n) ∈ ch /\ skipped e here name = false /\ s ∈ regular_files e (here ++ [name]) n.
Proof.
  simpl. rewrite list_elem_of_In, in_flat_map. split.
  - intros ([name n] & Hin & Hs). simpl in Hs. destruct (skipped e here name) eqn:E; [done|].
    exists name, n. by rewrite !list_elem_of_In.
  - intros (name & n & Hin & E & Hs). exists (name, n). simpl. rewrite E. by rewrite <- !list_elem_of_In.
Qed.

(** A file lies below the directory it is reached from, at valid names that are
    not skipped. *)
Lemma regular_files_below e n here s :
  tree_ok n -> s ∈ regular_files e here n ->
  exists rest, src_path s = here ++ rest /\ Forall name_valid rest /\
    Forall (fun x => ends_with ".partial" x = false) rest /\ (is_dir n = true -> rest <> []).
Proof.
  revert here. induction n as [| | |r ch IH] using node_nested_ind; intros here Hok Hs; try by apply elem_of_nil in Hs.
  - apply list_elem_of_singleton in Hs as ->. exists []. by rewrite app_nil_r.
  - apply in_children in Hs as (name & n & Hin & E & Hs). apply tree_ok_dir in Hok as [_ Hok].
    rewrite Forall_forall in IH, Hok. destruct (Hok _ Hin) as [Hname Hn]. simpl in *.
    destruct (IH _ Hin (here ++ [name]) Hn Hs) as (rest & -> & Hv & Hp & _). exists (name :: rest).
    unfold skipped in E. apply orb_false_iff in E as [_ E]. rewrite <- app_assoc.
    split_and!; [done|by constructor..|done].
Qed.

(** No file path is the beginning of another. *)
Definition spread (l : list source) : Prop :=
  NoDup (map src_path l) /\
  forall s t, s ∈ l -> t ∈ l -> src_path s `prefix_of` src_path t -> src_path s = src_path t.

Lemma name_of_child here a b (x y : list string) :
  (here ++ [a]) ++ x `prefix_of` (here ++ [b]) ++ y -> a = b.
Proof. rewrite <- !app_assoc. intros H%prefix_app_inv. simpl in H. by apply prefix_cons_inv_1 in H. Qed.

Lemma child_path e here ch name n s :
  Forall (fun x => name_valid (fst x) /\ tree_ok (snd x)) ch -> (name, n) ∈ ch ->
  s ∈ regular_files e (here ++ [name]) n -> exists rest, src_path s = (here ++ [name]) ++ rest.
Proof.
  intros Hok Hin Hs. rewrite Forall_forall in Hok. destruct (Hok _ Hin) as [_ Hn].
  destruct (regular_files_below _ _ _ _ Hn Hs) as (rest & ? & _). eauto.
Qed.

Lemma regular_files_nodup e n here : tree_ok n -> NoDup (map src_path (regular_files e here n)).
Proof.
  revert here. induction n as [| | |r ch IH] using node_nested_ind; intros here Hok; simpl; try constructor; try done.
  { by intros ?%elem_of_nil. }
  { constructor. }
  apply tree_ok_dir in Hok as [Hnd Hok]. induction ch as [|[name n] ch IHch]; [constructor|].
  simpl in *. apply NoDup_cons in Hnd as [Hni Hnd]. apply Forall_cons in IH as [IHn IHc].
  pose proof Hok as [[Hname Hn] Hok']%Forall_cons. specialize (IHch IHc Hnd Hok').
  rewrite map_app. apply NoDup_app. split_and!; [destruct (skipped e here name); [constructor|by apply IHn]| |done].
  intros p Hp Hq. destruct (skipped e here name) eqn:E; [by apply elem_of_nil in Hp|].
  apply list_elem_of_fmap in Hp as (s & -> & Hs). apply list_elem_of_fmap in Hq as (t & Et & Ht).
  apply (in_children t e here r ch) in Ht as (name' & n' & Hin & E' & Ht).
  destruct (child_path e here _ name n s Hok ltac:(left) Hs) as [x Hx].
  destruct (child_path e here _ name' n' t Hok' Hin Ht) as [y Hy].
  rewrite Hx, Hy in Et. assert (name = name') as <-.
  { apply (name_of_child here _ _ x y). by rewrite Et. }
  apply Hni. apply list_elem_of_fmap. by exists (name, n').
Qed.

Lemma nodup_child (ch : list (string * node)) name n n' :
  NoDup (map fst ch) -> (name, n) ∈ ch -> (name, n') ∈ ch -> n = n'.
Proof.
  induction ch as [|x ch IH]; [by intros ? ?%elem_of_nil|]. simpl. intros [Hni Hnd]%NoDup_cons.
  rewrite !elem_of_cons. intros [<-|H1] [E|H2]; simpl in *; [by injection E| | |by apply IH].
  - destruct Hni. apply list_elem_of_fmap. by exists (name, n').
  - subst x. destruct Hni. apply list_elem_of_fmap. by exists (name, n).
Qed.

Lemma regular_files_prefix_free e n here s t :
  tree_ok n -> s ∈ regular_files e here n -> t ∈ regular_files e here n ->
  src_path s `prefix_of` src_path t -> src_path s = src_path t.
Proof.
  revert here. induction n as [| | |r ch IH] using node_nested_ind; intros here Hok Hs Ht Hp; try by apply elem_of_nil in Hs.
  { apply list_elem_of_singleton in Hs as ->. by apply list_elem_of_singleton in Ht as ->. }
  apply tree_ok_dir in Hok as [Hnd Hok].
  apply in_children in Hs as (a & n & Hina & Ea & Hs). apply in_children in Ht as (b & n' & Hinb & Eb & Ht).
  destruct (child_path e here _ a n s Hok Hina Hs) as [x Hx]. destruct (child_path e here _ b n' t Hok Hinb Ht) as [y Hy].
  rewrite Hx, Hy in Hp. apply name_of_child in Hp as Hab. subst b.
  rewrite (nodup_child ch a n' n Hnd Hinb Hina) in Ht.
  rewrite Forall_forall in IH, Hok. apply (IH _ Hina (here ++ [a])); [by apply (Hok _ Hina)|done..|].
  by rewrite Hx, Hy.
Qed.

Lemma regular_files_spread e n here : tree_ok n -> spread (regular_files e here n).
Proof.
  intros Hok. split; [by apply regular_files_nodup|]. intros s t. by apply regular_files_prefix_free.
Qed.

(** ** Snapshots *)

Definition root_ok (r : data_root) : Prop := match dr_node r with Some n => tree_ok n | None => True end.

(** The files of a root that are backed up. *)
Definition source_files (r : data_root) : list source :=
  match dr_node r with
  | Some (NDir b ch) =>
      if dr_redundant r
      then List.filter (fun s => negb (versioned_backup (src_path s))) (regular_files _SUNLIT_REDUNDANT_BACKUP_DIRS [] (NDir b ch))
      else regular_files [] [] (NDir b ch)
  | _ => []
  end.

Lemma source_files_spec r s :
  root_ok r -> s ∈ source_files r ->
  path_valid (src_path s) /\ existsb (ends_with ".partial") (src_path s) = false.
Proof.
  unfold root_ok, source_files. destruct (dr_node r) as [[|b ch| |]|]; try by intros _ ?%elem_of_nil.
  intros Hok Hs. assert (exists e, s ∈ regular_files e [] (NDir b ch)) as [e He].
  { destruct (dr_redundant r); [|by eauto]. apply list_elem_of_In, filter_In in Hs as [Hs _].
    apply list_elem_of_In in Hs. eauto. }
  destruct (regular_files_below _ _ _ _ Hok He) as (rest & -> & Hv & Hp & Hne). simpl. split; [split; auto|].
  clear -Hp. induction Hp as [|x l Hx Hl IH]; [done|]. simpl. by rewrite Hx.
Qed.

Lemma filter_spread (f : source -> bool) l : spread l -> spread (List.filter f l).
Proof.
  intros [Hnd Hp]. split.
  - clear Hp. induction l as [|s l IH]; [done|]. simpl in *. apply NoDup_cons in Hnd as [Hni Hnd].
    destruct (f s); [|by apply IH]. simpl. constructor; [|by apply IH].
    intros (t & E & Ht)%list_elem_of_fmap. apply Hni. apply list_elem_of_fmap. exists t. split; [done|].
    apply list_elem_of_In in Ht. apply filter_In in Ht as [Ht _]. by apply list_elem_of_In.
  - intros s t Hs Ht. apply list_elem_of_In, filter_In in Hs as [Hs _], Ht as [Ht _].
    apply Hp; by apply list_elem_of_In.
Qed.

Lemma source_files_spread r : root_ok r -> spread (source_files r).
Proof.
  assert (Hnil : spread []) by (split; [constructor|by intros ? ? ?%elem_of_nil]).
  unfold root_ok, source_files. destruct (dr_node r) as [[|b ch| |]|]; try done.
  intros Hok. destruct (dr_redundant r); [apply filter_spread|]; by apply regular_files_spread.
Qed.

Section Entries.
Context (sha256 : string -> string) (stage : string -> source -> option aexc).

#[local] Abbreviation rid r := (_root_id sha256 (dr_path r)).

Lemma stage_files_spec single root_id l es :
  stage_files sha256 stage single root_id l = inr es ->
  (forall s, s ∈ l -> existsb (ends_with ".partial") (src_path s) = false) ->
  es = map (make_entry sha256 single root_id) l.
Proof.
  revert es. induction l as [|s l IH]; intros es He Hp; simpl in He; [by injection He as <-|].
  rewrite Hp in He by left. destruct (stage root_id s); [done|].
  destruct (stage_files _ _ _ _ l) as [x|es'] eqn:E; [done|]. injection He as <-. simpl. f_equal.
  apply IH; [done|]. intros t Ht. apply Hp. by right.
Qed.

Lemma walk_source_spec r n l : dr_node r = Some n -> _walk_source r n = inr l -> l ≡ₚ source_files r.
Proof.
  unfold _walk_source, source_files. intros -> Hl. destruct n as [|b ch| |]; try (by destruct (dr_redundant r)).
  destruct (dr_redundant r).
  - pose proof (walk_spec _SUNLIT_REDUNDANT_BACKUP_DIRS b ch) as H.
    destruct (_walk (NDir b ch) _) as [x|l0]; [done|]. destruct H as [_ H]. injection Hl as <-.
    clear -H. induction H; simpl; repeat case_match; try done; try (by rewrite IHPermutation); [by apply perm_swap|by etrans].
  - pose proof (walk_spec [] b ch) as H. rewrite Hl in H. by destruct H.
Qed.

Lemma snapshot_root_spec single r es :
  root_ok r -> snapshot_root sha256 stage single r = inr es ->
  es ≡ₚ map (make_entry sha256 single (rid r)) (source_files r) /\ is_link (dr_node r) = false.
Proof.
  intros Hok. unfold snapshot_root. destruct (dr_node r) as [n|] eqn:En.
  - intros H. destruct (is_link (Some n)) eqn:El; [by destruct n|].
    assert (exists l, _walk_source r n = inr l /\ stage_files sha256 stage single (rid r) l = inr es) as (l & Hl & Hes).
    { destruct n; try done; destruct (_walk_source r _) as [|l]; by eauto. }
    pose proof (walk_source_spec r n l En Hl) as Hp. split; [|done]. rewrite <- Hp.
    erewrite <- stage_files_spec; [done|exact Hes|]. intros s Hs. rewrite Hp in Hs.
    by apply (source_files_spec r).
  - intros [= <-]. unfold source_files. by rewrite En.
Qed.

Lemma snapshot_roots_spec single seen roots es :
  Forall root_ok roots -> snapshot_roots sha256 stage single seen roots = inr es ->
  es ≡ₚ flat_map (fun r => map (make_entry sha256 single (rid r)) (source_files r)) roots /\
  NoDup (map (fun r => rid r) roots) /\ (forall r, r ∈ roots -> rid r ∉ seen).
Proof.
  revert seen es. induction roots as [|r roots IH]; intros seen es Hok H; simpl in H.
  { injection H as <-. split_and!; [done|constructor|by intros ? ?%elem_of_nil]. }
  apply Forall_cons in Hok as [Hr Hok].
  destruct (bool_decide (rid r ∈ seen) && negb (is_link (dr_node r))) eqn:Eseen; [done|]. simpl in H.
  destruct (snapshot_root sha256 stage single r) as [x|es1] eqn:E1; [done|]. simpl in H.
  destruct (snapshot_roots sha256 stage single (rid r :: seen) roots) as [x|es2] eqn:E2; [done|]. injection H as <-.
  destruct (snapshot_root_spec _ _ _ Hr E1) as [Hp1 Hl]. destruct (IH _ _ Hok E2) as (Hp2 & Hnd & Hns).
  rewrite Hl, andb_true_r in Eseen. apply bool_decide_eq_false in Eseen.
  split_and!.
  - simpl. by rewrite Hp1, Hp2.
  - simpl. constructor; [|done]. intros (r' & E & Hr')%list_elem_of_fmap. apply (Hns r' Hr'). rewrite <- E. left.
  - intros r' [->|Hr']%elem_of_cons; [done|]. intros Hin. apply (Hns r' Hr'). by right.
Qed.

(** The entries of a snapshot are the files of its roots, each with the id of its
    root, and the ids are distinct. *)
Lemma snapshot_spec roots es :
  Forall root_ok roots -> _snapshot sha256 stage roots = inr es ->
  es ≡ₚ flat_map (fun r => map (make_entry sha256 (bool_decide (length roots = 1%nat)) (rid r)) (source_files r)) roots /\
  NoDup (map (fun r => rid r) roots).
Proof.
  intros Hok. unfold _snapshot. destruct (snapshot_roots _ _ _ _ roots) as [x|es0] eqn:E; [done|]. intros [= <-].
  destruct (snapshot_roots_spec _ _ _ _ Hok E) as (Hp & Hnd & _). by rewrite merge_sort_Permutation.
Qed.
End Entries.
