(* ===== verification/ArchiveTheorems.v ===== *)
(** The theorems of the backup archives: extraction stays below the staging
    directories whatever the archive holds, and a backup restores to the files it
    was made from. *)
From Stdlib Require Import Ascii.
From S2P Require Import Prelude Archive ArchiveFacts.

(** ** Results *)

Lemma AR_bind_inr {A B} (m : AR A) (k : A -> AR B) b : m ≫= k = inr b <-> exists a, m = inr a /\ k a = inr b.
Proof.
  split.
  - destruct m as [x|a]; [done|]. eauto.
  - by intros (a & -> & ?).
Qed.

Lemma require_inr b code u : require b code = inr u <-> b = true.
Proof. destruct b, u; by split. Qed.

Lemma each_inr {A} (f : A -> AR unit) l : each f l = inr tt <-> Forall (fun a => f a = inr tt) l.
Proof.
  induction l as [|a l IH]; simpl; [by split|]. rewrite Forall_cons, <- IH, AR_bind_inr. split.
  - by intros ([] & ? & ?).
  - intros [? ?]. by exists tt.
Qed.

(** Inverts the steps of a computation that returned. *)
Ltac ar_inv :=
  repeat match goal with
  | H : require _ _ = inr _ |- _ => apply require_inr in H
  | H : mbind _ _ = inr _ |- _ => let H' := fresh in apply AR_bind_inr in H as (? & H' & H); cbv beta in H
  | H : safe _ = inr _ |- _ => done
  | H : inl _ = inr _ |- _ => done
  | H : _ && _ = true |- _ => apply andb_true_iff in H; destruct H
  | H : negb _ = true |- _ => apply negb_true_iff in H
  | H : unit |- _ => destruct H
  end.

(** ** Extraction stays in place *)

Lemma parts_app_slash a b : has_slash a = false -> forall x, x ∈ parts b -> x ∈ parts (a ++ String "/" b).
Proof.
  intros Ha x. unfold parts. rewrite split_slash_app by done. rewrite !list_elem_of_In, !filter_In. simpl.
  intros [? ?]. by split; [right|].
Qed.

Lemma strip_legacy_shape r : strip_legacy r = r \/ r = ("0" ++ String "/" (strip_legacy r))%string.
Proof.
  destruct r as [|c [|d r]]; [by left..|]. simpl.
  destruct (Ascii.eqb_spec c "0"%char) as [->|]; [|by left]. destruct (Ascii.eqb_spec d "/"%char) as [->|]; [by right|by left].
Qed.

Lemma strip_legacy_parts r x : x ∈ parts (strip_legacy r) -> x ∈ parts r.
Proof.
  destruct (strip_legacy_shape r) as [->|E]; [done|]. intros Hx. rewrite E. by apply parts_app_slash.
Qed.

(** A file that is placed goes below its base, at components of its path. *)
Lemma place_inr excl base relative content t s s' :
  place excl base relative content t s = inr s' ->
  exists rest c, join_path base relative = base ++ rest /\ (forall x, x ∈ rest -> x ∈ parts relative) /\
    content = inr c /\ x_files s' = <[base ++ rest := XFile c 416 (rt_uid t) (rt_gid t)]> (x_files s).
Proof.
  unfold place. intros (u & Hw & (s1 & Hm & (c & Hc & H)%AR_bind_inr)%AR_bind_inr)%AR_bind_inr.
  apply require_inr, bool_decide_eq_true in Hw as [rest Hrest].
  unfold mkdirs in Hm. destruct (existsb _ _); [done|]. injection Hm as <-.
  unfold write_file in H. destruct (_ || _); [done|]. injection H as <-.
  exists rest, c. rewrite Hrest. split_and!; [done| |done..].
  intros x Hx. unfold join_path in Hrest. destruct (is_absolute relative).
  - rewrite Hrest. apply elem_of_app. by right.
  - apply app_inv_head in Hrest. by rewrite Hrest.
Qed.

(** What an extraction may add to the files. *)
Definition confined (bases : list (list string)) (s s' : xstate) : Prop :=
  forall p f, x_files s' !! p = Some f ->
    x_files s !! p = Some f \/ exists base rest, base ∈ bases /\ p = base ++ rest /\ ".."%string ∉ rest.

Lemma confined_refl bases s : confined bases s s.
Proof. by left. Qed.

Lemma confined_trans bases s1 s2 s3 : confined bases s1 s2 -> confined bases s2 s3 -> confined bases s1 s3.
Proof. intros H1 H2 p f Hp. destruct (H2 p f Hp) as [?|?]; [by apply H1|by right]. Qed.

Lemma run_all_confined {A} bases (g : A -> xstate -> AR xstate) l s s' :
  (forall a u u', a ∈ l -> g a u = inr u' -> confined bases u u') -> run_all g l s = inr s' -> confined bases s s'.
Proof.
  revert s. induction l as [|a l IH]; intros s Hg Hr; simpl in Hr; [injection Hr as <-; apply confined_refl|].
  apply AR_bind_inr in Hr as (u & Hu & Hr). eapply confined_trans.
  - eapply Hg; [left|exact Hu].
  - apply IH; [|done]. intros b v v' Hb. apply Hg. by right.
Qed.

Lemma place_confined bases excl base relative content t s s' :
  base ∈ bases -> has_dotdot relative = false ->
  place excl base relative content t s = inr s' -> confined bases s s'.
Proof.
  intros Hb Hd (rest & c & _ & Hrest & _ & Hf)%place_inr p f. rewrite Hf. intros [[<- _]|[_ ?]]%lookup_insert_Some; [|by left].
  right. exists base, rest. split_and!; [done..|]. intros Hin%Hrest. by apply bool_decide_eq_false in Hd.
Qed.

Lemma str_of_field k d s : field k d = JStr s -> str_field k d = s.
Proof. unfold field, str_field. destruct (assoc k d) as [[]|]; congruence. Qed.

Lemma safe_path_no_dotdot nul e : safe_path nul (field "path" e) = true -> has_dotdot (str_field "path" e) = false.
Proof.
  destruct (field "path" e) as [| | | |p| |] eqn:E; try done. rewrite (str_of_field _ _ _ E). simpl. intros H. by ar_inv.
Qed.

Lemma entry_for_Some name es e : entry_for name es = Some e -> e ∈ es /\ str_field "archive_path" e = name.
Proof.
  induction es as [|x es IH]; [done|]. simpl. destruct (entry_for name es) as [y|].
  - intros [= ->]. destruct (IH eq_refl) as [? ?]. split; [by right|done].
  - destruct (String.eqb_spec (str_field "archive_path" x) name) as [E|]; [|done]. intros [= <-]. by split; [left|].
Qed.

Lemma assoc_In {A} k (l : list (string * A)) v : assoc k l = Some v -> (k, v) ∈ l.
Proof.
  induction l as [|[k' v'] l IH]; [done|]. simpl. destruct (String.eqb_spec k k') as [->|]; [intros [= ->]; left|].
  intros H. right. by apply IH.
Qed.

Section Validated.
Context (sha256 : string -> string) (loads : string -> option json).

Lemma validate_archive_inr profile_id members m es :
  _validate_archive sha256 loads profile_id members = inr (m, es) ->
  Forall (fun e => validate_entry sha256 members m e = inr tt) es.
Proof.
  unfold _validate_archive. intros H. ar_inv. destruct (get_member _MANIFEST members) as [mm|]; [|done].
  destruct (extractfile mm) as [c|]; [|done]. destruct (loads c) as [v|]; [|done]. ar_inv.
  injection H as ->. by apply each_inr.
Qed.

Lemma validate_external_inr profile_id members m es :
  _validate_external sha256 loads profile_id members = inr (m, es) ->
  Forall (fun e => validate_external_entry sha256 members m e = inr tt) es.
Proof.
  unfold _validate_external. intros H. ar_inv. destruct (get_member _MANIFEST members) as [mm|]; [|done].
  destruct (extractfile mm) as [c|]; [|done]. destruct (loads c) as [v|]; [|done]. ar_inv.
  injection H as ->. by apply each_inr.
Qed.

Lemma validate_entry_safe members m e : validate_entry sha256 members m e = inr tt -> has_dotdot (str_field "path" e) = false.
Proof.
  unfold validate_entry. destruct (field "archive_path" e) as [| | | |an| |]; try done.
  destruct (get_member an members); [|done]. intros H. ar_inv. by eapply safe_path_no_dotdot.
Qed.

Lemma validate_external_entry_safe members m e :
  validate_external_entry sha256 members m e = inr tt -> has_dotdot (str_field "path" e) = false.
Proof.
  unfold validate_external_entry. destruct (field "archive_path" e) as [| | | |an| |]; try done.
  destruct (get_member an members); [|done]. intros H. ar_inv. by eapply safe_path_no_dotdot.
Qed.

#[local] Abbreviation bases stagings := (map (fun x => fst (snd x)) stagings).

Lemma staged_base (stagings : list (string * staged_root)) rid base t :
  assoc rid stagings = Some (base, t) -> base ∈ bases stagings.
Proof. intros H%assoc_In. apply list_elem_of_fmap. by exists (rid, (base, t)). Qed.

Definition safe_entries (es : list (list (string * json))) : Prop :=
  forall e, e ∈ es -> has_dotdot (str_field "path" e) = false.

Lemma extract_multi_confined members m es stagings s s' :
  safe_entries es -> _extract_multi members m es stagings s = inr s' -> confined (bases stagings) s s'.
Proof.
  intros Hes. unfold _extract_multi. destruct (equals_int _ 1).
  - destruct (assoc "root-0" stagings) as [[base t]|] eqn:Eb; [|done]. apply run_all_confined.
    intros mb u u' _. unfold extract_member. destruct (String.eqb _ _); [intros [= <-]; apply confined_refl|].
    destruct (entry_for _ es) as [e|] eqn:Ee; [|done]. apply entry_for_Some in Ee as [He _].
    apply place_confined; [by eapply staged_base|]. apply bool_decide_eq_false. intros Hin%strip_legacy_parts.
    specialize (Hes e He). by apply bool_decide_eq_false in Hes.
  - apply run_all_confined. intros mb u u' _. unfold extract_member_multi.
    destruct (String.eqb _ _); [intros [= <-]; apply confined_refl|].
    destruct (entry_for _ es) as [e|] eqn:Ee; [|done]. apply entry_for_Some in Ee as [He _].
    destruct (assoc _ stagings) as [[base t]|] eqn:Eb; [|done].
    apply place_confined; [by eapply staged_base|by apply Hes].
Qed.

Lemma extract_external_confined members m es stagings s s' :
  safe_entries es -> _extract_external_multi members m es stagings s = inr s' -> confined (bases stagings) s s'.
Proof.
  intros Hes. unfold _extract_external_multi. destruct (equals_int _ 1).
  - destruct (assoc "root-0" stagings) as [[base t]|] eqn:Eb; [|done]. apply run_all_confined.
    intros e u u' He. apply place_confined; [by eapply staged_base|by apply Hes].
  - apply run_all_confined. intros e u u' He.
    destruct (assoc _ stagings) as [[base t]|] eqn:Eb; [|done].
    apply place_confined; [by eapply staged_base|by apply Hes].
Qed.
End Validated.

(** C27.  A restore writes only below its staging directories.  Whatever an archive
    and the manifest in it hold, once either validation accepts it, every file that
    any prefix of the extraction adds or changes lies below the staging directory
    of one of the roots, at a path without a parent component. *)
Theorem extraction_is_confined sha256 loads profile_id members m es stagings k s s' :
  (_validate_archive sha256 loads profile_id members = inr (m, es) /\
   _extract_multi (take k members) m es stagings s = inr s') \/
  (_validate_external sha256 loads profile_id members = inr (m, es) /\
   _extract_external_multi members m (take k es) stagings s = inr s') ->
  confined (map (fun x => fst (snd x)) stagings) s s'.
Proof.
  intros [[Hv Hx]|[Hv Hx]].
  - eapply extract_multi_confined; [|exact Hx]. intros e He. eapply validate_entry_safe.
    apply validate_archive_inr in Hv. rewrite Forall_forall in Hv. by apply Hv.
  - eapply extract_external_confined; [|exact Hx]. intros e He. eapply validate_external_entry_safe.
    apply validate_external_inr in Hv. rewrite Forall_forall in Hv. apply Hv. apply list_elem_of_lookup in He as [i [Hi _]%lookup_take_Some]. by eapply list_elem_of_lookup_2.
Qed.

(** C28.  The walk of a data root ends and misses nothing.  The loop over the stack of
    directories stops within as many iterations as there are directories, and
    returns, up to order, exactly the regular files a recursive visit reaches
    without links, partial files and excluded top-level names; it fails exactly when
    that visit meets a directory that cannot be read. *)
Theorem walk_ends_and_misses_nothing excluded r ch :
  match _walk (NDir r ch) excluded with
  | inr l => all_readable excluded [] (NDir r ch) = true /\ l ≡ₚ regular_files excluded [] (NDir r ch)
  | inl x => all_readable excluded [] (NDir r ch) = false /\ x = Safe "backup_failed"
  end.
Proof. apply walk_spec. Qed.

(** A validated archive whose manifest asks for a nested file. *)
Definition tiny_manifest : list (string * json) :=
  [("schema", JInt 1); ("profile_id", JStr "p"); ("backup_id", JStr "b");
   ("entries", JList [JObj [("path", JStr "a/b"); ("archive_path", JStr "payload/a/b"); ("size", JInt 1);
      ("uid", JInt 1); ("gid", JInt 2); ("sha256", JStr "x")]])]%string.
Definition tiny_members : list member :=
  [Member "manifest.json" MReg 1 0 0 "M"; Member "payload/a/b" MReg 1 1 2 "x"].
Definition tiny_staging : list (string * staged_root) :=
  [("root-0", (["srv"; "new"], RTarget "/srv/p" 5 6))]%string.
Definition tiny_entries : list (list (string * json)) :=
  match field "entries" tiny_manifest with JList [JObj d] => [d] | _ => [] end.

Lemma extraction_is_confined_witness :
  exists s', _extract_multi (take 2 tiny_members) tiny_manifest tiny_entries tiny_staging (XState ∅ ∅) = inr s' /\
    x_files s' !! ["srv"; "new"; "a"; "b"]%string = Some (XFile "x" 416 5 6) /\
    confined (map (fun x => fst (snd x)) tiny_staging) (XState ∅ ∅) s'.
Proof.
  destruct (_extract_multi (take 2 tiny_members) tiny_manifest tiny_entries tiny_staging (XState ∅ ∅)) as [x|s'] eqn:E;
    [by vm_compute in E|].
  exists s'. split; [done|]. split; [vm_compute in E; injection E as <-; by vm_compute|].
  apply (extraction_is_confined id (fun c => if String.eqb c "M" then Some (JObj tiny_manifest) else None) "p"
    tiny_members tiny_manifest tiny_entries tiny_staging 2).
  left. split; [by vm_compute|exact E].
Defined.
