(* ===== verification/ArchiveRoundtrip.v ===== *)
(** Backup and restore compose: an archive of a snapshot that passes verification
    passes validation, and extracting it gives back the files of every root. *)
From Stdlib Require Import Ascii.
From S2P Require Import Prelude Archive ArchiveFacts ArchiveTheorems.

(** ** The manifest's entries *)

Definition entry_fields (e : entry) : list (string * json) :=
  match json_of_entry e with JObj d => d | _ => [] end.

Lemma dicts_entries l : dicts (map json_of_entry l) = Some (map entry_fields l).
Proof.
  unfold dicts. induction l as [|e l IH]; [done|]. simpl. by rewrite IH.
Qed.

Lemma entry_for_fields name l : entry_for name (map entry_fields l) = entry_fields <$> last_entry name l.
Proof.
  induction l as [|e l IH]; [done|]. cbn -[entry_fields]. rewrite IH. destruct (last_entry name l); [done|]. cbn.
  by destruct (String.eqb (e_archive_path e) name).
Qed.

Lemma last_entry_Some name l e : last_entry name l = Some e -> e ∈ l /\ e_archive_path e = name.
Proof.
  induction l as [|x l IH]; [done|]. simpl. destruct (last_entry name l) as [y|].
  - intros [= ->]. destruct (IH eq_refl). split; [by right|done].
  - destruct (String.eqb_spec (e_archive_path x) name); [|done]. intros [= <-]. by split; [left|].
Qed.

Lemma last_entry_None name l : last_entry name l = None -> name ∉ map e_archive_path l.
Proof.
  induction l as [|x l IH]; [by intros _ ?%elem_of_nil|]. simpl. destruct (last_entry name l); [done|].
  destruct (String.eqb_spec (e_archive_path x) name); [done|]. intros _ [E|H]%elem_of_cons; [by rewrite E in n|]. by apply IH.
Qed.

Lemma nodup_map_inj {A B} (f : A -> B) l a b : NoDup (map f l) -> a ∈ l -> b ∈ l -> f a = f b -> a = b.
Proof.
  induction l as [|x l IH]; [by intros _ ?%elem_of_nil|]. simpl. intros [Hni Hnd]%NoDup_cons.
  rewrite !elem_of_cons. intros [->|Ha] [->|Hb] E; [done| | |by apply IH].
  - destruct Hni. rewrite E. by apply list_elem_of_fmap_2.
  - destruct Hni. rewrite <- E. by apply list_elem_of_fmap_2.
Qed.

Lemma last_entry_in l e :
  NoDup (map e_archive_path l) -> e ∈ l -> last_entry (e_archive_path e) l = Some e.
Proof.
  intros Hnd He. destruct (last_entry (e_archive_path e) l) as [x|] eqn:E.
  - apply last_entry_Some in E as [Hx E]. f_equal. by apply (nodup_map_inj e_archive_path l).
  - apply last_entry_None in E. destruct E. by apply list_elem_of_fmap_2.
Qed.

Lemma get_member_Some name l m : get_member name l = Some m -> m ∈ l /\ mb_name m = name.
Proof.
  unfold get_member. intros H. apply find_some in H as [H E]. apply String.eqb_eq in E. by rewrite list_elem_of_In.
Qed.

Lemma get_member_in l m : NoDup (names l) -> m ∈ l -> get_member (mb_name m) l = Some m.
Proof.
  intros Hnd Hm. destruct (get_member (mb_name m) l) as [x|] eqn:E.
  - apply get_member_Some in E as [Hx E]. f_equal. by apply (nodup_map_inj mb_name l).
  - unfold get_member in E. apply list_elem_of_In in Hm. apply (find_none _ _ E) in Hm. by rewrite String.eqb_refl in Hm.
Qed.

Lemma getmember_Some name l m : NoDup (names l) -> getmember name l = Some m -> get_member name l = Some m.
Proof.
  intros Hnd [Hm <-]%get_member_Some. apply get_member_in; [done|].
  rewrite list_elem_of_In in Hm |- *. by apply in_rev.
Qed.

Lemma same_set_iff l k : same_set l k = true <-> forall x, x ∈ l <-> x ∈ k.
Proof.
  unfold same_set. rewrite andb_true_iff, !forallb_forall. setoid_rewrite bool_decide_eq_true.
  setoid_rewrite <- list_elem_of_In. naive_solver.
Qed.

Lemma length_one {A} (l : list A) : bool_decide (length l = 1%nat) = true -> exists a, l = [a].
Proof. intros H%bool_decide_eq_true. destruct l as [|a [|? ?]]; try done. by exists a. Qed.

Lemma length_several {A} (l : list A) :
  l <> [] -> (1 <? length l)%nat = negb (bool_decide (length l = 1%nat)).
Proof. by destruct l as [|? [|? ?]]. Qed.

(** ** Archive paths *)

Section Run.
Context (sha256 : string -> string).
(** A digest is written in hexadecimal. *)
Hypothesis Hhex : forall x, has_slash (sha256 x) = false.

#[local] Abbreviation rid r := (_root_id sha256 (dr_path r)).

Lemma has_slash_app a b : has_slash (a ++ b) = has_slash a || has_slash b.
Proof. induction a as [|c a IH]; [done|]. simpl. by rewrite IH, orb_assoc. Qed.

Lemma substring_no_slash n k s : has_slash s = false -> has_slash (String.substring n k s) = false.
Proof.
  revert n k. induction s as [|c s IH]; intros [|n] [|k]; simpl; try done; intros [Hc Hs]%orb_false_iff.
  - by rewrite Hc, IH.
  - by apply IH.
  - by apply IH.
Qed.

Lemma rid_no_slash p : has_slash (_root_id sha256 p) = false.
Proof. unfold _root_id. rewrite has_slash_app, substring_no_slash; [done|apply Hhex]. Qed.

Lemma payload_inj a b : ("payload/" ++ a)%string = ("payload/" ++ b)%string -> a = b.
Proof. intros E. by injection E. Qed.

Lemma archive_path_multi_inj r r' p q :
  path_valid p -> path_valid q ->
  ("payload/" ++ rid r ++ "/" ++ as_posix p)%string = ("payload/" ++ rid r' ++ "/" ++ as_posix q)%string ->
  rid r = rid r' /\ p = q.
Proof.
  intros Hp Hq E%payload_inj. assert (H : split_slash (rid r ++ String "/" (as_posix p)) = split_slash (rid r' ++ String "/" (as_posix q)))
    by exact (f_equal split_slash E).
  rewrite !split_slash_app, !split_as_posix in H by (done || apply rid_no_slash). split; [exact (f_equal (hd EmptyString) H)|exact (f_equal (@tl string) H)].
Qed.

(** ** The entries of a snapshot *)

Section Snapshot.
Context (stage : string -> source -> option aexc) (roots : list data_root) (entries : list entry).
Hypothesis Hroots : Forall root_ok roots.
Hypothesis Hsnap : _snapshot sha256 stage roots = inr entries.

#[local] Abbreviation single := (bool_decide (length roots = 1%nat)).

Lemma entry_origin e :
  e ∈ entries <-> exists r s, r ∈ roots /\ s ∈ source_files r /\ e = make_entry sha256 single (rid r) s.
Proof.
  destruct (snapshot_spec _ _ _ _ Hroots Hsnap) as [Hp _]. rewrite Hp, list_elem_of_In, in_flat_map. split.
  - intros (r & Hr & He). apply in_map_iff in He as (s & <- & Hs). exists r, s. by rewrite !list_elem_of_In.
  - intros (r & s & Hr & Hs & ->). exists r. split; [by apply list_elem_of_In|]. apply in_map. by apply list_elem_of_In.
Qed.

Lemma rids_nodup : NoDup (map (fun r => rid r) roots).
Proof. by destruct (snapshot_spec _ _ _ _ Hroots Hsnap). Qed.

Lemma root_valid r : r ∈ roots -> root_ok r.
Proof. intros Hr. rewrite Forall_forall in Hroots. by apply Hroots. Qed.

Lemma source_valid r s : r ∈ roots -> s ∈ source_files r -> path_valid (src_path s).
Proof. intros Hr Hs. by apply (source_files_spec r s (root_valid r Hr) Hs). Qed.

Lemma source_by_path r s t : r ∈ roots -> s ∈ source_files r -> t ∈ source_files r -> src_path s = src_path t -> s = t.
Proof.
  intros Hr. destruct (source_files_spread r (root_valid r Hr)) as [Hnd _]. by apply (nodup_map_inj src_path).
Qed.

Lemma single_root r r' : single = true -> r ∈ roots -> r' ∈ roots -> r = r'.
Proof.
  intros (x & ->)%length_one. by intros ->%list_elem_of_singleton ->%list_elem_of_singleton.
Qed.

(** The archive path tells the root and the file. *)
Lemma archive_path_inj r s r' s' :
  r ∈ roots -> r' ∈ roots -> s ∈ source_files r -> s' ∈ source_files r' ->
  e_archive_path (make_entry sha256 single (rid r) s) = e_archive_path (make_entry sha256 single (rid r') s') ->
  r = r' /\ s = s'.
Proof.
  intros Hr Hr' Hs Hs'. unfold make_entry. simpl e_archive_path. destruct single eqn:E.
  - rewrite (single_root r' r E Hr' Hr) in *. intros H%payload_inj%as_posix_inj; [|eauto using source_valid..].
    split; [done|]. by eapply (source_by_path r).
  - intros [H1 H2]%archive_path_multi_inj; [|eauto using source_valid..].
    assert (r = r') as <- by (by eapply (nodup_map_inj (fun r => rid r)); [apply rids_nodup|..]).
    split; [done|]. by eapply (source_by_path r).
Qed.

Lemma perm_nodup_flat {A B} (f : A -> list B) (l : list A) :
  (forall a, a ∈ l -> NoDup (f a)) -> NoDup l ->
  (forall a b x, a ∈ l -> b ∈ l -> x ∈ f a -> x ∈ f b -> a = b) -> NoDup (flat_map f l).
Proof.
  intros Hf Hl Hd. induction Hl as [|a l Ha Hl IH]; [constructor|]. simpl. apply NoDup_app. split_and!.
  - apply Hf. left.
  - intros x Hx Hy. apply list_elem_of_In, in_flat_map in Hy as (b & Hb & Hy).
    apply list_elem_of_In in Hb, Hy. rewrite (Hd a b x) in Ha; [done|left|by right|done..].
  - apply IH; [intros; apply Hf; by right|]. intros b c x Hb Hc. apply Hd; by right.
Qed.

Lemma archive_paths_nodup : NoDup (map e_archive_path entries).
Proof.
  destruct (snapshot_spec _ _ _ _ Hroots Hsnap) as [Hp Hnd]. rewrite (Permutation_map e_archive_path Hp).
  rewrite flat_map_concat_map, concat_map, map_map, <- flat_map_concat_map. apply perm_nodup_flat.
  - intros r Hr. rewrite map_map. apply NoDup_fmap_2_strong.
    + intros s t Hs Ht E. by apply (archive_path_inj r s r t) in E as [_ ?].
    + destruct (source_files_spread r (root_valid r Hr)) as [Hn _]. by eapply NoDup_fmap_1.
  - by eapply NoDup_fmap_1.
  - intros r r' x Hr Hr' Hx Hx'. rewrite map_map in Hx, Hx'.
    apply list_elem_of_fmap in Hx as (s & -> & Hs). apply list_elem_of_fmap in Hx' as (s' & E & Hs').
    by apply (archive_path_inj r s r' s') in E as [? _].
Qed.

Lemma manifest_not_listed : _MANIFEST ∉ map e_archive_path entries.
Proof.
  intros (e & E & He)%list_elem_of_fmap. apply entry_origin in He as (r & s & _ & _ & ->).
  unfold make_entry in E. simpl e_archive_path in E. by destruct single.
Qed.

(** ** What verification establishes *)

Section Archive.
Context (members : list member).

Record faithful : Prop := {
  fa_nodup : NoDup (names members);
  fa_names : forall x, x ∈ names members <-> x ∈ _MANIFEST :: map e_archive_path entries;
  fa_valid : Forall (fun m => _validate_member m = inr tt) members;
  fa_entry : forall e, e ∈ entries ->
    id_in_range (e_uid e) = true /\ id_in_range (e_gid e) = true /\
    exists m, get_member (e_archive_path e) members = Some m /\ isfile m = true /\
      mb_uid m = e_uid e /\ mb_gid m = e_gid e /\ sha256 (mb_content m) = e_sha256 e;
}.

Lemma content_digest m h : bool_decide (sha256 <$> extractfile m = Some h) = true <-> isfile m = true /\ sha256 (mb_content m) = h.
Proof.
  rewrite bool_decide_eq_true. unfold extractfile. destruct (isfile m); simpl; [|naive_solver].
  split; [by intros [= ->]|by intros [_ ->]].
Qed.

(** When [tarfile] reads the archive. *)
Lemma verify_archive_faithful :
  NoDup (names members) -> _verify_archive sha256 members entries = inr tt -> faithful.
Proof.
  intros Hnd Hv. unfold _verify_archive in Hv. ar_inv. rewrite each_inr in H. rewrite same_set_iff in H1.
  apply each_inr in Hv. rewrite Forall_forall in Hv. split; [done..|]. intros e He. specialize (Hv e He).
  unfold verify_entry in Hv. destruct (getmember (e_archive_path e) members) as [m|] eqn:Em; [|done].
  apply getmember_Some in Em; [|done]. ar_inv.
  apply content_digest in Hv as [_ Hh]. rewrite Z.eqb_eq in *. split_and!; [done..|]. by exists m.
Qed.

Section Stream.
Context (loads : string -> option json).

Definition checked (m : member) : Prop :=
  _validate_member m = inr tt /\
  (mb_name m <> _MANIFEST -> exists e, last_entry (mb_name m) entries = Some e /\ isfile m = true /\
     mb_size m = e_size e /\ mb_uid m = e_uid e /\ mb_gid m = e_gid e /\ sha256 (mb_content m) = e_sha256 e).

Lemma verify_stream_spec l seen seen' :
  verify_stream sha256 loads entries seen l = inr seen' ->
  (forall x, x ∈ seen' <-> x ∈ names l \/ x ∈ seen) /\ NoDup (names l) /\ (forall x, x ∈ seen -> x ∉ names l) /\
  Forall checked l.
Proof.
  revert seen. induction l as [|m l IH]; intros seen H; simpl in H.
  { injection H as ->. split_and!; [set_solver|constructor|by intros ? ? ?%elem_of_nil|constructor]. }
  ar_inv. destruct (IH _ H) as (Hs & Hnd & Hdis & Hall).
  match goal with H : bool_decide _ = false |- _ => apply bool_decide_eq_false in H; rename H into Hnew end.
  split_and!.
  - intros x. rewrite Hs. simpl. rewrite !elem_of_cons. tauto.
  - simpl. constructor; [|done]. apply Hdis. left.
  - intros x Hx. simpl. rewrite not_elem_of_cons. split; [by intros ->|]. apply Hdis. by right.
  - constructor; [|done]. split; [done|]. intros Hm. apply String.eqb_neq in Hm. rewrite Hm in *.
    destruct (last_entry (mb_name m) entries) as [e|]; [|done]. ar_inv. rewrite content_digest, Z.eqb_eq in *.
    exists e. naive_solver.
Qed.

(** When the stream is decompressed by [zstd]. *)
Lemma verify_stream_faithful : _verify_zstd_stream sha256 loads members entries = inr tt -> faithful.
Proof.
  unfold _verify_zstd_stream. intros H.
  apply AR_bind_inr in H as ([] & Hids & H). apply AR_bind_inr in H as (seen & Hs & H).
  apply require_inr in H. rewrite same_set_iff in H.
  apply verify_stream_spec in Hs as (Hseen & Hnd & _ & Hall). apply each_inr in Hids. rewrite Forall_forall in Hids. pose proof (proj1 (Forall_forall checked members) Hall) as Hchecked.
  assert (Hn : forall x, x ∈ names members <-> x ∈ _MANIFEST :: map e_archive_path entries).
  { intros x. rewrite <- H, Hseen. split; [by left|]. intros [?|?%elem_of_nil]; done. }
  split; [done..| |].
  - apply Forall_forall. intros m Hm. by apply Hchecked.
  - intros e He. specialize (Hids e He). simpl in Hids. ar_inv. split_and!; [done..|].
    assert (Hin : e_archive_path e ∈ names members) by (apply Hn; right; by apply list_elem_of_fmap_2).
    apply list_elem_of_fmap in Hin as (m & Em & Hm). exists m. rewrite Em, get_member_in by done.
    destruct (Hchecked m Hm) as [_ Hc]. destruct Hc as (e' & He' & Hf & _ & Hu & Hg & Hh).
    { intros E. apply manifest_not_listed. rewrite <- E, <- Em. by apply list_elem_of_fmap_2. }
    rewrite <- Em, last_entry_in in He' by (apply archive_paths_nodup || done). by injection He' as <-.
Qed.
End Stream.

(** ** Validation accepts a faithful archive *)

Section Validated.
Context (loads : string -> option json) (online : bool) (profile_id backup_id created_at : string).
Hypothesis Hfaithful : faithful.

#[local] Abbreviation manifest := (make_manifest sha256 online profile_id backup_id created_at roots entries).

(** The archive's manifest is the one that was written, its regular members have
    the size of their content, and no content of it collides with a source file. *)
Hypothesis Hmanifest : exists mm c, get_member _MANIFEST members = Some mm /\ extractfile mm = Some c /\
  loads c = Some (JObj manifest).
Hypothesis Hsized : forall m, m ∈ members -> isfile m = true -> mb_size m = Z.of_nat (String.length (mb_content m)).
Hypothesis Hcollision : forall m r s, m ∈ members -> r ∈ roots -> s ∈ source_files r ->
  sha256 (mb_content m) = sha256 (src_content s) -> mb_content m = src_content s.
Hypothesis Hbackup : nonempty backup_id = true.
Hypothesis Hsome : roots <> [].

Lemma manifest_schema : field "schema" manifest = JInt (if single then 1 else 2).
Proof.
  unfold make_manifest. rewrite length_several by done. by destruct single.
Qed.

Lemma manifest_profile : field "profile_id" manifest = JStr profile_id.
Proof. done. Qed.

Lemma manifest_backup : field "backup_id" manifest = JStr backup_id.
Proof. done. Qed.

Lemma manifest_listed : field "entries" manifest = JList (map json_of_entry entries).
Proof. unfold make_manifest. by destruct online. Qed.

Lemma manifest_roots : single = false -> field "roots" manifest = JList (map (json_of_root sha256) roots).
Proof.
  unfold make_manifest. intros H. rewrite length_several, H by done. by destruct online.
Qed.

Lemma manifest_entries_ok : manifest_entries profile_id (JObj manifest) = inr (manifest, map entry_fields entries).
Proof.
  unfold manifest_entries. rewrite manifest_schema, manifest_profile, manifest_listed, dicts_entries, String.eqb_refl.
  by destruct single.
Qed.

Lemma root_ids_manifest l :
  root_ids (map (json_of_root sha256) l) = inr (map (fun r => JStr (rid r)) l).
Proof. induction l as [|r l IH]; [done|]. cbn -[json_of_root]. by rewrite IH. Qed.

Lemma manifest_ids : single = false -> manifest_root_ids manifest = inr (map (fun r => JStr (rid r)) roots).
Proof.
  intros H. pose proof (manifest_roots H) as E. unfold field in E. unfold manifest_root_ids.
  destruct (assoc "roots" manifest) as [v|]; [|done]. rewrite E. apply root_ids_manifest.
Qed.

Lemma check_root_ok e : e ∈ entries -> check_root manifest (entry_fields e) = inr tt.
Proof.
  intros He. unfold check_root. rewrite manifest_schema. destruct single eqn:E; [done|]. cbn -[manifest_root_ids make_manifest].
  rewrite manifest_ids by done. cbn -[make_manifest]. apply entry_origin in He as (r & s & Hr & _ & ->).
  apply require_inr, existsb_exists. exists (JStr (rid r)). split; [|apply String.eqb_refl].
  apply in_map_iff. exists r. split; [done|]. by apply list_elem_of_In.
Qed.

(** The member of an entry holds the content of its source file. *)
Lemma entry_member e r s :
  r ∈ roots -> s ∈ source_files r -> e = make_entry sha256 single (rid r) s ->
  exists m, get_member (e_archive_path e) members = Some m /\ isfile m = true /\ m ∈ members /\
    mb_uid m = e_uid e /\ mb_gid m = e_gid e /\ mb_content m = src_content s /\ mb_size m = e_size e.
Proof.
  intros Hr Hs He. assert (Hin : e ∈ entries) by (apply entry_origin; eauto).
  destruct (fa_entry Hfaithful e Hin) as (_ & _ & m & Hm & Hf & Hu & Hg & Hh). exists m.
  apply get_member_Some in Hm as Hm'. destruct Hm' as [Hm' _].
  assert (Hc : mb_content m = src_content s) by (apply (Hcollision m r s); [done..|]; by rewrite Hh, He).
  split_and!; try done. rewrite (Hsized m Hm' Hf), Hc, He. done.
Qed.

Lemma validate_entry_ok e : e ∈ entries -> validate_entry sha256 members manifest (entry_fields e) = inr tt.
Proof.
  intros He. pose proof (check_root_ok e He) as Hroot. destruct (fa_entry Hfaithful e He) as (Hu & Hg & _).
  pose proof He as (r & s & Hr & Hs & Ee)%entry_origin.
  destruct (entry_member e r s Hr Hs Ee) as (m & Hm & Hf & Hin & Hmu & Hmg & Hc & Hsz).
  unfold validate_entry. change (field "archive_path" (entry_fields e)) with (JStr (e_archive_path e)). cbv beta iota.
  rewrite Hm. change (field "path" (entry_fields e)) with (JStr (e_path e)).
  assert (Hp : safe_path true (JStr (e_path e)) = true) by (rewrite Ee; apply as_posix_safe; eauto using source_valid).
  assert (Hnm : String.eqb (e_archive_path e) _MANIFEST = false).
  { apply String.eqb_neq. intros E. apply manifest_not_listed. rewrite <- E. by apply list_elem_of_fmap_2. }
  rewrite Hp, Hroot, Hf. cbn -[entry_fields make_manifest].
  unfold _entry_owner. change (assoc "uid" (entry_fields e)) with (Some (JInt (e_uid e))).
  change (assoc "gid" (entry_fields e)) with (Some (JInt (e_gid e))). cbn -[entry_fields make_manifest id_in_range].
  rewrite Hu, Hg. cbn -[entry_fields make_manifest id_in_range]. rewrite Hnm, Hmu, Hmg, !Z.eqb_refl. cbn -[entry_fields make_manifest].
  unfold entry_size. change (assoc "size" (entry_fields e)) with (Some (JInt (e_size e))). cbn -[entry_fields make_manifest].
  rewrite Hsz, Z.eqb_refl. cbn -[entry_fields make_manifest].
  change (field "sha256" (entry_fields e)) with (JStr (e_sha256 e)). cbv beta iota.
  apply require_inr, content_digest. split; [done|]. by rewrite Hc, Ee.
Qed.

(** The second reader asks for less. *)
Lemma validate_entry_external m e :
  validate_entry sha256 members m e = inr tt -> validate_external_entry sha256 members m e = inr tt.
Proof.
  unfold validate_entry, validate_external_entry. destruct (field "archive_path" e) as [| | | |an| |]; try done.
  destruct (get_member an members) as [mb|]; [|done]. intros H. ar_inv.
  assert (Hp : safe_path false (field "path" e) = true).
  { destruct (field "path" e); try done. simpl in *. ar_inv.
    repeat match goal with H : _ = _ |- _ => rewrite H end. done. }
  rewrite Hp. cbn. repeat match goal with H : _ = inr _ |- _ => rewrite H; cbn end.
  repeat match goal with H : _ = true |- _ => rewrite H; cbn end.
  rewrite Z.eqb_sym. repeat match goal with H : _ = true |- _ => rewrite H; cbn end. done.
Qed.

Lemma str_fields_paths l : map (str_field "archive_path") (map entry_fields l) = map e_archive_path l.
Proof. rewrite map_map. by apply map_ext. Qed.

Lemma manifest_matches_ok : manifest_matches members manifest (map entry_fields entries) = inr tt.
Proof.
  unfold manifest_matches. rewrite str_fields_paths, manifest_backup, Hbackup.
  rewrite bool_decide_true by apply archive_paths_nodup. rewrite bool_decide_false by apply manifest_not_listed.
  assert (Hs : same_set (names members) (_MANIFEST :: map e_archive_path entries) = true)
    by (apply same_set_iff, Hfaithful).
  rewrite Hs. cbn -[make_manifest each]. apply AR_bind_inr. exists tt. split; [|done].
  apply each_inr, Forall_forall. intros d (e & -> & He)%list_elem_of_fmap. by apply check_root_ok.
Qed.

Lemma validate_archive_ok :
  _validate_archive sha256 loads profile_id members = inr (manifest, map entry_fields entries).
Proof.
  destruct Hmanifest as (mm & c & Hmm & Hc & Hl). unfold _validate_archive.
  rewrite bool_decide_true by apply Hfaithful. cbn -[make_manifest each manifest_entries manifest_matches].
  assert (Hv : each _validate_member members = inr tt) by (apply each_inr, Hfaithful). rewrite Hv, Hmm, Hc, Hl.
  rewrite manifest_entries_ok. cbn -[make_manifest each manifest_matches].
  assert (He : each (validate_entry sha256 members manifest) (map entry_fields entries) = inr tt).
  { apply each_inr, Forall_forall. intros d (e & -> & He)%list_elem_of_fmap. by apply validate_entry_ok. }
  rewrite He, manifest_matches_ok. done.
Qed.

Lemma validate_external_ok :
  _validate_external sha256 loads profile_id members = inr (manifest, map entry_fields entries).
Proof.
  destruct Hmanifest as (mm & c & Hmm & Hc & Hl). unfold _validate_external.
  rewrite bool_decide_true by apply Hfaithful. cbn -[make_manifest each manifest_entries manifest_matches].
  rewrite Hmm, Hc, Hl, manifest_entries_ok. cbn -[make_manifest each manifest_matches].
  assert (He : each (validate_external_entry sha256 members manifest) (map entry_fields entries) = inr tt).
  { apply each_inr, Forall_forall. intros d (e & -> & He)%list_elem_of_fmap.
    by apply validate_entry_external, validate_entry_ok. }
  rewrite He, manifest_matches_ok. done.
Qed.

(** ** Targets *)

Context (read_target : string -> AR rtarget) (tgt : data_root -> rtarget).
Hypothesis Htgt : forall r, r ∈ roots -> read_target (dr_path r) = inr (tgt r).

(** The key of a root in the restore. *)
Definition key (r : data_root) : string := if single then "root-0"%string else rid r.

Lemma read_all_ok (f : data_root -> string) l :
  (forall r, r ∈ l -> r ∈ roots) ->
  read_all read_target (map (fun r => (f r, dr_path r)) l) = inr (map (fun r => (f r, tgt r)) l).
Proof.
  induction l as [|r l IH]; intros Hl; [done|]. simpl. rewrite Htgt by (apply Hl; left). simpl.
  by rewrite IH by (intros; apply Hl; by right).
Qed.

Lemma by_id_nodup l : NoDup (map fst l) -> by_id l = l.
Proof.
  unfold by_id. assert (H : forall acc, NoDup (map fst (acc ++ l)) ->
    foldl (fun acc x => if bool_decide (fst x ∈ map fst acc) then acc else acc ++ [x]) acc l = acc ++ l); [|apply (H [])].
  induction l as [|x l IH]; intros acc Hnd; simpl; [by rewrite app_nil_r|].
  rewrite bool_decide_false.
  - rewrite IH; rewrite <- app_assoc; done.
  - rewrite map_app in Hnd. apply NoDup_app in Hnd as (_ & Hd & _). intros Hin. apply (Hd _ Hin). left.
Qed.

Definition root_fields (r : data_root) : list (string * json) :=
  match json_of_root sha256 r with JObj d => d | _ => [] end.

Lemma dicts_roots l : dicts (map (json_of_root sha256) l) = Some (map root_fields l).
Proof. unfold dicts. induction l as [|r l IH]; [done|]. simpl. by rewrite IH. Qed.

#[local] Abbreviation identity r := (_root_identity sha256 (dr_path r)).

Lemma identity_inj r r' : r ∈ roots -> r' ∈ roots -> identity r = identity r' -> r = r'.
Proof.
  intros Hr Hr' E. apply (nodup_map_inj (fun r => rid r) roots); [apply rids_nodup|done..|].
  unfold _root_id. by rewrite E.
Qed.

Lemma root_of_identity_ok r : r ∈ roots -> root_of_identity sha256 (map dr_path roots) (identity r) = Some (dr_path r).
Proof.
  intros Hr. unfold root_of_identity. destruct (List.find _ _) as [p|] eqn:E.
  - apply find_some in E as [Hp E]. apply in_map_iff in Hp as (r' & <- & Hr'). apply String.eqb_eq in E.
    rewrite (identity_inj r' r); [done|by apply list_elem_of_In|done..].
  - apply (find_none _ _) with (x := dr_path r) in E; [by rewrite String.eqb_refl in E|].
    apply in_map. by apply list_elem_of_In.
Qed.

Lemma omap_roots l : (forall r, r ∈ l -> r ∈ roots) ->
  omap (fun d => (fun p => (str_field "id" d, p)) <$> root_of_identity sha256 (map dr_path roots) (str_field "identity" d))
    (map root_fields l) = map (fun r => (rid r, dr_path r)) l.
Proof.
  induction l as [|r l IH]; intros Hl; [done|]. cbn -[root_of_identity].
  change (str_field "identity" (root_fields r)) with (identity r).
  rewrite root_of_identity_ok by (apply Hl; left). cbn. f_equal. apply IH. intros; apply Hl; by right.
Qed.

Lemma remove_dups_length (l : list string) : NoDup l -> length (remove_dups l) = length l.
Proof.
  intros H. apply Permutation_length, NoDup_Permutation; [apply NoDup_remove_dups|done|].
  intros x. apply elem_of_remove_dups.
Qed.

Lemma read_targets_ok :
  _read_targets sha256 read_target (map dr_path roots) manifest = inr (map (fun r => (key r, tgt r)) roots).
Proof.
  unfold _read_targets, key. rewrite manifest_schema. destruct single eqn:E.
  - destruct (length_one roots E) as [r Er].
    pose proof (read_all_ok (fun _ => "root-0"%string) roots ltac:(done)) as H. rewrite Er in H |- *. exact H.
  - cbn -[make_manifest forallb]. rewrite manifest_roots, dicts_roots by done.
    assert (Hids : map (str_field "identity") (map root_fields roots) = map (fun r => identity r) roots)
      by (rewrite map_map; by apply map_ext).
    rewrite Hids, map_map.
    assert (H1 : forallb (fun d => match field "identity" d with JStr _ => true | _ => false end) (map root_fields roots) = true)
      by (apply forallb_forall; intros d Hd; by apply in_map_iff in Hd as (r & <- & _)).
    assert (H2 : same_set (map (fun r => identity r) roots) (map (fun r => identity r) roots) = true) by by apply same_set_iff.
    assert (H3 : bool_decide (length (remove_dups (map (fun r => identity r) roots)) = length (map dr_path roots)) = true).
    { apply bool_decide_eq_true. rewrite remove_dups_length, !length_map; [done|]. apply NoDup_fmap_2_strong.
      - intros r r' Hr Hr'. by apply identity_inj.
      - eapply NoDup_fmap_1, rids_nodup. }
    assert (H4 : forallb (descriptor_ok sha256 (map dr_path roots)) (map root_fields roots) = true).
    { apply forallb_forall. intros d Hd. apply in_map_iff in Hd as (r & <- & Hr).
      apply existsb_exists. exists (dr_path r). split; [by apply in_map|]. by rewrite !String.eqb_refl. }
    rewrite H1, H2, H3, H4, omap_roots by done. cbn -[read_all by_id].
    rewrite (read_all_ok (fun r => rid r) roots) by done. cbn -[by_id]. rewrite by_id_nodup; [done|].
    rewrite map_map. apply rids_nodup.
Qed.

(** ** Extraction *)

(** The staging directory of a key; none lies below another. *)
Context (base_of : string -> list string).
Hypothesis Hbases : forall r r', r ∈ roots -> r' ∈ roots ->
  base_of (key r) `prefix_of` base_of (key r') -> r = r'.

Definition stagings : list (string * staged_root) := map (fun r => (key r, (base_of (key r), tgt r))) roots.
Definition fresh_staging : xstate := XState (list_to_set (map (fun r => base_of (key r)) roots)) ∅.

(** The file a source file is restored to. *)
Definition restored (r : data_root) (s : source) : list string * xfile :=
  (base_of (key r) ++ src_path s, XFile (src_content s) 416 (rt_uid (tgt r)) (rt_gid (tgt r))).

Definition wanted (q : list string * xfile) : Prop :=
  exists r s, r ∈ roots /\ s ∈ source_files r /\ q = restored r s.

Lemma restored_prefix r s r' s' :
  r ∈ roots -> s ∈ source_files r -> r' ∈ roots -> s' ∈ source_files r' ->
  fst (restored r s) `prefix_of` fst (restored r' s') -> r = r' /\ s = s'.
Proof.
  intros Hr Hs Hr' Hs' Hp. simpl in Hp.
  assert (r = r') as <-.
  { assert (H : base_of (key r) `prefix_of` base_of (key r') ++ src_path s') by (etrans; [|exact Hp]; by apply prefix_app_r).
    assert (H' : base_of (key r') `prefix_of` base_of (key r') ++ src_path s') by by apply prefix_app_r.
    destruct (prefix_weak_total _ _ _ H H') as [|Hb]; [by apply Hbases|symmetry; by apply Hbases]. }
  apply prefix_app_inv in Hp. destruct (source_files_spread r (root_valid r Hr)) as [_ Hsp].
  by rewrite (source_by_path r s s' Hr Hs Hs' (Hsp s s' Hs Hs' Hp)).
Qed.

Lemma wanted_prefix q q' : wanted q -> wanted q' -> fst q `prefix_of` fst q' -> q = q'.
Proof.
  intros (r & s & Hr & Hs & ->) (r' & s' & Hr' & Hs' & ->) Hp.
  by destruct (restored_prefix r s r' s' Hr Hs Hr' Hs' Hp) as [-> ->].
Qed.

Lemma wanted_not_base q r : wanted q -> r ∈ roots -> fst q <> base_of (key r).
Proof.
  intros (r' & s & Hr' & Hs & ->) Hr E. simpl in E.
  assert (r' = r) as -> by (apply Hbases; [done..|]; rewrite <- E; by apply prefix_app_r).
  destruct (source_valid r s Hr Hs) as [Hne _]. apply Hne. apply (app_inv_head (base_of (key r))).
  by rewrite app_nil_r.
Qed.

(** One file, as the extraction places it. *)
Definition put (exclusive : bool) (q : list string * xfile) (s : xstate) : AR xstate :=
  s' ← mkdirs (fst q) s;
  write_file exclusive (fst q) (snd q) s'.

Record holds (written : list (list string * xfile)) (s : xstate) : Prop := {
  ho_files : forall p f, x_files s !! p = Some f <-> (p, f) ∈ written;
  ho_dirs : forall d, d ∈ x_dirs s -> (exists r, r ∈ roots /\ d = base_of (key r)) \/
    exists q, q ∈ written /\ d `prefix_of` fst q /\ d <> fst q;
}.

Lemma ancestors_spec d p : d ∈ ancestors p -> d `prefix_of` p /\ d <> p.
Proof.
  intros (k & -> & Hk)%list_elem_of_fmap. apply elem_of_seq in Hk. split; [apply prefix_take|].
  intros E%(f_equal length). rewrite length_take in E. lia.
Qed.

Lemma put_spec exclusive q written s :
  wanted q -> Forall wanted written -> fst q ∉ map fst written -> holds written s ->
  exists s', put exclusive q s = inr s' /\ holds (q :: written) s'.
Proof.
  intros Hq Hw Hnew [Hf Hd]. rewrite Forall_forall in Hw.
  assert (Hanc : existsb (fun a => bool_decide (is_Some (x_files s !! a))) (ancestors (fst q)) = false).
  { apply not_true_iff_false. intros (a & Ha & Hs)%existsb_exists. apply list_elem_of_In, ancestors_spec in Ha as [Hp Hne].
    apply bool_decide_eq_true in Hs as [f Hs]. apply Hf in Hs. apply Hne.
    by rewrite <- (wanted_prefix (a, f) q (Hw _ Hs) Hq Hp). }
  assert (Hdir : bool_decide (fst q ∈ list_to_set (ancestors (fst q)) ∪ x_dirs s) = false).
  { apply bool_decide_eq_false. intros [Ha|Ha]%elem_of_union.
    - apply elem_of_list_to_set, ancestors_spec in Ha. by destruct Ha.
    - destruct (Hd _ Ha) as [(r & Hr & E)|(q' & Hq' & Hp & Hne)]; [by apply (wanted_not_base q r)|].
      apply Hne. by rewrite (wanted_prefix q q' Hq (Hw _ Hq') Hp). }
  assert (Hnone : x_files s !! fst q = None).
  { destruct (x_files s !! fst q) as [f|] eqn:E; [|done]. apply Hf in E. destruct Hnew. by apply (list_elem_of_fmap_2 fst) in E. }
  unfold put, mkdirs. rewrite Hanc. cbn -[ancestors]. unfold write_file. cbn -[ancestors].
  rewrite Hdir, Hnone, bool_decide_false by (intros [? ?]; done). rewrite andb_false_r. simpl. eexists. split; [done|]. constructor; simpl.
  - intros p f. rewrite elem_of_cons. destruct q as [x g]. simpl in *. destruct (decide (x = p)) as [<-|Hne].
    + rewrite lookup_insert_eq. split; [intros [= <-]; by left|]. intros [[= <-]|Hin]; [done|].
      apply Hf in Hin. congruence.
    + rewrite lookup_insert_ne, Hf by done. split; [by right|]. intros [[= -> ->]|?]; done.
  - intros d [Ha|Ha]%elem_of_union.
    + apply elem_of_list_to_set, ancestors_spec in Ha as [? ?]. right. exists q. by split; [left|].
    + destruct (Hd _ Ha) as [?|(q' & Hq' & ?)]; [by left|]. right. exists q'. by split; [right|].
Qed.

Lemma run_puts exclusive plan written s :
  Forall wanted plan -> Forall wanted written -> NoDup (map fst (plan ++ written)) -> holds written s ->
  exists s', run_all (put exclusive) plan s = inr s' /\ holds (rev plan ++ written) s'.
Proof.
  revert written s. induction plan as [|q plan IH]; intros written s Hp Hw Hnd Hs; [by exists s|].
  apply Forall_cons in Hp as [Hq Hp]. simpl in Hnd. apply NoDup_cons in Hnd as [Hni Hnd].
  rewrite map_app, elem_of_app in Hni.
  destruct (put_spec exclusive q written s Hq Hw ltac:(tauto) Hs) as (s1 & E & Hs1).
  destruct (IH (q :: written) s1 Hp) as (s2 & E2 & Hs2); [by constructor| |done|].
  - rewrite map_app in *. simpl. rewrite NoDup_app in *. rewrite NoDup_cons. destruct Hnd as (H1 & H2 & H3). split_and!; try tauto.
    intros x Hx [->|Hy]%elem_of_cons; [tauto|by apply (H2 x)].
  - exists s2. simpl. rewrite E. simpl. split; [done|]. by rewrite <- app_assoc.
Qed.

Lemma fresh_holds : holds [] fresh_staging.
Proof.
  constructor; simpl.
  - intros p f. rewrite lookup_empty. split; [done|by intros ?%elem_of_nil].
  - intros d Hd. apply elem_of_list_to_set, list_elem_of_fmap in Hd as (r & -> & Hr). left. by exists r.
Qed.

(** What is there after a complete restore. *)
Definition all_restored (s : xstate) : Prop := forall p f, x_files s !! p = Some f <-> wanted (p, f).

Lemma run_plan exclusive plan :
  Forall wanted plan -> (forall q, wanted q -> q ∈ plan) -> NoDup (map fst plan) ->
  exists s, run_all (put exclusive) plan fresh_staging = inr s /\ all_restored s.
Proof.
  intros Hw Hall Hnd. destruct (run_puts exclusive plan [] fresh_staging Hw) as (s & E & Hs);
    [constructor|by rewrite app_nil_r|apply fresh_holds|]. exists s. split; [done|]. intros p f.
  rewrite (ho_files _ _ Hs), app_nil_r, list_elem_of_In, <- in_rev, <- list_elem_of_In. rewrite Forall_forall in Hw. split; auto.
Qed.

(** ** What each reader places *)

Lemma place_put exclusive base p c t s :
  path_valid p ->
  place exclusive base (as_posix p) (inr c) t s = put exclusive (base ++ p, XFile c 416 (rt_uid t) (rt_gid t)) s.
Proof.
  intros Hp. unfold place, put, join_path. rewrite as_posix_relative, parts_as_posix by done.
  unfold _within. rewrite bool_decide_true by by apply prefix_app_r. simpl. by destruct (mkdirs _ s).
Qed.

Lemma run_all_plan {A} exclusive (g : A -> xstate -> AR xstate) (h : A -> option (list string * xfile)) l s :
  (forall a u, a ∈ l -> g a u = match h a with Some q => put exclusive q u | None => inr u end) ->
  run_all g l s = run_all (put exclusive) (omap h l) s.
Proof.
  revert s. induction l as [|a l IH]; intros s Hg; [done|]. simpl. rewrite Hg by left.
  assert (Hg' : forall b u, b ∈ l -> g b u = match h b with Some q => put exclusive q u | None => inr u end)
    by (intros; apply Hg; by right).
  destruct (h a) as [q|]; simpl; [|by apply IH]. destruct (put exclusive q s); [done|]. by apply IH.
Qed.

Lemma run_all_map {A B} (f : A -> B) (g : B -> xstate -> AR xstate) l s :
  run_all g (map f l) s = run_all (fun a => g (f a)) l s.
Proof. revert s. induction l as [|a l IH]; intros s; [done|]. simpl. destruct (g (f a) s); [done|]. apply IH. Qed.

Lemma assoc_staging r : r ∈ roots -> assoc (key r) stagings = Some (base_of (key r), tgt r).
Proof.
  assert (Hk : forall r', r ∈ roots -> r' ∈ roots -> key r = key r' -> r = r').
  { intros r' Hr Hr'. unfold key. destruct single eqn:E; [intros _; by apply single_root|].
    apply (nodup_map_inj (fun r => rid r) roots); [apply rids_nodup|done..]. }
  intros Hr. assert (Hl : forall l, (forall r', r' ∈ l -> r' ∈ roots) -> r ∈ l ->
    assoc (key r) (map (fun r => (key r, (base_of (key r), tgt r))) l) = Some (base_of (key r), tgt r)); [|by apply Hl].
  induction l as [|x l IH]; intros Hl Hin; [by apply elem_of_nil in Hin|]. simpl.
  destruct (String.eqb_spec (key r) (key x)) as [E|Hne].
  - by rewrite (Hk x Hr (Hl x ltac:(left)) E).
  - apply IH; [intros; apply Hl; by right|]. by apply elem_of_cons in Hin as [->|].
Qed.

(** The file a member is extracted to. *)
Definition member_plan (m : member) : option (list string * xfile) :=
  e ← last_entry (mb_name m) entries;
  bt ← assoc (if single then "root-0"%string else e_root_id e) stagings;
  Some (fst bt ++ parts (e_path e), XFile (mb_content m) 416 (rt_uid (snd bt)) (rt_gid (snd bt))).

Lemma member_plan_restored r s m :
  r ∈ roots -> s ∈ source_files r -> mb_name m = e_archive_path (make_entry sha256 single (rid r) s) ->
  mb_content m = src_content s -> member_plan m = Some (restored r s).
Proof.
  intros Hr Hs Hn Hc. unfold member_plan. set (e := make_entry sha256 single (rid r) s) in *.
  assert (He : e ∈ entries) by (apply entry_origin; eauto). rewrite Hn, last_entry_in by (apply archive_paths_nodup || done).
  simpl. change (if single then "root-0"%string else rid r) with (key r). rewrite assoc_staging by done. simpl.
  rewrite parts_as_posix by eauto using source_valid. by rewrite Hc.
Qed.

(** Every member but the manifest is a source file. *)
Lemma member_source m :
  m ∈ members -> (mb_name m = _MANIFEST /\ member_plan m = None) \/
  exists r s, r ∈ roots /\ s ∈ source_files r /\ mb_name m = e_archive_path (make_entry sha256 single (rid r) s) /\
    mb_content m = src_content s /\ isfile m = true /\ get_member (mb_name m) members = Some m /\ member_plan m = Some (restored r s).
Proof.
  intros Hm. pose proof (fa_nodup Hfaithful) as Hnd.
  assert (Hin : mb_name m ∈ names members) by by apply list_elem_of_fmap_2.
  apply (fa_names Hfaithful) in Hin. apply elem_of_cons in Hin as [E|Hin].
  - left. split; [done|]. unfold member_plan. rewrite E. destruct (last_entry _MANIFEST entries) as [e|] eqn:El; [|done].
    apply last_entry_Some in El as [He El]. destruct manifest_not_listed. rewrite <- El. by apply list_elem_of_fmap_2.
  - right. apply list_elem_of_fmap in Hin as (e & E & He). pose proof He as (r & s & Hr & Hs & Ee)%entry_origin.
    destruct (entry_member e r s Hr Hs Ee) as (m' & Hm' & Hf & _ & _ & _ & Hc & _).
    rewrite <- E, get_member_in in Hm' by done. injection Hm' as <-. exists r, s. rewrite Ee in E.
    split_and!; try done; [by apply get_member_in|by apply member_plan_restored].
Qed.

Lemma source_member r s :
  r ∈ roots -> s ∈ source_files r -> exists m, m ∈ members /\ member_plan m = Some (restored r s).
Proof.
  intros Hr Hs. destruct (entry_member _ r s Hr Hs eq_refl) as (m & Hm & _ & Hin & _ & _ & Hc & _).
  exists m. split; [done|]. apply get_member_Some in Hm as [_ Hn]. by apply member_plan_restored.
Qed.

Lemma omap_nodup {A B C} (h : A -> option B) (f : B -> C) (l : list A) :
  NoDup l -> (forall a a' b b', a ∈ l -> a' ∈ l -> h a = Some b -> h a' = Some b' -> f b = f b' -> a = a') ->
  NoDup (map f (omap h l)).
Proof.
  induction 1 as [|a l Ha Hl IH]; intros Hinj; [constructor|]. simpl.
  assert (IH' : NoDup (map f (omap h l))) by (apply IH; intros x y b b' Hx Hy; apply Hinj; by right).
  destruct (h a) as [b|] eqn:E; [|done]. simpl. constructor; [|done].
  intros (b' & Eb & (a' & Ha' & E')%list_elem_of_omap)%list_elem_of_fmap. apply Ha.
  by rewrite (Hinj a a' b b' ltac:(left) ltac:(by right) E E' Eb).
Qed.

Lemma plan_wanted m q : m ∈ members -> member_plan m = Some q ->
  exists r s, r ∈ roots /\ s ∈ source_files r /\ mb_name m = e_archive_path (make_entry sha256 single (rid r) s) /\ q = restored r s.
Proof.
  intros Hm Hq. destruct (member_source m Hm) as [[_ E]|(r & s & Hr & Hs & Hn & _ & _ & _ & E)]; [congruence|].
  exists r, s. split_and!; [done..|]. congruence.
Qed.

Lemma not_manifest r s m :
  r ∈ roots -> s ∈ source_files r -> mb_name m = e_archive_path (make_entry sha256 single (rid r) s) ->
  String.eqb (mb_name m) _MANIFEST = false.
Proof.
  intros Hr Hs Hn. apply String.eqb_neq. rewrite Hn. intros Hm. apply manifest_not_listed. rewrite <- Hm.
  apply list_elem_of_fmap_2, entry_origin. eauto.
Qed.

(** Extracting the members in any order gives the restored files. *)
Lemma members_plan exclusive l :
  NoDup l -> (forall m, m ∈ l -> m ∈ members) -> (forall m, m ∈ members -> mb_name m <> _MANIFEST -> m ∈ l) ->
  exists s, run_all (put exclusive) (omap member_plan l) fresh_staging = inr s /\ all_restored s.
Proof.
  intros Hnd Hl Hall. apply run_plan.
  - apply Forall_forall. intros q (m & Hm%Hl & Hq)%list_elem_of_omap.
    destruct (plan_wanted m q Hm Hq) as (r & s & Hr & Hs & _ & ->). by exists r, s.
  - intros q (r & s & Hr & Hs & ->). destruct (source_member r s Hr Hs) as (m & Hm & Hq).
    apply list_elem_of_omap. exists m. split; [|done]. apply Hall; [done|].
    destruct (plan_wanted m _ Hm Hq) as (r' & s' & Hr' & Hs' & Hn & _). apply String.eqb_neq. by eapply not_manifest.
  - apply omap_nodup; [done|]. intros m m' q q' Hm%Hl Hm'%Hl Hq Hq' E.
    destruct (plan_wanted m q Hm Hq) as (r & s & Hr & Hs & Hn & ->).
    destruct (plan_wanted m' q' Hm' Hq') as (r' & s' & Hr' & Hs' & Hn' & ->).
    destruct (restored_prefix r s r' s' Hr Hs Hr' Hs') as [-> ->]; [by rewrite E|].
    apply (nodup_map_inj mb_name members); [apply (fa_nodup Hfaithful)|done..|]. by rewrite Hn, Hn'.
Qed.

Lemma all_members_plan :
  exists s, run_all (put true) (omap member_plan members) fresh_staging = inr s /\ all_restored s.
Proof. apply members_plan; [|done..]. eapply NoDup_fmap_1, (fa_nodup Hfaithful). Qed.

Lemma append_empty_r s : (s ++ EmptyString)%string = s.
Proof. induction s as [|c s IH]; [done|]. exact (f_equal (String c) IH). Qed.

Definition legacy_named (p : list string) : bool :=
  match p with a :: _ :: _ => String.eqb a "0" | _ => false end.

Lemma strip_legacy_id p : path_valid p -> legacy_named p = false -> strip_legacy (as_posix p) = as_posix p.
Proof.
  intros [Hne Hv] Hl. destruct Hv as [|a p (Ha & _ & _ & Hs & _) Hv]; [done|].
  assert (Hcut : forall t, (p = [] -> t = EmptyString) -> (p <> [] -> exists u, t = String "/" u) ->
    strip_legacy (a ++ t) = (a ++ t)%string).
  { intros t H0 H1. destruct a as [|c [|d a]]; [done| |].
    - destruct p as [|b p]; [by rewrite H0|]. destruct (H1 ltac:(done)) as [u ->]. simpl.
      simpl in Hl. destruct (Ascii.eqb_spec c "0"%char) as [->|]; [done|done].
    - simpl. simpl in Hs. apply orb_false_iff in Hs as [_ Hs]. apply orb_false_iff in Hs as [Hd _].
      by rewrite Hd, andb_false_r. }
  destruct p as [|b p].
  - specialize (Hcut EmptyString ltac:(done) ltac:(done)). by rewrite append_empty_r in Hcut.
  - rewrite as_posix_cons by done. apply Hcut; [done|eauto].
Qed.

Hypothesis Hlegacy : forall r s, r ∈ roots -> s ∈ source_files r -> legacy_named (src_path s) = false.

Lemma member_content_file m : isfile m = true -> member_content m = inr (mb_content m).
Proof. unfold member_content, extractfile. by intros ->. Qed.

(** What a step of either extraction does with a source file. *)
Lemma place_restored exclusive r s u :
  r ∈ roots -> s ∈ source_files r ->
  place exclusive (base_of (key r)) (as_posix (src_path s)) (inr (src_content s)) (tgt r) u = put exclusive (restored r s) u.
Proof. intros Hr Hs. apply place_put. by eapply source_valid. Qed.

Lemma entry_for_member r s m :
  r ∈ roots -> s ∈ source_files r -> mb_name m = e_archive_path (make_entry sha256 single (rid r) s) ->
  entry_for (mb_name m) (map entry_fields entries) = Some (entry_fields (make_entry sha256 single (rid r) s)).
Proof.
  intros Hr Hs ->. rewrite entry_for_fields, last_entry_in; [done|apply archive_paths_nodup|].
  apply entry_origin. eauto.
Qed.

Lemma extract_multi_ok :
  exists s, _extract_multi members manifest (map entry_fields entries) stagings fresh_staging = inr s /\ all_restored s.
Proof.
  unfold _extract_multi. rewrite manifest_schema. destruct single eqn:E; cbn -[make_manifest stagings fresh_staging run_all].
  - destruct (length_one roots E) as [r0 Er].
    assert (Hr0 : r0 ∈ roots) by (rewrite Er; left).
    pose proof (assoc_staging r0 Hr0) as Ha. unfold key in Ha at 1. rewrite E in Ha. rewrite Ha.
    erewrite (run_all_plan true _ member_plan); [apply all_members_plan|].
    intros m u Hm. unfold extract_member. destruct (member_source m Hm) as [[Hn Hp]|(r & s & Hr & Hs & Hn & Hc & Hf & _ & Hp)].
    + by rewrite Hn, Hp.
    + rewrite Hp. rewrite (not_manifest r s m Hr Hs Hn), (entry_for_member r s m Hr Hs Hn), member_content_file, Hc by done.
      change (str_field "path" (entry_fields _)) with (as_posix (src_path s)).
      rewrite strip_legacy_id by eauto using source_valid.
      rewrite (single_root r0 r E Hr0 Hr). by apply place_restored.
  - erewrite (run_all_plan true _ member_plan); [apply all_members_plan|].
    intros m u Hm. unfold extract_member_multi. destruct (member_source m Hm) as [[Hn Hp]|(r & s & Hr & Hs & Hn & Hc & Hf & _ & Hp)].
    + by rewrite Hn, Hp.
    + rewrite Hp. rewrite (not_manifest r s m Hr Hs Hn), (entry_for_member r s m Hr Hs Hn), member_content_file, Hc by done.
      change (str_field "root_id" (entry_fields _)) with (rid r).
      pose proof (assoc_staging r Hr) as Ha. unfold key in Ha at 1. rewrite E in Ha. rewrite Ha.
      change (str_field "path" (entry_fields _)) with (as_posix (src_path s)). by apply place_restored.
Qed.

(** The member of an entry, in the order of the entries. *)
Definition listed_members : list member := omap (fun e => get_member (e_archive_path e) members) entries.

Lemma listed_members_plan exclusive :
  exists s, run_all (put exclusive) (omap member_plan listed_members) fresh_staging = inr s /\ all_restored s.
Proof.
  apply members_plan; unfold listed_members.
  - assert (H : forall l, NoDup (map e_archive_path l) -> NoDup (omap (fun e => get_member (e_archive_path e) members) l));
      [|apply H, archive_paths_nodup].
    intros l Hl. rewrite <- (map_id (omap _ l)). apply omap_nodup; [by eapply NoDup_fmap_1|].
    intros e e' m m' He He' Hm Hm' E. apply get_member_Some in Hm as [_ Hm], Hm' as [_ Hm'].
    apply (nodup_map_inj e_archive_path l); [done..|]. congruence.
  - by intros m (e & _ & [? _]%get_member_Some)%list_elem_of_omap.
  - intros m Hm Hne. destruct (member_source m Hm) as [[? _]|(r & s & Hr & Hs & Hn & _ & _ & Hg & _)]; [done|].
    apply list_elem_of_omap. exists (make_entry sha256 single (rid r) s). split; [apply entry_origin; eauto|]. by rewrite <- Hn.
Qed.

Lemma omap_compose {A B C} (f : A -> option B) (g : B -> option C) (l : list A) :
  omap g (omap f l) = omap (fun a => f a ≫= g) l.
Proof. induction l as [|a l IH]; [done|]. cbn. destruct (f a) as [b|]; cbn; [|exact IH].
  destruct (g b); [f_equal|]; exact IH.
Qed.

Lemma extract_entry_step exclusive e u :
  e ∈ entries ->
  (match assoc (if single then "root-0"%string else e_root_id e) stagings with
   | None => inl Caught
   | Some (base, t) => extract_external_entry exclusive members base t (entry_fields e) u
   end) = match get_member (e_archive_path e) members ≫= member_plan with Some q => put exclusive q u | None => inr u end.
Proof.
  intros He. pose proof He as (r & s & Hr & Hs & Ee)%entry_origin.
  destruct (entry_member e r s Hr Hs Ee) as (m & Hm & Hf & Hin & _ & _ & Hc & _).
  rewrite Hm. simpl. pose proof Hm as [_ Hn]%get_member_Some. rewrite Ee in Hn.
  rewrite (member_plan_restored r s m Hr Hs Hn Hc).
  assert (Hk : (if single then "root-0"%string else e_root_id e) = key r) by (by rewrite Ee).
  rewrite Hk, assoc_staging by done. unfold extract_external_entry, external_open.
  change (str_field "archive_path" (entry_fields e)) with (e_archive_path e). rewrite Hm, Hf, Hc.
  change (str_field "path" (entry_fields e)) with (e_path e). rewrite Ee. by apply place_restored.
Qed.

Lemma extract_external_ok :
  exists s, _extract_external_multi members manifest (map entry_fields entries) stagings fresh_staging = inr s /\ all_restored s.
Proof.
  unfold _extract_external_multi. rewrite manifest_schema. pose proof extract_entry_step as Hstep.
  destruct single eqn:E; cbn -[make_manifest stagings fresh_staging run_all].
  - destruct (length_one roots E) as [r0 Er].
    pose proof (assoc_staging r0 ltac:(rewrite Er; left)) as Ha. unfold key in Ha at 1. rewrite E in Ha. rewrite Ha.
    rewrite run_all_map. rewrite (run_all_plan false _ (fun e => get_member (e_archive_path e) members ≫= member_plan));
      [rewrite <- (omap_compose (fun e => get_member (e_archive_path e) members) member_plan); apply listed_members_plan|].
    intros e u He. specialize (Hstep false e u He). rewrite Ha in Hstep. exact Hstep.
  - rewrite run_all_map. rewrite (run_all_plan true _ (fun e => get_member (e_archive_path e) members ≫= member_plan));
      [rewrite <- (omap_compose (fun e => get_member (e_archive_path e) members) member_plan); apply listed_members_plan|].
    intros e u He. exact (Hstep true e u He).
Qed.
End Validated.
End Archive.
End Snapshot.
End Run.

(** A stream that was verified when it was written can be read back. *)
Lemma verify_stream_read sha256 loads entries seen l seen' :
  verify_stream sha256 loads entries seen l = inr seen' -> read_stream seen l = inr tt.
Proof.
  revert seen. induction l as [|m l IH]; intros seen H; [done|]. simpl in *. ar_inv.
  repeat match goal with H : _ = true |- _ => rewrite H; simpl; clear H end.
  match goal with H : bool_decide _ = false |- _ => rewrite H; simpl end.
  match goal with H : _validate_member m = inr _ |- _ => rewrite H; simpl end. by apply IH.
Qed.

(** The archive [tar] made of a snapshot: its members have distinct names and the
    sizes of their contents, its manifest reads back, and no content of it has the
    digest of another source file. *)
Record packed (sha256 : string -> string) (loads : string -> option json) (roots : list data_root)
    (manifest : list (string * json)) (members : list member) : Prop := {
  pk_names : NoDup (names members);
  pk_manifest : exists mm c, get_member _MANIFEST members = Some mm /\ extractfile mm = Some c /\
    loads c = Some (JObj manifest);
  pk_sized : forall m, m ∈ members -> isfile m = true -> mb_size m = Z.of_nat (String.length (mb_content m));
  pk_collision : forall m r s, m ∈ members -> r ∈ roots -> s ∈ source_files r ->
    sha256 (mb_content m) = sha256 (src_content s) -> mb_content m = src_content s;
}.


(** ** Concrete archives *)

(** A stand-in for the digest: the text with its slashes replaced. *)
Fixpoint plain_hash (s : string) : string :=
  match s with
  | EmptyString => EmptyString
  | String c s' => String (if Ascii.eqb c "/"%char then "_"%char else c) (plain_hash s')
  end.

Lemma plain_hash_hex s : has_slash (plain_hash s) = false.
Proof.
  induction s as [|c s IH]; [done|]. simpl. rewrite IH, orb_false_r.
  destruct (Ascii.eqb c "/"%char) eqn:E; [done|exact E].
Qed.

(** The members [tar] makes of the sources. *)
Definition pack (roots : list data_root) : list member :=
  Member _MANIFEST MReg 1 0 0 "M" ::
  flat_map (fun r => map (fun s =>
    let e := make_entry plain_hash (bool_decide (length roots = 1%nat)) (_root_id plain_hash (dr_path r)) s in
    Member (e_archive_path e) MReg (e_size e) (e_uid e) (e_gid e) (src_content s)) (source_files r)) roots.

Definition no_failure : string -> source -> option aexc := fun _ _ => None.
Definition entries_of (roots : list data_root) : list entry :=
  match _snapshot plain_hash no_failure roots with inr es => es | inl _ => [] end.
Definition manifest_of (roots : list data_root) : list (string * json) :=
  make_manifest plain_hash false "terraria-vanilla" "b1" "now" roots (entries_of roots).
Definition loads_of (roots : list data_root) (c : string) : option json :=
  if String.eqb c "M" then Some (JObj (manifest_of roots)) else None.

Definition owner : string -> AR rtarget := fun p => inr (RTarget p 10 20).
Definition staging_of_key (k : string) : list string := ["srv"; ".restore-" ++ k]%string.

Definition unpack_pack (external : bool) (roots : list data_root) : AR xstate :=
  unpack plain_hash (loads_of roots) external "terraria-vanilla" (map dr_path roots) owner staging_of_key (pack roots).

Definition two_roots : list data_root :=
  [DataRoot "/srv/world" false (Some (NDir true [("level.dat", NFile "L" 420 1 2); ("old.partial", NFile "x" 420 1 2);
      ("region", NDir true [("r.0.0", NFile "R" 420 1 2)]); ("link", NLink)]));
   DataRoot "/srv/mods" false (Some (NDir true [("a.jar", NFile "A" 420 3 4)]))]%string.

Lemma names_valid_dec s :
  negb (String.eqb s EmptyString) && negb (String.eqb s ".") && negb (String.eqb s "..") && negb (has_slash s) && negb (has_nul s) = true ->
  name_valid s.
Proof.
  intros H. ar_inv. rewrite String.eqb_neq in *. by split_and!.
Qed.

Lemma two_roots_ok : Forall root_ok two_roots.
Proof.
  repeat constructor; simpl; try (apply names_valid_dec; reflexivity);
    intros H; repeat (apply elem_of_cons in H as [H|H]; [discriminate H|]); by apply elem_of_nil in H.
Qed.

Lemma two_roots_packed : packed plain_hash (loads_of two_roots) two_roots (manifest_of two_roots) (pack two_roots).
Proof.
  split.
  - by apply (bool_decide_unpack _); vm_compute.
  - eexists _, _. split_and!; vm_compute; reflexivity.
  - intros m Hm _. repeat (apply elem_of_cons in Hm as [->|Hm]; [by vm_compute|]). by apply elem_of_nil in Hm.
  - intros m r s Hm Hr Hs. vm_compute in Hm.
    repeat (apply elem_of_cons in Hr as [->|Hr]; [vm_compute in Hs|]); try by apply elem_of_nil in Hr.
    all: repeat (apply elem_of_cons in Hs as [->|Hs]); try by apply elem_of_nil in Hs.
    all: repeat (apply elem_of_cons in Hm as [->|Hm]; [by vm_compute|]); by apply elem_of_nil in Hm.
Qed.


(** A profile whose only root holds a directory called [0]. *)
Definition zero_root : list data_root :=
  [DataRoot "/srv/world" false (Some (NDir true [("0", NDir true [("level.dat", NFile "L" 420 1 2)])]))]%string.

Definition staged_files (r : AR xstate) : list (list string * string) :=
  match r with inr s => map (fun x => (fst x, xf_content (snd x))) (map_to_list (x_files s)) | inl _ => [] end.

(** The legacy prefix is stripped from current archives.  For a single-root
    profile the reader that uses [tarfile] drops a leading [0/] from every path,
    although archives written today never have that prefix: a file of a top-level
    directory called [0] is restored one level up.  The other reader restores the
    same archive to the right place. *)
Theorem legacy_prefix_misplaces_files :
  verify_new plain_hash (loads_of zero_root) false (pack zero_root) (entries_of zero_root) = inr tt /\
  staged_files (unpack_pack false zero_root) = [(["srv"; ".restore-root-0"; "level.dat"], "L")]%string /\
  staged_files (unpack_pack true zero_root) = [(["srv"; ".restore-root-0"; "0"; "level.dat"], "L")]%string.
Proof. split_and!; vm_compute; reflexivity. Qed.
