(* ===== verification/Fault.v ===== *)
(** Effects with faults: a state monad over any state in which every durable effect
    can be preceded by an exception or by the death of the process, and its
    triples.  Time is a tick per effect, which numbers the faults and the answers
    of the environment. *)
From S2P Require Import Prelude.

(** [SafeError]; [OSError], [ValueError] and the like; any other exception; the end of
    the process, after which no handler runs. *)
Inductive fexc := SafeF (code : string) | OsF | OtherF | CrashF.

#[export] Instance fexc_eq_dec : EqDecision fexc.
Proof. solve_decision. Defined.

Definition is_end (x : fexc) : bool := match x with CrashF => true | _ => false end.

Section Monad.
Context {S : Type}.

Definition FM (A : Type) : Type := S * nat -> (fexc + A) * (S * nat).

#[global] Instance FM_ret : MRet FM := fun A a st => (inr a, st).
#[global] Instance FM_bind : MBind FM := fun A B k m st =>
  match m st with
  | (inr a, st') => k a st'
  | (inl x, st') => (inl x, st')
  end.

Definition fthrow {A} (x : fexc) : FM A := fun st => (inl x, st).
Definition fail {A} (code : string) : FM A := fthrow (SafeF code).
Definition guard (b : bool) (code : string) : FM unit := if b then mret tt else fail code.
Definition read {A} (f : S -> A) : FM A := fun st => (inr (f (fst st)), st).
Definition modify (f : S -> S) : FM unit := fun st => (inr tt, (f (fst st), snd st)).

(** [try: m except Exception as x: h x] *)
Definition fexcept {A} (m : FM A) (h : fexc -> FM A) : FM A := fun st =>
  match m st with
  | (inl x, st') => if is_end x then (inl x, st') else h x st'
  | r => r
  end.

(** [try: m finally: f] *)
Definition ffinally {A} (m : FM A) (f : FM unit) : FM A := fun st =>
  match m st with
  | (inl CrashF, st') => (inl CrashF, st')
  | (r, st') => match f st' with
                | (inl y, st'') => (inl y, st'')
                | (inr _, st'') => (r, st'')
                end
  end.

Fixpoint ffor {A} (l : list A) (f : A -> FM unit) : FM unit :=
  match l with
  | [] => mret tt
  | a :: l' => f a ;; ffor l' f
  end.

(** An answer of the environment. *)
Definition oracle {A} (f : nat -> A) : FM A := fun st => (inr (f (snd st)), (fst st, Datatypes.S (snd st))).

Definition feffect (fault : nat -> option fexc) (f : S -> S) : FM unit := fun st =>
  match fault (snd st) with
  | Some x => (inl x, (fst st, Datatypes.S (snd st)))
  | None => (inr tt, (f (fst st), Datatypes.S (snd st)))
  end.

(** An operation that cannot be stopped half way but can be stopped. *)
Definition step (fault : nat -> option fexc) : FM unit := feffect fault id.

(** ** Triples *)

Definition ftri {A} (P : S -> Prop) (m : FM A) (Q : A -> S -> Prop) (E : fexc -> S -> Prop) : Prop :=
  forall s n, P s ->
    match m (s, n) with
    | (inr a, (s', _)) => Q a s'
    | (inl x, (s', _)) => E x s'
    end.

Lemma ftri_conseq {A} (P P' : S -> Prop) (m : FM A) (Q Q' : A -> S -> Prop) (E E' : fexc -> S -> Prop) :
  ftri P' m Q' E' -> (forall s, P s -> P' s) -> (forall a s, Q' a s -> Q a s) -> (forall x s, E' x s -> E x s) ->
  ftri P m Q E.
Proof.
  intros Hm HP HQ HE s n Hs. specialize (Hm s n (HP s Hs)). destruct (m (s, n)) as [[x|a] [s' n']]; auto.
Qed.

Lemma ftri_pre {A} (P P' : S -> Prop) (m : FM A) Q E : ftri P' m Q E -> (forall s, P s -> P' s) -> ftri P m Q E.
Proof. intros Hm HP. by eapply ftri_conseq. Qed.

Lemma ftri_ret {A} (a : A) (P : S -> Prop) (Q : A -> S -> Prop) E : (forall s, P s -> Q a s) -> ftri P (mret a) Q E.
Proof. intros H s n Hs. by apply H. Qed.

Lemma ftri_throw {A} x (P : S -> Prop) (Q : A -> S -> Prop) (E : fexc -> S -> Prop) :
  (forall s, P s -> E x s) -> ftri P (fthrow x) Q E.
Proof. intros H s n Hs. by apply H. Qed.

Lemma ftri_bind {A B} P (m : FM A) (k : A -> FM B) R Q E :
  ftri P m R E -> (forall a, ftri (R a) (k a) Q E) -> ftri P (m ≫= k) Q E.
Proof.
  intros Hm Hk s n Hs. specialize (Hm s n Hs). unfold mbind, FM_bind.
  destruct (m (s, n)) as [[x|a] [s' n']]; [done|]. by apply Hk.
Qed.

Lemma ftri_seq {B} P (m : FM unit) (k : FM B) R Q E :
  ftri P m (fun _ => R) E -> ftri R k Q E -> ftri P (m ;; k) Q E.
Proof. intros Hm Hk. eapply ftri_bind; [exact Hm|]. by intros []. Qed.

Lemma ftri_if {A} (b : bool) P (m1 m2 : FM A) Q E :
  (b = true -> ftri P m1 Q E) -> (b = false -> ftri P m2 Q E) -> ftri P (if b then m1 else m2) Q E.
Proof. by destruct b; auto. Qed.

Lemma ftri_guard b code (P : S -> Prop) E :
  (forall s, P s -> E (SafeF code) s) -> ftri P (guard b code) (fun _ => P) E.
Proof. intros H. destruct b; [by apply ftri_ret|by apply ftri_throw]. Qed.

Lemma ftri_guard_then {B} b code (P : S -> Prop) (k : FM B) Q E :
  (forall s, P s -> E (SafeF code) s) -> (b = true -> ftri P k Q E) -> ftri P (guard b code ;; k) Q E.
Proof. intros HE Hk. destruct b; [by apply Hk|]. intros s n Hs. by apply HE. Qed.

Lemma ftri_except {A} P (m : FM A) h Q (E E' : fexc -> S -> Prop) :
  ftri P m Q E' -> (forall x, is_end x = false -> ftri (E' x) (h x) Q E) ->
  (forall x s, is_end x = true -> E' x s -> E x s) -> ftri P (fexcept m h) Q E.
Proof.
  intros Hm Hh Hc s n Hs. specialize (Hm s n Hs). unfold fexcept. destruct (m (s, n)) as [[x|a] [s' n']]; [|done].
  destruct (is_end x) eqn:Ex; [by apply Hc|by apply Hh].
Qed.

Lemma ftri_finally {A} P (m : FM A) f (Q R : A -> S -> Prop) (E E' : fexc -> S -> Prop) :
  ftri P m R E' -> (forall a, ftri (R a) f (fun _ => Q a) E) ->
  (forall x, is_end x = false -> ftri (E' x) f (fun _ => E x) E) ->
  (forall s, E' CrashF s -> E CrashF s) -> ftri P (ffinally m f) Q E.
Proof.
  intros Hm Hf Hx Hc s n Hs. specialize (Hm s n Hs). unfold ffinally. destruct (m (s, n)) as [[x|a] [s' n']].
  - destruct x; try by apply Hc.
    all: match goal with |- context [inl ?x] => specialize (Hx x eq_refl s' n' Hm) end;
      by destruct (f (s', n')) as [[?|?] [? ?]].
  - specialize (Hf a s' n' Hm). by destruct (f (s', n')) as [[?|?] [? ?]].
Qed.

Lemma ftri_for {A} (I : list A -> S -> Prop) (l : list A) (f : A -> FM unit) E :
  (forall pre a post, l = pre ++ a :: post -> ftri (I pre) (f a) (fun _ => I (pre ++ [a])) E) ->
  ftri (I []) (ffor l f) (fun _ => I l) E.
Proof.
  assert (H : forall post pre, l = pre ++ post ->
    (forall pre a post, l = pre ++ a :: post -> ftri (I pre) (f a) (fun _ => I (pre ++ [a])) E) ->
    ftri (I pre) (ffor post f) (fun _ => I l) E); [|intros Hf; by apply (H l [])].
  induction post as [|a post IH]; intros pre -> Hf; simpl.
  - apply ftri_ret. intros s. by rewrite app_nil_r.
  - eapply ftri_seq; [by eapply Hf|]. apply IH; [by rewrite <- app_assoc|done].
Qed.

Lemma ftri_read {A} (f : S -> A) P E : ftri P (read f) (fun a s => P s /\ a = f s) E.
Proof. by intros s n Hs. Qed.

(** Reading a known state. *)
Lemma ftri_read_at {A B} (f : S -> A) (k : A -> FM B) s1 Q E :
  ftri (fun s => s = s1) (k (f s1)) Q E -> ftri (fun s => s = s1) (read f ≫= k) Q E.
Proof. intros H s n ->. by apply H. Qed.

Lemma ftri_modify f (P Q : S -> Prop) E : (forall s, P s -> Q (f s)) -> ftri P (modify f) (fun _ => Q) E.
Proof. intros H s n Hs. by apply H. Qed.

Lemma ftri_oracle {A} (f : nat -> A) P E : ftri P (oracle f) (fun _ => P) E.
Proof. by intros s n Hs. Qed.

Lemma ftri_effect fault f (P Q : S -> Prop) E :
  (forall s, P s -> Q (f s)) -> (forall x s, P s -> E x s) -> ftri P (feffect fault f) (fun _ => Q) E.
Proof. intros HQ HE s n Hs. unfold feffect. simpl. destruct (fault n); auto. Qed.

(** The same, with the fault that came. *)
Lemma ftri_effect_fault fault f (P Q : S -> Prop) E :
  (forall s, P s -> Q (f s)) -> (forall x n s, fault n = Some x -> P s -> E x s) -> ftri P (feffect fault f) (fun _ => Q) E.
Proof. intros HQ HE s n Hs. unfold feffect. simpl. destruct (fault n) eqn:Ef; eauto. Qed.

(** An effect that does not fail. *)
Lemma ftri_effect_sure fault f (P Q : S -> Prop) E :
  (forall n, fault n = None) -> (forall s, P s -> Q (f s)) -> ftri P (feffect fault f) (fun _ => Q) E.
Proof. intros Hf HQ s n Hs. unfold feffect. simpl. rewrite Hf. by apply HQ. Qed.

Lemma ftri_step fault P E : (forall x s, P s -> E x s) -> ftri P (step fault) (fun _ => P) E.
Proof. intros H. by apply ftri_effect. Qed.

Lemma ftri_false {A} (P : S -> Prop) (m : FM A) Q E : (forall s, P s -> False) -> ftri P m Q E.
Proof. intros H s n Hs. by destruct (H s Hs). Qed.

(** From every state of a precondition. *)
Lemma ftri_each {A} (P : S -> Prop) (m : FM A) Q E : (forall s1, P s1 -> ftri (fun s => s = s1) m Q E) -> ftri P m Q E.
Proof. intros H s n Hs. by apply (H s). Qed.

Lemma ftri_bind_assoc {A B C} (P : S -> Prop) (m : FM A) (k : A -> FM B) (l : B -> FM C) Q E :
  ftri P ((m ≫= k) ≫= l) Q E -> ftri P (m ≫= (fun a => k a ≫= l)) Q E.
Proof. intros H s n Hs. specialize (H s n Hs). unfold mbind, FM_bind in *. by destruct (m (s, n)) as [[?|?] ?]. Qed.

Lemma ftri_exists {A B} (P : B -> S -> Prop) (m : FM A) Q E :
  (forall b, ftri (P b) m Q E) -> ftri (fun s => exists b, P b s) m Q E.
Proof. intros H s n (b & Hs). by apply (H b). Qed.

Lemma ftri_pure {A} (P : S -> Prop) (R : Prop) (m : FM A) Q E : (R -> ftri P m Q E) -> ftri (fun s => P s /\ R) m Q E.
Proof. intros H s n [Hs Hr]. by apply H. Qed.
Lemma ftri_and {A} (P P' : S -> Prop) (m : FM A) Q Q' E E' :
  ftri P m Q E -> ftri P' m Q' E' ->
  ftri (fun s => P s /\ P' s) m (fun a s => Q a s /\ Q' a s) (fun x s => E x s /\ E' x s).
Proof.
  intros H H' s n [Hs Hs']. specialize (H s n Hs). specialize (H' s n Hs'). by destruct (m (s, n)) as [[x|a] [s' n']].
Qed.

(** ** What a computation keeps, however it ends *)

Section Keeps.
Context (P : S -> Prop).

Definition keeps {A} (m : FM A) : Prop := ftri P m (fun _ => P) (fun _ => P).

Lemma keeps_bind {A B} (m : FM A) (k : A -> FM B) : keeps m -> (forall a, keeps (k a)) -> keeps (m ≫= k).
Proof. intros Hm Hk. eapply ftri_bind; [exact Hm|]. intros a. apply Hk. Qed.
Lemma keeps_ret {A} (a : A) : keeps (mret a).
Proof. by apply ftri_ret. Qed.
Lemma keeps_throw {A} x : keeps (fthrow x : FM A).
Proof. by apply ftri_throw. Qed.
Lemma keeps_fail {A} code : keeps (fail code : FM A).
Proof. apply keeps_throw. Qed.
Lemma keeps_guard b code : keeps (guard b code).
Proof. by apply ftri_guard. Qed.
Lemma keeps_read {A} (f : S -> A) : keeps (read f).
Proof. intros s n Hs. done. Qed.
Lemma keeps_oracle {A} (f : nat -> A) : keeps (oracle f).
Proof. by apply ftri_oracle. Qed.
Lemma keeps_modify f : (forall s, P s -> P (f s)) -> keeps (modify f).
Proof. intros Hf. by apply ftri_modify. Qed.
Lemma keeps_effect fault f : (forall s, P s -> P (f s)) -> keeps (feffect fault f).
Proof. intros Hf. by apply ftri_effect. Qed.
Lemma keeps_step fault : keeps (step fault).
Proof. by apply ftri_step. Qed.
Lemma keeps_except {A} (m : FM A) h : keeps m -> (forall x, keeps (h x)) -> keeps (fexcept m h).
Proof. intros Hm Hh. eapply ftri_except; [exact Hm| |done]. intros x _. apply Hh. Qed.
Lemma keeps_finally {A} (m : FM A) f : keeps m -> keeps f -> keeps (ffinally m f).
Proof. intros Hm Hf. eapply ftri_finally; [exact Hm|intros; exact Hf|intros; exact Hf|done]. Qed.
Lemma keeps_for {A} (l : list A) f : (forall a, keeps (f a)) -> keeps (ffor l f).
Proof. intros Hf. apply (ftri_for (fun _ => P)). intros pre a post _. apply Hf. Qed.
End Keeps.
End Monad.
Arguments FM : clear implicits.

#[export] Hint Resolve keeps_ret keeps_throw keeps_fail keeps_guard keeps_read keeps_oracle keeps_step : helios.
