(* ===== verification/Backups.v ===== *)
(** [backups.py]: [BackupService] (creating a backup, offline or online, protecting
    and pruning) and [B2ProtectionService] (the copy at B2 and its retention).

    The state is the backup root of a profile (archives and partial files), the
    catalog and the protection rows of the database, the remote objects, and
    whether the game saves its world.  Every effect can fail or be the last of the
    process.  What a snapshot and [tar] produce, the free space, the lease and the
    calls to the game are answers of the environment; the remote is used through
    the interface [B2Transport]. *)
From S2P Require Import Prelude Fault.

(** ** Data *)

Record BackupRecord := mkBackup {
  bk_id : string;
  bk_profile : string;
  bk_created : Z;
  bk_verified : bool;
  bk_protected : bool;
}.

Record ProtectionRecord := mkProtection {
  pr_backup : string;
  pr_profile : string;
  pr_key : string;
  pr_sha256 : string;
  pr_local : bool;
  pr_upload : string;
  pr_verified : bool;
  pr_comparison : string;
  pr_prune : string;
  pr_error : option string;
}.

Inductive game_call := SaveOff | SaveAllFlush | SaveOn.

(** What happened to the world of the game, in order. *)
Inductive world_event :=
  | Called (c : game_call) (returned : bool)
  | Copied
  | Packed.

Record bstate := BState {
  b_files : gmap string string;
  b_partial : gset string;
  b_rows : list BackupRecord;
  b_protections : gmap string ProtectionRecord;
  b_remote : gmap string string;
  b_world : list world_event;
  b_catalogued : bool;
  b_remote_started : bool;
}.

Definition with_files (f : gmap string string -> gmap string string) (s : bstate) : bstate :=
  BState (f (b_files s)) (b_partial s) (b_rows s) (b_protections s) (b_remote s) (b_world s) (b_catalogued s) (b_remote_started s).
Definition with_partial (f : gset string -> gset string) (s : bstate) : bstate :=
  BState (b_files s) (f (b_partial s)) (b_rows s) (b_protections s) (b_remote s) (b_world s) (b_catalogued s) (b_remote_started s).
Definition with_rows (f : list BackupRecord -> list BackupRecord) (s : bstate) : bstate :=
  BState (b_files s) (b_partial s) (f (b_rows s)) (b_protections s) (b_remote s) (b_world s) (b_catalogued s) (b_remote_started s).
Definition with_protections (f : gmap string ProtectionRecord -> gmap string ProtectionRecord) (s : bstate) : bstate :=
  BState (b_files s) (b_partial s) (b_rows s) (f (b_protections s)) (b_remote s) (b_world s) (b_catalogued s) (b_remote_started s).
Definition with_remote (r : gmap string string) (s : bstate) : bstate :=
  BState (b_files s) (b_partial s) (b_rows s) (b_protections s) r (b_world s) (b_catalogued s) (b_remote_started s).
Definition happened (e : world_event) (s : bstate) : bstate :=
  BState (b_files s) (b_partial s) (b_rows s) (b_protections s) (b_remote s) (b_world s ++ [e]) (b_catalogued s) (b_remote_started s).
Definition set_catalogued (b : bool) (s : bstate) : bstate :=
  BState (b_files s) (b_partial s) (b_rows s) (b_protections s) (b_remote s) (b_world s) b (b_remote_started s).
Definition set_remote_started (b : bool) (s : bstate) : bstate :=
  BState (b_files s) (b_partial s) (b_rows s) (b_protections s) (b_remote s) (b_world s) (b_catalogued s) b.

(** ** Remote keys *)

Definition _ARCHIVE_SUFFIX : string := ".tar.zst".
Definition _B2_PREFIX_ROOT : string := "helios/horizon/app".
Definition _B2_RETENTION : nat := 2.
Definition _B2_PROFILES : list string := ["minecraft-sunlit-cobblemon"; "terraria-vanilla"; "terraria-tmod"]%string.

Definition approved_profile (p : string) : bool := bool_decide (p ∈ _B2_PROFILES).
Definition b2_prefix (profile : string) : string := (_B2_PREFIX_ROOT ++ "/" ++ profile)%string.
Definition remote_key (profile id : string) : string := (b2_prefix profile ++ "/" ++ id ++ _ARCHIVE_SUFFIX)%string.

(** [backup_id.split("-", 1)[0]] *)
Fixpoint _backup_generation (id : string) : string :=
  match id with
  | EmptyString => EmptyString
  | String c s => if Ascii.eqb c (Ascii.ascii_of_nat 45) then EmptyString else String c (_backup_generation s)
  end.

(** Newest generation first. *)
Definition newer_generation (a b : ProtectionRecord) : Prop :=
  str_leb (_backup_generation (pr_backup b)) (_backup_generation (pr_backup a)) = true.
#[export] Instance newer_generation_dec a b : Decision (newer_generation a b).
Proof. unfold newer_generation. apply _. Defined.

(** ** The remote *)

(** [B2Transport]: uploading and verifying the content of a local archive, listing the
    keys below a prefix, deleting a key. *)
Class B2Transport := {
  t_upload : string -> string -> FM (gmap string string) unit;
  t_verify : string -> string -> FM (gmap string string) unit;
  t_list : string -> FM (gmap string string) (list string);
  t_delete : string -> FM (gmap string string) unit;
}.

(** What the service relies on: uploads are immutable, a verification that returns
    compared the content, a listing that returns is complete, and no operation
    touches another key. *)
Class TransportLaws {T : B2Transport} : Prop := {
  upload_law : forall c k r,
    let one := fun r' => (forall k', k' <> k -> r' !! k' = r !! k') /\
                         (r' !! k = r !! k \/ (r !! k = None /\ r' !! k = Some c)) in
    ftri (fun r0 => r0 = r) (t_upload c k) (fun _ => one) (fun _ => one);
  verify_law : forall c k r,
    ftri (fun r0 => r0 = r) (t_verify c k) (fun _ r' => r' = r /\ r !! k = Some c) (fun _ r' => r' = r);
  list_law : forall p r,
    ftri (fun r0 => r0 = r) (t_list p)
      (fun l r' => r' = r /\ forall k, k ∈ l <-> is_Some (r !! k) /\ String.prefix (p ++ "/") k = true) (fun _ r' => r' = r);
  delete_law : forall k r,
    ftri (fun r0 => r0 = r) (t_delete k) (fun _ r' => r' = delete k r) (fun _ r' => r' = r \/ r' = delete k r);
}.

(** *** [B2CommandTransport]: fixed [rclone] commands on approved keys *)

Fixpoint strip_prefix (p s : string) : option string :=
  match p, s with
  | EmptyString, _ => Some s
  | String a p', String b s' => if Ascii.eqb a b then strip_prefix p' s' else None
  | String _ _, EmptyString => None
  end.

Definition in_range (lo hi : nat) (c : Ascii.ascii) : bool :=
  (lo <=? Ascii.nat_of_ascii c)%nat && (Ascii.nat_of_ascii c <=? hi)%nat.
Definition is_digit : Ascii.ascii -> bool := in_range 48 57.
Definition is_hex (c : Ascii.ascii) : bool := is_digit c || in_range 97 102 c.

(** [n] characters of a class, then the rest. *)
Fixpoint take_class (n : nat) (f : Ascii.ascii -> bool) (s : string) : option string :=
  match n, s with
  | O, _ => Some s
  | Datatypes.S n', String c s' => if f c then take_class n' f s' else None
  | Datatypes.S _, EmptyString => None
  end.

(** [_BACKUP_ID] and the suffix, for the whole name. *)
Definition archive_name (s : string) : bool :=
  bool_decide ((s ← take_class 8 is_digit s; s ← strip_prefix "T" s; s ← take_class 12 is_digit s;
                s ← strip_prefix "Z-" s; s ← take_class 12 is_hex s; strip_prefix _ARCHIVE_SUFFIX s) = Some EmptyString).

Definition _approved_key (key : string) : bool :=
  existsb (fun p => match strip_prefix (b2_prefix p ++ "/") key with
                    | Some name => archive_name name
                    | None => false
                    end) _B2_PROFILES.

Definition _approved_prefix (prefix : string) : bool := existsb (fun p => String.eqb prefix (b2_prefix p)) _B2_PROFILES.

(** The commands of [rclone]; [lsjson] gives the names of the objects. *)
Class Rclone := {
  rc_copyto : string -> string -> FM (gmap string string) unit;
  rc_cryptcheck : string -> string -> FM (gmap string string) unit;
  rc_lsjson : string -> FM (gmap string string) (list string);
  rc_deletefile : string -> FM (gmap string string) unit;
}.

Fixpoint lstrip_slash (s : string) : string :=
  match s with
  | String c s' => if Ascii.eqb c (Ascii.ascii_of_nat 47) then lstrip_slash s' else s
  | EmptyString => EmptyString
  end.

Definition listed_key (prefix name : string) : string :=
  let name := lstrip_slash name in
  if String.prefix (prefix ++ "/") name then name else (prefix ++ "/" ++ name)%string.

Definition B2CommandTransport {R : Rclone} : B2Transport := {|
  t_upload c k := guard (_approved_key k) "invalid_backup_destination" ;; rc_copyto c k;
  t_verify c k := guard (_approved_key k) "invalid_backup_destination" ;; rc_cryptcheck c k;
  t_list p :=
    guard (_approved_prefix p) "invalid_backup_destination" ;;
    names ← rc_lsjson p;
    let keys := map (listed_key p) names in
    guard (forallb _approved_key keys) "invalid_backup_destination" ;;
    mret keys;
  t_delete k := guard (_approved_key k) "invalid_backup_destination" ;; rc_deletefile k;
|}.
#[export] Existing Instance B2CommandTransport.

(** What the commands promise. *)
Class RcloneLaws {R : Rclone} : Prop := {
  copyto_law : forall c k r,
    let one := fun r' => (forall k', k' <> k -> r' !! k' = r !! k') /\
                         (r' !! k = r !! k \/ (r !! k = None /\ r' !! k = Some c)) in
    ftri (fun r0 => r0 = r) (rc_copyto c k) (fun _ => one) (fun _ => one);
  cryptcheck_law : forall c k r,
    ftri (fun r0 => r0 = r) (rc_cryptcheck c k) (fun _ r' => r' = r /\ r !! k = Some c) (fun _ r' => r' = r);
  lsjson_law : forall p r, _approved_prefix p = true ->
    ftri (fun r0 => r0 = r) (rc_lsjson p)
      (fun l r' => r' = r /\ forall k, k ∈ map (listed_key p) l <-> is_Some (r !! k) /\ String.prefix (p ++ "/") k = true)
      (fun _ r' => r' = r);
  deletefile_law : forall k r,
    ftri (fun r0 => r0 = r) (rc_deletefile k) (fun _ r' => r' = delete k r) (fun _ r' => r' = r \/ r' = delete k r);
}.

Definition on_remote {A} (m : FM (gmap string string) A) : FM bstate A := fun st =>
  let '(r, (rem, n)) := m (b_remote (fst st), snd st) in (r, (with_remote rem (fst st), n)).

(** ** Protection *)

Section Service.
Context {T : B2Transport}.
Context (fault : nat -> option fexc).
(** SHA-256, the retirement's answer for a payload, and the lease. *)
Context (sha256 : string -> string) (available : string -> bool) (lease : nat -> bool).

Definition protection_of (r : BackupRecord) (key digest upload : string) (verified : bool)
    (comparison prune : string) (error : option string) : ProtectionRecord :=
  mkProtection (bk_id r) (bk_profile r) key digest (bk_verified r) upload verified comparison prune error.

(** The upsert keeps the profile of a row that exists; a row must have its backup in
    the catalog and a key of its own. *)
Definition save_allowed (v : ProtectionRecord) (s : bstate) : bool :=
  bool_decide (pr_backup v ∈ map bk_id (b_rows s))
  && forallb (fun x => String.eqb (fst x) (pr_backup v) || negb (String.eqb (pr_key (snd x)) (pr_key v))) (map_to_list (b_protections s)).

Definition upsert (v : ProtectionRecord) (m : gmap string ProtectionRecord) : gmap string ProtectionRecord :=
  let profile := match m !! pr_backup v with Some o => pr_profile o | None => pr_profile v end in
  <[pr_backup v := mkProtection (pr_backup v) profile (pr_key v) (pr_sha256 v) (pr_local v) (pr_upload v)
      (pr_verified v) (pr_comparison v) (pr_prune v) (pr_error v)]> m.

Definition save_row (v : ProtectionRecord) : FM bstate ProtectionRecord :=
  ok ← read (save_allowed v);
  if (ok : bool) then feffect fault (with_protections (upsert v)) ;; mret v else fthrow OtherF.

Definition _save (r : BackupRecord) (key digest upload : string) (verified : bool)
    (comparison prune : string) (error : option string) : FM bstate ProtectionRecord :=
  save_row (protection_of r key digest upload verified comparison prune error).

Definition set_prune (state : string) (v : ProtectionRecord) : ProtectionRecord :=
  mkProtection (pr_backup v) (pr_profile v) (pr_key v) (pr_sha256 v) (pr_local v) (pr_upload v)
    (pr_verified v) (pr_comparison v) state (pr_error v).

Definition _save_by_protection (v : ProtectionRecord) (state : string) : FM bstate unit :=
  feffect fault (with_protections (alter (set_prune state) (pr_backup v))).

Definition _records (profile : string) (s : bstate) : list ProtectionRecord :=
  List.filter (fun v => String.eqb (pr_profile v) profile) (map snd (map_to_list (b_protections s))).

Definition prunable (prefix : string) (listed : list string) (v : ProtectionRecord) : bool :=
  pr_verified v && String.eqb (pr_comparison v) "verified" && bool_decide (pr_key v ∈ listed)
  && String.prefix (prefix ++ "/") (pr_key v).

Definition _prune (profile prefix current : string) : FM bstate unit :=
  objects ← on_remote (t_list prefix);
  let listed := List.filter (String.prefix (prefix ++ "/")) objects in
  all ← read (_records profile);
  let records := List.filter (prunable prefix listed) all in
  guard (existsb (fun v => String.eqb (pr_key v) current) records) "backup_protection_failed" ;;
  ffor (drop _B2_RETENTION (merge_sort newer_generation records)) (fun v =>
    on_remote (t_delete (pr_key v)) ;;
    _save_by_protection v "deleted").

(** [except SafeError: save; raise] with [except Exception: save; raise SafeError]. *)
Definition or_record {A} (m : FM bstate A) (note : FM bstate ProtectionRecord) : FM bstate A :=
  fexcept m (fun x =>
    note ;; match x with SafeF _ => fthrow x | _ => fail "backup_protection_failed" end).

Definition _protect (r : BackupRecord) : FM bstate ProtectionRecord :=
  guard (approved_profile (bk_profile r)) "invalid_backup_destination" ;;
  let prefix := b2_prefix (bk_profile r) in
  let key := remote_key (bk_profile r) (bk_id r) in
  guard (available (bk_id r)) "backup_protection_failed" ;;
  file ← read (fun s => b_files s !! bk_id r);
  match file with
  | None => fthrow OsF
  | Some content =>
      let digest := sha256 content in
      let save := _save r key digest in
      (if bk_verified r then mret tt
       else save "not_started"%string false "not_started"%string "not_started"%string (Some "local_unverified"%string) ;;
            fail "backup_protection_failed") ;;
      save "pending"%string false "pending"%string "not_started"%string None ;;
      or_record (on_remote (t_upload content key))
        (save "failed"%string false "failed"%string "not_started"%string (Some "upload_failed"%string)) ;;
      save "succeeded"%string false "pending"%string "not_started"%string None ;;
      or_record (on_remote (t_verify content key))
        (save "succeeded"%string false "failed"%string "not_started"%string (Some "remote_check_failed"%string)) ;;
      save "succeeded"%string true "verified"%string "pending"%string None ;;
      or_record (_prune (bk_profile r) prefix key)
        (save "succeeded"%string true "verified"%string "failed"%string (Some "prune_failed"%string)) ;;
      save "succeeded"%string true "verified"%string "succeeded"%string None
  end.

(** ** Creating a backup *)

Record request := Request {
  rq_stopped : option bool;
  rq_profile : string;
  rq_protected : bool;
  rq_b2 : bool;
  rq_service : bool;
  rq_id : string;
  rq_now : Z;
}.

(** What the environment answers: the estimate and the space, what the snapshot
    raises, whether [tar] and the verification succeed and what they packed. *)
Record world := World {
  w_space : fexc + bool;
  w_snapshot : option fexc;
  w_tar : option fexc;
  w_verify : option fexc;
  w_content : string;
}.

Context (w : world).

Definition raise_if (o : option fexc) : FM bstate unit := match o with Some x => fthrow x | None => mret tt end.

Definition _assert_lease : FM bstate unit :=
  b ← oracle lease; guard b "slot_conflict".

Definition _insert (r : BackupRecord) : FM bstate unit :=
  dup ← read (fun s => bool_decide (bk_id r ∈ map bk_id (b_rows s)));
  if (dup : bool) then fthrow OtherF else feffect fault (with_rows (fun l => l ++ [r])).

(** A row with a protection cannot be deleted. *)
Definition _delete (id : string) : FM bstate unit :=
  kept ← read (fun s => bool_decide (is_Some (b_protections s !! id)));
  if (kept : bool) then fthrow OtherF
  else feffect fault (with_rows (List.filter (fun r => negb (String.eqb (bk_id r) id)))).

Definition validate_destination (rq : request) : FM bstate unit :=
  if rq_b2 rq then
    guard (approved_profile (rq_profile rq)) "invalid_backup_destination" ;;
    guard (rq_service rq) "backup_protection_failed"
  else mret tt.

Definition prepare : FM bstate unit :=
  step fault ;; step fault ;;
  (match w_space w with
   | inl x => fthrow x
   | inr b => guard b "insufficient_space"
   end) ;;
  step fault ;;
  modify (fun s => set_remote_started false (set_catalogued false s)).

(** From the staged files to the end of the [try] block. *)
Definition publish (rq : request) : FM bstate BackupRecord :=
  let id := rq_id rq in
  step fault ;; step fault ;;
  feffect fault (fun s => happened Packed (with_partial (union {[id]}) s)) ;;
  raise_if (w_tar w) ;;
  step fault ;;
  raise_if (w_verify w) ;;
  _assert_lease ;;
  feffect fault (fun s => with_partial (fun p => p ∖ {[id]}) (with_files (<[id := w_content w]>) s)) ;;
  step fault ;;
  let record := mkBackup id (rq_profile rq) (rq_now rq) true (rq_protected rq) in
  step fault ;;
  _assert_lease ;;
  _insert record ;;
  modify (set_catalogued true) ;;
  (if rq_b2 rq then
     _assert_lease ;;
     guard (rq_service rq) "backup_protection_failed" ;;
     modify (set_remote_started true) ;;
     _protect record ;;
     _assert_lease
   else mret tt) ;;
  _assert_lease ;;
  mret record.

Definition clean_up (id : string) : FM bstate unit :=
  feffect fault (with_partial (fun p => p ∖ {[id]})) ;;
  started ← read b_remote_started;
  (if (started : bool) then mret tt
   else
     feffect fault (with_files (delete id)) ;;
     inserted ← read b_catalogued;
     if (inserted : bool) then _delete id else mret tt) ;;
  step fault.

(** The two handlers; any other exception passes. *)
Definition or_clean_up {A} (id : string) (m : FM bstate A) : FM bstate A :=
  fexcept m (fun x => match x with
    | SafeF _ => clean_up id ;; fthrow x
    | OsF => clean_up id ;; fail "backup_failed"
    | _ => fthrow x
    end).

Definition remove_staging : FM bstate unit := fexcept (step fault) (fun _ => mret tt).

Definition create (rq : request) : FM bstate BackupRecord :=
  guard (bool_decide (rq_stopped rq = Some true)) "profile_running" ;;
  validate_destination rq ;;
  prepare ;;
  ffinally
    (or_clean_up (rq_id rq) (
       step fault ;;
       raise_if (w_snapshot w) ;;
       publish rq))
    remove_staging.

(** ** Online backups *)

(** What the transport to the game answers, per call: [None] when it returned. *)
Context (game : nat -> option fexc) (transport : bool).

Definition _call_online (c : game_call) : FM bstate unit :=
  o ← oracle game;
  match o with
  | None => modify (happened (Called c true))
  | Some x => modify (happened (Called c false)) ;; fthrow x
  end.

Definition copy : FM bstate unit :=
  raise_if (w_snapshot w) ;; modify (happened Copied).

(** [except BaseException]: also what is not an [Exception]. *)
Definition outcome {A} (m : FM bstate A) : FM bstate (option fexc) := fun st =>
  match m st with
  | (inr _, st') => (inr None, st')
  | (inl CrashF, st') => (inl CrashF, st')
  | (inl x, st') => (inr (Some x), st')
  end.

Definition quiesce : FM bstate unit :=
  copied ← outcome (_call_online SaveOff ;; _call_online SaveAllFlush ;; copy);
  resumed ← outcome (_call_online SaveOn);
  match copied, resumed with
  | None, None => mret tt
  | _, _ => fail "backup_quiesce_failed"
  end.

Definition _SUNLIT : string := "minecraft-sunlit-cobblemon".

Definition create_online (rq : request) : FM bstate BackupRecord :=
  guard transport "backup_quiesce_failed" ;;
  guard (String.eqb (rq_profile rq) _SUNLIT) "backup_quiesce_failed" ;;
  validate_destination rq ;;
  prepare ;;
  ffinally
    (or_clean_up (rq_id rq) (
       step fault ;;
       quiesce ;;
       publish rq))
    remove_staging.

(** ** The local catalog *)

Definition profile_rows (profile : string) (s : bstate) : list BackupRecord :=
  List.filter (fun r => String.eqb (bk_profile r) profile) (b_rows s).

Definition set_protected (b : bool) (r : BackupRecord) : BackupRecord :=
  mkBackup (bk_id r) (bk_profile r) (bk_created r) (bk_verified r) b.

Definition protect (profile id : string) (b : bool) : FM bstate BackupRecord :=
  found ← read (fun s => List.find (fun r => String.eqb (bk_id r) id) (profile_rows profile s));
  match found with
  | None => fail "backup_not_found"
  | Some r =>
      feffect fault (with_rows (map (fun x => if String.eqb (bk_id x) id && String.eqb (bk_profile x) profile
                                              then set_protected b x else x))) ;;
      mret (set_protected b r)
  end.

(** *** Local pruning *)

(** Newest first. *)
Definition later (a b : BackupRecord) : Prop := bk_created b <= bk_created a.
#[local] Instance later_dec a b : Decision (later a b).
Proof. unfold later. apply _. Defined.

#[local] Instance BackupRecord_eq_dec : EqDecision BackupRecord.
Proof. solve_decision. Defined.

(** Whether there is a catalog, and the time stamps of the archives. *)
Context (database : bool) (mtime : string -> Z).

Definition list_backups (profile : string) (s : bstate) : list BackupRecord :=
  if database then profile_rows profile s
  else map (fun x => mkBackup (fst x) profile (mtime (fst x)) true false) (map_to_list (b_files s)).

Definition exists_file (s : bstate) (r : BackupRecord) : bool := bool_decide (is_Some (b_files s !! bk_id r)).

(** The retained backups: the protected ones, then the newest up to the number. *)
Fixpoint retain (number : nat) (records retained : list BackupRecord) : list BackupRecord :=
  match records with
  | [] => retained
  | r :: l =>
      if negb (bool_decide (r ∈ retained)) && (length retained <? number)%nat
      then retain number l (retained ++ [r]) else retain number l retained
  end.

Definition _assert_legacy_prune_safe (candidates : list BackupRecord) : FM bstate unit :=
  match candidates with
  | [] => mret tt
  | _ =>
      if database then
        bad ← read (fun s => existsb (fun r => bool_decide (bk_id r ∈ map bk_id (b_rows s))) candidates);
        guard (negb bad) "backup_retention"
      else mret tt
  end.

Definition prune_records (profile : string) (s : bstate) : list BackupRecord :=
  merge_sort later (List.filter (fun r => bk_verified r && exists_file s r) (list_backups profile s)).

Definition prune (profile : string) (keep : nat) : FM bstate (list BackupRecord) :=
  records ← read (prune_records profile);
  let retained := retain (Nat.max 2 keep) records (List.filter bk_protected records) in
  let candidates := List.filter (fun r => negb (bool_decide (r ∈ retained))) records in
  guard (negb (bool_decide (length records = 1%nat) && negb (bool_decide (candidates = [])))) "backup_retention" ;;
  _assert_legacy_prune_safe candidates ;;
  ffor candidates (fun r =>
    feffect fault (with_files (delete (bk_id r))) ;;
    if database then _delete (bk_id r) else mret tt) ;;
  left ← read (fun s => List.filter (exists_file s) retained);
  guard (bool_decide (records = []) || negb (bool_decide (left = []))) "backup_retention" ;;
  mret (merge_sort later left).
End Service.
