(* ===== verification/BackupsFacts.v ===== *)
(** Facts on the remote copies of backups: what a protection can remove from B2 and
    what it leaves there, proved against the interface of the transport. *)
From S2P Require Import Prelude Fault Backups.

(** ** Orders and keys *)

#[export] Instance newer_generation_total : Total newer_generation.
Proof. intros a b. unfold newer_generation. apply str_leb_total. Qed.
#[export] Instance newer_generation_trans : Transitive newer_generation.
Proof. intros a b c H1 H2. unfold newer_generation in *. by eapply str_leb_trans. Qed.

(** The first elements of a sorted list come before the others. *)
Lemma sorted_take_drop {A} (R : A -> A -> Prop) n l x y :
  StronglySorted R l -> x ∈ take n l -> y ∈ drop n l -> R x y.
Proof.
  revert n. induction l as [|a l IH]; intros n Hs; [by rewrite take_nil; intros ?%elem_of_nil|].
  apply StronglySorted_inv in Hs as [Hs Ha]. destruct n as [|n]; simpl; [by intros ?%elem_of_nil|].
  rewrite elem_of_cons. intros [->|Hx] Hy; [|by apply (IH n)].
  rewrite Forall_forall in Ha. apply Ha. rewrite <- (take_drop n l). apply elem_of_app. by right.
Qed.

Lemma append_inj_r (a x y : string) : (a ++ x)%string = (a ++ y)%string -> x = y.
Proof. induction a as [|c a IH]; [done|]. intros E. apply IH. by injection E. Qed.

Lemma append_length u v : String.length (u ++ v) = (String.length u + String.length v)%nat.
Proof. induction u as [|c u IH]; [done|]. exact (f_equal Datatypes.S IH). Qed.

Lemma append_inj_l (x y s : string) : (x ++ s)%string = (y ++ s)%string -> x = y.
Proof.
  revert y. induction x as [|c x IH]; intros [|d y] E; [done| | |].
  - apply (f_equal String.length) in E. rewrite !append_length in E. simpl in E. lia.
  - apply (f_equal String.length) in E. rewrite !append_length in E. simpl in E. lia.
  - injection E as -> E. f_equal. by apply IH.
Qed.

Lemma remote_key_inj p i j : remote_key p i = remote_key p j -> i = j.
Proof.
  unfold remote_key. intros E%append_inj_r. apply (append_inj_r "/") in E. by eapply append_inj_l.
Qed.

(** ** The transport of the commands *)

Lemma ftri_guarded {S A} (b : bool) code (P : S -> Prop) (m : FM S A) Q E :
  (forall s, P s -> E (SafeF code) s) -> (b = true -> ftri P m Q E) -> ftri P (guard b code ;; m) Q E.
Proof.
  intros HE Hm. destruct b; [|eapply (ftri_bind _ _ _ (fun _ _ => False)); [by apply ftri_throw|intros a; by apply ftri_false]].
  eapply (ftri_seq _ _ _ P); [by apply ftri_ret|by apply Hm].
Qed.

(** Refusing a key changes nothing, so the commands implement the interface. *)
#[export] Instance command_transport_laws {R : Rclone} {RL : RcloneLaws} : @TransportLaws B2CommandTransport.
Proof.
  split; intros; simpl.
  - apply ftri_guarded; [intros s ->; by split; auto|]. intros _. apply copyto_law.
  - apply ftri_guarded; [done|]. intros _. apply cryptcheck_law.
  - apply ftri_guarded; [done|]. intros Hp. eapply ftri_bind; [by apply lsjson_law|]. intros l. cbv beta zeta.
    apply ftri_guarded; [by intros s [-> _]|]. intros _. by apply ftri_ret.
  - apply ftri_guarded; [by left|]. intros _. apply deletefile_law.
Qed.

(** ** Protection rows *)

(** Rows are filed under their backup and name its remote key. *)
Definition rows_ok (s : bstate) : Prop :=
  forall id v, b_protections s !! id = Some v -> pr_backup v = id /\ pr_key v = remote_key (pr_profile v) id.

(** The protection of [r] does not change the profile of a row. *)
Definition row_of (r : BackupRecord) (s : bstate) : Prop :=
  forall v, b_protections s !! bk_id r = Some v -> pr_profile v = bk_profile r.

(** A verified generation that is on the remote. *)
Definition counted (profile : string) (s : bstate) (v : ProtectionRecord) : Prop :=
  b_protections s !! pr_backup v = Some v /\ pr_profile v = profile /\ pr_verified v = true /\
  pr_comparison v = "verified"%string /\ is_Some (b_remote s !! pr_key v).

(** Everything but the prune state of a row. *)
Definition same_rows (s s' : bstate) : Prop :=
  forall id, set_prune "" <$> b_protections s' !! id = set_prune "" <$> b_protections s !! id.

Lemma same_rows_refl s : same_rows s s.
Proof. done. Qed.

Lemma same_rows_Some s s' id v :
  same_rows s s' -> b_protections s !! id = Some v ->
  exists v', b_protections s' !! id = Some v' /\ set_prune "" v' = set_prune "" v.
Proof.
  intros H Hv. specialize (H id). rewrite Hv in H. simpl in H.
  destruct (b_protections s' !! id) as [v'|]; [|done]. exists v'. split; [done|]. by apply (inj Some) in H.
Qed.

Lemma same_rows_sym s s' : same_rows s s' -> same_rows s' s.
Proof. intros H id. by rewrite H. Qed.

Lemma set_prune_fields v v' : set_prune "" v' = set_prune "" v ->
  pr_backup v' = pr_backup v /\ pr_profile v' = pr_profile v /\ pr_key v' = pr_key v /\
  pr_verified v' = pr_verified v /\ pr_comparison v' = pr_comparison v.
Proof. unfold set_prune. intros [=]. by split_and!. Qed.

Lemma same_rows_ok s s' : same_rows s s' -> rows_ok s -> rows_ok s'.
Proof.
  intros H Hok id v' Hv'. destruct (same_rows_Some s' s id v' (same_rows_sym _ _ H) Hv') as (v & Hv & E).
  apply set_prune_fields in E as (E1 & E2 & E3 & _). destruct (Hok id v Hv) as [H1 H2]. split; congruence.
Qed.

(** ** Pruning *)

Section Pruning.
Context {T : B2Transport} {L : TransportLaws}.
Context (fault : nat -> option fexc).

Lemma ftri_on_remote {A} (m : FM (gmap string string) A) Q E s0 :
  ftri (fun r => r = b_remote s0) m Q E ->
  ftri (fun s => s = s0) (on_remote m)
    (fun a s => exists r, s = with_remote r s0 /\ Q a r) (fun x s => exists r, s = with_remote r s0 /\ E x r).
Proof.
  intros Hm s n ->. specialize (Hm (b_remote s0) n eq_refl). unfold on_remote. simpl.
  destruct (m (b_remote s0, n)) as [[x|a] [r n']]; eauto.
Qed.

Lemma prefix_append a b : String.prefix a (a ++ b) = true.
Proof. induction a as [|c a IH]; [by destruct b|]. simpl. case_match; [exact IH|done]. Qed.

Lemma key_prefix p id : String.prefix (b2_prefix p ++ "/") (remote_key p id) = true.
Proof.
  unfold remote_key. assert (E : forall a b c, (a ++ b ++ c)%string = ((a ++ b) ++ c)%string).
  { clear. induction a as [|x a IH]; intros b c; [done|]. exact (f_equal (String x) (IH b c)). }
  rewrite E. apply prefix_append.
Qed.

Definition lists_counted (profile : string) (s : bstate) (recs : list ProtectionRecord) : Prop :=
  NoDup recs /\ forall v, v ∈ recs <-> counted profile s v.

(** The remote lost the keys of [dead]; rows changed only in their prune state. *)
Definition swept (s0 s : bstate) (dead : list ProtectionRecord) : Prop :=
  b_files s = b_files s0 /\ b_rows s = b_rows s0 /\ same_rows s0 s /\
  forall k, b_remote s !! k = if bool_decide (k ∈ map pr_key dead) then None else b_remote s0 !! k.

Definition surplus (recs : list ProtectionRecord) : list ProtectionRecord :=
  drop _B2_RETENTION (merge_sort newer_generation recs).

Lemma prunable_counted profile s listed v :
  rows_ok s ->
  (forall k, k ∈ listed <-> is_Some (b_remote s !! k) /\ String.prefix (b2_prefix profile ++ "/") k = true) ->
  v ∈ List.filter (prunable (b2_prefix profile) (List.filter (String.prefix (b2_prefix profile ++ "/")) listed)) (_records profile s)
  <-> counted profile s v.
Proof.
  intros Hok Hl. unfold _records, counted, prunable.
  rewrite list_elem_of_In, !filter_In, in_map_iff, !andb_true_iff, bool_decide_eq_true, !String.eqb_eq.
  rewrite list_elem_of_In, filter_In, <- list_elem_of_In, Hl. split.
  - intros [[([id v'] & E & Hin) Hp] [[[Hv Hc] [[Hk _] _]] _]]. simpl in E. subst v'.
    apply list_elem_of_In, elem_of_map_to_list in Hin. destruct (Hok id v Hin) as [-> _]. by split_and!.
  - intros (Hv & Hp & Hver & Hc & Hk). destruct (Hok _ _ Hv) as [_ Hkey].
    assert (String.prefix (b2_prefix profile ++ "/") (pr_key v) = true) by (rewrite Hkey, Hp; apply key_prefix).
    split_and!; try done. exists (pr_backup v, v). split; [done|]. by apply list_elem_of_In, elem_of_map_to_list.
Qed.

Lemma records_nodup profile s (f : ProtectionRecord -> bool) : rows_ok s -> NoDup (List.filter f (_records profile s)).
Proof.
  intros Hok. assert (Hf : forall A (g : A -> bool) l, NoDup l -> NoDup (List.filter g l)).
  { clear. induction 1 as [|a l Ha Hl IH]; simpl; [constructor|]. destruct (g a); [|done]. constructor; [|done].
    rewrite list_elem_of_In, filter_In, <- list_elem_of_In. tauto. }
  apply Hf, Hf. apply NoDup_fmap_2_strong; [|apply NoDup_map_to_list].
  intros [i v] [j v'] Hi Hj E. simpl in E. subst v'. apply elem_of_map_to_list in Hi, Hj.
  destruct (Hok _ _ Hi) as [<- _]. by destruct (Hok _ _ Hj) as [<- _].
Qed.

Lemma alter_same_rows v s s' : b_protections s' = alter (set_prune "deleted") (pr_backup v) (b_protections s) -> same_rows s s'.
Proof.
  intros E id. rewrite E. destruct (decide (id = pr_backup v)) as [->|Hne]; [|by rewrite lookup_alter_ne].
  rewrite lookup_alter_eq. by destruct (b_protections s !! pr_backup v).
Qed.

Lemma same_rows_trans s1 s2 s3 : same_rows s1 s2 -> same_rows s2 s3 -> same_rows s1 s3.
Proof. intros H1 H2 id. by rewrite H2, H1. Qed.

Lemma swept_delete s0 s dead v : swept s0 s dead -> swept s0 (with_remote (delete (pr_key v) (b_remote s)) s) (dead ++ [v]).
Proof.
  intros (Hf & Hr & Hs & Hk). split_and!; [done..|]. intros k. simpl. rewrite map_app. simpl.
  destruct (decide (k = pr_key v)) as [->|Hne].
  - rewrite lookup_delete_eq, bool_decide_true; [done|]. set_solver.
  - rewrite lookup_delete_ne, Hk by done.
    rewrite (bool_decide_ext (k ∈ map pr_key dead ++ [pr_key v]) (k ∈ map pr_key dead)) by set_solver. done.
Qed.

Lemma prune_one s0 recs pre v post :
  surplus recs = pre ++ v :: post ->
  ftri (fun s => swept s0 s pre) (on_remote (t_delete (pr_key v)) ;; _save_by_protection fault v "deleted")
    (fun _ s => swept s0 s (pre ++ [v]))
    (fun _ s => exists dead, (forall x, x ∈ dead -> x ∈ surplus recs) /\ swept s0 s dead).
Proof.
  intros Hsp. assert (Hpre : forall x, x ∈ pre -> x ∈ surplus recs) by (intros; rewrite Hsp; set_solver).
  assert (Hprev : forall x, x ∈ pre ++ [v] -> x ∈ surplus recs) by (intros; rewrite Hsp; set_solver).
  eapply (ftri_seq _ _ _ (fun s => swept s0 s (pre ++ [v]))).
  - intros s n Hs. pose proof (ftri_on_remote _ _ _ s (delete_law (pr_key v) (b_remote s)) s n eq_refl) as H.
    destruct (on_remote (t_delete (pr_key v)) (s, n)) as [[x|a] [s' n']]; destruct H as (r & -> & H).
    + destruct H as [-> | ->]; [exists pre; split; [done|]; by destruct s|exists (pre ++ [v]); split; [done|]; by apply swept_delete].
    + subst r. by apply swept_delete.
  - apply ftri_effect; [|intros x s Hs; by exists (pre ++ [v])].
    intros s (Hf & Hr & Hs & Hk). split_and!; [done..| |done]. eapply same_rows_trans; [exact Hs|]. by eapply alter_same_rows.
Qed.

Lemma prune_spec profile current s0 :
  rows_ok s0 ->
  ftri (fun s => s = s0) (_prune fault profile (b2_prefix profile) current)
    (fun _ s => exists recs, lists_counted profile s0 recs /\ (exists v, v ∈ recs /\ pr_key v = current) /\ swept s0 s (surplus recs))
    (fun _ s => exists recs dead, lists_counted profile s0 recs /\ (forall v, v ∈ dead -> v ∈ surplus recs) /\ swept s0 s dead).
Proof.
  intros Hok. unfold _prune.
  assert (Hnone : forall s, s = s0 -> exists recs dead, lists_counted profile s0 recs /\ (forall v, v ∈ dead -> v ∈ surplus recs) /\ swept s0 s dead).
  { intros s ->. set (keys := map fst (map_to_list (b_remote s0))).
    exists (List.filter (prunable (b2_prefix profile) (List.filter (String.prefix (b2_prefix profile ++ "/"))
      (List.filter (String.prefix (b2_prefix profile ++ "/")) keys))) (_records profile s0)), [].
    split_and!; [|by intros ? ?%elem_of_nil|by split_and!]. split; [by apply records_nodup|]. intros v. apply prunable_counted; [done|].
    intros k. unfold keys. rewrite list_elem_of_In, filter_In, in_map_iff. apply and_iff_compat_r. split.
    - intros ([k' c] & <- & Hin). apply list_elem_of_In, elem_of_map_to_list in Hin. by exists c.
    - intros [c Hc]. exists (k, c). split; [done|]. by apply list_elem_of_In, elem_of_map_to_list. }
  eapply ftri_bind.
  { eapply ftri_conseq; [exact (ftri_on_remote _ _ _ s0 (list_law (b2_prefix profile) (b_remote s0)))|done| |].
    - intros l s (r & -> & -> & Hl). instantiate (1 := fun l s => s = s0 /\
        forall k, k ∈ l <-> is_Some (b_remote s0 !! k) /\ String.prefix (b2_prefix profile ++ "/") k = true).
      split; [by destruct s0|done].
    - intros x s (r & -> & ->). apply Hnone. by destruct s0. }
  intros objects. eapply ftri_bind; [apply ftri_read|]. intros all. cbv zeta.
  set (recs := List.filter _ all).
  eapply (ftri_seq _ _ _ (fun s => s = s0 /\ lists_counted profile s0 recs /\ exists v, v ∈ recs /\ pr_key v = current)).
  { intros s n [[-> Hl] ->]. unfold guard. destruct (existsb _ recs) eqn:E; [|by apply Hnone].
    split_and!; [done|split; [by apply records_nodup|intros v; by apply prunable_counted]|].
    apply existsb_exists in E as (v & Hv & E). exists v. apply String.eqb_eq in E. by rewrite list_elem_of_In. }
  intros s n (-> & Hrecs & Hcur).
  assert (Hloop : ftri (fun s => swept s0 s []) (ffor (surplus recs) (fun v => on_remote (t_delete (pr_key v)) ;; _save_by_protection fault v "deleted"))
    (fun _ s => swept s0 s (surplus recs)) (fun _ s => exists dead, (forall x, x ∈ dead -> x ∈ surplus recs) /\ swept s0 s dead)).
  { apply (ftri_for (fun pre s => swept s0 s pre)). intros pre v post Hsp. by apply (prune_one s0 recs pre v post). }
  specialize (Hloop s0 n ltac:(by split_and!)). unfold surplus in Hloop at 1.
  destruct (ffor _ _ (s0, n)) as [[x|a] [s' n']]; [destruct Hloop as (dead & ? & ?); by exists recs, dead|by exists recs].
Qed.
End Pruning.

(** ** Protection *)

Section Protection.
Context {T : B2Transport} {L : TransportLaws}.
Context (fault : nat -> option fexc) (sha256 : string -> string) (available : string -> bool).
Context (r : BackupRecord) (content : string) (s0 : bstate).
Hypothesis Hrows : rows_ok s0.
Hypothesis Hrow : row_of r s0.
Hypothesis Hfile : b_files s0 !! bk_id r = Some content.

#[local] Abbreviation id := (bk_id r).
#[local] Abbreviation profile := (bk_profile r).
#[local] Abbreviation key := (remote_key (bk_profile r) (bk_id r)).

(** Only the row and the object of this backup changed, the object from absent to its
    content. *)
Record near (s : bstate) : Prop := {
  ne_files : b_files s = b_files s0;
  ne_rows : b_rows s = b_rows s0;
  ne_others : forall i, i <> id -> b_protections s !! i = b_protections s0 !! i;
  ne_own : b_protections s !! id = b_protections s0 !! id \/
           exists v, b_protections s !! id = Some v /\ pr_backup v = id /\ pr_profile v = profile /\ pr_key v = key;
  ne_remote : forall k, k <> key -> b_remote s !! k = b_remote s0 !! k;
  ne_object : b_remote s !! key = b_remote s0 !! key \/ (b_remote s0 !! key = None /\ b_remote s !! key = Some content);
}.

Lemma near_refl : near s0.
Proof. by split; auto. Qed.

Lemma near_rows_ok s : near s -> rows_ok s.
Proof.
  intros [_ _ Ho Hw _ _] i v Hv. destruct (decide (i = id)) as [->|Hne]; [|by apply Hrows; rewrite <- Ho].
  destruct Hw as [E|(v' & E & H1 & H2 & H3)].
  - apply Hrows. by rewrite <- E.
  - rewrite E in Hv. injection Hv as <-. by rewrite H2.
Qed.

Lemma near_row_of s v : near s -> b_protections s !! id = Some v -> pr_profile v = profile.
Proof.
  intros [_ _ _ Hw _ _] Hv. destruct Hw as [E|(v' & E & _ & H2 & _)]; [apply Hrow; by rewrite <- E|].
  rewrite E in Hv. by injection Hv as <-.
Qed.

(** What a save stores in the row of this backup. *)
Lemma upsert_own s up ver cmp pru err digest :
  near s ->
  let v := protection_of r key digest up ver cmp pru err in
  upsert v (b_protections s) = <[id := v]> (b_protections s).
Proof.
  intros Hn v. unfold upsert. simpl. destruct (b_protections s !! id) as [o|] eqn:E; [|done].
  rewrite (near_row_of s o Hn E). done.
Qed.

Lemma save_near digest up ver cmp pru err :
  ftri near (_save fault r key digest up ver cmp pru err)
    (fun _ s => near s /\ b_protections s !! id = Some (protection_of r key digest up ver cmp pru err)) (fun _ => near).
Proof.
  unfold _save, save_row. eapply ftri_bind; [apply ftri_read|]. intros ok. apply ftri_if; intros _; [|by apply ftri_throw; intros ? [? _]].
  eapply ftri_seq; [|apply ftri_ret; intros s Hs; exact Hs]. apply ftri_effect; [|by intros x s [? _]].
  intros s [Hn _]. pose proof (upsert_own s up ver cmp pru err digest Hn) as E. cbv zeta in E.
  destruct Hn as [Hf Hr Ho Hw Hk Hob]. split; [constructor|]; simpl; try done; rewrite E.
  - intros i Hi. rewrite lookup_insert_ne by done. by apply Ho.
  - right. eexists. rewrite lookup_insert_eq. by split_and!.
  - by rewrite lookup_insert_eq.
Qed.

Lemma or_record_near {A} (m : FM bstate A) Q digest up ver cmp pru err :
  ftri near m Q (fun _ => near) ->
  ftri near (or_record m (_save fault r key digest up ver cmp pru err)) Q (fun _ => near).
Proof.
  intros Hm. eapply ftri_except; [exact Hm| |done]. intros x _. eapply ftri_bind.
  - eapply ftri_conseq; [apply save_near|done| |done]. intros v s [Hn _]. exact Hn.
  - intros v. destruct x; by apply ftri_throw.
Qed.

Lemma upload_near : ftri near (on_remote (t_upload content key)) (fun _ => near) (fun _ => near).
Proof.
  intros s n Hs. pose proof (ftri_on_remote _ _ _ s (upload_law content key (b_remote s)) s n eq_refl) as H.
  destruct (on_remote (t_upload content key) (s, n)) as [[x|a] [s' n']]; destruct H as (rem & -> & Hoth & Hkey);
    destruct Hs as [Hf Hr Ho Hw Hk Hob]; constructor; simpl; try done.
  all: try (intros k Hne; by rewrite Hoth, Hk by done).
  all: destruct Hkey as [Hkey|[H1 H2]]; [by rewrite Hkey|]; destruct Hob as [E|[E1 E2]]; [right; by rewrite <- E|congruence].
Qed.

Lemma verify_near :
  ftri near (on_remote (t_verify content key)) (fun _ s => near s /\ b_remote s !! key = Some content) (fun _ => near).
Proof.
  intros s n Hs. pose proof (ftri_on_remote _ _ _ s (verify_law content key (b_remote s)) s n eq_refl) as H.
  destruct (on_remote (t_verify content key) (s, n)) as [[x|a] [s' n']]; destruct H as (rem & -> & H).
  - rewrite H. by destruct s.
  - destruct H as [-> H]. by destruct s.
Qed.

(** After the prune only the row of this backup is written, as verified. *)
Record noted (s2 s : bstate) : Prop := {
  no_files : b_files s = b_files s2;
  no_rows : b_rows s = b_rows s2;
  no_remote : b_remote s = b_remote s2;
  no_others : forall i, i <> id -> b_protections s !! i = b_protections s2 !! i;
  no_own : b_protections s !! id = b_protections s2 !! id \/
           exists v, b_protections s !! id = Some v /\ pr_backup v = id /\ pr_profile v = profile /\ pr_key v = key /\
             pr_verified v = true /\ pr_comparison v = "verified"%string;
}.

(** The prune that started at [s1] removed [dead] of the surplus. *)
Definition pruned (s1 : bstate) (recs dead : list ProtectionRecord) (s : bstate) : Prop :=
  near s1 /\ lists_counted profile s1 recs /\ (forall v, v ∈ dead -> v ∈ surplus recs) /\
  exists s2, swept s1 s2 dead /\ noted s2 s.

Lemma swept_row s1 s2 dead v : near s1 -> swept s1 s2 dead -> b_protections s2 !! id = Some v -> pr_profile v = profile.
Proof.
  intros Hn (_ & _ & Hs & _) Hv. destruct (same_rows_Some s2 s1 id v (same_rows_sym _ _ Hs) Hv) as (v' & Hv' & E).
  apply set_prune_fields in E as (_ & E & _). rewrite <- E. by eapply near_row_of.
Qed.

Lemma save_pruned s1 recs dead digest up pru err :
  ftri (fun s => pruned s1 recs dead s) (_save fault r key digest up true "verified" pru err)
    (fun v s => pruned s1 recs dead s /\ v = protection_of r key digest up true "verified" pru err /\ b_protections s !! id = Some v)
    (fun _ s => pruned s1 recs dead s).
Proof.
  unfold _save, save_row. eapply ftri_bind; [apply ftri_read|]. intros ok. apply ftri_if; intros _; [|by apply ftri_throw; intros ? [? _]].
  eapply ftri_seq; [|apply ftri_ret; intros s Hs; exact Hs]. apply ftri_effect; [|by intros x s [? _]].
  intros s [(Hn & Hl & Hd & s2 & Hsw & Hno) _]. destruct Hno as [Hf Hr Hre Ho Hw].
  set (v := protection_of r key digest up true "verified" pru err).
  assert (E : upsert v (b_protections s) = <[id := v]> (b_protections s)).
  { unfold upsert. simpl. destruct (b_protections s !! id) as [o|] eqn:Eo; [|done].
    assert (Hp : pr_profile o = profile); [|by rewrite Hp].
    destruct Hw as [Hw|(v' & Hw & _ & Hp & _)]; [|congruence]. rewrite Hw in Eo. by eapply swept_row. }
  simpl. rewrite E, lookup_insert_eq. split; [|done]. split_and!; [done..|]. exists s2. split; [done|].
  constructor; simpl; rewrite ?E; try done.
  - intros i Hi. rewrite lookup_insert_ne by done. by apply Ho.
  - right. eexists. rewrite lookup_insert_eq. by split_and!.
Qed.

Definition safe_end (s : bstate) : Prop := near s \/ exists s1 recs dead, pruned s1 recs dead s.

Definition uploaded (s1 : bstate) : Prop :=
  near s1 /\ b_remote s1 !! key = Some content /\ counted profile s1 (protection_of r key (sha256 content) "succeeded" true "verified" "pending" None).

Lemma noted_refl s : noted s s.
Proof. by constructor; auto. Qed.

Lemma save_safe digest up ver cmp pru err Q :
  (forall v s, near s -> b_protections s !! id = Some (protection_of r key digest up ver cmp pru err) -> Q v s) ->
  ftri near (_save fault r key digest up ver cmp pru err) Q (fun _ => safe_end).
Proof.
  intros HQ. eapply ftri_conseq; [apply save_near|done| |].
  - intros v s [? ?]. by apply HQ.
  - intros x s Hs. by left.
Qed.

Lemma prune_phase s1 :
  uploaded s1 ->
  ftri (fun s => s = s1)
    (or_record (_prune fault profile (b2_prefix profile) key)
       (_save fault r key (sha256 content) "succeeded" true "verified" "failed" (Some "prune_failed"%string)))
    (fun _ s => exists recs, pruned s1 recs (surplus recs) s) (fun _ => safe_end).
Proof.
  intros (Hn & _ & _). eapply (ftri_except _ _ _ _ _ (fun _ s => exists recs dead, pruned s1 recs dead s)).
  - eapply ftri_conseq; [apply prune_spec; by apply near_rows_ok|done| |].
    + intros _ s (recs & Hl & _ & Hs). exists recs. split_and!; [done..|]. exists s. split; [done|apply noted_refl].
    + intros _ s (recs & dead & Hl & Hd & Hs). exists recs, dead. split_and!; [done..|]. exists s. split; [done|apply noted_refl].
  - intros x _. apply ftri_exists. intros recs. apply ftri_exists. intros dead.
    assert (Hend : forall s, pruned s1 recs dead s -> safe_end s) by (intros s Hs; right; by exists s1, recs, dead).
    eapply (ftri_bind _ _ _ (fun _ => pruned s1 recs dead)); [|intros v; destruct x; apply ftri_throw; exact Hend].
    eapply ftri_conseq; [apply save_pruned|done|by intros v s [? _]|by intros y s; apply Hend].
  - intros x s _ (recs & dead & Hs). right. by exists s1, recs, dead.
Qed.

Lemma protect_spec :
  ftri (fun s => s = s0) (_protect fault sha256 available r)
    (fun v s => exists s1 recs, uploaded s1 /\ pruned s1 recs (surplus recs) s /\ b_protections s !! id = Some v /\
       v = protection_of r key (sha256 content) "succeeded" true "verified" "succeeded" None)
    (fun _ => safe_end).
Proof.
  unfold _protect.
  assert (Hleft : forall s, near s -> safe_end s) by by left.
  eapply (ftri_seq _ _ _ (fun s => s = s0)); [apply ftri_guard; intros s ->; apply Hleft, near_refl|].
  eapply (ftri_seq _ _ _ (fun s => s = s0)); [apply ftri_guard; intros s ->; apply Hleft, near_refl|].
  eapply ftri_bind; [apply ftri_read|]. intros file. intros s n [-> ->]. rewrite Hfile.
  cbv zeta. match goal with |- match ?m _ with _ => _ end => enough (H : ftri near m
    (fun v s => exists s1 recs, uploaded s1 /\ pruned s1 recs (surplus recs) s /\ b_protections s !! id = Some v /\
       v = protection_of r key (sha256 content) "succeeded" true "verified" "succeeded" None)
    (fun _ => safe_end)) by exact (H s0 n near_refl) end.
  eapply (ftri_seq _ _ _ near).
  { apply ftri_if; intros _; [by apply ftri_ret|]. eapply ftri_bind; [by apply (save_safe _ _ _ _ _ _ (fun _ => near))|].
    intros v0. by apply ftri_throw. }
  eapply ftri_bind; [by apply (save_safe _ _ _ _ _ _ (fun _ => near))|]. intros v0; cbv beta; clear v0.
  eapply (ftri_seq _ _ _ near).
  { eapply ftri_conseq; [apply or_record_near, upload_near|done..|by left]. }
  eapply ftri_bind; [by apply (save_safe _ _ _ _ _ _ (fun _ => near))|]. intros v0; cbv beta; clear v0.
  eapply (ftri_seq _ _ _ (fun s => near s /\ b_remote s !! key = Some content)).
  { eapply ftri_conseq; [apply or_record_near, verify_near|done..|by left]. }
  eapply (ftri_bind _ _ _ (fun _ => uploaded)).
  { intros s1 n1 [Hs Hr]. pose proof (save_near (sha256 content) "succeeded" true "verified" "pending" None s1 n1 Hs) as H.
    unfold _save, save_row in *. revert H. unfold mbind, FM_bind, read. simpl. destruct (save_allowed _ s1); simpl; [|by left].
    unfold feffect. simpl. destruct (fault n1); [by left|]. simpl. intros [Hn Hv]. split_and!; [done..|].
    split_and!; try done. }
  intros v0 s1 n1 Hu. clear v0.
  pose proof (prune_phase s1 Hu s1 n1 eq_refl) as H. unfold mbind, FM_bind.
  destruct (or_record _ _ (s1, n1)) as [[x|a] [s2 n2]]; [done|]. destruct H as (recs & Hp).
  pose proof (save_pruned s1 recs (surplus recs) (sha256 content) "succeeded" "succeeded" None s2 n2 Hp) as H.
  destruct (_save _ _ _ _ _ _ _ _ _ (s2, n2)) as [[y|v] [s3 n3]].
  - right. by exists s1, recs, (surplus recs).
  - destruct H as (Hq & Hv & Hrow'). exists s1, recs. by split_and!.
Qed.

(** ** What is left *)

Section Left.
Context (s1 s : bstate) (recs dead : list ProtectionRecord).
Hypothesis Hpr : pruned s1 recs dead s.

#[local] Abbreviation sorted := (merge_sort newer_generation recs).

Lemma rec_counted x : x ∈ recs -> counted profile s1 x.
Proof. destruct Hpr as (_ & [_ Hl] & _). apply Hl. Qed.

Lemma rec_key x : x ∈ recs -> pr_key x = remote_key profile (pr_backup x).
Proof.
  intros (Hx & Hp & _)%rec_counted. destruct Hpr as (Hn & _). destruct (near_rows_ok s1 Hn _ _ Hx) as [_ ->]. by rewrite Hp.
Qed.

Lemma rec_by_id x y : x ∈ recs -> y ∈ recs -> pr_backup x = pr_backup y -> x = y.
Proof. intros (Hx & _)%rec_counted (Hy & _)%rec_counted E. rewrite E in Hx. congruence. Qed.

Lemma sorted_in x : x ∈ sorted <-> x ∈ recs.
Proof. by rewrite merge_sort_Permutation. Qed.

Lemma sorted_nodup : NoDup sorted.
Proof. rewrite merge_sort_Permutation. by destruct Hpr as (_ & [? _] & _). Qed.

Lemma head_in x : x ∈ take _B2_RETENTION sorted -> x ∈ recs.
Proof. intros Hx. apply sorted_in. rewrite <- (take_drop _B2_RETENTION sorted). apply elem_of_app. by left. Qed.

Lemma surplus_in x : x ∈ surplus recs -> x ∈ recs.
Proof. intros Hx. apply sorted_in. rewrite <- (take_drop _B2_RETENTION sorted). apply elem_of_app. by right. Qed.

(** The newest generations are not among the removed keys. *)
Lemma head_not_dead x : x ∈ take _B2_RETENTION sorted -> pr_key x ∉ map pr_key dead.
Proof.
  intros Hx (y & E & Hy)%list_elem_of_fmap. destruct Hpr as (_ & _ & Hd & _). specialize (Hd y Hy).
  rewrite (rec_key x (head_in x Hx)), (rec_key y (surplus_in y Hd)) in E.
  apply remote_key_inj in E. apply (rec_by_id x y (head_in x Hx) (surplus_in y Hd)) in E. subst y.
  pose proof sorted_nodup as Hnd. rewrite <- (take_drop _B2_RETENTION sorted) in Hnd.
  apply NoDup_app in Hnd as (_ & Hdis & _). exact (Hdis x Hx Hd).
Qed.

Lemma row_left x : x ∈ recs -> exists x', b_protections s !! pr_backup x = Some x' /\ pr_backup x' = pr_backup x /\
  pr_profile x' = profile /\ pr_key x' = pr_key x /\ pr_verified x' = true /\ pr_comparison x' = "verified"%string.
Proof.
  intros Hin. pose proof (rec_counted x Hin) as (Hx & Hp & Hv & Hc & _). pose proof (rec_key x Hin) as Hk.
  destruct Hpr as (Hn & _ & _ & s2 & (_ & _ & Hsame & _) & Hno).
  destruct (same_rows_Some s1 s2 _ x Hsame Hx) as (x2 & Hx2 & E).
  apply set_prune_fields in E as (E1 & E2 & E3 & E4 & E5).
  assert (Hsame2 : b_protections s !! pr_backup x = Some x2 -> exists x', b_protections s !! pr_backup x = Some x' /\ pr_backup x' = pr_backup x /\
    pr_profile x' = profile /\ pr_key x' = pr_key x /\ pr_verified x' = true /\ pr_comparison x' = "verified"%string)
    by (intros H; exists x2; split_and!; congruence).
  destruct (decide (pr_backup x = id)) as [Ei|Hne]; [|apply Hsame2; by rewrite (no_others _ _ Hno)].
  destruct (no_own _ _ Hno) as [Ho|(v & Ho & H1 & H2 & H3 & H4 & H5)]; [apply Hsame2; by rewrite Ei, Ho, <- Ei|].
  exists v. rewrite Ei, Ho. split_and!; try done. by rewrite H3, Hk, Ei.
Qed.

Lemma remote_left k : b_remote s !! k = if bool_decide (k ∈ map pr_key dead) then None else b_remote s1 !! k.
Proof. destruct Hpr as (_ & _ & _ & s2 & (_ & _ & _ & Hk) & Hno). by rewrite (no_remote _ _ Hno), Hk. Qed.

Lemma head_left x : x ∈ take _B2_RETENTION sorted ->
  exists x', counted profile s x' /\ pr_backup x' = pr_backup x.
Proof.
  intros Hx. destruct (row_left x (head_in x Hx)) as (x' & Hx' & Hb & Hp & Hk & Hv & Hc). exists x'. split; [|done].
  split_and!; try done; [by rewrite Hb|]. rewrite Hk, remote_left, bool_decide_false by by apply head_not_dead.
  apply (rec_counted x (head_in x Hx)).
Qed.
End Left.

(** Two verified generations at least as new as [v] are on the remote. *)
Definition guarded_by (p : string) (s : bstate) (v : ProtectionRecord) : Prop :=
  exists kept, NoDup (map pr_backup kept) /\ length kept = _B2_RETENTION /\
    forall x, x ∈ kept -> counted p s x /\ newer_generation x v.

Lemma choose_all {A B} (R : A -> B -> Prop) (l : list A) :
  (forall a, a ∈ l -> exists b, R a b) -> exists l', Forall2 R l l'.
Proof.
  induction l as [|a l IH]; intros H; [by exists []|]. destruct (H a ltac:(left)) as [b Hb].
  destruct IH as [l' Hl]; [intros; apply H; by right|]. exists (b :: l'). by constructor.
Qed.

Lemma dead_guarded s1 s recs dead v : pruned s1 recs dead s -> v ∈ dead -> guarded_by profile s v.
Proof.
  intros Hpr Hv. pose proof Hpr as (_ & _ & Hd & _). specialize (Hd v Hv).
  destruct (choose_all (fun x x' => counted profile s x' /\ pr_backup x' = pr_backup x) (take _B2_RETENTION (merge_sort newer_generation recs)))
    as [kept Hk]; [intros x Hx; by eapply head_left|].
  exists kept. assert (Hids : map pr_backup kept = map pr_backup (take _B2_RETENTION (merge_sort newer_generation recs))).
  { clear -Hk. induction Hk as [|x x' l l' [_ E] Hk IH]; [done|]. simpl. by rewrite E, IH. }
  split_and!.
  - rewrite Hids. apply NoDup_fmap_2_strong.
    + intros x y Hx Hy. apply (rec_by_id s1 s recs dead Hpr); by eapply head_in.
    + pose proof (sorted_nodup s1 s recs dead Hpr) as Hnd. rewrite <- (take_drop _B2_RETENTION (merge_sort _ recs)) in Hnd.
      by apply NoDup_app in Hnd as [? _].
  - apply (f_equal length) in Hids. rewrite !length_map, length_take in Hids. rewrite Hids.
    unfold surplus in Hd. apply list_elem_of_lookup in Hd as [i Hi]. rewrite lookup_drop in Hi.
    apply lookup_lt_Some in Hi. lia.
  - intros x' Hx'. apply list_elem_of_lookup in Hx' as [i Hi]. destruct (Forall2_lookup_r _ _ _ _ _ Hk Hi) as (x & Hx & Hc & E).
    split; [done|]. unfold newer_generation. rewrite E. apply (sorted_take_drop newer_generation _B2_RETENTION (merge_sort newer_generation recs)); [|by eapply list_elem_of_lookup_2|done].
    apply StronglySorted_merge_sort; apply _.
Qed.

Lemma pruned_rows_ok s1 s recs dead : pruned s1 recs dead s -> rows_ok s.
Proof.
  intros (Hn & _ & _ & s2 & (_ & _ & Hs & _) & Hno). assert (Hok2 : rows_ok s2) by (eapply same_rows_ok; [exact Hs|by apply near_rows_ok]).
  intros i v Hv. destruct (decide (i = id)) as [->|Hne]; [|apply Hok2; by rewrite <- (no_others _ _ Hno)].
  destruct (no_own _ _ Hno) as [E|(v' & E & H1 & H2 & H3 & _)]; [apply Hok2; by rewrite <- E|].
  rewrite E in Hv. injection Hv as <-. by rewrite H2.
Qed.

(** A generation counted at the end was counted when the prune began. *)
Lemma counted_before s1 recs dead s x :
  uploaded s1 -> pruned s1 recs dead s -> counted profile s x ->
  exists y, y ∈ recs /\ pr_backup y = pr_backup x /\ pr_key y = pr_key x.
Proof.
  intros (_ & _ & Hcur) Hp (Hx & Hxp & Hv & Hc & Hr). pose proof Hp as (Hn & [_ Hl] & _ & s2 & (_ & _ & Hs & _) & Hno).
  destruct (pruned_rows_ok _ _ _ _ Hp _ _ Hx) as [_ Hkx].
  destruct (decide (pr_backup x = id)) as [Ei|Hne].
  - eexists. split; [apply Hl; exact Hcur|]. simpl. split; [done|]. by rewrite Hkx, Hxp, Ei.
  - rewrite (no_others _ _ Hno) in Hx by done.
    destruct (same_rows_Some s2 s1 _ x (same_rows_sym _ _ Hs) Hx) as (y & Hy & E).
    apply set_prune_fields in E as (E1 & E2 & E3 & E4 & E5). exists y. split_and!; [|done..]. apply Hl.
    split_and!; try congruence. rewrite E3. rewrite (remote_left _ _ _ _ Hp) in Hr.
    destruct (bool_decide _); [by destruct Hr|done].
Qed.

Lemma counted_head s1 recs s x :
  uploaded s1 -> pruned s1 recs (surplus recs) s -> counted profile s x ->
  pr_backup x ∈ map pr_backup (take _B2_RETENTION (merge_sort newer_generation recs)).
Proof.
  intros Hu Hp Hx. destruct (counted_before s1 recs _ s x Hu Hp Hx) as (y & Hy & <- & Hk).
  apply list_elem_of_fmap_2. apply (sorted_in recs) in Hy. rewrite <- (take_drop _B2_RETENTION (merge_sort _ recs)) in Hy.
  apply elem_of_app in Hy as [|Hy]; [done|]. exfalso. destruct Hx as (_ & _ & _ & _ & Hr).
  rewrite <- Hk, (remote_left _ _ _ _ Hp), bool_decide_true in Hr by (by apply list_elem_of_fmap_2). by destruct Hr.
Qed.
End Protection.
