(* ===== verification/BackupsTheorems.v ===== *)
(** The theorems of the backup service: retention at B2, the state a backup leaves,
    and the pause of the game's saves. *)
From S2P Require Import Prelude Fault Backups BackupsFacts.

(** ** Retention *)

Section Retention.
Context {T : B2Transport} {L : TransportLaws}.

Lemma protect_without_file fault sha256 available r s n :
  b_files s !! bk_id r = None -> fst (snd (_protect fault sha256 available r (s, n))) = s.
Proof.
  intros Hf. unfold _protect, mbind, FM_bind, guard. destruct (approved_profile _); [|done]. simpl.
  destruct (available _); [|done]. simpl. by rewrite Hf.
Qed.

Lemma near_keeps r c s0 s k x : near r c s0 s -> b_remote s0 !! k = Some x -> b_remote s !! k = Some x.
Proof.
  intros Hn Hk. destruct (decide (k = remote_key (bk_profile r) (bk_id r))) as [->|Hne].
  - destruct (ne_object _ _ _ _ Hn) as [->|[E _]]; [done|congruence].
  - by rewrite (ne_remote _ _ _ _ Hn).
Qed.

Lemma pruned_keeps r c s0 s1 recs dead s k x :
  rows_ok s0 -> row_of r s0 -> pruned r c s0 s1 recs dead s -> b_remote s0 !! k = Some x ->
  b_remote s !! k = Some x \/
  (b_remote s !! k = None /\ exists v, pr_profile v = bk_profile r /\ pr_key v = k /\ guarded_by (bk_profile r) s v).
Proof.
  intros Hok Hrow Hp Hk. pose proof Hp as (Hn & _ & Hd & _). rewrite (remote_left _ _ _ _ _ _ _ Hp).
  destruct (bool_decide (k ∈ map pr_key dead)) eqn:E; [right|left; by eapply near_keeps].
  apply bool_decide_eq_true, list_elem_of_fmap in E as (v & -> & Hv). split; [done|]. exists v.
  pose proof (rec_counted _ _ _ _ _ _ _ Hp v (surplus_in _ _ (Hd v Hv))) as (_ & Hpv & _). split_and!; [done..|].
  by eapply dead_guarded.
Qed.

End Retention.


(** C32.  A protected backup is on the remote.  When protecting a backup at B2 returns,
    its row says that the upload, the comparison and the pruning succeeded, at most
    two verified generations of the profile are left on the remote, and the remote
    holds the content of the local archive under the backup's key, unless two
    generations at least as new are there. *)
Theorem protected_backup_is_remote {T : B2Transport} {L : TransportLaws} fault sha256 available r c s n v s' n' :
  rows_ok s -> row_of r s -> b_files s !! bk_id r = Some c ->
  _protect fault sha256 available r (s, n) = (inr v, (s', n')) ->
  let key := remote_key (bk_profile r) (bk_id r) in
  b_protections s' !! bk_id r = Some v /\
  v = mkProtection (bk_id r) (bk_profile r) key (sha256 c) (bk_verified r) "succeeded" true "verified" "succeeded" None /\
  (forall l, NoDup (map pr_backup l) -> (forall x, x ∈ l -> counted (bk_profile r) s' x) -> (length l <= _B2_RETENTION)%nat) /\
  (b_remote s' !! key = Some c \/ (b_remote s' !! key = None /\ guarded_by (bk_profile r) s' v)).
Proof.
  intros Hok Hrow Hf E. pose proof (protect_spec fault sha256 available r c s Hok Hrow Hf s n eq_refl) as H.
  rewrite E in H. destruct H as (s1 & recs & Hu & Hp & Hv & Hveq). pose proof Hu as (_ & Hrem & _). cbv zeta. split_and!; [done..| |].
  - intros l Hnd Hl. pose proof Hp as (_ & [_ Hrecs] & _ & s2 & Hsw & Hno).
    set (head := take _B2_RETENTION (merge_sort newer_generation recs)).
    assert (Hsub : forall i, i ∈ map pr_backup l -> i ∈ map pr_backup head).
    { intros i (x & -> & Hx)%list_elem_of_fmap. eapply counted_head; eauto. }
    assert (Hlen : (length (map pr_backup l) <= length (map pr_backup head))%nat)
      by (apply submseteq_length, NoDup_submseteq; done).
    rewrite !length_map in Hlen. unfold head in Hlen. rewrite length_take in Hlen. lia.
  - rewrite (remote_left _ _ _ _ _ _ _ Hp). destruct (bool_decide _) eqn:Eb; [right|left; done]. split; [done|].
    apply bool_decide_eq_true, list_elem_of_fmap in Eb as (x & Ex & Hx).
    assert (Hg : guarded_by (bk_profile r) s' x) by (eapply dead_guarded; eauto). destruct Hg as (kept & ? & ? & Hk). exists kept. split_and!; [done..|].
    intros y Hy. destruct (Hk y Hy) as [? Hg]. split; [done|]. unfold newer_generation in *. rewrite Hveq. simpl.
    pose proof Hp as (_ & _ & Hd & _). assert (Ek : pr_key x = remote_key (bk_profile r) (pr_backup x)) by (eapply rec_key; eauto using surplus_in).
    rewrite Ek in Ex.
    apply remote_key_inj in Ex. by rewrite Ex.
Qed.

(** ** A remote in memory *)

Definition mem_copyto (c k : string) : FM (gmap string string) unit := fun st =>
  match fst st !! k with
  | Some c' => (if String.eqb c c' then inr tt else inl (SafeF "backup_protection_failed"), st)
  | None => (inr tt, (<[k := c]> (fst st), snd st))
  end.
Definition mem_cryptcheck (c k : string) : FM (gmap string string) unit := fun st =>
  (if bool_decide (fst st !! k = Some c) then inr tt else inl (SafeF "backup_protection_failed"), st).
Definition mem_lsjson (p : string) : FM (gmap string string) (list string) := fun st =>
  (inr (List.filter (String.prefix (p ++ "/")) (map fst (map_to_list (fst st)))), st).
Definition mem_deletefile (k : string) : FM (gmap string string) unit := fun st =>
  (inr tt, (delete k (fst st), snd st)).

#[local] Instance memory_rclone : Rclone := {
  rc_copyto := mem_copyto;
  rc_cryptcheck := mem_cryptcheck;
  rc_lsjson := mem_lsjson;
  rc_deletefile := mem_deletefile;
}.

Lemma listed_key_id p k : _approved_prefix p = true -> String.prefix (p ++ "/") k = true -> listed_key p k = k.
Proof.
  intros Hp Hk. unfold listed_key. assert (Hs : lstrip_slash k = k); [|by rewrite Hs, Hk].
  apply existsb_exists in Hp as (q & _ & Eq). apply String.eqb_eq in Eq. subst p.
  destruct k as [|a k]; [done|]. simpl in Hk. case_match; [|done]. by subst a.
Qed.

#[local] Instance memory_rclone_laws : RcloneLaws.
Proof.
  split.
  - intros c k r one s n ->. simpl. unfold mem_copyto, one. simpl. destruct (r !! k) as [c'|] eqn:E.
    + destruct (String.eqb c c'); split; auto.
    + split; [intros; by rewrite lookup_insert_ne|]. right. by rewrite lookup_insert_eq.
  - intros c k r s n ->. simpl. unfold mem_cryptcheck. simpl. by case_bool_decide.
  - intros p r Hp s n ->. simpl. split; [done|]. intros k. split.
    + intros (k' & -> & Hk)%list_elem_of_fmap. apply list_elem_of_In, filter_In in Hk as [Hk Hpre].
      rewrite listed_key_id by done. split; [|done]. apply in_map_iff in Hk as ([k0 c] & <- & Hin).
      apply list_elem_of_In, elem_of_map_to_list in Hin. by exists c.
    + intros [[c Hc] Hpre]. apply list_elem_of_fmap. exists k. split; [by rewrite listed_key_id|].
      apply list_elem_of_In, filter_In. split; [|done]. apply in_map_iff. exists (k, c). split; [done|].
      by apply list_elem_of_In, elem_of_map_to_list.
  - by intros k r s n ->.
Qed.

(** Two verified generations are on the remote and a third is protected. *)
Definition gen (d : string) : string := ("2026010" ++ d ++ "T000000000000Z-aaaaaaaaaaaa")%string.
Definition vanilla : string := "terraria-vanilla".
Definition backup_of (d : string) : BackupRecord := mkBackup (gen d) vanilla 0 true false.
Definition old_row (d : string) : ProtectionRecord :=
  mkProtection (gen d) vanilla (remote_key vanilla (gen d)) "h" true "succeeded" true "verified" "succeeded" None.
Definition third : bstate :=
  BState {[gen "3" := "C3"%string]} ∅ [backup_of "1"; backup_of "2"; backup_of "3"]
    (<[gen "1" := old_row "1"]> {[gen "2" := old_row "2"]})
    (<[remote_key vanilla (gen "1") := "C1"%string]> {[remote_key vanilla (gen "2") := "C2"%string]}) [] false false.

Definition third_run : (fexc + ProtectionRecord) * (bstate * nat) :=
  _protect (fun _ => None) id (fun _ => true) (backup_of "3") (third, O).

Lemma third_rows : rows_ok third.
Proof.
  intros i v Hv. simpl in Hv. apply lookup_insert_Some in Hv as [[<- <-]|[_ Hv]]; [done|].
  by apply lookup_singleton_Some in Hv as [<- <-].
Qed.

Lemma third_row : row_of (backup_of "3") third.
Proof. intros v Hv. by vm_compute in Hv. Qed.


Lemma protected_backup_is_remote_witness :
  exists v s' n', third_run = (inr v, (s', n')) /\
    b_remote s' !! remote_key vanilla (gen "3") = Some "C3"%string /\
    (forall l, NoDup (map pr_backup l) -> (forall x, x ∈ l -> counted vanilla s' x) -> (length l <= 2)%nat).
Proof.
  destruct third_run as [[x|v] [s' n']] eqn:E; [by vm_compute in E|]. exists v, s', n'. split; [done|].
  destruct (protected_backup_is_remote (fun _ => None) id (fun _ => true) (backup_of "3") "C3" third O v s' n'
    third_rows third_row eq_refl E) as (_ & _ & Hl & Hr). split; [|exact Hl].
  destruct Hr as [Hr|[Hr _]]; [exact Hr|]. clear Hl. vm_compute in E. injection E as _ <- _. by vm_compute in Hr.
Defined.
