(* ===== verification/BackupCreate.v ===== *)
(** Creating a backup: what it leaves in the backup root and in the catalog when it
    returns, when it raises, and when the storage fails under it; and how an online
    backup pauses the saves of the game. *)
From S2P Require Import Prelude Fault Backups.

(** ** Protection keeps the archives and the catalog *)

Section Keeps.
Context {T : B2Transport} (fault : nat -> option fexc) (sha256 : string -> string) (available : string -> bool).
Context (P : bstate -> Prop).
Hypothesis Hprot : forall f s, P s -> P (with_protections f s).
Hypothesis Hremote : forall r s, P s -> P (with_remote r s).

#[local] Abbreviation keeps := (Fault.keeps P).

Lemma keeps_on_remote {A} (m : FM (gmap string string) A) : keeps (on_remote m).
Proof.
  intros s n Hs. unfold on_remote. simpl. destruct (m (b_remote s, n)) as [[x|a] [r n']]; by apply Hremote.
Qed.
#[local] Hint Resolve keeps_ret keeps_throw keeps_fail keeps_guard keeps_read keeps_on_remote : core.

Lemma keeps_save r key digest up ver cmp pru err : keeps (_save fault r key digest up ver cmp pru err).
Proof.
  apply keeps_bind; [auto|]. intros [|]; [|auto]. apply keeps_bind; [|auto].
  apply keeps_effect. intros s. apply Hprot.
Qed.

Lemma keeps_or_record {A} (m : FM bstate A) r key digest up ver cmp pru err :
  keeps m -> keeps (or_record m (_save fault r key digest up ver cmp pru err)).
Proof.
  intros Hm. apply keeps_except; [done|]. intros x. apply keeps_bind; [apply keeps_save|]. intros _. destruct x; auto.
Qed.

Lemma keeps_prune profile prefix current : keeps (_prune fault profile prefix current).
Proof.
  apply keeps_bind; [auto|]. intros l. apply keeps_bind; [auto|]. intros all. apply keeps_bind; [auto|]. intros _.
  apply keeps_for. intros v. apply keeps_bind; [auto|]. intros _. apply keeps_effect. intros s. apply Hprot.
Qed.

Lemma keeps_protect r : keeps (_protect fault sha256 available r).
Proof.
  apply keeps_bind; [auto|]. intros _. apply keeps_bind; [auto|]. intros _. apply keeps_bind; [auto|]. intros [c|]; [|auto].
  cbv zeta. apply keeps_bind.
  { destruct (bk_verified r); [auto|]. apply keeps_bind; [apply keeps_save|auto]. }
  intros _. apply keeps_bind; [apply keeps_save|]. intros _. apply keeps_bind; [apply keeps_or_record; auto|]. intros _.
  apply keeps_bind; [apply keeps_save|]. intros _. apply keeps_bind; [apply keeps_or_record; auto|]. intros _.
  apply keeps_bind; [apply keeps_save|]. intros _. apply keeps_bind; [apply keeps_or_record, keeps_prune|]. intros _.
  apply keeps_save.
Qed.
End Keeps.

(** ** Creating a backup *)

Section Create.
Context {T : B2Transport} (fault : nat -> option fexc) (sha256 : string -> string) (available : string -> bool).
Context (lease : nat -> bool) (w : world) (rq : request) (s0 : bstate).
#[local] Abbreviation id := (rq_id rq).
(** The id is new. *)
Hypothesis Hfile : b_files s0 !! id = None.
Hypothesis Hrow : id ∉ map bk_id (b_rows s0).
Hypothesis Hprotection : b_protections s0 !! id = None.

Definition record : BackupRecord := mkBackup id (rq_profile rq) (rq_now rq) true (rq_protected rq).

(** How far the backup came: its archive, its row, its remote copy. *)
Record phase (file row started : bool) (s : bstate) : Prop := {
  ph_others : forall i, i <> id -> b_files s !! i = b_files s0 !! i;
  ph_file : b_files s !! id = if file then Some (w_content w) else None;
  ph_rows : b_rows s = b_rows s0 ++ (if row then [record] else []);
  ph_row : b_catalogued s = row;
  ph_started : b_remote_started s = started;
  ph_protections : started = false -> b_protections s !! id = None;
}.

(** Other backups are as they were. *)
Definition untouched (s : bstate) : Prop :=
  (forall i, i <> id -> b_files s !! i = b_files s0 !! i) /\
  List.filter (fun r => negb (String.eqb (bk_id r) id)) (b_rows s) = b_rows s0.
Definition absent (s : bstate) : Prop := b_files s !! id = None /\ b_rows s = b_rows s0.
Definition stored (s : bstate) : Prop := b_files s !! id = Some (w_content w) /\ b_rows s = b_rows s0 ++ [record].

Definition quiet : Prop := forall n, fault n = None.

Lemma filter_rows : List.filter (fun r => negb (String.eqb (bk_id r) id)) (b_rows s0) = b_rows s0.
Proof.
  clear -Hrow. induction (b_rows s0) as [|r l IH]; [done|]. simpl in *. apply not_elem_of_cons in Hrow as [Hne Hl].
  destruct (String.eqb_spec (bk_id r) id); [done|]. simpl. f_equal. by apply IH.
Qed.

Lemma filter_record : List.filter (fun r => negb (String.eqb (bk_id r) id)) (b_rows s0 ++ [record]) = b_rows s0.
Proof. rewrite List.filter_app, filter_rows. simpl. by rewrite String.eqb_refl, app_nil_r. Qed.

Lemma phase_untouched f r st s : phase f r st s -> untouched s.
Proof.
  intros [Ho _ Hr _ _ _]. split; [done|]. rewrite Hr. destruct r; [apply filter_record|].
  by rewrite app_nil_r, filter_rows.
Qed.

Definition handled (x : fexc) : bool := match x with SafeF _ | OsF => true | _ => false end.

(** What an exception of the [try] block finds. *)
Definition stopped (x : fexc) (s : bstate) : Prop :=
  untouched s /\ (exists f r st, phase f r st s) /\
  (quiet -> phase false false false s \/ (handled x = true /\ exists f r, phase f r false s) \/
            (rq_b2 rq = true /\ phase true true true s)).

Lemma stopped_fault f r st x n s : fault n = Some x -> phase f r st s -> stopped x s.
Proof. intros Hf Hs. split_and!; [by eapply phase_untouched|eauto|]. intros Hq. by rewrite Hq in Hf. Qed.

Lemma stopped_early x s : phase false false false s -> stopped x s.
Proof. intros Hs. split_and!; [by eapply phase_untouched|eauto|]. by left. Qed.

Lemma stopped_handled f r x s : handled x = true -> phase f r false s -> stopped x s.
Proof. intros Hx Hs. split_and!; [by eapply phase_untouched|eauto|]. right. left. eauto. Qed.

Lemma stopped_remote x s : rq_b2 rq = true -> phase true true true s -> stopped x s.
Proof. intros Hx Hs. split_and!; [by eapply phase_untouched|eauto|]. by right; right. Qed.

(** Steps that change nothing the phases speak of. *)
Lemma phase_step f r st : ftri (phase f r st) (step fault) (fun _ => phase f r st) stopped.
Proof. apply ftri_effect_fault; [done|]. intros x n s. apply stopped_fault. Qed.

Lemma phase_raise o : ftri (phase false false false) (raise_if o) (fun _ => phase false false false) stopped.
Proof. destruct o; [apply ftri_throw; apply stopped_early|by apply ftri_ret]. Qed.

Lemma phase_lease f r : ftri (phase f r false) (_assert_lease lease) (fun _ => phase f r false) stopped.
Proof.
  eapply ftri_bind; [apply ftri_oracle|]. intros b. apply ftri_guard. intros s. by apply stopped_handled.
Qed.

Lemma phase_lease_remote : rq_b2 rq = true -> ftri (phase true true true) (_assert_lease lease) (fun _ => phase true true true) stopped.
Proof.
  intros Hb. eapply ftri_bind; [apply ftri_oracle|]. intros b. apply ftri_guard. intros s. by apply stopped_remote.
Qed.

(** The steps of the [try] block that matter. *)
Lemma phase_files : ftri (phase false false false)
  (feffect fault (fun s => with_partial (fun p => p ∖ {[id]}) (with_files (<[id := w_content w]>) s)))
  (fun _ => phase true false false) stopped.
Proof.
  apply ftri_effect_fault; [|intros x n s; apply stopped_fault]. intros s [Ho Hf Hr Hc Hs Hp].
  split; simpl; [|apply lookup_insert_eq|done..]. intros i Hi. rewrite lookup_insert_ne by congruence. by apply Ho.
Qed.

Lemma phase_insert : ftri (phase true false false) (_insert fault record)
  (fun _ s => phase true true false (set_catalogued true s)) stopped.
Proof.
  eapply ftri_bind; [apply ftri_read|]. intros dup. simpl. apply ftri_if; intros Hd.
  - apply ftri_false. intros s [Hs Hd']. rewrite Hd in Hd'. symmetry in Hd'. apply bool_decide_eq_true in Hd'.
    rewrite (ph_rows _ _ _ _ Hs), app_nil_r in Hd'. done.
  - apply (ftri_effect_fault _ _ _ (fun s => phase true true false (set_catalogued true s))).
    + intros s [[Ho Hf Hr Hc Hs Hp] _]. split; simpl in *; try done. by rewrite Hr, app_nil_r.
    + intros x n s Hf [Hs _]. by eapply stopped_fault.
Qed.

Lemma phase_start s : phase true true false s -> phase true true true (set_remote_started true s).
Proof. intros [Ho Hf Hr Hc Hs Hp]. by split. Qed.

Lemma phase_protect r : rq_b2 rq = true ->
  ftri (phase true true true) (_protect fault sha256 available r) (fun _ => phase true true true) stopped.
Proof.
  intros Hb. eapply ftri_conseq; [apply (keeps_protect fault sha256 available (phase true true true))|..]; try done.
  - intros f s [Ho Hf Hr Hc Hs Hp]. by split.
  - intros f s [Ho Hf Hr Hc Hs Hp]. by split.
  - intros x s. by apply stopped_remote.
Qed.

Lemma publish_phase : ftri (phase false false false) (publish fault sha256 available lease w rq)
  (fun r s => r = record /\ phase true true (rq_b2 rq) s) stopped.
Proof.
  eapply ftri_seq; [apply phase_step|]. eapply ftri_seq; [apply phase_step|].
  eapply ftri_seq; [apply (ftri_effect_fault _ _ _ (phase false false false)); [|intros x n s; apply stopped_fault]|].
  { intros s [Ho Hf Hr Hc Hs Hp]. by split. }
  eapply ftri_seq; [apply phase_raise|]. eapply ftri_seq; [apply phase_step|]. eapply ftri_seq; [apply phase_raise|].
  eapply ftri_seq; [apply phase_lease|]. eapply ftri_seq; [apply phase_files|].
  eapply ftri_seq; [apply phase_step|]. eapply ftri_seq; [apply phase_step|]. eapply ftri_seq; [apply phase_lease|].
  eapply ftri_seq; [apply phase_insert|]. eapply ftri_seq; [by apply ftri_modify|].
  eapply (ftri_seq _ _ _ (phase true true (rq_b2 rq))).
  - destruct (rq_b2 rq) eqn:Hb; [|by apply ftri_ret].
    eapply ftri_seq; [apply phase_lease|]. eapply ftri_seq; [apply ftri_guard; intros s; by apply stopped_handled|].
    eapply ftri_seq; [apply ftri_modify, phase_start|]. eapply ftri_bind; [by apply phase_protect|].
    intros v. by apply phase_lease_remote.
  - eapply ftri_seq; [|by apply ftri_ret]. destruct (rq_b2 rq) eqn:Hb; [by apply phase_lease_remote|apply phase_lease].
Qed.

(** What a failed backup leaves. *)
Definition failed (s : bstate) : Prop := untouched s /\ (quiet -> absent s \/ (rq_b2 rq = true /\ stored s)).

Lemma phase_absent s : phase false false false s -> absent s.
Proof. intros [_ Hf Hr _ _ _]. split; [done|]. by rewrite Hr, app_nil_r. Qed.

Lemma phase_stored st s : phase true true st s -> stored s.
Proof. by intros [_ Hf Hr _ _ _]. Qed.

Lemma stopped_failed x s : handled x = false -> stopped x s -> failed s.
Proof.
  intros Hx (Hu & _ & Hq). split; [done|]. intros Hqt. destruct (Hq Hqt) as [H|[[H _]|[H1 H2]]].
  - left. by apply phase_absent.
  - congruence.
  - right. split; [done|]. by eapply phase_stored.
Qed.

(** Whatever fails in it, cleaning up touches no other backup. *)
Lemma clean_up_untouched : keeps untouched (clean_up fault id).
Proof.
  apply keeps_bind; [by apply keeps_effect|]. intros _. apply keeps_bind; [apply keeps_read|]. intros st.
  apply keeps_bind; [|intros _; by apply keeps_effect]. destruct st; [apply keeps_ret|].
  apply keeps_bind.
  { apply keeps_effect. intros s [Hf Hr]. split; [|done]. intros i Hi. simpl. rewrite lookup_delete_ne by congruence. by apply Hf. }
  intros _. apply keeps_bind; [apply keeps_read|]. intros [|]; [|apply keeps_ret].
  apply keeps_bind; [apply keeps_read|]. intros [|]; [apply keeps_throw|]. apply keeps_effect.
  intros s [Hf Hr]. split; [done|]. simpl. rewrite Hr. apply filter_rows.
Qed.

(** With storage that works it removes what is there, or keeps a backup whose remote
    copy has begun. *)
Lemma clean_up_undoes f r : quiet ->
  ftri (phase f r false) (clean_up fault id) (fun _ => absent) (fun _ _ => False).
Proof.
  intros Hq. eapply (ftri_seq _ _ _ (phase f r false)).
  { apply ftri_effect_sure; [done|]. intros s [Ho Hf Hr Hc Hs Hp]. by split. }
  eapply ftri_bind; [apply ftri_read|]. intros st. eapply ftri_seq; [|by apply (ftri_effect_sure _ _ absent)].
  apply ftri_if; intros ->; [apply ftri_false; intros s [[] ?]; congruence|].
  eapply (ftri_seq _ _ _ (phase false r false)).
  { apply ftri_effect_sure; [done|]. intros s [[Ho Hf Hr Hc Hs Hp] _]. split; simpl; try done; [|apply lookup_delete_eq].
    intros i Hi. rewrite lookup_delete_ne by congruence. by apply Ho. }
  eapply ftri_bind; [apply ftri_read|]. intros ins. simpl. apply ftri_if; intros ->.
  - eapply ftri_bind; [apply ftri_read|]. intros kept. simpl. apply ftri_if; intros ->.
    + apply ftri_false. intros s [[[Ho Hf Hr Hc Hs Hp] _] Hk]. symmetry in Hk. apply bool_decide_eq_true in Hk.
      rewrite Hp in Hk by done. by destruct Hk.
    + apply ftri_effect_sure; [done|]. intros s [[[Ho Hf Hr Hc Hs Hp] Hi] _]. split; [done|]. simpl. rewrite Hr.
      destruct r; [apply filter_record|congruence].
  - apply ftri_ret. intros s [[Ho Hf Hr Hc Hs Hp] Hi]. split; [done|]. rewrite Hr. destruct r; [congruence|apply app_nil_r].
Qed.

Lemma clean_up_keeps : quiet ->
  ftri (phase true true true) (clean_up fault id) (fun _ => stored) (fun _ _ => False).
Proof.
  intros Hq. eapply (ftri_seq _ _ _ (phase true true true)).
  { apply ftri_effect_sure; [done|]. intros s [Ho Hf Hr Hc Hs Hp]. by split. }
  eapply ftri_bind; [apply ftri_read|]. intros st. eapply ftri_seq; [|by apply (ftri_effect_sure _ _ stored)].
  apply ftri_if; intros ->; [apply ftri_ret; intros s [Hs _]; by eapply phase_stored|].
  apply ftri_false; intros s [[] ?]; congruence.
Qed.

Lemma clean_up_failed x : ftri (stopped x) (clean_up fault id) (fun _ => failed) (fun _ => failed).
Proof.
  intros s n (Hu & _ & Hq). pose proof (clean_up_untouched s n Hu) as Hk.
  enough (H : quiet -> match clean_up fault id (s, n) with
    | (inr _, (s', _)) | (inl _, (s', _)) => absent s' \/ (rq_b2 rq = true /\ stored s') end).
  { by destruct (clean_up fault id (s, n)) as [[?|?] [s' n']]. }
  clear Hk. intros Hqt. destruct (Hq Hqt) as [Hp|[[_ (f & r & Hp)]|[Hb Hp]]].
  1: pose proof (clean_up_undoes _ _ Hqt s n Hp) as H. 2: pose proof (clean_up_undoes _ _ Hqt s n Hp) as H.
  3: pose proof (clean_up_keeps Hqt s n Hp) as H.
  all: destruct (clean_up fault id (s, n)) as [[?|?] [s' n']]; tauto.
Qed.

Lemma or_clean_up_failed {A} (m : FM bstate A) Q :
  ftri (phase false false false) m Q stopped ->
  ftri (phase false false false) (or_clean_up fault id m) Q (fun _ => failed).
Proof.
  intros Hm. eapply ftri_except; [exact Hm| |].
  - intros [code| | |] _; simpl.
    1, 2: eapply ftri_seq; [apply clean_up_failed|by apply ftri_throw].
    all: apply ftri_throw; intros s; by apply stopped_failed.
  - intros [] s ?; try done. by apply stopped_failed.
Qed.

Lemma remove_staging_failed {A} (m : FM bstate A) P (Q : A -> bstate -> Prop) :
  (forall a s, Q a s -> untouched s) -> ftri P m Q (fun _ => failed) ->
  ftri P (ffinally m (remove_staging fault)) Q (fun _ => failed).
Proof.
  intros HQ Hm. eapply ftri_finally; [exact Hm|..].
  - intros a. eapply (ftri_except _ _ _ _ _ (fun _ s => Q a s /\ ~ quiet)).
    + apply ftri_effect_fault; [done|]. intros x n s Hx Hs. split; [done|]. intros Hq. by rewrite Hq in Hx.
    + intros x _. apply ftri_ret. by intros s [].
    + intros x s _ [Hs Hq]. split; [by eapply HQ|done].
  - intros x _. eapply (ftri_except _ _ _ _ _ (fun _ => failed)); [by apply ftri_effect|intros; by apply ftri_ret|done].
  - done.
Qed.

Definition returned (r : BackupRecord) (s : bstate) : Prop := r = record /\ stored s /\ untouched s.

Lemma start_failed : failed s0.
Proof.
  split; [split; [done|apply filter_rows]|]. intros _. by left.
Qed.

Lemma start_phase : phase false false false (set_remote_started false (set_catalogued false s0)).
Proof. split; simpl; try done. by rewrite app_nil_r. Qed.

Lemma guarded_create {A} (gs : list (FM bstate unit)) (m : FM bstate A) Q :
  (forall g, g ∈ gs -> ftri (fun s => s = s0) g (fun _ s => s = s0) (fun _ s => s = s0)) ->
  ftri (phase false false false) m Q (fun _ => failed) ->
  ftri (fun s => s = s0) (foldr (fun g k => g ;; k) (prepare fault w ;; m) gs) Q (fun _ => failed).
Proof.
  intros Hg Hm. induction gs as [|g gs IH]; simpl.
  - assert (Hst : ftri (fun s => s = s0) (step fault) (fun _ s => s = s0) (fun _ => failed)).
    { apply ftri_step. intros x s ->. apply start_failed. }
    eapply ftri_seq; [|exact Hm]. repeat (eapply ftri_seq; [exact Hst|]). eapply ftri_seq.
    { destruct (w_space w) as [x|b]; [apply ftri_throw; intros s ->; apply start_failed|].
      apply ftri_guard. intros s ->. apply start_failed. }
    eapply ftri_seq; [exact Hst|]. apply ftri_modify. intros s ->. apply start_phase.
  - eapply ftri_seq; [|apply IH; intros g' Hg'; apply Hg; by right]. eapply ftri_conseq; [apply Hg; by left|done|done|].
    intros x s ->. apply start_failed.
Qed.

(** *** Both ways of creating a backup *)

Lemma create_ends : ftri (fun s => s = s0) (create fault sha256 available lease w rq) returned (fun _ => failed).
Proof.
  eapply (guarded_create [guard _ _; validate_destination rq]).
  - intros g. rewrite elem_of_cons, list_elem_of_singleton. intros [-> | ->]; [by apply ftri_guard|].
    unfold validate_destination. apply ftri_if; intros _; [|by apply ftri_ret].
    eapply ftri_seq; by apply ftri_guard.
  - apply remove_staging_failed; [by intros r s (_ & _ & ?)|]. apply or_clean_up_failed.
    eapply ftri_seq; [apply phase_step|]. eapply ftri_seq; [apply phase_raise|].
    eapply ftri_conseq; [apply publish_phase|done| |done]. intros r s [-> Hs].
    split_and!; [done|by eapply phase_stored|by eapply phase_untouched].
Qed.

Context (game : nat -> option fexc) (transport : bool).

Lemma phase_called c : ftri (phase false false false) (_call_online game c) (fun _ => phase false false false) (fun _ => phase false false false).
Proof.
  eapply ftri_bind; [apply ftri_oracle|]. intros [x|]; [eapply ftri_seq; [|by apply ftri_throw]|].
  all: apply ftri_modify; intros s [Ho Hf Hr Hc Hs Hp]; by split.
Qed.

Lemma phase_outcome {A} (m : FM bstate A) :
  ftri (phase false false false) m (fun _ => phase false false false) (fun _ => phase false false false) ->
  ftri (phase false false false) (outcome m) (fun _ => phase false false false) stopped.
Proof.
  intros Hm s n Hs. specialize (Hm s n Hs). unfold outcome. destruct (m (s, n)) as [[[]|a] [s' n']]; try done.
  by apply stopped_early.
Qed.

Lemma phase_quiesce : ftri (phase false false false) (quiesce w game) (fun _ => phase false false false) stopped.
Proof.
  eapply ftri_bind; [apply phase_outcome|].
  { eapply ftri_seq; [apply phase_called|]. eapply ftri_seq; [apply phase_called|].
    unfold copy. destruct (w_snapshot w); [apply (ftri_seq _ _ _ (fun _ => False)); [by apply ftri_throw|by apply ftri_false]|].
    eapply ftri_seq; [by apply ftri_ret|]. apply ftri_modify. intros s [Ho Hf Hr Hc Hs Hp]. by split. }
  intros c. eapply ftri_bind; [apply phase_outcome, phase_called|]. intros r. simpl.
  destruct c, r; [apply ftri_throw, stopped_early..|by apply ftri_ret].
Qed.

Lemma create_online_ends :
  ftri (fun s => s = s0) (create_online fault sha256 available lease w game transport rq) returned (fun _ => failed).
Proof.
  eapply (guarded_create [guard _ _; guard _ _; validate_destination rq]).
  - intros g. rewrite !elem_of_cons, elem_of_nil. intros [-> | [-> | [-> | []]]]; [by apply ftri_guard..|].
    unfold validate_destination. apply ftri_if; intros _; [|by apply ftri_ret].
    eapply ftri_seq; by apply ftri_guard.
  - apply remove_staging_failed; [by intros r s (_ & _ & ?)|]. apply or_clean_up_failed.
    eapply ftri_seq; [apply phase_step|]. eapply ftri_seq; [apply phase_quiesce|].
    eapply ftri_conseq; [apply publish_phase|done| |done]. intros r s [-> Hs].
    split_and!; [done|by eapply phase_stored|by eapply phase_untouched].
Qed.
End Create.

(** C29.  A backup is there with its row or not at all.  For an id that is new, both
    [create] and [create_online], whatever the storage, the game, the lease and the
    remote do: every other archive and row is as it was; a backup that is returned
    has the verified archive in the backup root and its verified row in the catalog;
    and when no effect on the storage fails, a backup that is refused (lease lost,
    [tar], verification, quiescing or the remote failed) has left neither archive
    nor row, or it was to be copied to B2 and is kept whole. *)
Theorem backup_is_all_or_nothing {T : B2Transport} fault sha256 available lease w game transport rq s0 :
  b_files s0 !! rq_id rq = None -> rq_id rq ∉ map bk_id (b_rows s0) -> b_protections s0 !! rq_id rq = None ->
  forall m, m = create fault sha256 available lease w rq \/
            m = create_online fault sha256 available lease w game transport rq ->
  ftri (fun s => s = s0) m
    (fun r s => r = mkBackup (rq_id rq) (rq_profile rq) (rq_now rq) true (rq_protected rq) /\
                stored w rq s0 s /\ untouched rq s0 s)
    (fun _ s => untouched rq s0 s /\
                ((forall n, fault n = None) -> absent rq s0 s \/ (rq_b2 rq = true /\ stored w rq s0 s))).
Proof. intros Hf Hr Hp m [-> | ->]; [by apply create_ends|by apply create_online_ends]. Qed.
