(* ===== verification/BackupOnline.v ===== *)
(** The saves of the game during an online backup, and runs of the backup service on
    concrete states: a lease lost half way, and a catalog that fails under the
    clean-up. *)
From S2P Require Import Prelude Fault Backups BackupsFacts BackupsTheorems BackupCreate.

(** ** The saves of the game *)

Definition quiesced : list world_event := [Called SaveOff true; Called SaveAllFlush true; Copied; Called SaveOn true].

(** The ways the quiescing ends. *)
Definition quiesce_logs (b : bool) : list (list world_event) :=
  [ [Called SaveOff false; Called SaveOn b];
    [Called SaveOff true; Called SaveAllFlush false; Called SaveOn b];
    [Called SaveOff true; Called SaveAllFlush true; Called SaveOn b];
    [Called SaveOff true; Called SaveAllFlush true; Copied; Called SaveOn b] ].

Definition online_log (l : list world_event) : Prop :=
  l = [] \/ (exists b, l ∈ quiesce_logs b) \/ l = quiesced ++ [Packed].

(** Every attempt to stop the saves is followed by one to resume them. *)
Definition resumed (l : list world_event) : Prop :=
  forall pre b post, l = pre ++ Called SaveOff b :: post -> exists b', Called SaveOn b' ∈ post.

Definition is_save_on (e : world_event) : bool := match e with Called SaveOn _ => true | _ => false end.
Fixpoint resumedb (l : list world_event) : bool :=
  match l with
  | [] => true
  | Called SaveOff _ :: r => existsb is_save_on r && resumedb r
  | _ :: r => resumedb r
  end.

Lemma resumedb_resumed l : resumedb l = true -> resumed l.
Proof.
  induction l as [|e l IH]; intros Hl [|p pre] b post E; simplify_eq/=.
  - apply andb_true_iff in Hl as [Hl _]. apply existsb_exists in Hl as ([[] b'| |] & Hin & He); try done.
    exists b'. by apply list_elem_of_In.
  - eapply IH; [|done]. destruct p as [[]| |]; try done. by apply andb_true_iff in Hl as [_ ?].
Qed.

Lemma online_log_resumed l : online_log l -> resumed l.
Proof.
  intros Hl. apply resumedb_resumed. destruct Hl as [-> | [(b & Hl) | ->]]; [done| |done].
  unfold quiesce_logs in Hl. rewrite !elem_of_cons, elem_of_nil in Hl. by destruct Hl as [-> | [-> | [-> | [-> | []]]]].
Qed.

Lemma online_log_packed l : online_log l -> Packed ∈ l -> l = quiesced ++ [Packed].
Proof.
  intros [-> | [(b & Hl) | ->]] Hp; [by apply elem_of_nil in Hp| |done]. exfalso. revert Hp.
  unfold quiesce_logs in Hl. rewrite !elem_of_cons, elem_of_nil in Hl.
  destruct Hl as [-> | [-> | [-> | [-> | []]]]]; rewrite !elem_of_cons, elem_of_nil; naive_solver.
Qed.

Section Log.
Context {T : B2Transport} (fault : nat -> option fexc) (sha256 : string -> string) (available : string -> bool).
Context (lease : nat -> bool) (w : world) (rq : request) (game : nat -> option fexc) (transport : bool).

#[local] Abbreviation log l := (fun s => b_world s = l).

(** The exception is not the end of the process, and the log is complete. *)
Definition log_closed (x : fexc) (s : bstate) : Prop := x <> CrashF -> online_log (b_world s).

Lemma log_called l c :
  ftri (log l) (_call_online game c) (fun _ => log (l ++ [Called c true])) (fun _ => log (l ++ [Called c false])).
Proof.
  eapply ftri_bind; [apply ftri_oracle|]. intros [x|].
  1: apply (ftri_seq _ _ _ (log (l ++ [Called c false]))); [|by apply ftri_throw].
  all: apply ftri_modify; intros s Hs; simpl; by rewrite Hs.
Qed.

Definition copy_logs (copied : option fexc) (l : list world_event) : Prop :=
  match copied with
  | None => l = [Called SaveOff true; Called SaveAllFlush true; Copied]
  | Some _ => l ∈ [[Called SaveOff false]; [Called SaveOff true; Called SaveAllFlush false]; [Called SaveOff true; Called SaveAllFlush true]]
  end.

Lemma log_copied :
  ftri (log []) (_call_online game SaveOff ;; _call_online game SaveAllFlush ;; copy w)
    (fun _ s => copy_logs None (b_world s)) (fun x s => copy_logs (Some x) (b_world s)).
Proof.
  apply (ftri_seq _ _ _ (log ([] ++ [Called SaveOff true]))).
  { eapply ftri_conseq; [apply (log_called [])|done|done|]. intros x s ->. set_solver. }
  apply (ftri_seq _ _ _ (log ([Called SaveOff true] ++ [Called SaveAllFlush true]))).
  { eapply ftri_conseq; [apply (log_called [Called SaveOff true])|done|done|]. intros x s ->. set_solver. }
  unfold copy. destruct (w_snapshot w) as [x|].
  - apply (ftri_seq _ _ _ (fun _ => False)); [|by apply ftri_false]. apply ftri_throw. intros s ->. set_solver.
  - eapply ftri_seq; [apply ftri_ret; intros s Hs; exact Hs|]. apply ftri_modify. intros s Hs. simpl. by rewrite Hs.
Qed.

Lemma log_outcome {A} (m : FM bstate A) P (Q : A -> bstate -> Prop) E :
  ftri P m Q E ->
  ftri P (outcome m) (fun o s => match o with None => exists a, Q a s | Some x => E x s end) log_closed.
Proof.
  intros Hm s n Hs. specialize (Hm s n Hs). unfold outcome. destruct (m (s, n)) as [[[]|a] [s' n']]; eauto. by intros [].
Qed.

Lemma log_quiesce : ftri (log []) (quiesce w game) (fun _ => log quiesced) log_closed.
Proof.
  eapply ftri_bind; [apply log_outcome, log_copied|]. intros c.
  apply (ftri_bind _ _ _ (fun r s => exists b l, (r = None -> b = true) /\ copy_logs c l /\ b_world s = l ++ [Called SaveOn b])).
  - intros s n Hs. assert (Hl : copy_logs c (b_world s)) by (destruct c; [done|by destruct Hs]). clear Hs.
    pose proof (log_outcome _ _ _ _ (log_called (b_world s) SaveOn) s n eq_refl) as H.
    destruct (outcome _ (s, n)) as [[x|[x|]] [s' n']]; [done|exists false|destruct H as [_ H]; exists true];
      by exists (b_world s).
  - intros r. destruct c as [x|], r as [y|]; simpl; [apply ftri_throw..|apply ftri_ret].
    all: intros s (b & l & Hb & Hl & Hs); simpl in Hl; try intros _; rewrite Hs.
    4: by rewrite Hl, (Hb eq_refl).
    all: right; left; exists b; try rewrite !elem_of_cons, elem_of_nil in Hl.
    1, 2: destruct Hl as [-> | [-> | [-> | []]]]; set_solver.
    subst l. set_solver.
Qed.

(** The rest of the backup adds the packing and nothing else. *)
Definition log_published (s : bstate) : Prop := b_world s = quiesced \/ b_world s = quiesced ++ [Packed].

Lemma log_publish :
  ftri (log quiesced) (publish fault sha256 available lease w rq) (fun _ => log (quiesced ++ [Packed])) (fun _ => log_published).
Proof.
  set (done_ := log (quiesced ++ [Packed])).
  assert (Hk : forall A (m : FM bstate A), keeps done_ m -> ftri done_ m (fun _ => done_) (fun _ => log_published)).
  { intros A m Hm. eapply ftri_conseq; [exact Hm|done|done|]. intros x s Hs. by right. }
  assert (Hl : keeps done_ (_assert_lease lease)).
  { apply keeps_bind; [intros s n Hs; done|]. intros b. apply keeps_guard. }
  assert (Hr : forall o, keeps done_ (raise_if o)) by (intros []; [apply keeps_throw|apply keeps_ret]).
  assert (He : forall f, (forall s, b_world (f s) = b_world s) -> keeps done_ (feffect fault f)).
  { intros f Hf. apply keeps_effect. intros s. unfold done_. by rewrite Hf. }
  eapply (ftri_seq _ _ _ (log quiesced)); [apply ftri_step; intros; by left|].
  eapply (ftri_seq _ _ _ (log quiesced)); [apply ftri_step; intros; by left|].
  apply (ftri_seq _ _ _ done_); [apply ftri_effect; [|intros; by left]|].
  { intros s Hs. unfold done_. simpl. by rewrite Hs. }
  apply Hk. apply keeps_bind; [apply Hr|]. intros _. apply keeps_bind; [by apply He|]. intros _.
  apply keeps_bind; [apply Hr|]. intros _. apply keeps_bind; [apply Hl|]. intros _.
  apply keeps_bind; [by apply He|]. intros _. apply keeps_bind; [by apply He|]. intros _. cbv zeta.
  apply keeps_bind; [by apply He|]. intros _. apply keeps_bind; [apply Hl|]. intros _. apply keeps_bind.
  { apply keeps_bind; [apply keeps_read|]. intros []; [apply keeps_throw|by apply He]. }
  intros _. apply keeps_bind; [by intros s n Hs|]. intros _. apply keeps_bind.
  { destruct (rq_b2 rq); [|apply keeps_ret]. apply keeps_bind; [apply Hl|]. intros _. apply keeps_bind; [apply keeps_guard|]. intros _.
    apply keeps_bind; [by intros s n Hs|]. intros _. apply keeps_bind; [by apply keeps_protect|]. intros _. apply Hl. }
  intros _. apply keeps_bind; [apply Hl|]. intros _. apply keeps_ret.
Qed.

Lemma log_clean_up : keeps (fun s => online_log (b_world s)) (clean_up fault (rq_id rq)).
Proof.
  apply keeps_bind; [by apply keeps_effect|]. intros _. apply keeps_bind; [apply keeps_read|]. intros st.
  apply keeps_bind; [|intros _; by apply keeps_effect]. destruct st; [apply keeps_ret|].
  apply keeps_bind; [by apply keeps_effect|]. intros _. apply keeps_bind; [apply keeps_read|]. intros [|]; [|apply keeps_ret].
  apply keeps_bind; [apply keeps_read|]. intros [|]; [apply keeps_throw|by apply keeps_effect].
Qed.

Lemma log_or_clean_up {A} (m : FM bstate A) P Q :
  ftri P m Q log_closed -> ftri P (or_clean_up fault (rq_id rq) m) Q log_closed.
Proof.
  intros Hm. eapply ftri_except; [exact Hm| |by intros [] s].
  assert (Hc : forall x y, is_end x = false -> ftri (log_closed x) (clean_up fault (rq_id rq) ;; (fthrow y : FM bstate A)) Q log_closed).
  { intros x y Hx. eapply ftri_seq; [eapply ftri_conseq; [apply log_clean_up|..]|].
    - intros s Hs. apply Hs. by destruct x.
    - intros a s Hs. exact Hs.
    - by intros y' s Hs _.
    - apply ftri_throw. by intros s Hs _. }
  intros [code| | |] Hx; [by apply (Hc (SafeF code))|by apply (Hc OsF)|by apply ftri_throw|done].
Qed.

Lemma log_create_online :
  ftri (log []) (create_online fault sha256 available lease w game transport rq)
    (fun _ => log (quiesced ++ [Packed])) log_closed.
Proof.
  assert (He : forall A (m : FM bstate A), keeps (log []) m -> ftri (log []) m (fun _ => log []) log_closed).
  { intros A m Hm. eapply ftri_conseq; [exact Hm|done|done|]. intros x s Hs _. by left. }
  eapply ftri_seq; [apply He, keeps_guard|]. eapply ftri_seq; [apply He, keeps_guard|].
  apply (ftri_seq _ _ _ (log [])).
  { unfold validate_destination. destruct (rq_b2 rq); [|by apply ftri_ret]. eapply ftri_seq; apply He, keeps_guard. }
  apply (ftri_seq _ _ _ (log [])).
  { unfold prepare. repeat (eapply ftri_seq; [by apply He, keeps_effect|]). eapply ftri_seq.
    { apply He. destruct (w_space w); [apply keeps_throw|apply keeps_guard]. }
    eapply ftri_seq; [by apply He, keeps_effect|]. by apply ftri_modify. }
  eapply (ftri_finally _ _ _ _ (fun _ => log (quiesced ++ [Packed])) _ log_closed).
  - apply log_or_clean_up. eapply ftri_seq; [by apply He, keeps_effect|]. eapply ftri_seq; [apply log_quiesce|].
    eapply ftri_conseq; [apply log_publish|done|done|]. intros x s [Hs|Hs] _; rewrite Hs; [right; left; exists true; set_solver|by right; right].
  - intros a. eapply ftri_conseq; [apply (keeps_except (log (quiesced ++ [Packed]))); [by apply keeps_effect|intros; apply keeps_ret]|done|done|].
    intros x s Hs _. rewrite Hs. by right; right.
  - intros x Hx. eapply ftri_conseq; [apply (keeps_except (fun s => online_log (b_world s))); [by apply keeps_effect|intros; apply keeps_ret]|..].
    + intros s Hs. apply Hs. by destruct x.
    + by intros a s Hs _.
    + by intros y s Hs _.
  - done.
Qed.
End Log.

(** C30.  An online backup leaves the game saving.  Unless the process itself ends, and
    whatever the game, the storage, the lease and the remote do, every attempt to turn
    the saves off is followed by an attempt to turn them on again; [tar] packs only
    after the saves were turned off, flushed and copied and [save-on] has returned;
    and a backup that is returned went through exactly these steps. *)
Theorem online_backup_resumes_saves {T : B2Transport} fault sha256 available lease w game transport rq s n :
  b_world s = [] ->
  let '(r, (s', _)) := create_online fault sha256 available lease w game transport rq (s, n) in
  r <> inl CrashF ->
  resumed (b_world s') /\
  (Packed ∈ b_world s' \/ (exists b, r = inr b) ->
   b_world s' = [Called SaveOff true; Called SaveAllFlush true; Copied; Called SaveOn true; Packed]).
Proof.
  intros Hs. pose proof (log_create_online fault sha256 available lease w rq game transport s n Hs) as H.
  destruct (create_online _ _ _ _ _ _ _ _ _) as [[x|b] [s' n']]; intros Hr.
  - assert (Hl : online_log (b_world s')) by (apply H; congruence). split; [by apply online_log_resumed|].
    intros [Hp|[b Hb]]; [|done]. by apply online_log_packed in Hp.
  - split; [|by intros _]. apply online_log_resumed. rewrite H. by right; right.
Qed.

(** ** Runs *)

Definition sunlit_request (b2 : bool) : request := Request (Some true) _SUNLIT false b2 true (gen "4") 4.
Definition packs : world := World (inr true) None None None "C4".

(** A game that does not answer the flush. *)
Lemma online_backup_resumes_saves_witness :
  let '(r, (s', _)) := @create_online (@B2CommandTransport memory_rclone) (fun _ => None) id (fun _ => true) (fun _ => true) packs
    (fun n => if (n =? 5)%nat then Some OsF else None) true (sunlit_request false) (third, O) in
  r = inl (SafeF "backup_quiesce_failed") /\
  b_world s' = [Called SaveOff true; Called SaveAllFlush false; Called SaveOn true] /\ resumed (b_world s').
Proof.
  pose proof (@online_backup_resumes_saves (@B2CommandTransport memory_rclone) (fun _ => None) id (fun _ => true) (fun _ => true) packs
    (fun n => if (n =? 5)%nat then Some OsF else None) true (sunlit_request false) third O eq_refl) as H.
  destruct (create_online _ _ _ _ _ _ _ _ _) as [r [s' n']] eqn:E.
  assert (Hr : r = inl (SafeF "backup_quiesce_failed") /\
    b_world s' = [Called SaveOff true; Called SaveAllFlush false; Called SaveOn true])
    by (clear H; vm_compute in E; injection E as <- <- _; done).
  destruct Hr as [Hr Hw]. split_and!; [exact Hr|exact Hw|]. apply H. by rewrite Hr.
Defined.

(** The lease is lost between the insertion of the row and the end. *)
Definition lost (n : nat) : bool := (n <? 14)%nat.

Definition lost_run (fault : nat -> option fexc) : (fexc + BackupRecord) * (bstate * nat) :=
  @create (@B2CommandTransport memory_rclone) fault id (fun _ => true) lost packs (sunlit_request false) (third, O).

Lemma fresh_fourth : b_files third !! gen "4" = None /\ gen "4" ∉ map bk_id (b_rows third) /\ b_protections third !! gen "4" = None.
Proof. split_and!; [vm_compute; reflexivity|vm_compute; set_solver|vm_compute; reflexivity]. Qed.

Lemma backup_is_all_or_nothing_witness :
  let '(r, (s', _)) := @create (@B2CommandTransport memory_rclone) (fun _ => None) id (fun _ => true) lost packs (sunlit_request false) (third, O) in
  r = inl (SafeF "slot_conflict") /\ absent (sunlit_request false) third s'.
Proof.
  destruct fresh_fourth as (Hf & Hr & Hp).
  pose proof (@backup_is_all_or_nothing (@B2CommandTransport memory_rclone) (fun _ => None) id (fun _ => true) lost packs (fun _ => None) true
    (sunlit_request false) third Hf Hr Hp _ (or_introl eq_refl) third O eq_refl) as H.
  destruct (create _ _ _ _ _ _ _) as [r [s' n']] eqn:E.
  assert (Er : r = inl (SafeF "slot_conflict")) by (clear H; vm_compute in E; injection E as <- _ _; done).
  split; [exact Er|]. subst r. destruct H as [_ H]. destruct (H ltac:(done)) as [Ha|[Hb _]]; [exact Ha|discriminate Hb].
Defined.

(** A failed backup can leave a verified row without its archive: the clean-up
    removes the archive before it deletes the row, so when the database refuses the
    deletion (here: the lease is lost after the insertion, then the database is busy)
    the catalog keeps a verified, returned-by-[list] backup whose archive is gone. *)
Theorem failed_backup_leaves_dangling_row :
  exists fault, let '(r, (s', _)) := lost_run fault in
    r = inl OtherF /\ b_files s' !! gen "4" = None /\
    mkBackup (gen "4") _SUNLIT 4 true false ∈ profile_rows _SUNLIT s'.
Proof.
  exists (fun n => if (n =? 17)%nat then Some OtherF else None).
  vm_compute. split_and!; [done|done|]. left.
Qed.
