(* ===== verification/AlertPolicy.v ===== *)
(** [alert_policy.py]: the registry of alert rules and the evaluator that turns
    observations of a profile into alerts, once per incident.

    Dictionaries whose order reaches the result are association lists in insertion
    order; a missing key of a [defaultdict] is its default.  Floats are exact. *)
From S2P Require Import Prelude.

(** ** Rules *)

Inductive AlertSignal := SUSTAINED_MSPT | MEMORY_GROWTH | DISK_PRESSURE | WAKE_SLO | BENCHMARK_REGRESSION.
Inductive AlertOwner := SLOTD | PROMETHEUS_ALERTMANAGER.
Inductive ActivityPolicy := RUNNING_ONLY | STARTING_OR_RUNNING | ALWAYS.

#[export] Instance AlertSignal_eq_dec : EqDecision AlertSignal.
Proof. solve_decision. Defined.
#[export] Instance AlertOwner_eq_dec : EqDecision AlertOwner.
Proof. solve_decision. Defined.

Definition signal_value (s : AlertSignal) : string :=
  match s with
  | SUSTAINED_MSPT => "sustained_mspt"
  | MEMORY_GROWTH => "memory_growth"
  | DISK_PRESSURE => "disk_pressure"
  | WAKE_SLO => "wake_slo"
  | BENCHMARK_REGRESSION => "benchmark_regression"
  end.

Definition MSPT_P95_THRESHOLD_MS : Z := fl 50.
Definition MSPT_SUSTAINED_SECONDS : Z := fl 30.
Definition MSPT_MIN_SAMPLES : nat := 4.
Definition MEMORY_GROWTH_WINDOW_SECONDS : Z := fl 600.
Definition MEMORY_GROWTH_THRESHOLD_BYTES : Z := fl (512 * 1024 * 1024).
Definition MEMORY_RECOVERY_BYTES : Z := fl (256 * 1024 * 1024).
Definition WAKE_SLO_THRESHOLD_MS : Z := fl 180000.
Definition MAX_RUNTIME_SAMPLES : nat := 256.
Definition SUSTAINED_SPAN_TOLERANCE_SECONDS : Z := fl 5.

Record AlertRule := mkRule {
  r_signal : AlertSignal;
  r_owner : AlertOwner;
  r_activity : ActivityPolicy;
  r_group : string;
  r_priority : Z;
}.

Definition ALERT_RULES : list AlertRule :=
  [ mkRule SUSTAINED_MSPT SLOTD RUNNING_ONLY "runtime_pressure" 10;
    mkRule MEMORY_GROWTH SLOTD RUNNING_ONLY "runtime_pressure" 20;
    mkRule DISK_PRESSURE PROMETHEUS_ALERTMANAGER ALWAYS "host_storage" 20;
    mkRule WAKE_SLO SLOTD STARTING_OR_RUNNING "wake_path" 20;
    mkRule BENCHMARK_REGRESSION SLOTD ALWAYS "benchmark" 20 ].

(** A dict with signals as keys. *)
Fixpoint sget {A} (s : AlertSignal) (l : list (AlertSignal * A)) : option A :=
  match l with
  | [] => None
  | (k, v) :: l' => if bool_decide (s = k) then Some v else sget s l'
  end.
Fixpoint sset {A} (s : AlertSignal) (v : A) (l : list (AlertSignal * A)) : list (AlertSignal * A) :=
  match l with
  | [] => [(s, v)]
  | (k, w) :: l' => if bool_decide (s = k) then (k, v) :: l' else (k, w) :: sset s v l'
  end.

Definition all_signals : list AlertSignal := [SUSTAINED_MSPT; MEMORY_GROWTH; DISK_PRESSURE; WAKE_SLO; BENCHMARK_REGRESSION].

Fixpoint register (rules : list AlertRule) (registry : list (AlertSignal * AlertRule)) : res (list (AlertSignal * AlertRule)) :=
  match rules with
  | [] => Ret registry
  | r :: l =>
      if bool_decide (is_Some (sget (r_signal r) registry)) then Raise (RuntimeError "duplicate alert signal ownership")
      else if negb (nonempty (r_group r)) || negb ((0 <=? r_priority r) && (r_priority r <=? 100)) then Raise (RuntimeError "invalid alert policy")
      else register l (sset (r_signal r) r registry)
  end.

Definition _build_registry (rules : list AlertRule) : res (list (AlertSignal * AlertRule)) :=
  let? registry := register rules [] in
  if forallb (fun s => bool_decide (is_Some (sget s registry))) all_signals then Ret registry
  else Raise (RuntimeError "incomplete alert signal ownership").

Definition registry : list (AlertSignal * AlertRule) :=
  match _build_registry ALERT_RULES with Ret r => r | Raise _ => [] end.

Definition no_rule : AlertRule := mkRule DISK_PRESSURE PROMETHEUS_ALERTMANAGER ALWAYS "" 0.
Definition ALERT_POLICY (s : AlertSignal) : AlertRule := default no_rule (sget s registry).

(** ** Values *)

(** [None], a bool or anything else that is not a number; an int; a float. *)
Inductive pynum := PNone | PInt (n : Z) | PFloat (f : pyfloat).

Definition _finite (v : pynum) : res (option Z) :=
  match v with
  | PNone => Ret None
  | PInt n => match float_of_int n with
              | Some f => Ret (if 0 <=? f then Some f else None)
              | None => Raise (OverflowError "int too large to convert to float")
              end
  | PFloat (FFin f) => Ret (if 0 <=? f then Some f else None)
  | PFloat _ => Ret None
  end.

(** [benchmark_regression]: [None], a bool, or something else. *)
Inductive pybool := BNone | BBool (b : bool) | BOther.

(** ** The evaluator *)

Record evaluator := Evaluator {
  _mspt : gmap string (list (Z * Z));
  _rss : gmap string (list (Z * Z));
  _breached : gmap string (list (AlertSignal * bool));
  _active_groups : gmap string (gset string);
  _memory_incident_peak : gmap string Z;
  _last_generation : Z;
}.

Definition new_evaluator : evaluator := Evaluator ∅ ∅ ∅ ∅ ∅ 0.

Definition samples_of (m : gmap string (list (Z * Z))) (p : string) : list (Z * Z) := default [] (m !! p).
Definition breached_of (e : evaluator) (p : string) : list (AlertSignal * bool) := default [] (_breached e !! p).
Definition active_of (e : evaluator) (p : string) : gset string := default ∅ (_active_groups e !! p).

Definition set_breached (p : string) (s : AlertSignal) (b : bool) (e : evaluator) : evaluator :=
  Evaluator (_mspt e) (_rss e) (<[p := sset s b (breached_of e p)]> (_breached e)) (_active_groups e) (_memory_incident_peak e) (_last_generation e).
Definition with_mspt (f : gmap string (list (Z * Z)) -> gmap string (list (Z * Z))) (e : evaluator) : evaluator :=
  Evaluator (f (_mspt e)) (_rss e) (_breached e) (_active_groups e) (_memory_incident_peak e) (_last_generation e).
Definition with_rss (f : gmap string (list (Z * Z)) -> gmap string (list (Z * Z))) (e : evaluator) : evaluator :=
  Evaluator (_mspt e) (f (_rss e)) (_breached e) (_active_groups e) (_memory_incident_peak e) (_last_generation e).
Definition with_peak (f : gmap string Z -> gmap string Z) (e : evaluator) : evaluator :=
  Evaluator (_mspt e) (_rss e) (_breached e) (_active_groups e) (f (_memory_incident_peak e)) (_last_generation e).

(** [deque(maxlen=MAX_RUNTIME_SAMPLES).append] *)
Definition push (x : Z * Z) (l : list (Z * Z)) : list (Z * Z) :=
  let l' := l ++ [x] in drop (length l' - MAX_RUNTIME_SAMPLES) l'.

Fixpoint trim (boundary : Z) (l : list (Z * Z)) : list (Z * Z) :=
  match l with
  | x :: ((_ :: _) as l') => if fst x <? boundary then trim boundary l' else l
  | _ => l
  end.

(** *** The signals *)

Definition clear_runtime (p : string) (e : evaluator) : evaluator :=
  set_breached p MEMORY_GROWTH false (set_breached p SUSTAINED_MSPT false
    (with_peak (delete p) (with_rss (delete p) (with_mspt (delete p) e)))).

Definition sustained (now : Z) (samples : list (Z * Z)) : bool :=
  (MSPT_MIN_SAMPLES <=? length samples)%nat
  && match samples with x :: _ => fst x <=? now - MSPT_SUSTAINED_SECONDS | [] => false end
  && forallb (fun x => MSPT_P95_THRESHOLD_MS <=? snd x) samples.

Definition observe_mspt (p : string) (now : Z) (v : option Z) (e : evaluator) : evaluator :=
  match v with
  | None => e
  | Some mspt =>
      let boundary := now - MSPT_SUSTAINED_SECONDS - SUSTAINED_SPAN_TOLERANCE_SECONDS in
      let samples := trim boundary (push (now, mspt) (samples_of (_mspt e) p)) in
      set_breached p SUSTAINED_MSPT (sustained now samples) (with_mspt (<[p := samples]>) e)
  end.

Definition observe_rss (p : string) (now : Z) (v : option Z) (e : evaluator) : evaluator :=
  match v with
  | None => e
  | Some rss =>
      let boundary := now - MEMORY_GROWTH_WINDOW_SECONDS - SUSTAINED_SPAN_TOLERANCE_SECONDS in
      let samples := trim boundary (push (now, rss) (samples_of (_rss e) p)) in
      let e := with_rss (<[p := samples]>) e in
      let span := match samples with x :: _ => now - fst x | [] => 0 end in
      let growth := match samples with x :: _ => rss - snd x | [] => 0 end in
      if default false (sget MEMORY_GROWTH (breached_of e p)) then
        let peak := Z.max (default rss (_memory_incident_peak e !! p)) rss in
        let still := peak - rss <? MEMORY_RECOVERY_BYTES in
        let e := set_breached p MEMORY_GROWTH still (with_peak (<[p := peak]>) e) in
        if still then e else with_peak (delete p) e
      else
        let grown := (MEMORY_GROWTH_WINDOW_SECONDS <=? span) && (MEMORY_GROWTH_THRESHOLD_BYTES <=? growth) in
        let e := set_breached p MEMORY_GROWTH grown e in
        if grown then with_peak (<[p := rss]>) e else e
  end.

Definition starting_or_running (state : string) : bool := String.eqb state "starting" || String.eqb state "running".

Definition observe_wake (p state : string) (v : option Z) (e : evaluator) : evaluator :=
  match v with
  | Some wake => set_breached p WAKE_SLO (WAKE_SLO_THRESHOLD_MS <? wake) e
  | None => if negb (starting_or_running state) then set_breached p WAKE_SLO false e else e
  end.

(** *** The alerts *)

Record AlertEmission := mkEmission {
  em_signal : AlertSignal;
  em_generation : Z;
}.

Definition eligible (state : string) (rule : AlertRule) (breached : bool) : bool :=
  bool_decide (r_owner rule = SLOTD) && breached
  && match r_activity rule with
     | RUNNING_ONLY => String.eqb state "running"
     | STARTING_OR_RUNNING => starting_or_running state
     | ALWAYS => true
     end.

(** [candidates]: a dict from group to the rule of the highest priority. *)
Fixpoint gset_rule (g : string) (r : AlertRule) (l : list (string * AlertRule)) : list (string * AlertRule) :=
  match l with
  | [] => [(g, r)]
  | (k, w) :: l' => if String.eqb g k then (k, r) :: l' else (k, w) :: gset_rule g r l'
  end.

Definition add_candidate (state : string) (l : list (string * AlertRule)) (x : AlertSignal * bool) : list (string * AlertRule) :=
  let rule := ALERT_POLICY (fst x) in
  if eligible state rule (snd x) then
    match assoc (r_group rule) l with
    | Some selected => if r_priority selected <? r_priority rule then gset_rule (r_group rule) rule l else l
    | None => gset_rule (r_group rule) rule l
    end
  else l.

Definition candidates (state : string) (current : list (AlertSignal * bool)) : list (string * AlertRule) :=
  foldl (add_candidate state) [] current.

Definition _generation (candidate last : Z) : Z := Z.max (last + 1) candidate.

(** The loop over the candidates; [clock] answers its calls in this observation. *)
Fixpoint emit (clock : nat -> Z) (l : list (string * AlertRule)) (active : gset string) (last : Z)
  : list AlertEmission * gset string * Z :=
  match l with
  | [] => ([], active, last)
  | (g, r) :: l' =>
      if bool_decide (g ∈ active) then emit clock l' active last
      else
        let gen := _generation (clock O) last in
        let '(es, active', last') := emit (fun n => clock (S n)) l' ({[g]} ∪ active) gen in
        (mkEmission (r_signal r) gen :: es, active', last')
  end.

Definition by_value (a b : AlertEmission) : Prop := str_le (signal_value (em_signal a)) (signal_value (em_signal b)).
#[export] Instance by_value_dec a b : Decision (by_value a b).
Proof. unfold by_value. apply _. Defined.

Definition emissions (p state : string) (clock : nat -> Z) (e : evaluator) : list AlertEmission * evaluator :=
  let cands := candidates state (breached_of e p) in
  let active := filter (fun g => g ∈ (list_to_set (map fst cands) : gset string)) (active_of e p) in
  let '(es, active', last') := emit clock cands active (_last_generation e) in
  (merge_sort by_value es,
   Evaluator (_mspt e) (_rss e) (_breached e) (<[p := active']> (_active_groups e)) (_memory_incident_peak e) last').

Record observation := Obs {
  o_profile : string;
  o_state : string;
  o_now : pynum;
  o_mspt : pynum;
  o_rss : pynum;
  o_wake : pynum;
  o_bench : pybool;
  o_clock : nat -> Z;
}.

Definition valid_profile (p : string) : bool := nonempty p && (String.length p <=? 128)%nat.

(** The state is the one the call leaves, also when it raises. *)
Definition observe (o : observation) (e : evaluator) : res (list AlertEmission) * evaluator :=
  let p := o_profile o in
  if negb (valid_profile p) then (Raise (ValueError "invalid alert profile"), e)
  else
    match _finite (o_now o) with
    | Raise x => (Raise x, e)
    | Ret None => (Raise (ValueError "invalid alert timestamp"), e)
    | Ret (Some now) =>
        let runtime :=
          if negb (String.eqb (o_state o) "running") then (Ret tt, clear_runtime p e)
          else match _finite (o_mspt o) with
               | Raise x => (Raise x, e)
               | Ret mspt =>
                   let e := observe_mspt p now mspt e in
                   match _finite (o_rss o) with
                   | Raise x => (Raise x, e)
                   | Ret rss => (Ret tt, observe_rss p now rss e)
                   end
               end in
        match runtime with
        | (Raise x, e) => (Raise x, e)
        | (Ret _, e) =>
            match _finite (o_wake o) with
            | Raise x => (Raise x, e)
            | Ret wake =>
                let e := observe_wake p (o_state o) wake e in
                match o_bench o with
                | BOther => (Raise (ValueError "invalid benchmark regression state"), e)
                | b =>
                    let e := match b with BBool b => set_breached p BENCHMARK_REGRESSION b e | _ => e end in
                    let '(es, e) := emissions p (o_state o) (o_clock o) e in (Ret es, e)
                end
            end
        end
    end.

Definition active_signals (e : evaluator) (p : string) : list AlertSignal :=
  merge_sort (fun a b => str_le (signal_value a) (signal_value b)) (map fst (List.filter snd (breached_of e p))).
