(* ===== verification/AlertPolicyFacts.v ===== *)
(** Alerts are sent once per incident with growing generations, and the windows of the
    evaluator are those of the samples it was given. *)
From S2P Require Import Prelude AlertPolicy.

(** ** The registry *)

Lemma registry_builds : _build_registry ALERT_RULES = Ret (map (fun r => (r_signal r, r)) ALERT_RULES).
Proof. reflexivity. Qed.

Lemma policy_signal s : r_signal (ALERT_POLICY s) = s.
Proof. by destruct s. Qed.

Definition group (s : AlertSignal) : string := r_group (ALERT_POLICY s).

(** ** Candidates *)

(** A signal of the group is breached and concerns the state of the profile. *)
Definition incident (state g : string) (current : list (AlertSignal * bool)) : Prop :=
  exists s, (s, true) ∈ current /\ group s = g /\ eligible state (ALERT_POLICY s) true = true.

Lemma gset_rule_keys g r l : map fst (gset_rule g r l) = if bool_decide (g ∈ map fst l) then map fst l else map fst l ++ [g].
Proof.
  induction l as [|[k w] l IH]; [done|]. simpl. destruct (String.eqb_spec g k) as [->|Hne]; simpl.
  - rewrite bool_decide_eq_true_2; [done|]. left.
  - rewrite IH. repeat case_bool_decide; set_solver.
Qed.

Lemma gset_rule_elem g r l x : x ∈ gset_rule g r l -> x = (g, r) \/ x ∈ l.
Proof.
  induction l as [|[k w] l IH]; simpl; [set_solver|]. destruct (String.eqb_spec g k) as [->|Hne]; set_solver.
Qed.

Record candidates_ok (state : string) (current : list (AlertSignal * bool)) (l : list (string * AlertRule)) : Prop := {
  co_keys : NoDup (map fst l);
  co_rules : forall g r, (g, r) ∈ l -> r = ALERT_POLICY (r_signal r) /\ r_group r = g;
  co_groups : forall g, g ∈ map fst l <-> incident state g current;
}.

Lemma assoc_key {A} k (l : list (string * A)) : is_Some (assoc k l) <-> k ∈ map fst l.
Proof.
  induction l as [|[k' v] l IH]; simpl.
  - split; [by intros []|by intros ?%elem_of_nil].
  - destruct (String.eqb_spec k k') as [->|Hne].
    + split; [intros _; left|eauto].
    + rewrite IH. set_solver.
Qed.

Lemma add_candidate_ok state current l x : candidates_ok state current l -> candidates_ok state (current ++ [x]) (add_candidate state l x).
Proof.
  destruct x as [s b]. intros [Hk Hr Hg]. unfold add_candidate. simpl.
  assert (Hnew : forall g, incident state g (current ++ [(s, b)]) <->
    incident state g current \/ (g = group s /\ eligible state (ALERT_POLICY s) b = true)).
  { intros g. split.
    - intros (s' & Hin & Hgr & He). apply elem_of_app in Hin as [Hin|Hin]; [left; by exists s'|]. right.
      apply list_elem_of_singleton in Hin. by simplify_eq.
    - intros [(s' & Hin & Hgr & He)|[-> He]]; [exists s'; set_solver|]. exists s.
      assert (b = true) as -> by (unfold eligible in He; by destruct b; rewrite ?andb_false_r in He). set_solver. }
  destruct (eligible state (ALERT_POLICY s) b) eqn:He.
  2: { split; [done|done|]. intros g. rewrite Hnew, Hg. naive_solver. }
  assert (Hset : candidates_ok state (current ++ [(s, b)]) (gset_rule (group s) (ALERT_POLICY s) l)).
  { split.
    - rewrite gset_rule_keys. case_bool_decide; [done|]. apply NoDup_app. split_and!; [done|set_solver|apply NoDup_singleton].
    - intros g r [Hin|Hin]%gset_rule_elem; [|by apply Hr]. simplify_eq. by rewrite policy_signal.
    - intros g. rewrite Hnew, <- Hg, gset_rule_keys. case_bool_decide; set_solver. }
  destruct (assoc (r_group (ALERT_POLICY s)) l) as [sel|] eqn:Ea; [|done].
  destruct (r_priority sel <? r_priority (ALERT_POLICY s)); [done|]. split; [done|done|].
  intros g. rewrite Hnew, <- Hg. split; [auto|]. intros [?|[-> _]]; [done|]. apply assoc_key. by exists sel.
Qed.

Lemma candidates_spec state current : candidates_ok state current (candidates state current).
Proof.
  unfold candidates. induction current as [|x current IH] using rev_ind.
  - split; [constructor|by intros ? ? ?%elem_of_nil|]. intros g. split; [by intros ?%elem_of_nil|].
    by intros (? & ?%elem_of_nil & _).
  - rewrite foldl_app. simpl. by apply add_candidate_ok.
Qed.

(** ** Emissions *)

Record emitted (l : list (string * AlertRule)) (active : gset string) (last : Z)
    (es : list AlertEmission) (active' : gset string) (last' : Z) : Prop := {
  et_active : active' = active ∪ list_to_set (map fst l);
  et_signals : map em_signal es = map (fun x => r_signal (snd x)) (List.filter (fun x => negb (bool_decide (fst x ∈ active))) l);
  et_bounds : forall e, e ∈ es -> last < em_generation e <= last';
  et_last : last <= last';
  et_distinct : NoDup (map em_generation es);
}.

Lemma emit_spec l clock active last : NoDup (map fst l) ->
  let '(es, active', last') := emit clock l active last in emitted l active last es active' last'.
Proof.
  revert clock active last. induction l as [|[g r] l IH]; intros clock active last Hnd; simpl.
  - split; [set_solver|done|by intros ? ?%elem_of_nil|lia|constructor].
  - apply NoDup_cons in Hnd as [Hg Hnd]. case_bool_decide as Ha.
    + specialize (IH clock active last Hnd). destruct (emit clock l active last) as [[es active'] last'].
      destruct IH as [Hac Hs Hb Hl Hd]. split; try done; [set_solver|]. simpl. by rewrite bool_decide_eq_true_2.
    + specialize (IH (fun n => clock (S n)) ({[g]} ∪ active) (_generation (clock O) last) Hnd).
      destruct (emit _ l _ _) as [[es active'] last']. destruct IH as [Hac Hs Hb Hl Hd].
      assert (Hgen : last < _generation (clock O) last) by (unfold _generation; lia).
      split; [set_solver| | |lia|].
      * simpl. rewrite bool_decide_eq_false_2 by done. simpl. f_equal. rewrite Hs. f_equal.
        apply filter_ext_in. intros [k w] Hin. simpl. do 2 f_equal. apply bool_decide_ext.
        assert (k ∈ map fst l) by (apply list_elem_of_In, in_map_iff; by exists (k, w)). set_solver.
      * intros e [->|He]%elem_of_cons; [simpl; lia|]. specialize (Hb e He). lia.
      * simpl. apply NoDup_cons. split; [|done]. intros (e & Ee & He)%list_elem_of_fmap. specialize (Hb e He). lia.
Qed.

(** What an observation that returns does to the active groups. *)
Record alerted (p state : string) (e e' : evaluator) (es : list AlertEmission) : Prop := {
  al_active : forall g, g ∈ active_of e' p <-> incident state g (breached_of e' p);
  al_new : forall g, g ∈ map (fun x => group (em_signal x)) es <-> incident state g (breached_of e' p) /\ g ∉ active_of e p;
  al_once : NoDup (map (fun x => group (em_signal x)) es);
  al_bounds : forall x, x ∈ es -> _last_generation e < em_generation x <= _last_generation e';
  al_last : _last_generation e <= _last_generation e';
  al_distinct : NoDup (map em_generation es);
  al_others : forall q, q <> p -> active_of e' q = active_of e q;
}.

Lemma map_filter_groups state current (active : gset string) :
  map (fun x => group (r_signal (snd x))) (List.filter (fun x => negb (bool_decide (fst x ∈ active))) (candidates state current)) =
  List.filter (fun g => negb (bool_decide (g ∈ active))) (map fst (candidates state current)).
Proof.
  destruct (candidates_spec state current) as [_ Hr _]. revert Hr. generalize (candidates state current).
  induction l as [|[g r] l IH]; intros Hr; [done|]. simpl.
  assert (Hg : group (r_signal r) = g) by (destruct (Hr g r) as [Er <-]; [left|]; unfold group; by rewrite <- Er).
  case_bool_decide; simpl; rewrite IH by set_solver; [done|]. by rewrite Hg.
Qed.

Lemma emissions_spec p state clock e :
  let '(es, e') := emissions p state clock e in alerted p state e e' es /\ breached_of e' p = breached_of e p.
Proof.
  unfold emissions. set (cands := candidates state (breached_of e p)).
  set (act := filter _ (active_of e p)).
  destruct (candidates_spec state (breached_of e p)) as [Hk Hr Hg]. fold cands in Hk, Hr, Hg.
  pose proof (emit_spec cands clock act (_last_generation e) Hk) as H.
  destruct (emit clock cands act (_last_generation e)) as [[es active'] last']. destruct H as [Hac Hs Hb Hl Hd].
  assert (Hin : forall g, g ∈ act <-> g ∈ active_of e p /\ g ∈ map fst cands) by (intros g; unfold act; rewrite elem_of_filter; set_solver).
  assert (Hgr : map (fun x => group (em_signal x)) es = List.filter (fun g => negb (bool_decide (g ∈ act))) (map fst cands)).
  { unfold cands. rewrite <- map_filter_groups. fold cands. rewrite <- (map_map (fun x => r_signal (snd x)) group), <- Hs.
    by rewrite map_map. }
  assert (Hp : merge_sort by_value es ≡ₚ es) by apply merge_sort_Permutation. split; [|done]. split.
  - intros g. unfold active_of. simpl. rewrite lookup_insert_eq. simpl. rewrite Hac, elem_of_union, Hin, elem_of_list_to_set, Hg. tauto.
  - intros g. rewrite Hp, Hgr. change (breached_of _ p) with (breached_of e p) at 1. rewrite <- Hg, list_elem_of_In, filter_In, <- list_elem_of_In.
    rewrite negb_true_iff, bool_decide_eq_false, Hin. tauto.
  - rewrite Hp, Hgr. by apply NoDup_ListNoDup, List.NoDup_filter, NoDup_ListNoDup.
  - intros x. rewrite Hp. apply Hb.
  - done.
  - by rewrite Hp.
  - intros q Hq. unfold active_of. simpl. by rewrite lookup_insert_ne.
Qed.

(** *** The signals leave the alerts alone *)

Definition same_alerts (e e' : evaluator) : Prop := _active_groups e' = _active_groups e /\ _last_generation e' = _last_generation e.

Lemma same_alerts_mspt p now v e : same_alerts e (observe_mspt p now v e).
Proof. by destruct v. Qed.
Lemma same_alerts_rss p now v e : same_alerts e (observe_rss p now v e).
Proof. destruct v; [|done]. unfold observe_rss. by repeat case_match. Qed.
Lemma same_alerts_wake p s v e : same_alerts e (observe_wake p s v e).
Proof. unfold observe_wake. by repeat case_match. Qed.

Lemma same_alerts_trans e1 e2 e3 : same_alerts e1 e2 -> same_alerts e2 e3 -> same_alerts e1 e3.
Proof. unfold same_alerts. intros [-> ->] [-> ->]. done. Qed.

Lemma alerted_same p state e1 e2 e3 es : same_alerts e1 e2 -> alerted p state e2 e3 es -> alerted p state e1 e3 es.
Proof.
  intros [Ha Hl]. assert (Hp : forall q, active_of e2 q = active_of e1 q) by (intros q; unfold active_of; by rewrite Ha).
  intros [H1 H2 H3 H4 H5 H6 H7]. rewrite Hl in H4, H5. setoid_rewrite Hp in H7. rewrite Hp in H2. by split.
Qed.

Lemma observe_spec o e :
  match observe o e with
  | (Ret es, e') => alerted (o_profile o) (o_state o) e e' es
  | (Raise _, e') => same_alerts e e'
  end.
Proof.
  unfold observe. destruct (negb (valid_profile _)); [done|]. destruct (_finite (o_now o)) as [[now|]|]; [|done..].
  assert (H : match (if negb (String.eqb (o_state o) "running") then (Ret tt, clear_runtime (o_profile o) e)
          else match _finite (o_mspt o) with
               | Raise x => (Raise x, e)
               | Ret mspt =>
                   match _finite (o_rss o) with
                   | Raise x => (Raise x, observe_mspt (o_profile o) now mspt e)
                   | Ret rss => (Ret tt, observe_rss (o_profile o) now rss (observe_mspt (o_profile o) now mspt e))
                   end
               end) with (_, e') => same_alerts e e' end).
  { destruct (negb _); [done|]. destruct (_finite (o_mspt o)) as [mspt|]; [|done].
    destruct (_finite (o_rss o)) as [rss|]; [|apply same_alerts_mspt].
    eapply same_alerts_trans; [apply same_alerts_mspt|apply same_alerts_rss]. }
  destruct (if negb _ then _ else _) as [[[]|x] e1]; [|done]. destruct (_finite (o_wake o)) as [wake|]; [|done].
  assert (H2 : same_alerts e (observe_wake (o_profile o) (o_state o) wake e1)) by (eapply same_alerts_trans; [exact H|apply same_alerts_wake]).
  assert (Hlast : forall e2, same_alerts e e2 ->
    match (let '(es, e') := emissions (o_profile o) (o_state o) (o_clock o) e2 in (Ret es, e')) with
    | (Ret es, e') => alerted (o_profile o) (o_state o) e e' es
    | (Raise _, e') => same_alerts e e'
    end).
  { intros e2 He. pose proof (emissions_spec (o_profile o) (o_state o) (o_clock o) e2) as Hem.
    destruct (emissions _ _ _ e2) as [es e']. eapply alerted_same; [exact He|]. apply Hem. }
  destruct (o_bench o) as [|b|]; [by apply Hlast| |done]. apply Hlast. eapply same_alerts_trans; [exact H2|done].
Qed.

(** ** Runs *)

Fixpoint run (l : list observation) (e : evaluator) : list (observation * res (list AlertEmission) * evaluator) :=
  match l with
  | [] => []
  | o :: l' => let '(r, e') := observe o e in (o, r, e') :: run l' e'
  end.

(** The alert of a group of a profile among the answers of one observation. *)
Definition alerts (p g : string) (x : observation * res (list AlertEmission) * evaluator) : Prop :=
  let '(o, r, _) := x in o_profile o = p /\ exists es, r = Ret es /\ g ∈ map (fun em => group (em_signal em)) es.

(** An observation of the profile that returned and found nothing wrong in the group. *)
Definition recovered (p g : string) (x : observation * res (list AlertEmission) * evaluator) : Prop :=
  let '(o, r, e) := x in o_profile o = p /\ (exists es, r = Ret es) /\ ~ incident (o_state o) g (breached_of e p).

Definition answers (x : observation * res (list AlertEmission) * evaluator) : list AlertEmission :=
  match x with (_, Ret es, _) => es | _ => [] end.

(** While the group stays active no alert of it is sent. *)
Lemma active_silent p g l e i x :
  g ∈ active_of e p -> run l e !! i = Some x -> alerts p g x ->
  exists k y, (k < i)%nat /\ run l e !! k = Some y /\ recovered p g y.
Proof.
  revert e i. induction l as [|o l IH]; intros e i Ha Hi Hx; [done|]. simpl in Hi |- *.
  pose proof (observe_spec o e) as Ho. destruct (observe o e) as [r e'] eqn:E. destruct i as [|i].
  - simpl in Hi. injection Hi as <-. destruct Hx as (<- & es & -> & Hg). apply Ho in Hg. tauto.
  - simpl in Hi.
    assert (Hstep : g ∈ active_of e' p \/ recovered p g (o, r, e')).
    { destruct r as [es|x'].
      - destruct (decide (o_profile o = p)) as [<-|Hne].
        + destruct (decide (g ∈ active_of e' (o_profile o))) as [|Hn]; [by left|]. right. rewrite (al_active _ _ _ _ _ Ho) in Hn.
          split_and!; [done|eauto|done].
        + left. by rewrite (al_others _ _ _ _ _ Ho) by congruence.
      - left. destruct Ho as [Ho _]. unfold active_of in *. by rewrite Ho. }
    destruct Hstep as [Hstep|Hstep].
    + destruct (IH e' i Hstep Hi Hx) as (k & y & Hk & Hy & Hr). exists (S k), y. split; [lia|done].
    + exists O, (o, r, e'). split; [lia|done].
Qed.

Lemma run_generations l e : forall i x, run l e !! i = Some x -> forall em, em ∈ answers x -> _last_generation e < em_generation em.
Proof.
  revert e. induction l as [|o l IH]; intros e i x Hi; [done|]. simpl in Hi.
  pose proof (observe_spec o e) as Ho. destruct (observe o e) as [r e']. intros em Hem. destruct i as [|i]; simpl in Hi.
  - injection Hi as <-. destruct r as [es|]; [|by apply elem_of_nil in Hem]. simpl in Hem. pose proof (al_bounds _ _ _ _ _ Ho em Hem). lia.
  - specialize (IH e' i x Hi em Hem). destruct r as [es|]; [destruct Ho|destruct Ho as [_ Ho]]; lia.
Qed.

Lemma run_ordered l e i j x y : (i < j)%nat -> run l e !! i = Some x -> run l e !! j = Some y ->
  forall a b, a ∈ answers x -> b ∈ answers y -> em_generation a < em_generation b.
Proof.
  revert e i j. induction l as [|o l IH]; intros e i j Hij Hi Hj; [done|]. simpl in Hi, Hj.
  pose proof (observe_spec o e) as Ho. destruct (observe o e) as [r e']. destruct j as [|j]; [lia|]. simpl in Hj. destruct i as [|i].
  - injection Hi as <-. intros a b Ha Hb. destruct r as [es|]; [|by apply elem_of_nil in Ha]. simpl in Ha.
    pose proof (al_bounds _ _ _ _ _ Ho a Ha). pose proof (run_generations l e' j y Hj b Hb). lia.
  - apply (IH e'  i j); [lia|done|done].
Qed.

Lemma run_incidents l e i j x y p g : (i < j)%nat -> run l e !! i = Some x -> run l e !! j = Some y ->
  alerts p g x -> alerts p g y -> exists k z, (i < k < j)%nat /\ run l e !! k = Some z /\ recovered p g z.
Proof.
  revert e i j. induction l as [|o l IH]; intros e i j Hij Hi Hj Hx Hy; [done|]. simpl in Hi, Hj |- *.
  pose proof (observe_spec o e) as Ho. destruct (observe o e) as [r e']. destruct j as [|j]; [lia|]. simpl in Hj. destruct i as [|i].
  - simpl in Hi. injection Hi as <-. destruct Hx as (<- & es & -> & Hg). apply Ho in Hg as [Hg _].
    apply (al_active _ _ _ _ _ Ho) in Hg. destruct (active_silent _ _ _ _ _ _ Hg Hj Hy) as (k & z & Hk & Hz & Hr).
    exists (S k), z. split; [lia|done].
  - destruct (IH e' i j ltac:(lia) Hi Hj Hx Hy) as (k & z & Hk & Hz & Hr). exists (S k), z. split; [lia|done].
Qed.

(** C33.  An incident is alerted once.  Over any sequence of observations of any
    profiles, with any values, malformed ones included, and any clock: between two
    alerts of one group for one profile there is an observation of that profile in
    which no signal of the group was breached and relevant; and the generations of
    the alerts grow from observation to observation, also when the clock goes
    back. *)
Theorem alerts_once_per_incident l i j x y :
  (i < j)%nat -> run l new_evaluator !! i = Some x -> run l new_evaluator !! j = Some y ->
  (forall p g, alerts p g x -> alerts p g y ->
     exists k z, (i < k < j)%nat /\ run l new_evaluator !! k = Some z /\ recovered p g z) /\
  (forall a b, a ∈ answers x -> b ∈ answers y -> em_generation a < em_generation b).
Proof.
  intros Hij Hx Hy. split; [|by eapply run_ordered]. intros p g. by apply (run_incidents l new_evaluator i j x y p g).
Qed.

(** A new incident is alerted at once: an observation that returns answers with
    exactly one alert for every group that has a breached signal relevant for the
    state of the profile and was not active for it, whatever was observed before. *)
Theorem new_incidents_are_alerted o e es e' :
  observe o e = (Ret es, e') ->
  (forall g, g ∈ map (fun em => group (em_signal em)) es <->
     incident (o_state o) g (breached_of e' (o_profile o)) /\ g ∉ active_of e (o_profile o)) /\
  NoDup (map (fun em => group (em_signal em)) es) /\ NoDup (map em_generation es) /\
  (forall g, g ∈ active_of e' (o_profile o) <-> incident (o_state o) g (breached_of e' (o_profile o))).
Proof.
  intros E. pose proof (observe_spec o e) as H. rewrite E in H. destruct H as [H1 H2 H3 H4 H5 H6 H7]. by split_and!.
Qed.
