(* ===== verification/AlertWindows.v ===== *)
(** The window of tick-time samples the evaluator keeps is the one the samples
    themselves define. *)
From S2P Require Import Prelude AlertPolicy AlertPolicyFacts.

(** ** Windows of time-ordered samples *)

Definition in_order : list (Z * Z) -> Prop := StronglySorted (fun a b => fst a <= fst b).
Definition since (b : Z) : list (Z * Z) -> list (Z * Z) := List.filter (fun x => b <=? fst x).
Definition lastn (n : nat) (l : list (Z * Z)) : list (Z * Z) := drop (length l - n) l.

Lemma since_all b l : (forall x, x ∈ l -> b <= fst x) -> since b l = l.
Proof.
  induction l as [|x l IH]; intros H; [done|]. unfold since in *. simpl.
  rewrite (proj2 (Z.leb_le b (fst x))) by (apply H; left). f_equal. apply IH. intros y Hy. apply H. by right.
Qed.

Lemma in_order_head x l : in_order (x :: l) -> forall y, y ∈ x :: l -> fst x <= fst y.
Proof. intros [Hs Hf]%StronglySorted_inv y [->|Hy]%elem_of_cons; [lia|]. by eapply Forall_forall in Hf. Qed.

Lemma trim_since b l x : in_order (l ++ [x]) -> b <= fst x -> trim b (l ++ [x]) = since b (l ++ [x]).
Proof.
  induction l as [|y l IH]; intros Hs Hb.
  - unfold since. simpl. by rewrite (proj2 (Z.leb_le b (fst x))).
  - simpl in Hs. destruct (l ++ [x]) as [|z r] eqn:E; [by destruct l|]. simpl. rewrite E. simpl.
    destruct (Z.ltb_spec (fst y) b) as [Hy|Hy].
    + rewrite (proj2 (Z.leb_gt b (fst y))) by lia. apply IH; [|done]. by apply StronglySorted_inv in Hs as [? _].
    + rewrite (proj2 (Z.leb_le b (fst y))) by lia. f_equal. symmetry. change (since b (z :: r) = z :: r).
      apply since_all. intros w Hw. transitivity (fst y); [done|]. eapply in_order_head; [exact Hs|]. by right.
Qed.

Lemma length_since b l : (length (since b l) <= length l)%nat.
Proof. apply List.filter_length_le. Qed.

Lemma lastn_all n l : (length l <= n)%nat -> lastn n l = l.
Proof. intros H. unfold lastn. replace (length l - n)%nat with O by lia. done. Qed.

Lemma lastn_cons n x l : (n <= length l)%nat -> lastn n (x :: l) = lastn n l.
Proof. intros H. unfold lastn. simpl length. by replace (S (length l) - n)%nat with (S (length l - n)) by lia. Qed.

Lemma lastn_elem n l x : x ∈ lastn n l -> x ∈ l.
Proof. unfold lastn. intros H. rewrite <- (take_drop (length l - n) l). apply elem_of_app. by right. Qed.

Lemma since_lastn b n l : in_order l -> since b (lastn n l) = lastn n (since b l).
Proof.
  induction l as [|x l IH]; intros Hs; [done|]. destruct (Z.leb_spec b (fst x)) as [Hb|Hb].
  - assert (Hall : forall y, y ∈ x :: l -> b <= fst y) by (intros y Hy; pose proof (in_order_head _ _ Hs y Hy); lia).
    rewrite (since_all b (x :: l)) by done. apply since_all. intros y Hy. by apply Hall, (lastn_elem n).
  - assert (E : since b (x :: l) = since b l) by (unfold since; simpl; by rewrite (proj2 (Z.leb_gt b (fst x)))). rewrite E.
    destruct (decide (n <= length l)%nat) as [Hn|Hn].
    + rewrite lastn_cons by done. apply IH. by apply StronglySorted_inv in Hs as [? _].
    + rewrite !lastn_all by (simpl; pose proof (length_since b l); lia). done.
Qed.

Lemma lastn_app n l x : (0 < n)%nat -> lastn n (lastn n l ++ [x]) = lastn n (l ++ [x]).
Proof.
  intros Hn. destruct (decide (length l <= n)%nat) as [H|H]; [by rewrite (lastn_all n l)|].
  assert (Hl : length (lastn n l) = n) by (unfold lastn; rewrite length_drop; lia).
  assert (E : l ++ [x] = take (length l - n) l ++ (lastn n l ++ [x])) by (unfold lastn; by rewrite app_assoc, take_drop).
  rewrite E. generalize dependent (lastn n l). intros t Hl _. unfold lastn. rewrite !length_app, length_take, Hl. simpl.
  rewrite (drop_app_ge (take _ _)) by (rewrite length_take; lia). rewrite length_take. f_equal. lia.
Qed.

Lemma since_since a b l : a <= b -> since b (since a l) = since b l.
Proof.
  intros H. induction l as [|x l IH]; [done|]. unfold since in *. simpl. destruct (Z.leb_spec a (fst x)) as [Ha|Ha]; simpl.
  - by rewrite IH.
  - rewrite IH. destruct (Z.leb_spec b (fst x)); [lia|done].
Qed.

Lemma in_order_suffix l1 l2 : in_order (l1 ++ l2) -> in_order l2.
Proof. induction l1 as [|x l1 IH]; [done|]. intros [H _]%StronglySorted_inv. by apply IH. Qed.

Lemma in_order_since b l x : in_order (l ++ [x]) -> in_order (since b l ++ [x]).
Proof.
  induction l as [|y l IH]; [done|]. intros [Hs Hf]%StronglySorted_inv. unfold since. simpl.
  destruct (b <=? fst y); [|by apply IH]. simpl. constructor; [by apply IH|]. apply Forall_forall. intros z Hz.
  eapply Forall_forall in Hf; [exact Hf|]. apply elem_of_app in Hz as [Hz|Hz]; apply elem_of_app; [left|by right].
  apply list_elem_of_In, filter_In in Hz as [Hz _]. by apply list_elem_of_In.
Qed.

Definition horizon (now : Z) : Z := now - MSPT_SUSTAINED_SECONDS - SUSTAINED_SPAN_TOLERANCE_SECONDS.

(** The newest samples, at most [MAX_RUNTIME_SAMPLES], not older than the horizon. *)
Definition window (now : Z) (h : list (Z * Z)) : list (Z * Z) := lastn MAX_RUNTIME_SAMPLES (since (horizon now) h).

Lemma window_step now prev v h : prev <= now -> in_order (h ++ [(now, v)]) ->
  trim (horizon now) (push (now, v) (window prev h)) = window now (h ++ [(now, v)]).
Proof.
  intros Hp Hs. unfold push, window. set (a := since (horizon prev) h).
  change (drop _ (lastn MAX_RUNTIME_SAMPLES a ++ [(now, v)])) with (lastn MAX_RUNTIME_SAMPLES (lastn MAX_RUNTIME_SAMPLES a ++ [(now, v)])).
  rewrite lastn_app by (unfold MAX_RUNTIME_SAMPLES; lia).
  assert (Ho : in_order (a ++ [(now, v)])) by by apply in_order_since.
  assert (E : exists k, lastn MAX_RUNTIME_SAMPLES (a ++ [(now, v)]) = drop k a ++ [(now, v)] /\ (k <= length a)%nat).
  { exists (length (a ++ [(now, v)]) - MAX_RUNTIME_SAMPLES)%nat.
    assert (length (a ++ [(now, v)]) - MAX_RUNTIME_SAMPLES <= length a)%nat by (rewrite length_app; simpl; unfold MAX_RUNTIME_SAMPLES; lia).
    split; [|done]. unfold lastn. by rewrite drop_app_le. }
  assert (Hh : horizon now <= now).
  { unfold horizon, MSPT_SUSTAINED_SECONDS, SUSTAINED_SPAN_TOLERANCE_SECONDS, fl. pose proof fscale_pos. lia. }
  destruct E as (k & E & Hk). rewrite E, trim_since, <- E; [|..|done].
  - rewrite since_lastn by done. f_equal. unfold since at 1. rewrite List.filter_app. fold (since (horizon now) a).
    unfold a. rewrite since_since by (unfold horizon; lia). unfold since. by rewrite List.filter_app.
  - apply (in_order_suffix (take k a)). by rewrite app_assoc, take_drop.
Qed.

(** ** The samples of a profile *)

(** What an observation does to the tick-time samples of its profile: nothing, start
    again, or add one. *)
Inductive feed := Keep | Restart | Sample (now mspt : Z).

Definition feed_of (o : observation) : feed :=
  if negb (valid_profile (o_profile o)) then Keep
  else match _finite (o_now o) with
       | Ret (Some now) =>
           if negb (String.eqb (o_state o) "running") then Restart
           else match _finite (o_mspt o) with Ret (Some v) => Sample now v | _ => Keep end
       | _ => Keep
       end.

(** The samples since the profile was last seen not running. *)
Definition add_feed (p : string) (h : list (Z * Z)) (o : observation) : list (Z * Z) :=
  if String.eqb (o_profile o) p then
    match feed_of o with Keep => h | Restart => [] | Sample now v => h ++ [(now, v)] end
  else h.
Definition history (p : string) (l : list observation) : list (Z * Z) := foldl (add_feed p) [] l.

Definition final (l : list observation) : evaluator := foldl (fun e o => snd (observe o e)) new_evaluator l.

(** *** Only [observe_mspt] and [clear_runtime] touch them *)

Lemma mspt_rss p now v e : _mspt (observe_rss p now v e) = _mspt e.
Proof. destruct v; [|done]. unfold observe_rss. by repeat case_match. Qed.
Lemma mspt_wake p s v e : _mspt (observe_wake p s v e) = _mspt e.
Proof. unfold observe_wake. by repeat case_match. Qed.
Lemma mspt_emissions p s c e : _mspt (snd (emissions p s c e)) = _mspt e.
Proof. unfold emissions. by destruct (emit _ _ _ _) as [[es act] last]. Qed.

Lemma sget_sset_ne {A} s s' (v : A) l : s <> s' -> sget s (sset s' v l) = sget s l.
Proof.
  intros H. induction l as [|[k w] l IH]; simpl; [by rewrite bool_decide_eq_false_2|].
  case_bool_decide; subst; simpl; [by rewrite !(bool_decide_eq_false_2 (s = k))|]. by rewrite IH.
Qed.
Lemma sget_sset_eq {A} s (v : A) l : sget s (sset s v l) = Some v.
Proof.
  induction l as [|[k w] l IH]; simpl; [by rewrite bool_decide_eq_true_2|].
  case_bool_decide; simpl; [by rewrite bool_decide_eq_true_2|]. by rewrite bool_decide_eq_false_2.
Qed.

Definition mspt_flag (e : evaluator) (p : string) : option bool := sget SUSTAINED_MSPT (breached_of e p).

Lemma flag_set p s b e : s <> SUSTAINED_MSPT -> mspt_flag (set_breached p s b e) p = mspt_flag e p.
Proof. intros H. unfold mspt_flag, breached_of at 1. simpl. rewrite lookup_insert_eq. simpl. by apply sget_sset_ne. Qed.
Lemma flag_peak p f e : mspt_flag (with_peak f e) p = mspt_flag e p.
Proof. done. Qed.
Lemma flag_rss p now v e : mspt_flag (observe_rss p now v e) p = mspt_flag e p.
Proof. destruct v; [|done]. unfold observe_rss. repeat case_match; by rewrite ?flag_peak, flag_set. Qed.
Lemma flag_wake p s v e : mspt_flag (observe_wake p s v e) p = mspt_flag e p.
Proof. unfold observe_wake. repeat case_match; try done; by apply flag_set. Qed.
Lemma flag_emissions p s c e : mspt_flag (snd (emissions p s c e)) p = mspt_flag e p.
Proof. unfold emissions. by destruct (emit _ _ _ _) as [[es act] last]. Qed.

(** The rest of an observation, after the runtime signals. *)
Lemma observe_runtime o e now : valid_profile (o_profile o) = true -> _finite (o_now o) = Ret (Some now) ->
  let e1 := if negb (String.eqb (o_state o) "running") then clear_runtime (o_profile o) e
            else match _finite (o_mspt o) with Ret v => observe_mspt (o_profile o) now v e | Raise _ => e end in
  _mspt (snd (observe o e)) = _mspt e1 /\ mspt_flag (snd (observe o e)) (o_profile o) = mspt_flag e1 (o_profile o).
Proof.
  intros Hv Hn e1. unfold observe. rewrite Hv, Hn. simpl.
  assert (Hrest : forall (r : res unit) e2, _mspt e2 = _mspt e1 -> mspt_flag e2 (o_profile o) = mspt_flag e1 (o_profile o) ->
    forall x, x = snd (match r with
        | Raise x => (Raise x, e2)
        | Ret _ => match _finite (o_wake o) with
            | Raise x => (Raise x, e2)
            | Ret wake =>
                let e := observe_wake (o_profile o) (o_state o) wake e2 in
                match o_bench o with
                | BOther => (Raise (ValueError "invalid benchmark regression state"), e)
                | b =>
                    let e := match b with BBool b => set_breached (o_profile o) BENCHMARK_REGRESSION b e | _ => e end in
                    let '(es, e) := emissions (o_profile o) (o_state o) (o_clock o) e in (Ret es, e)
                end
            end
        end) -> _mspt x = _mspt e1 /\ mspt_flag x (o_profile o) = mspt_flag e1 (o_profile o)).
  { intros r e2 Hm Hf x ->. destruct r as [[]|]; [|done]. destruct (_finite (o_wake o)) as [wake|]; [|done]. cbv zeta.
    set (e3 := observe_wake _ _ _ e2).
    assert (Hm3 : _mspt e3 = _mspt e1) by (unfold e3; by rewrite mspt_wake).
    assert (Hf3 : mspt_flag e3 (o_profile o) = mspt_flag e1 (o_profile o)) by (unfold e3; by rewrite flag_wake).
    assert (Hem : forall e4, _mspt e4 = _mspt e1 -> mspt_flag e4 (o_profile o) = mspt_flag e1 (o_profile o) ->
      let x := snd (let '(es, e) := emissions (o_profile o) (o_state o) (o_clock o) e4 in (Ret es, e)) in
      _mspt x = _mspt e1 /\ mspt_flag x (o_profile o) = mspt_flag e1 (o_profile o)).
    { intros e4 H1 H2. pose proof (mspt_emissions (o_profile o) (o_state o) (o_clock o) e4).
      pose proof (flag_emissions (o_profile o) (o_state o) (o_clock o) e4). destruct (emissions _ _ _ e4). simpl in *. split; congruence. }
    destruct (o_bench o) as [|b|]; [by apply Hem| |done]. apply Hem; [done|]. rewrite flag_set; done. }
  unfold e1. destruct (negb (String.eqb (o_state o) "running")) eqn:Er; simpl.
  - by eapply (Hrest (Ret tt) (clear_runtime (o_profile o) e)); unfold e1; rewrite ?Er.
  - destruct (_finite (o_mspt o)) as [v|] eqn:Ev; [|done]. destruct (_finite (o_rss o)) as [rss|] eqn:Ers; [|done].
    eapply (Hrest (Ret tt) (observe_rss (o_profile o) now rss (observe_mspt (o_profile o) now v e)));
      unfold e1; rewrite ?Er, ?Ev; [apply mspt_rss|apply flag_rss|done].
Qed.

Lemma observe_mspt_map o e : _mspt (snd (observe o e)) =
  match feed_of o with
  | Keep => _mspt e
  | Restart => delete (o_profile o) (_mspt e)
  | Sample now v => <[o_profile o := trim (horizon now) (push (now, v) (samples_of (_mspt e) (o_profile o)))]> (_mspt e)
  end.
Proof.
  unfold feed_of. destruct (valid_profile (o_profile o)) eqn:Hv; [|by unfold observe; rewrite Hv].
  destruct (_finite (o_now o)) as [[now|]|] eqn:Hn; [|by unfold observe; rewrite Hv, Hn..]. simpl.
  destruct (observe_runtime o e now Hv Hn) as [-> _]. destruct (negb _); [done|].
  by destruct (_finite (o_mspt o)) as [[v|]|].
Qed.

Lemma samples_are_windowed p l : in_order (history p l) ->
  samples_of (_mspt (final l)) p = match last (history p l) with Some x => window (fst x) (history p l) | None => [] end.
Proof.
  induction l as [|o l IH] using rev_ind; [done|]. unfold history, final in *. rewrite !foldl_app. simpl.
  fold (history p l) in *. fold (final l) in *. unfold add_feed. unfold samples_of in *. rewrite observe_mspt_map.
  destruct (String.eqb_spec (o_profile o) p) as [<-|Hne].
  - destruct (feed_of o) as [| |now v]; [done|by rewrite lookup_delete_eq|]. intros Hs.
    rewrite lookup_insert_eq, last_snoc. simpl.
    assert (Hh : in_order (history (o_profile o) l)).
    { clear -Hs. revert Hs. generalize (history (o_profile o) l). intros h Hs. induction h as [|x h IH]; [constructor|].
      apply StronglySorted_inv in Hs as [Hs Hf]. constructor; [by apply IH|]. by apply Forall_app in Hf as [? _]. }
    unfold samples_of. rewrite (IH Hh). destruct (history (o_profile o) l) as [|x h _] using rev_ind.
    + symmetry. rewrite <- (window_step now now v []); [done|lia|done].
    + rewrite last_snoc. apply window_step; [|done]. rewrite <- app_assoc in Hs. apply (in_order_suffix h) in Hs.
      apply (in_order_head x [(now, v)] Hs (now, v)). right. left.
  - intros Hs. rewrite <- (IH Hs). destruct (feed_of o); [done|by rewrite lookup_delete_ne|by rewrite lookup_insert_ne].
Qed.

(** C34.  Tick-time pressure is what the samples say.  After any observations, malformed
    ones included, when the tick times of a running profile came in time order: an
    observation with a tick time marks the pressure as sustained exactly when the
    samples since the profile was last seen not running, of the last 35 seconds and
    at most the newest 256, are at least four, reach 30 seconds back, and are all at
    50 ms or more.  The pruning of the deque loses and keeps nothing else. *)
Theorem sustained_mspt_is_windowed l o now v :
  feed_of o = Sample now v -> let p := o_profile o in
  let h := history p (l ++ [o]) in in_order h ->
  let w := window now h in
  mspt_flag (snd (observe o (final l))) p = Some true <->
    (MSPT_MIN_SAMPLES <= length w)%nat /\ (exists x, x ∈ w /\ fst x <= now - MSPT_SUSTAINED_SECONDS) /\
    (forall x, x ∈ w -> MSPT_P95_THRESHOLD_MS <= snd x).
Proof.
  intros Hf p h Hs w. pose proof (samples_are_windowed p (l ++ [o]) Hs) as Hw. fold h in Hw.
  assert (Hh : h = history p l ++ [(now, v)]).
  { unfold h, history. rewrite foldl_app. simpl. unfold add_feed. by rewrite String.eqb_refl, Hf. }
  rewrite Hh, last_snoc in Hw. simpl in Hw. rewrite <- Hh in Hw. fold w in Hw.
  unfold final in Hw. rewrite foldl_app in Hw. simpl in Hw. fold (final l) in Hw.
  assert (E : mspt_flag (snd (observe o (final l))) p = Some (sustained now w)).
  { unfold feed_of in Hf. destruct (valid_profile (o_profile o)) eqn:Hv; [|done].
    destruct (_finite (o_now o)) as [[n|]|] eqn:Hn; [|done..]. simpl in Hf. destruct (negb _) eqn:Er; [done|].
    destruct (_finite (o_mspt o)) as [[v'|]|] eqn:Ev; [|done..]. injection Hf as -> ->.
    destruct (observe_runtime o (final l) now Hv Hn) as [Hm Hfl]. fold p in Hfl. rewrite Hfl. rewrite Hm in Hw.
    rewrite Er, Ev in Hw |- *. unfold observe_mspt in Hw |- *. unfold mspt_flag, breached_of at 1. simpl.
    rewrite lookup_insert_eq. simpl. rewrite sget_sset_eq. f_equal. f_equal. unfold samples_of at 1 in Hw. simpl in Hw. fold p in Hw.
    rewrite lookup_insert_eq in Hw. exact Hw. }
  rewrite E. unfold sustained. rewrite <- Hw at 1. clear E.
  assert (Hsw : in_order w).
  { unfold w, window. apply (in_order_suffix (take (length (since (horizon now) h) - MAX_RUNTIME_SAMPLES) (since (horizon now) h))).
    unfold lastn. rewrite take_drop. clear -Hs. induction h as [|x h IH]; [done|]. apply StronglySorted_inv in Hs as [Hs Hf].
    unfold since. simpl. destruct (_ <=? _); [|by apply IH]. constructor; [by apply IH|]. apply Forall_forall. intros y Hy.
    apply list_elem_of_In, filter_In in Hy as [Hy _]. eapply Forall_forall in Hf; [exact Hf|by apply list_elem_of_In]. }
  rewrite Hw. destruct w as [|x w].
  - split; [by intros ?|]. intros (Hlen & _). unfold MSPT_MIN_SAMPLES in Hlen. simpl in Hlen. lia.
  - rewrite (inj_iff Some), !andb_true_iff, Nat.leb_le, Z.leb_le, forallb_forall. setoid_rewrite Z.leb_le. setoid_rewrite list_elem_of_In.
    split.
    + intros [[Hl Hx] Ha]. split_and!; [done| |done]. exists x. split; [by left|done].
    + intros (Hl & (y & Hy & Hyt) & Ha). split_and!; [done| |done].
      pose proof (in_order_head _ _ Hsw y ltac:(by apply list_elem_of_In)). lia.
Qed.

(** ** Concrete observations *)

Definition seen (t : Z) (mspt : pynum) (b : bool) : observation :=
  Obs "sunlit" "running" (PInt t) mspt PNone PNone (BBool b) (fun _ => 5).

Definition slow (t : Z) : observation := seen t (PInt 60) false.

(** Twice the same regression, with a recovery between; the clock stands still. *)
Definition relapse : list observation := [seen 0 PNone true; seen 1 PNone true; seen 2 PNone false; seen 3 PNone true].

Lemma alerts_once_per_incident_witness :
  (exists a b, map answers (run relapse new_evaluator) = [[mkEmission BENCHMARK_REGRESSION a]; []; []; [mkEmission BENCHMARK_REGRESSION b]] /\ a < b) /\
  exists k z, (0 < k < 3)%nat /\ run relapse new_evaluator !! k = Some z /\ recovered "sunlit" "benchmark" z.
Proof.
  assert (E : map answers (run relapse new_evaluator) = [[mkEmission BENCHMARK_REGRESSION 5]; []; []; [mkEmission BENCHMARK_REGRESSION 6]])
    by (vm_compute; reflexivity).
  destruct (run relapse new_evaluator) as [|x [|y [|z [|w [|]]]]] eqn:R; try discriminate E. simpl in E. injection E as Ex Ey Ez Ew.
  destruct (alerts_once_per_incident relapse 0 3 x w ltac:(lia) ltac:(by rewrite R) ltac:(by rewrite R)) as [Hi Hg].
  split.
  - exists 5, 6. split; [simpl; by rewrite Ex, Ey, Ez, Ew|]. apply (Hg (mkEmission BENCHMARK_REGRESSION 5) (mkEmission BENCHMARK_REGRESSION 6)).
    + rewrite Ex. left.
    + rewrite Ew. left.
  - rewrite <- R. apply Hi; clear Hi Hg; vm_compute in R; injection R as <- _ _ <-; (split; [done|]); eexists; (split; [done|]); left.
Defined.

Lemma new_incidents_are_alerted_witness :
  exists es e', observe (seen 0 PNone true) new_evaluator = (Ret es, e') /\
    ("benchmark"%string ∈ map (fun em => group (em_signal em)) es) /\ NoDup (map em_generation es).
Proof.
  destruct (observe (seen 0 PNone true) new_evaluator) as [r e'] eqn:E. destruct r as [es|]; [|by vm_compute in E]. exists es, e'.
  destruct (new_incidents_are_alerted (seen 0 PNone true) new_evaluator es e' E) as (Hn & _ & Hd & _).
  split_and!; [done| |done]. apply Hn. split; [|set_solver]. exists BENCHMARK_REGRESSION.
  vm_compute in E. injection E as _ <-. split; [left|done].
Defined.

Lemma sustained_mspt_is_windowed_witness :
  let l := [slow 0; slow 10; slow 20; seen 25 PNone false] in
  mspt_flag (snd (observe (slow 30) (final l))) "sunlit" = Some true.
Proof.
  pose proof (sustained_mspt_is_windowed [slow 0; slow 10; slow 20; seen 25 PNone false] (slow 30) (fl 30) (fl 60) eq_refl) as H.
  cbv zeta in H. apply H; clear H.
  - vm_compute. repeat constructor; by vm_compute.
  - split_and!.
    + vm_compute. lia.
    + exists (fl 0, fl 60). split; [vm_compute; left|by vm_compute].
    + assert (Hb : forallb (fun x => MSPT_P95_THRESHOLD_MS <=? snd x) (window (fl 30)
        (history "sunlit" ([slow 0; slow 10; slow 20; seen 25 PNone false] ++ [slow 30]))) = true) by (vm_compute; reflexivity).
      intros x Hx. rewrite forallb_forall in Hb. apply Z.leb_le, Hb, list_elem_of_In, Hx.
Defined.
