(* ===== verification/Tree.v ===== *)
(** File trees: nodes with their attributes, lookup and change at a path, uniform
    changes of attributes and checks over a whole tree. *)
From S2P Require Import Prelude.

Record attr := Attr {
  a_dev : Z;
  a_ino : Z;
  a_uid : Z;
  a_gid : Z;
  a_mode : Z;
  a_nlink : Z;
}.

Inductive node :=
  | File (a : attr) (content : string)
  | Dir (a : attr) (children : list (string * node))
  | Link (a : attr) (target : string)
  | Special (a : attr).

Definition node_attr (n : node) : attr :=
  match n with File a _ | Dir a _ | Link a _ | Special a => a end.

Definition owner (a : attr) : Z * Z := (a_uid a, a_gid a).
Definition set_owner (u g : Z) (m : Z) (a : attr) : attr := Attr (a_dev a) (a_ino a) u g m (a_nlink a).
Definition set_mode (m : Z) (a : attr) : attr := Attr (a_dev a) (a_ino a) (a_uid a) (a_gid a) m (a_nlink a).

Definition is_dir (o : option node) : bool := match o with Some (Dir _ _) => true | _ => false end.
Definition is_link (o : option node) : bool := match o with Some (Link _ _) => true | _ => false end.
Definition present (o : option node) : bool := match o with Some _ => true | None => false end.

Definition names (n : node) : list string := match n with Dir _ l => map fst l | _ => [] end.

(** *** Paths *)

Fixpoint del_child (k : string) (l : list (string * node)) : list (string * node) :=
  match l with
  | [] => []
  | (k', n) :: l' => if String.eqb k k' then del_child k l' else (k', n) :: del_child k l'
  end.
Fixpoint set_child (k : string) (n : node) (l : list (string * node)) : list (string * node) :=
  match l with
  | [] => [(k, n)]
  | (k', n') :: l' => if String.eqb k k' then (k, n) :: del_child k l' else (k', n') :: set_child k n l'
  end.
Definition put_child (k : string) (o : option node) (l : list (string * node)) : list (string * node) :=
  match o with Some n => set_child k n l | None => del_child k l end.

Fixpoint lookup_path (p : list string) (o : option node) : option node :=
  match p with
  | [] => o
  | k :: p' => match o with Some (Dir _ l) => lookup_path p' (assoc k l) | _ => None end
  end.

(** Nothing happens when the directory above is missing. *)
Fixpoint put_path (p : list string) (v o : option node) : option node :=
  match p with
  | [] => v
  | k :: p' =>
      match o with
      | Some (Dir a l) =>
          match p', assoc k l with
          | [], _ => Some (Dir a (put_child k v l))
          | _, Some c => Some (Dir a (put_child k (put_path p' v (Some c)) l))
          | _, None => o
          end
      | _ => o
      end
  end.

(** *** The whole tree *)

Fixpoint tforall (f : node -> bool) (n : node) : bool :=
  f n && match n with
         | Dir _ l => (fix go l := match l with [] => true | (_, x) :: r => tforall f x && go r end) l
         | _ => true
         end.

(** New attributes for every node, or a refusal. *)
Fixpoint traverse (f : node -> option attr) (n : node) : option node :=
  match f n with
  | None => None
  | Some a =>
      match n with
      | File _ c => Some (File a c)
      | Link _ t => Some (Link a t)
      | Special _ => Some (Special a)
      | Dir _ l =>
          match (fix go l := match l with
             | [] => Some []
             | (k, x) :: r => match traverse f x, go r with Some x', Some r' => Some ((k, x') :: r') | _, _ => None end
             end) l with
          | Some l' => Some (Dir a l')
          | None => None
          end
      end
  end.

(** [[root, *root.rglob("*")]], with paths relative to the root. *)
Fixpoint subtree (p : list string) (n : node) : list (list string * node) :=
  (p, n) :: match n with
            | Dir _ l => (fix go l := match l with [] => [] | (k, x) :: r => subtree (p ++ [k]) x ++ go r end) l
            | _ => []
            end.

(** ** Lemmas *)

Fixpoint node_rect' (P : node -> Prop)
    (HF : forall a c, P (File a c)) (HL : forall a t, P (Link a t)) (HS : forall a, P (Special a))
    (HD : forall a l, Forall (fun x => P (snd x)) l -> P (Dir a l)) (n : node) : P n :=
  match n with
  | File a c => HF a c
  | Link a t => HL a t
  | Special a => HS a
  | Dir a l => HD a l ((fix go (l : list (string * node)) : Forall (fun x => P (snd x)) l :=
      match l with
      | [] => List.Forall_nil _
      | (k, x) :: r => @List.Forall_cons _ (fun x => P (snd x)) (k, x) r (node_rect' P HF HL HS HD x) (go r)
      end) l)
  end.

Lemma tforall_dir f a l : tforall f (Dir a l) = f (Dir a l) && forallb (fun x => tforall f (snd x)) l.
Proof. simpl. f_equal. induction l as [|[k x] l IH]; [done|]. simpl. by rewrite IH. Qed.

Fixpoint traverse_list (f : node -> option attr) (l : list (string * node)) : option (list (string * node)) :=
  match l with
  | [] => Some []
  | (k, x) :: r => match traverse f x, traverse_list f r with Some x', Some r' => Some ((k, x') :: r') | _, _ => None end
  end.

Lemma traverse_dir f a l : traverse f (Dir a l) =
  match f (Dir a l) with
  | Some a' => match traverse_list f l with Some l' => Some (Dir a' l') | None => None end
  | None => None
  end.
Proof.
  simpl. destruct (f (Dir a l)); [|done].
  assert (E : (fix go l := match l with
             | [] => Some []
             | (k, x) :: r => match traverse f x, go r with Some x', Some r' => Some ((k, x') :: r') | _, _ => None end
             end) l = traverse_list f l); [|by rewrite E].
  induction l as [|[k x] l IH]; [done|]. simpl. by rewrite IH.
Qed.
#[global] Opaque traverse.

Lemma traverse_list_names f l l' : traverse_list f l = Some l' -> map fst l' = map fst l.
Proof.
  revert l'. induction l as [|[k x] l IH]; intros l' E; simplify_eq/=; [done|].
  destruct (traverse f x); [|done]. destruct (traverse_list f l) as [r|]; [|done]. simplify_eq/=. by rewrite (IH r).
Qed.

(** A tree that passes the checks can be changed, and the result satisfies what the new
    attributes satisfy. *)
Lemma traverse_forall f (P Q : node -> bool) n :
  (forall n, P n = true -> is_Some (f n)) ->
  (forall a c a', P (File a c) = true -> f (File a c) = Some a' -> Q (File a' c) = true) ->
  (forall a c a', P (Link a c) = true -> f (Link a c) = Some a' -> Q (Link a' c) = true) ->
  (forall a a', P (Special a) = true -> f (Special a) = Some a' -> Q (Special a') = true) ->
  (forall a l a' l', P (Dir a l) = true -> f (Dir a l) = Some a' -> map fst l' = map fst l -> Q (Dir a' l') = true) ->
  tforall P n = true -> exists n', traverse f n = Some n' /\ tforall Q n' = true.
Proof.
  intros HP HF HL HS HD. induction n as [a c|a t|a|a l IH] using node_rect'; intros Hn.
  1, 2, 3: simpl in Hn; rewrite andb_true_r in Hn; destruct (HP _ Hn) as [a' Ea];
    eexists; split; [with_strategy transparent [traverse] simpl; by rewrite Ea|]; simpl; rewrite andb_true_r; eauto.
  rewrite tforall_dir in Hn. apply andb_true_iff in Hn as [Hn Hl]. destruct (HP _ Hn) as [a' Ea]. rewrite traverse_dir, Ea.
  assert (Hr : exists l', traverse_list f l = Some l' /\ forallb (fun x => tforall Q (snd x)) l' = true).
  { clear Hn Ea. induction IH as [|[k x] l Hx _ IHl]; [by exists []|]. simpl in Hl. apply andb_true_iff in Hl as [H1 H2].
    destruct (Hx H1) as (x' & Ex & Hq). destruct (IHl H2) as (l' & El & Hq'). exists ((k, x') :: l'). simpl in *.
    rewrite Ex, El. split; [done|]. simpl in *. by rewrite Hq, Hq'. }
  destruct Hr as (l' & El & Hq). rewrite El. eexists; split; [done|]. rewrite tforall_dir. apply andb_true_iff. split; [|done].
  eapply HD; [exact Hn|exact Ea|]. by apply (traverse_list_names f).
Qed.

(** A change that keeps the attributes of a checked tree is the identity. *)
Lemma traverse_id f (P : node -> bool) n :
  (forall n, P n = true -> f n = Some (node_attr n)) -> tforall P n = true -> traverse f n = Some n.
Proof.
  intros HP. induction n as [a c|a t|a|a l IH] using node_rect'; intros Hn.
  1, 2, 3: simpl in Hn; rewrite andb_true_r in Hn; with_strategy transparent [traverse] simpl; by rewrite (HP _ Hn).
  rewrite tforall_dir in Hn. apply andb_true_iff in Hn as [Hn Hl]. rewrite traverse_dir, (HP _ Hn).
  assert (Hr : traverse_list f l = Some l); [|by rewrite Hr].
  clear Hn. induction IH as [|[k x] l Hx _ IHl]; [done|]. simpl in Hl. apply andb_true_iff in Hl as [H1 H2].
  simpl in *. by rewrite (Hx H1), (IHl H2).
Qed.

(** *** Children *)

Lemma assoc_del_eq k l : assoc k (del_child k l) = None.
Proof. induction l as [|[k' n] l IH]; [done|]. simpl. destruct (String.eqb k k') eqn:E; simpl; [done|]. by rewrite E. Qed.
Lemma assoc_del_ne k k' l : k <> k' -> assoc k (del_child k' l) = assoc k l.
Proof.
  intros H. induction l as [|[j n] l IH]; [done|]. simpl. destruct (String.eqb_spec k' j) as [->|]; simpl; [|by rewrite IH].
  apply String.eqb_neq in H. by rewrite H.
Qed.
Lemma assoc_set_eq k n l : assoc k (set_child k n l) = Some n.
Proof.
  induction l as [|[j m] l IH]; simpl; [by rewrite String.eqb_refl|]. destruct (String.eqb k j) eqn:E; simpl; [by rewrite String.eqb_refl|].
  by rewrite E.
Qed.
Lemma assoc_set_ne k k' n l : k <> k' -> assoc k (set_child k' n l) = assoc k l.
Proof.
  intros H. induction l as [|[j m] l IH]; simpl; [by apply String.eqb_neq in H; rewrite H|].
  destruct (String.eqb_spec k' j) as [->|]; simpl.
  - rewrite assoc_del_ne by done. apply String.eqb_neq in H. by rewrite H.
  - by rewrite IH.
Qed.
Lemma assoc_put_eq k o l : assoc k (put_child k o l) = o.
Proof. destruct o; [apply assoc_set_eq|apply assoc_del_eq]. Qed.
Lemma assoc_put_ne k k' o l : k <> k' -> assoc k (put_child k' o l) = assoc k l.
Proof. destruct o; [apply assoc_set_ne|apply assoc_del_ne]. Qed.

(** *** Paths *)

Lemma put_path_dir k p v a l : exists l', put_path (k :: p) v (Some (Dir a l)) = Some (Dir a l').
Proof. simpl. destruct p; [eauto|]. destruct (assoc k l); eauto. Qed.

Lemma lookup_put_other k p k' p' v o : k <> k' -> lookup_path (k :: p) (put_path (k' :: p') v o) = lookup_path (k :: p) o.
Proof.
  intros H. destruct o as [[|a l| |]|]; try done. simpl. destruct p' as [|j p']; simpl; [by rewrite assoc_put_ne|].
  destruct (assoc k' l); simpl; [by rewrite assoc_put_ne|done].
Qed.

Lemma lookup_put_sibling k j p j' v o : j <> j' ->
  lookup_path (k :: j :: p) (put_path [k; j'] v o) = lookup_path (k :: j :: p) o.
Proof.
  intros H. destruct o as [[|a l| |]|]; try done. simpl. destruct (assoc k l) as [[|b m| |]|] eqn:E; simpl; rewrite ?assoc_set_eq, ?E; try done.
  by rewrite assoc_put_ne.
Qed.

Lemma lookup_put_pair k j v o : is_dir (lookup_path [k] o) = true -> lookup_path [k; j] (put_path [k; j] v o) = v.
Proof.
  destruct o as [[|a l| |]|]; try done. simpl. destruct (assoc k l) as [[|b m| |]|] eqn:E; try done. intros _.
  simpl. rewrite assoc_set_eq. by rewrite assoc_put_eq.
Qed.
