(* ===== verification/Promote.v ===== *)
(** [sunlit_promote.py]: the promotion of a staged Sunlit candidate into production,
    fresh or as an upgrade, with its guarded publications, its rollback and the
    resumption of an interrupted promotion.

    The state is the candidate (runtime and state trees, promotion record), the
    releases, the production state and the active link.  Every effect can fail or be
    the last of the process, and a change of a whole tree can stop half way; the
    guard of a publication can refuse it before or after the action.  The manifest,
    the candidate record and the fixed directories are read-only inputs; JSON, SHA-256
    and the resolution of a link are parameters. *)
From S2P Require Import Prelude Fault Tree.

(** ** Data *)

Inductive PublicationAction := STATE | RELEASE | VERSION_STATE | METADATA | ACTIVE_LINK
  | ROLLBACK_STATE | ROLLBACK_RELEASE | ROLLBACK_VERSION_STATE | ROLLBACK_METADATA | ROLLBACK_ACTIVE_LINK.

(** The manifest, with its runtime policy. *)
Record document := Document {
  d_profile : string;
  d_version : string;
  d_sha256 : string;
  d_archive_sha256 : string;
  d_persistent_dirs : list string;
  d_persistent_files : list string;
  d_mutable_vendor_dirs : list string;
  d_empty_mutable_dirs : list string;
  d_required_paths : list string;
  d_fixed_symlinks : list (string * string);
}.
#[export] Instance document_eq_dec : EqDecision document.
Proof. solve_decision. Defined.

(** A value of a small JSON record. *)
Inductive jval := JvStr (s : string) | JvBool (b : bool) | JvOther.
#[export] Instance jval_eq_dec : EqDecision jval.
Proof. solve_decision. Defined.
#[local] Abbreviation record := (gmap string jval).

(** Texts of the paths, and the names of the two private directories of the process
    among the releases. *)
Record PromotionContext := Context_ {
  c_version : string;
  c_manifest_sha256 : option string;
  c_candidate : string;
  c_state_root : string;
  c_release : string;
  c_active_link : string;
  c_libraries : string;
  c_stage : string;
  c_rollback : string;
}.

(** What the promotion only reads. *)
Record inputs := Inputs {
  i_root : bool;
  i_inactive : bool;
  i_manifest : option node;
  i_candidate : option node;
  i_candidate_json : option node;
  i_release_root : option node;
  i_state_parent : option node;
  i_link_parent : option node;
  i_account : option (Z * Z);
  i_one_filesystem : bool;
}.

Inductive active := ALink (target : string) | ANode.
#[export] Instance active_eq_dec : EqDecision active.
Proof. solve_decision. Defined.

(** The locals the exception handlers read. *)
Record locals := Locals {
  l_release_published : bool;
  l_state_moved : bool;
  l_metadata_attempted : bool;
  l_activated : bool;
}.
Definition no_locals : locals := Locals false false false false.

Record pstate := PState {
  p_runtime : option node;
  p_state : option node;
  p_production : option node;
  p_releases : gmap string node;
  p_active : option active;
  p_record : option node;
  p_locals : locals;
}.

(** *** Places *)

Inductive base := BRuntime | BState | BProduction | BRelease (name : string).
Definition loc : Type := base * list string.

Definition get_base (b : base) (s : pstate) : option node :=
  match b with
  | BRuntime => p_runtime s
  | BState => p_state s
  | BProduction => p_production s
  | BRelease n => p_releases s !! n
  end.
Definition put_base (b : base) (o : option node) (s : pstate) : pstate :=
  match b with
  | BRuntime => PState o (p_state s) (p_production s) (p_releases s) (p_active s) (p_record s) (p_locals s)
  | BState => PState (p_runtime s) o (p_production s) (p_releases s) (p_active s) (p_record s) (p_locals s)
  | BProduction => PState (p_runtime s) (p_state s) o (p_releases s) (p_active s) (p_record s) (p_locals s)
  | BRelease n => PState (p_runtime s) (p_state s) (p_production s) (partial_alter (fun _ => o) n (p_releases s)) (p_active s) (p_record s) (p_locals s)
  end.

Definition get (l : loc) (s : pstate) : option node := lookup_path (snd l) (get_base (fst l) s).
Definition put (l : loc) (o : option node) (s : pstate) : pstate :=
  put_base (fst l) (put_path (snd l) o (get_base (fst l) s)) s.

Definition set_active (o : option active) (s : pstate) : pstate :=
  PState (p_runtime s) (p_state s) (p_production s) (p_releases s) o (p_record s) (p_locals s).
Definition set_record (o : option node) (s : pstate) : pstate :=
  PState (p_runtime s) (p_state s) (p_production s) (p_releases s) (p_active s) o (p_locals s).
Definition set_locals (v : locals) (s : pstate) : pstate :=
  PState (p_runtime s) (p_state s) (p_production s) (p_releases s) (p_active s) (p_record s) v.

Definition parent_ok (l : loc) (s : pstate) : bool :=
  match snd l with [] => true | p => is_dir (get (fst l, removelast p) s) end.

(** *** Small helpers *)

Fixpoint has_slash (s : string) : bool :=
  match s with
  | EmptyString => false
  | String c r => Ascii.eqb c (Ascii.ascii_of_nat 47) || has_slash r
  end.

Definition writable_by_others (a : attr) : bool := negb (Z.land (a_mode a) 18 =? 0).
Definition slash (a b : string) : string := (a ++ "/" ++ b)%string.
Definition as_set (l : list string) : gset string := list_to_set l.

Definition safe_name (n : string) : bool := nonempty n && negb (has_slash n).

(** The guard of a publication admits it, or refuses before or after the action. *)
Inductive decision := Admit | RefuseEnter | RefuseExit.

Section Promotion.
Context (fault : nat -> option fexc).
(** What a change of a tree that stops half way leaves. *)
Context (partial : nat -> option node).
(** What the guard of a publication does. *)
Context (decide_ : PublicationAction -> nat -> decision).
(** JSON, hashes, links. *)
Context (parse_document : string -> option document) (document_sha256 : document -> string).
Context (encode_record : record -> string) (decode_record : string -> option record).
Context (sha256 : string -> string) (tree_sha256 : list (Z * string * option Z * string) -> string).
Context (resolved : string -> option string) (relpath : string -> string) (follows : string -> bool).
Context (cx : PromotionContext) (inp : inputs).

Definition PROFILE : string := "minecraft-sunlit-cobblemon".

(** A link exists when what it names exists. *)
Definition exists_at (o : option node) : bool :=
  match o with Some (Link _ t) => follows t | Some _ => true | None => false end.

(** *** Effects *)

Definition change (l : loc) (o : option node) : FM pstate unit :=
  ok ← read (parent_ok l);
  if (ok : bool) then feffect fault (put l o) else fthrow OsF.

(** A change of many members. *)
Definition rewriting (l : loc) (o : option node) : FM pstate unit := fun st =>
  match fault (snd st) with
  | Some x => (inl x, (put l (partial (snd st)) (fst st), S (snd st)))
  | None => (inr tt, (put l o (fst st), S (snd st)))
  end.

(** The same when a member is refused, perhaps after others were changed. *)
Definition rewrite_or_fail (l : loc) (o : option node) (message : string) : FM pstate unit :=
  match o with
  | Some n => rewriting l (Some n)
  | None => fun st => (inl (SafeF message), (put l (partial (snd st)) (fst st), S (snd st)))
  end.

Definition rmtree (l : loc) : FM pstate unit :=
  o ← read (get l);
  if is_dir o then rewriting l None else fthrow OsF.

(** [os.replace] *)
Definition replaceable (n : node) (o : option node) : bool :=
  match n, o with
  | _, None => true
  | Dir _ _, Some (Dir _ []) => true
  | Dir _ _, Some _ => false
  | _, Some (Dir _ _) => false
  | _, Some _ => true
  end.
Definition rename (src dst : loc) : FM pstate unit :=
  o ← read (get src);
  d ← read (get dst);
  ok ← read (parent_ok dst);
  match o with
  | Some n => if replaceable n d && ok then feffect fault (fun s => put dst (Some n) (put src None s)) else fthrow OsF
  | None => fthrow OsF
  end.

(** *** Checks *)

Definition _trusted_directory (o : option node) (owners : list (Z * Z)) : FM pstate unit :=
  match o with
  | None => fthrow OsF
  | Some (Dir a _) => guard (bool_decide (owner a ∈ owners) && negb (writable_by_others a)) "promotion directory is unsafe"
  | Some _ => fail "promotion directory is unsafe"
  end.

(** The content of a safe regular file, or what is raised. *)
Definition regular (o : option node) (maximum : Z) (owners : list (Z * Z)) : fexc + string :=
  match o with
  | None => inl OsF
  | Some (File a c) =>
      if (a_nlink a =? 1) && bool_decide (owner a ∈ owners) && negb (writable_by_others a) && (Z.of_nat (String.length c) <=? maximum)
      then inr c else inl (SafeF "promotion metadata is unsafe")
  | Some _ => inl (SafeF "promotion metadata is unsafe")
  end.

Definition _regular_json (o : option node) (maximum : Z) (owners : list (Z * Z)) : fexc + record :=
  match regular o maximum owners with
  | inl x => inl x
  | inr c => match decode_record c with Some r => inr r | None => inl (SafeF "promotion metadata is unreadable") end
  end.

Definition ROOT : Z * Z := (0, 0).
Definition MAX_MANIFEST : Z := 8 * 1024 * 1024.
Definition MAX_RECORD : Z := 64 * 1024.

Definition raise_left {A} (r : fexc + A) : FM pstate A :=
  match r with inl x => fthrow x | inr a => mret a end.

Definition read_document (o : option node) (owners : list (Z * Z)) : fexc + document :=
  match regular o MAX_MANIFEST owners with
  | inl x => inl x
  | inr c => match parse_document c with Some d => inr d | None => inl (SafeF "promotion metadata is unreadable") end
  end.

Definition _manifest : FM pstate document :=
  d ← raise_left (read_document (i_manifest inp) [ROOT]);
  guard (String.eqb (d_sha256 d) (document_sha256 d)
         && match c_manifest_sha256 cx with Some h => String.eqb (d_sha256 d) h | None => true end
         && String.eqb (d_profile d) PROFILE && String.eqb (d_version d) (c_version cx))
    "promotion manifest identity mismatch" ;;
  mret d.

(** *** Publications *)

Definition refused : fexc := SafeF "publication action was refused".

Definition _publication (action : PublicationAction) (body : FM pstate unit) : FM pstate unit :=
  d ← oracle (decide_ action);
  match d with
  | RefuseEnter => fthrow refused
  | _ => fexcept (body ;; match d with RefuseExit => fail "publication lock is unavailable" | _ => mret tt end)
           (fun x => match x with SafeF _ | OsF => fthrow refused | _ => fthrow x end)
  end.

Definition _guarded_replace (action : PublicationAction) (src dst : loc) (precondition : FM pstate unit) : FM pstate unit :=
  _publication action (precondition ;; rename src dst ;; step fault).

Definition no_precondition : FM pstate unit := mret tt.

Definition prior_of (o : option active) : option string := match o with Some (ALink t) => Some t | _ => None end.

Definition activate_release (release : string) (expected_prior : option string) : FM pstate unit :=
  d ← read (get (BRelease release, []));
  guard (is_dir d) "release target is outside the reviewed root" ;;
  o ← read p_active;
  guard (negb (bool_decide (o = Some ANode))) "active path is not a symlink" ;;
  guard (bool_decide (prior_of o = expected_prior)) "active release changed before activation" ;;
  step fault ;;
  step fault ;;
  feffect fault (set_active (Some (ALink (relpath release)))) ;;
  fexcept (step fault) (fun x => feffect fault (set_active o) ;; step fault ;; fthrow x).

Definition _guarded_activate (action : PublicationAction) (release : string) (expected_prior : option string)
    (precondition : FM pstate unit) : FM pstate unit :=
  _publication action (precondition ;; activate_release release expected_prior).

Definition _guarded_unlink_active : FM pstate unit :=
  _publication ROLLBACK_ACTIVE_LINK (feffect fault (set_active None) ;; step fault).

(** *** Links of the candidate *)

Definition versioned (d : document) : list string := d_mutable_vendor_dirs d ++ d_empty_mutable_dirs d.
Definition state_paths (d : document) : list string := d_persistent_dirs d ++ d_persistent_files d ++ versioned d.

Definition link_target (d : document) (relative : string) : string :=
  if bool_decide (relative ∈ versioned d)
  then slash (slash (slash (c_state_root cx) ".versions") (c_version cx)) relative
  else slash (c_state_root cx) relative.

Fixpoint add_links (d : document) (l : list string) (expected : list (string * string)) : option (list (string * string)) :=
  match l with
  | [] => Some expected
  | r :: l' => if safe_name r && negb (bool_decide (is_Some (assoc r expected)))
               then add_links d l' (expected ++ [(r, link_target d r)]) else None
  end.
Fixpoint add_fixed (l : list (string * string)) (expected : list (string * string)) : option (list (string * string)) :=
  match l with
  | [] => Some expected
  | (r, t) :: l' => if negb (bool_decide (is_Some (assoc r expected))) && String.eqb r "libraries" && String.eqb t (c_libraries cx)
                    then add_fixed l' (expected ++ [(r, t)]) else None
  end.
Definition _expected_links (d : document) : option (list (string * string)) :=
  match add_links d (state_paths d) [] with
  | Some e => add_fixed (d_fixed_symlinks d) e
  | None => None
  end.

Definition not_link (n : node) : bool := match n with Link _ _ => false | _ => true end.

Definition links_of (l : list (string * node)) : list (string * string) :=
  omap (fun x => match snd x with Link _ t => Some (fst x, t) | _ => None end) l.

Definition link_ok (actual : list (string * string)) (x : string * string) : bool :=
  match assoc (fst x) actual with
  | None => false
  | Some current =>
      if String.eqb (fst x) "libraries" then String.eqb current (snd x)
      else String.eqb current (snd x) || String.prefix (slash (c_candidate cx) "state" ++ "/") current
  end.

Definition new_attr (u g m : Z) : attr := Attr 0 0 u g m 1.

(** [_replace_link] for the links that differ. *)
Definition bind_child (expected : list (string * string)) (x : string * node) : string * node :=
  match snd x, assoc (fst x) expected with
  | Link _ t, Some t' => if String.eqb t t' then x else (fst x, Link (new_attr 0 0 511) t')
  | _, _ => x
  end.

Definition bind_links (expected : list (string * string)) (runtime : node) : option node :=
  match runtime with
  | Dir a l =>
      if forallb (fun x => negb (not_link (snd x)) || tforall not_link (snd x)) l
         && bool_decide (as_set (map fst (links_of l)) = as_set (map fst expected))
         && forallb (link_ok (links_of l)) expected
      then Some (Dir a (map (bind_child expected) l)) else None
  | _ => None
  end.

Definition _bind_candidate_links (d : document) : FM pstate unit :=
  match _expected_links d with
  | None => fail "promotion runtime policy is unsafe"
  | Some expected =>
      o ← read p_runtime;
      match o with
      | None => fail "candidate symlink set is not exact"
      | Some runtime => rewrite_or_fail (BRuntime, []) (bind_links expected runtime) "candidate symlink set is not exact"
      end
  end.

(** *** Metadata *)

Definition metadata (b : base) (l : list string) : loc := (b, ".horizon"%string :: l).

Definition release_record (d : document) : record :=
  <["profile_id" := JvStr PROFILE]> (<["version" := JvStr (c_version cx)]>
  (<["manifest_sha256" := JvStr (d_sha256 d)]> {["archive_sha256" := JvStr (d_archive_sha256 d)]})).

Definition manifest_content : string := match i_manifest inp with Some (File _ c) => c | _ => EmptyString end.

Definition metadata_file (o : option (Z * Z)) (c : string) : node :=
  match o with Some (u, g) => File (new_attr u g 416) c | None => File (new_attr 0 0 384) c end.

Definition own_directory (u g m : Z) (o : option node) : option node :=
  match o with Some (Dir a l) => Some (Dir (set_owner u g m a) l) | _ => o end.

Definition publish_metadata (b : base) (own : option (Z * Z)) : FM pstate unit :=
  rename (metadata b [".manifest.json.promote"%string]) (metadata b ["manifest.json"%string]) ;;
  rename (metadata b [".release.json.promote"%string]) (metadata b ["release.json"%string]) ;;
  (match own with
   | Some (u, g) => o ← read (get (metadata b [])); change (metadata b []) (own_directory u g 488 o)
   | None => mret tt
   end) ;;
  step fault.

(** [path.unlink(missing_ok=True)] *)
Definition unlink (l : loc) : FM pstate unit := feffect fault (put l None).

Definition _write_metadata (b : base) (d : document) (action : option PublicationAction) (own : option (Z * Z)) : FM pstate unit :=
  o ← read (get (metadata b []));
  (match o with
   | Some (Dir _ l) =>
       guard (bool_decide (as_set (map fst l) ⊆ as_set ["manifest.json"; "release.json"]%string)) "candidate metadata directory contains unexpected files"
   | Some _ => fail "candidate metadata directory is unsafe"
   | None => change (metadata b []) (Some (Dir (new_attr 0 0 448) []))
   end) ;;
  change (metadata b [".manifest.json.promote"%string]) (Some (metadata_file own manifest_content)) ;;
  change (metadata b [".release.json.promote"%string]) (Some (metadata_file own (encode_record (release_record d)))) ;;
  step fault ;;
  ffinally
    (match action with
     | None => publish_metadata b own
     | Some a => _publication a (publish_metadata b own)
     end)
    (unlink (metadata b [".manifest.json.promote"%string]) ;; unlink (metadata b [".release.json.promote"%string])).

(** *** Ownership *)

Definition prepare_attr (u g : Z) (n : node) : option attr :=
  match n with
  | File a _ => Some (set_owner u g 416 a)
  | Dir a _ => Some (set_owner u g 488 a)
  | _ => None
  end.

Definition _prepare_state_ownership (l : loc) (own : Z * Z) : FM pstate unit :=
  o ← read (get l);
  match o with
  | None => fthrow OsF
  | Some n => match traverse (prepare_attr (fst own) (snd own)) n with
              | Some n' => rewriting l (Some n')
              | None => fail "candidate state contains an unsafe member"
              end
  end.

Definition normal_attr (n : node) : option attr :=
  match n with
  | Link a _ => Some a
  | Dir a _ => if bool_decide (owner a = ROOT) then Some (set_mode 493 a) else None
  | File a _ => if bool_decide (owner a = ROOT) then Some (set_mode (if Z.land (a_mode a) 73 =? 0 then 420 else 493) a) else None
  | Special _ => None
  end.

Definition _normalize_release_permissions (l : loc) : FM pstate unit :=
  o ← read (get l);
  match o with
  | None => fthrow OsF
  | Some n => rewrite_or_fail l (traverse normal_attr n) "candidate release ownership is unsafe"
  end.

Definition release_node_ok (n : node) : bool :=
  match n with
  | Link _ _ => true
  | Dir a _ => bool_decide (owner a = ROOT) && negb (writable_by_others a) && (Z.land (a_mode a) 5 =? 5)
  | File a _ => bool_decide (owner a = ROOT) && negb (writable_by_others a) && negb (Z.land (a_mode a) 4 =? 0)
  | Special _ => false
  end.

Definition _verify_release_ownership (l : loc) : FM pstate unit :=
  o ← read (get l);
  match o with
  | None => fthrow OsF
  | Some n => guard (tforall release_node_ok n) "candidate release ownership is unsafe"
  end.

(** *** Digests *)

Fixpoint join (p : list string) : string :=
  match p with
  | [] => EmptyString
  | [k] => k
  | k :: p' => slash k (join p')
  end.

Definition entry (include_mode : bool) (x : list string * node) : Z * string * option Z * string :=
  let path := match fst x with [] => "."%string | p => join p end in
  let mode := if include_mode then Some (a_mode (node_attr (snd x))) else None in
  match snd x with
  | Link _ t => (108, path, mode, t)
  | Dir _ _ => (100, path, mode, EmptyString)
  | File _ c => (102, path, mode, sha256 c)
  | Special _ => (0, path, mode, EmptyString)
  end.

(** The root sorts first. *)
Definition sort_key (x : Z * string * option Z * string) : string :=
  if String.eqb x.1.1.2 "." then EmptyString else x.1.1.2.
Definition path_le (a b : Z * string * option Z * string) : Prop := str_le (sort_key a) (sort_key b).
#[local] Instance path_le_dec a b : Decision (path_le a b).
Proof. unfold path_le. apply _. Defined.

Definition is_special (n : node) : bool := match n with Special _ => true | _ => false end.

Definition _tree_digest (include_mode : bool) (n : node) : option string :=
  if tforall (fun x => negb (is_special x)) n
  then Some (tree_sha256 (merge_sort path_le (map (entry include_mode) (subtree [] n)))) else None.

(** The trees at two places have the same digest. *)
Definition same_digest (include_mode : bool) (a b : option node) (message : string) : FM pstate unit :=
  match a, b with
  | Some x, Some y =>
      match _tree_digest include_mode x, _tree_digest include_mode y with
      | Some h, Some h' => guard (String.eqb h h') message
      | _, _ => fail "promotion tree contains an unsafe member"
      end
  | _, _ => fthrow OsF
  end.

(** *** Reports *)

Definition _report (d : document) : record :=
  <["active" := JvBool true]> (<["profile_id" := JvStr PROFILE]> (<["version" := JvStr (c_version cx)]>
  (<["manifest_sha256" := JvStr (d_sha256 d)]> (<["release" := JvStr (c_release cx)]>
  (<["state" := JvStr (c_state_root cx)]> {["active_link" := JvStr (c_active_link cx)]}))))).

(** The record is written in place. *)
Definition write_record (c : string) : FM pstate unit := fun st =>
  match fault (snd st) with
  | Some x => (inl x, (set_record (partial (snd st)) (fst st), S (snd st)))
  | None => (inr tt, (set_record (Some (File (new_attr 0 0 384) c)) (fst st), S (snd st)))
  end.

Definition _publish_report (d : document) : FM pstate record :=
  write_record (encode_record (_report d)) ;;
  step fault ;;
  mret (_report d).

(** *** Proofs about the state trees *)

Definition stable (d : document) : list string := d_persistent_dirs d ++ d_persistent_files d.
Definition VERSIONS : string := ".versions".
Definition version_loc (b : base) : loc := (b, [VERSIONS; c_version cx]).

Definition check_stable (r : string) : FM pstate unit :=
  guard (safe_name r) "promotion runtime policy is unsafe" ;;
  c ← read (get (BState, [r]));
  p ← read (get (BProduction, [r]));
  guard (Bool.eqb (exists_at c) (exists_at p)) "candidate stable state is incomplete" ;;
  if exists_at c then
    guard (negb (is_link c) && negb (is_link p)) "candidate stable state is incomplete" ;;
    same_digest false c p "candidate stable state changed"
  else mret tt.

(** Whether the version state is still in the candidate. *)
Definition _candidate_matches_existing_state (d : document) (allow_moved_version : bool) : FM pstate bool :=
  prod ← read p_production;
  st ← read p_state;
  match st with
  | Some (Dir _ l) =>
      let expected := VERSIONS :: List.filter (fun r => exists_at (lookup_path [r] prod)) (stable d) in
      guard (bool_decide (as_set (map fst l) = as_set expected)) "candidate state member set is not exact" ;;
      ffor (stable d) check_stable ;;
      match assoc VERSIONS l with
      | Some (Dir _ members) =>
          match members with
          | [] => if allow_moved_version then mret false else fail "candidate version state is not exact"
          | [(v, Dir _ _)] => guard (String.eqb v (c_version cx)) "candidate version state is not exact" ;; mret true
          | _ => fail "candidate version state is not exact"
          end
      | _ => fail "candidate version state is unsafe"
      end
  | _ => fthrow OsF
  end.

Definition state_node_ok (own : Z * Z) (n : node) : bool :=
  match n with
  | File a _ => bool_decide (owner a = own) && (a_nlink a =? 1) && (a_mode a =? 416)
  | Dir a _ => bool_decide (owner a = own) && (a_mode a =? 488)
  | _ => false
  end.

Definition version_tree_ok (d : document) (own : Z * Z) (o : option node) : bool :=
  match o with
  | Some (Dir a l) =>
      bool_decide (owner a = own) && (a_mode a =? 488)
      && forallb safe_name (versioned d)
      && bool_decide (as_set (map fst l) = as_set (versioned d))
      && forallb (fun x => tforall (state_node_ok own) (snd x)) l
  | _ => false
  end.

Definition _verify_version_state_tree (l : loc) (d : document) (own : Z * Z) : FM pstate unit :=
  o ← read (get l);
  guard (version_tree_ok d own o) "version state is unsafe".

Definition _verify_production_version_state (d : document) (own : Z * Z) : FM pstate unit :=
  _verify_version_state_tree (version_loc BProduction) d own.

Definition reserved (n : string) : bool :=
  bool_decide (n ∈ ["."; ".."; VERSIONS; ".horizon"]%string).

Definition policy_ok (d : document) : bool :=
  forallb (fun n => safe_name n && negb (reserved n)) (stable d ++ d_required_paths d)
  && bool_decide (NoDup (stable d)) && bool_decide (NoDup (d_required_paths d))
  && bool_decide (as_set (d_required_paths d) ⊆ as_set (stable d)).

Definition dir_or_absent (o : option node) : bool := match o with None | Some (Dir _ _) => true | _ => false end.
Definition file_or_absent (o : option node) : bool := match o with None | Some (File _ _) => true | _ => false end.

Definition metadata_ok (d : document) (own : Z * Z) (o : option node) : bool :=
  match o with
  | Some (Dir _ m) =>
      bool_decide (as_set (map fst m) = as_set ["manifest.json"; "release.json"]%string)
      && match read_document (assoc "manifest.json"%string m) [own] with inr d' => bool_decide (d' = d) | inl _ => false end
      && match _regular_json (assoc "release.json"%string m) MAX_RECORD [own] with
         | inr r => bool_decide (r = release_record d)
         | inl _ => false
         end
  | _ => false
  end.

Definition fresh_tree_ok (d : document) (own : Z * Z) (o : option node) : bool :=
  match o with
  | Some (Dir a l) =>
      let required := VERSIONS :: ".horizon"%string :: d_required_paths d in
      let allowed := VERSIONS :: ".horizon"%string :: stable d in
      bool_decide (owner a = own) && (a_mode a =? 488) && policy_ok d
      && bool_decide (as_set required ⊆ as_set (map fst l)) && bool_decide (as_set (map fst l) ⊆ as_set allowed)
      && forallb (fun n => dir_or_absent (assoc n l)) (d_persistent_dirs d)
      && forallb (fun n => file_or_absent (assoc n l)) (d_persistent_files d)
      && forallb (fun x => tforall (state_node_ok own) (snd x)) l
      && match assoc VERSIONS l with
         | Some (Dir _ v) => bool_decide (as_set (map fst v) = {[c_version cx]}) && version_tree_ok d own (assoc (c_version cx) v)
         | _ => false
         end
      && metadata_ok d own (assoc ".horizon"%string l)
  | _ => false
  end.

Definition _path_identity (n : node) : Z * Z * Z * (Z * Z) * Z :=
  let a := node_attr n in
  (a_dev a, a_ino a, match n with File _ _ => 0 | Dir _ _ => 1 | Link _ _ => 2 | Special _ => 3 end, owner a, a_mode a).

Definition _verify_fresh_state_tree (b : base) (d : document) (own : Z * Z) : FM pstate (Z * Z * Z * (Z * Z) * Z) :=
  o ← read (get_base b);
  guard (fresh_tree_ok d own o) "fresh state is unsafe" ;;
  match o with Some n => mret (_path_identity n) | None => fail "fresh state is unavailable" end.

Definition _require_path_identity (b : base) (i : Z * Z * Z * (Z * Z) * Z) : FM pstate unit :=
  o ← read (get_base b);
  match o with
  | Some n => guard (bool_decide (_path_identity n = i)) "publication path identity changed"
  | None => fail "publication path identity is unavailable"
  end.
Definition _require_path_absent (f : pstate -> bool) : FM pstate unit :=
  o ← read f;
  guard (negb o) "publication destination is not absent".

Definition has_active (s : pstate) : bool := bool_decide (p_active s <> None).
Definition has (b : base) (s : pstate) : bool := present (get_base b s).

Definition _assert_fresh_state_move (i : Z * Z * Z * (Z * Z) * Z) : FM pstate unit :=
  _require_path_identity BState i ;; _require_path_absent (has BProduction).

Definition _assert_fresh_activation (i : Z * Z * Z * (Z * Z) * Z) (d : document) (own : Z * Z) : FM pstate unit :=
  _require_path_identity BProduction i ;;
  _require_path_absent (has BState) ;;
  _require_path_absent has_active ;;
  v ← _verify_fresh_state_tree BProduction d own;
  guard (bool_decide (v = i)) "production state identity changed during validation" ;;
  _require_path_identity BProduction i ;;
  _require_path_absent (has BState) ;;
  _require_path_absent has_active.

(** *** Metadata of production, saved and put back *)

Definition metadata_names : list string := ["manifest.json"; "release.json"]%string.

Definition backup_one (own : Z * Z) (name : string) : FM pstate (option node) :=
  o ← read (get (metadata BProduction [name]));
  match o with
  | None => mret None
  | Some _ =>
      raise_left (_regular_json o MAX_MANIFEST [ROOT; own]) ;; mret o
  end.

Definition _metadata_backup (own : Z * Z) : FM pstate (list (string * option node)) :=
  o ← read (get (metadata BProduction []));
  (match o with Some _ => _trusted_directory o [ROOT; own] | None => mret tt end) ;;
  m ← backup_one own "manifest.json";
  r ← backup_one own "release.json";
  mret [("manifest.json"%string, m); ("release.json"%string, r)].

Definition temporary (name : string) : loc := metadata BProduction [("." ++ name ++ ".rollback")%string].

Definition _restore_metadata (backup : list (string * option node)) : FM pstate unit :=
  o ← read (get (metadata BProduction []));
  (match o with Some _ => mret tt | None => change (metadata BProduction []) (Some (Dir (new_attr 0 0 448) [])) end) ;;
  ffor backup (fun x => match snd x with Some n => change (temporary (fst x)) (Some n) ;; step fault | None => mret tt end) ;;
  ffinally
    (_publication ROLLBACK_METADATA (
       ffor backup (fun x => match snd x with
         | None => unlink (metadata BProduction [fst x])
         | Some _ => rename (temporary (fst x)) (metadata BProduction [fst x])
         end) ;;
       step fault))
    (ffor backup (fun x => match snd x with Some _ => unlink (temporary (fst x)) | None => mret tt end)).

(** ** The promotion *)

(** The release of the production root the link denotes, when it is a directory there. *)
Definition active_release (s : pstate) : option string :=
  match p_active s with
  | Some (ALink t) =>
      match resolved t with
      | Some n => if is_dir (get (BRelease n, []) s) then Some n else None
      | None => None
      end
  | _ => None
  end.

Definition is_symlink (s : pstate) : bool := match p_active s with Some (ALink _) => true | _ => false end.
Definition release_loc : loc := (BRelease (c_version cx), []).
Definition stage_loc : loc := (BRelease (c_stage cx), []).

(** What remains of the candidate after the activation is compared and removed. *)
Definition drop_runtime (d : document) (message : string) : FM pstate unit :=
  o ← read p_runtime;
  match o with
  | None => mret tt
  | Some _ =>
      _trusted_directory o [ROOT] ;;
      _bind_candidate_links d ;;
      o ← read p_runtime;
      r ← read (get release_loc);
      same_digest true o r message ;;
      rmtree (BRuntime, [])
  end.
Definition drop_state (d : document) (own : Z * Z) : FM pstate unit :=
  o ← read p_state;
  match o with
  | None => mret tt
  | Some _ =>
      _trusted_directory o [ROOT; own] ;;
      _candidate_matches_existing_state d true ;;
      rmtree (BState, [])
  end.

Definition metadata_current (d : document) (r : fexc + record) : bool :=
  match r with
  | inl _ => false
  | inr r => bool_decide (r !! "profile_id"%string = Some (JvStr PROFILE)) && bool_decide (r !! "version"%string = Some (JvStr (c_version cx)))
             && bool_decide (r !! "manifest_sha256"%string = Some (JvStr (d_sha256 d)))
  end.

Definition _already_promoted (d : document) (own : Z * Z) : FM pstate (option record) :=
  a ← read active_release;
  if bool_decide (a = Some (c_version cx)) then
    r ← read (get release_loc);
    _trusted_directory r [ROOT] ;;
    p ← read p_production;
    _trusted_directory p [own] ;;
    drop_runtime d "active promotion retained a mismatched candidate" ;;
    drop_state d own ;;
    m ← read (get (metadata BProduction ["release.json"%string]));
    (if metadata_current d (_regular_json m MAX_RECORD [ROOT; own]) then mret tt
     else _write_metadata BProduction d (Some METADATA) (Some own)) ;;
    rec ← read p_record;
    match rec with
    | None => x ← _publish_report d; mret (Some x)
    | Some _ =>
        r ← raise_left (_regular_json rec MAX_RECORD [ROOT]);
        guard (bool_decide (r = _report d)) "active promotion record mismatch" ;;
        mret (Some r)
    end
  else mret None.

Definition _resume_published_release (d : document) (own : Z * Z) : FM pstate (option record) :=
  rel ← read (get release_loc);
  run ← read p_runtime;
  act ← read p_active;
  if is_dir rel && is_dir run && bool_decide (act = None) then
    cand ← read (has BState);
    prod ← read (has BProduction);
    guard (negb (cand && prod)) "candidate and production state collide" ;;
    _verify_release_ownership release_loc ;;
    _bind_candidate_links d ;;
    run ← read p_runtime;
    rel ← read (get release_loc);
    same_digest true run rel "published release does not match the reviewed candidate" ;;
    i ← (if (cand : bool) then
           i ← _verify_fresh_state_tree BState d own;
           _guarded_replace STATE (BState, []) (BProduction, []) (_assert_fresh_state_move i) ;;
           _verify_fresh_state_tree BProduction d own
         else if (prod : bool) then _verify_fresh_state_tree BProduction d own
         else fail "fresh publication state is unavailable");
    _guarded_activate ACTIVE_LINK (c_version cx) None (_assert_fresh_activation i d own) ;;
    rmtree (BRuntime, []) ;;
    step fault ;;
    x ← _publish_report d;
    mret (Some x)
  else mret None.

Definition move_version_state : FM pstate unit :=
  _guarded_replace VERSION_STATE (version_loc BState) (version_loc BProduction) no_precondition.

Definition _resume_upgrade_publication (d : document) (own : Z * Z) : FM pstate (option record) :=
  prod ← read p_production;
  lnk ← read is_symlink;
  rel ← read (get release_loc);
  if is_dir prod && lnk && is_dir rel then
    _trusted_directory prod [own] ;;
    _verify_release_ownership release_loc ;;
    act ← read p_active;
    a ← read active_release;
    vs ← read (get (BProduction, [VERSIONS]));
    _trusted_directory vs [own] ;;
    produced ← read (fun s => present (get (version_loc BProduction) s));
    candidate ← read (fun s => present (get (version_loc BState) s));
    (if bool_decide (a = Some (c_version cx)) then
       guard produced "active upgrade version state is unavailable" ;;
       guard (negb candidate) "candidate and production version state collide" ;;
       _verify_production_version_state d own ;;
       _write_metadata BProduction d (Some METADATA) (Some own) ;;
       drop_runtime d "active upgrade retained a mismatched candidate" ;;
       drop_state d own
     else
       guard (bool_decide (is_Some a)) "active upgrade target is unsafe" ;;
       (if (produced : bool) then
          guard (negb candidate) "candidate and production version state collide" ;;
          st ← read p_state;
          (if present st then _candidate_matches_existing_state d true ;; mret tt else mret tt) ;;
          _verify_production_version_state d own
        else
          st ← read p_state;
          guard (is_dir st) "upgrade version state is unavailable for resume" ;;
          _candidate_matches_existing_state d false ;;
          _prepare_state_ownership (version_loc BState) own ;;
          move_version_state ;;
          _verify_production_version_state d own) ;;
       _guarded_activate ACTIVE_LINK (c_version cx) (prior_of act) no_precondition ;;
       _write_metadata BProduction d (Some METADATA) (Some own) ;;
       drop_runtime d "resumed upgrade retained a mismatched candidate" ;;
       drop_state d own) ;;
    step fault ;;
    x ← _publish_report d;
    mret (Some x)
  else mret None.

(** *** The private copy of the release *)

Definition copy_attr (n : node) : option attr :=
  match n with
  | File a _ | Dir a _ | Link a _ => Some (new_attr 0 0 (a_mode a))
  | Special _ => None
  end.

Definition copytree : FM pstate unit :=
  run ← read p_runtime;
  stg ← read (get stage_loc);
  match run, stg with
  | Some (Dir _ _ as n), None =>
      match traverse copy_attr n with
      | Some n' => rewriting stage_loc (Some n')
      | None => fun st => (inl OsF, (put stage_loc (partial (snd st)) (fst st), S (snd st)))
      end
  | _, _ => fthrow OsF
  end.

(** A copy left by a refused publication is rebuilt. *)
Definition clear_stage : FM pstate unit :=
  stg ← read (get stage_loc);
  match stg with
  | None => mret tt
  | Some _ =>
      rel ← read (get release_loc);
      guard (negb (exists_at rel) && negb (is_link stg)) "release staging path already exists" ;;
      _trusted_directory stg [ROOT] ;;
      rmtree stage_loc
  end.

Definition stage_release : FM pstate unit :=
  copytree ;;
  _verify_release_ownership stage_loc ;;
  step fault.

Definition mark (f : locals -> locals) : FM pstate unit := modify (fun s => set_locals (f (p_locals s)) s).
Definition mark_released (l : locals) : locals := Locals true (l_state_moved l) (l_metadata_attempted l) (l_activated l).
Definition mark_moved (l : locals) : locals := Locals (l_release_published l) true (l_metadata_attempted l) (l_activated l).
Definition mark_attempted (l : locals) : locals := Locals (l_release_published l) (l_state_moved l) true (l_activated l).
Definition mark_activated (l : locals) : locals := Locals (l_release_published l) (l_state_moved l) (l_metadata_attempted l) true.

Definition when (b : bool) (m : FM pstate unit) : FM pstate unit := if b then m else mret tt.

Definition withdraw_release : FM pstate unit :=
  l ← read p_locals;
  rel ← read (get release_loc);
  when (l_release_published l && exists_at rel) (
    rb ← read (get (BRelease (c_rollback cx), []));
    guard (negb (present rb)) "release rollback path already exists" ;;
    _guarded_replace ROLLBACK_RELEASE release_loc (BRelease (c_rollback cx), []) no_precondition ;;
    rmtree (BRelease (c_rollback cx), [])) ;;
  stg ← read (get stage_loc);
  when (exists_at stg) (rmtree stage_loc).

(** [except BaseException]: a refused publication is left for the next attempt. *)
Definition or_undo {A} (m : FM pstate A) (undo : FM pstate unit) : FM pstate A :=
  fexcept m (fun x => if bool_decide (x = refused) then fthrow x else undo ;; fthrow x).

Definition undo_upgrade (prior_release : string) (backup : list (string * option node)) : FM pstate unit :=
  l ← read p_locals;
  lnk ← read is_symlink;
  act ← read p_active;
  when (l_activated l && lnk) (_guarded_activate ROLLBACK_ACTIVE_LINK prior_release (prior_of act) no_precondition) ;;
  when (l_metadata_attempted l) (_restore_metadata backup) ;;
  prod ← read (get (version_loc BProduction));
  cand ← read (get (version_loc BState));
  when (l_state_moved l && exists_at prod && negb (exists_at cand))
    (_guarded_replace ROLLBACK_VERSION_STATE (version_loc BProduction) (version_loc BState) no_precondition) ;;
  withdraw_release.

Definition _promote_upgrade (d : document) (own : Z * Z) : FM pstate record :=
  prod ← read p_production;
  _trusted_directory prod [own] ;;
  lnk ← read is_symlink;
  rel ← read (get release_loc);
  guard (lnk && negb (present rel)) "existing deployment is not eligible for an upgrade" ;;
  act ← read p_active;
  a ← read active_release;
  match a with
  | None => fail "active release target is unsafe"
  | Some prior_release =>
      _candidate_matches_existing_state d false ;;
      vs ← read (get (BProduction, [VERSIONS]));
      _trusted_directory vs [own] ;;
      pv ← read (get (version_loc BProduction));
      guard (negb (present pv)) "production version state already exists" ;;
      guard (i_one_filesystem inp) "version state promotion requires one filesystem" ;;
      _bind_candidate_links d ;;
      _normalize_release_permissions (BRuntime, []) ;;
      _verify_release_ownership (BRuntime, []) ;;
      backup ← _metadata_backup own;
      modify (set_locals no_locals) ;;
      clear_stage ;;
      or_undo (
        stage_release ;;
        _prepare_state_ownership (version_loc BState) own ;;
        _guarded_replace RELEASE stage_loc release_loc no_precondition ;;
        mark mark_released ;;
        move_version_state ;;
        mark mark_moved ;;
        _verify_production_version_state d own ;;
        _guarded_activate ACTIVE_LINK (c_version cx) (prior_of act) no_precondition ;;
        mark mark_activated ;;
        mark mark_attempted ;;
        _write_metadata BProduction d (Some METADATA) (Some own))
        (undo_upgrade prior_release backup) ;;
      rmtree (BRuntime, []) ;;
      rmtree (BState, []) ;;
      step fault ;;
      _publish_report d
  end.

Definition undo_fresh : FM pstate unit :=
  lnk ← read is_symlink;
  when lnk _guarded_unlink_active ;;
  withdraw_release ;;
  l ← read p_locals;
  prod ← read (get_base BProduction);
  cand ← read (get_base BState);
  when (l_state_moved l && exists_at prod && negb (exists_at cand))
    (_guarded_replace ROLLBACK_STATE (BProduction, []) (BState, []) no_precondition).

Definition promote_fresh (d : document) (own : Z * Z) : FM pstate record :=
  taken ← read (fun s => has (BRelease (c_version cx)) s || has BProduction s || has_active s);
  guard (negb taken) "production candidate destination already exists" ;;
  guard (i_one_filesystem inp) "state promotion requires one filesystem" ;;
  _bind_candidate_links d ;;
  _normalize_release_permissions (BRuntime, []) ;;
  _write_metadata BState d None None ;;
  _prepare_state_ownership (BState, []) own ;;
  _verify_release_ownership (BRuntime, []) ;;
  modify (set_locals no_locals) ;;
  clear_stage ;;
  or_undo (
    stage_release ;;
    _guarded_replace RELEASE stage_loc release_loc no_precondition ;;
    mark mark_released ;;
    i ← _verify_fresh_state_tree BState d own;
    _guarded_replace STATE (BState, []) (BProduction, []) (_assert_fresh_state_move i) ;;
    mark mark_moved ;;
    i ← _verify_fresh_state_tree BProduction d own;
    _guarded_activate ACTIVE_LINK (c_version cx) None (_assert_fresh_activation i d own))
    undo_fresh ;;
  rmtree (BRuntime, []) ;;
  step fault ;;
  _publish_report d.

Definition candidate_record_ok (d : document) (r : record) : bool :=
  bool_decide (r !! "active"%string = Some (JvBool false)) && bool_decide (r !! "version"%string = Some (JvStr (c_version cx)))
  && bool_decide (r !! "manifest_sha256"%string = Some (JvStr (d_sha256 d))).

Definition _promote : FM pstate record :=
  guard (i_root inp) "promotion requires root" ;;
  guard (i_inactive inp) "Sunlit is not in the required inactive state" ;;
  d ← _manifest;
  _trusted_directory (i_candidate inp) [ROOT] ;;
  c ← raise_left (_regular_json (i_candidate_json inp) MAX_RECORD [ROOT]);
  guard (candidate_record_ok d c) "candidate record identity mismatch" ;;
  _trusted_directory (i_release_root inp) [ROOT] ;;
  _trusted_directory (i_state_parent inp) [ROOT] ;;
  _trusted_directory (i_link_parent inp) [ROOT] ;;
  match i_account inp with
  | None => fail "Sunlit account is unavailable"
  | Some own =>
      done_ ← _already_promoted d own;
      match done_ with
      | Some r => mret r
      | None =>
          run ← read p_runtime;
          _trusted_directory run [ROOT] ;;
          r1 ← _resume_published_release d own;
          match r1 with
          | Some r => mret r
          | None =>
              r2 ← _resume_upgrade_publication d own;
              match r2 with
              | Some r => mret r
              | None =>
                  st ← read p_state;
                  _trusted_directory st [ROOT; own] ;;
                  up ← read (fun s => exists_at (p_production s) && is_symlink s);
                  if (up : bool) then _promote_upgrade d own else promote_fresh d own
              end
          end
      end
  end.
End Promotion.
