(* ===== verification/PromoteFacts.v ===== *)
(** A promotion and the active link: which changes leave the release it denotes, and
    the state of that release, in place. *)
From S2P Require Import Prelude Fault Tree Promote.

Section Safety.
Context (fault : nat -> option fexc) (partial : nat -> option node) (decide_ : PublicationAction -> nat -> decision).
Context (parse_document : string -> option document) (document_sha256 : document -> string).
Context (encode_record : gmap string jval -> string) (decode_record : string -> option (gmap string jval)).
Context (sha256 : string -> string) (tree_sha256 : list (Z * string * option Z * string) -> string).
Context (resolved : string -> option string) (relpath : string -> string) (follows : string -> bool).
Context (cx : PromotionContext) (inp : inputs).
#[local] Abbreviation V := (c_version cx).

(** The release the link denotes. *)
Definition points (s : pstate) (n : string) : Prop := exists t, p_active s = Some (ALink t) /\ resolved t = Some n.

(** A release is there with its version state. *)
Definition whole (s : pstate) (n : string) : Prop :=
  is_dir (get (BRelease n, []) s) = true /\ is_dir (get (BProduction, [VERSIONS; n]) s) = true.

(** The release that was active before. *)
Context (prior : option string).

Definition safe (s : pstate) : Prop :=
  (forall n, points s n -> n = V \/ prior = Some n) /\
  (forall n, prior = Some n -> n <> V -> whole s n) /\
  (points s V -> whole s V).

(** The new release is not active. *)
Definition away (s : pstate) : Prop := safe s /\ ~ points s V.

Hypothesis Hstage : c_stage cx <> V /\ prior <> Some (c_stage cx).
Hypothesis Hrollback : c_rollback cx <> V /\ prior <> Some (c_rollback cx).
Hypothesis Hrelpath : forall n, resolved (relpath n) = Some n.

(** *** Changes that do not matter *)

Definition same (s s' : pstate) : Prop :=
  p_active s' = p_active s /\ p_locals s' = p_locals s /\
  (forall n, n <> c_stage cx -> n <> c_rollback cx -> is_dir (get (BRelease n, []) s') = is_dir (get (BRelease n, []) s)) /\
  (forall n, is_dir (get (BProduction, [VERSIONS; n]) s') = is_dir (get (BProduction, [VERSIONS; n]) s)).

Definition closed (P : pstate -> Prop) : Prop := forall s s', same s s' -> P s -> P s'.

Lemma points_same s s' n : p_active s' = p_active s -> points s' n <-> points s n.
Proof. intros H. unfold points. by rewrite H. Qed.

Lemma whole_same s s' n : same s s' -> n = V \/ prior = Some n -> whole s n -> whole s' n.
Proof.
  intros (Ha & _ & Hr & Hv) Hn [H1 H2]. unfold whole. rewrite Hv, Hr; [done|..].
  - destruct Hn as [-> | Hn]; [intros E; by apply (proj1 Hstage)|]. intros ->. by apply (proj2 Hstage).
  - destruct Hn as [-> | Hn]; [intros E; by apply (proj1 Hrollback)|]. intros ->. by apply (proj2 Hrollback).
Qed.

Lemma safe_closed : closed safe.
Proof.
  intros s s' Hs (H1 & H2 & H3). pose proof Hs as (Ha & _). split_and!.
  - intros n. rewrite (points_same s) by done. apply H1.
  - intros n Hn Hne. eapply whole_same; eauto.
  - rewrite (points_same s) by done. intros Hp. eapply whole_same; eauto.
Qed.

Lemma away_closed : closed away.
Proof.
  intros s s' Hs [H1 H2]. split; [by eapply safe_closed|]. pose proof Hs as (Ha & _). by rewrite (points_same s).
Qed.

Definition free_loc (l : loc) : Prop :=
  match l with
  | (BRuntime, _) | (BState, _) => True
  | (BProduction, k :: _) => k <> VERSIONS
  | (BProduction, []) => False
  | (BRelease n, _) => n = c_stage cx \/ n = c_rollback cx
  end.

Lemma free_put l o s : free_loc l -> same s (put l o s).
Proof.
  destruct l as [b p]. intros Hl. destruct b as [| | |m]; [done|done| |].
  - destruct p as [|k p]; [done|]. split_and!; [done..|]. intros n. simpl in Hl.
    unfold get, put. cbn [fst snd get_base put_base p_production]. f_equal. apply lookup_put_other. congruence.
  - split_and!; [done|done| |done]. intros n H1 H2. unfold get, put. cbn [fst snd get_base put_base p_releases lookup_path].
    f_equal. simpl. apply lookup_partial_alter_ne. simpl in Hl. intros ->. destruct Hl; congruence.
Qed.

Lemma same_refl s : same s s.
Proof. by split_and!. Qed.
Lemma same_trans s1 s2 s3 : same s1 s2 -> same s2 s3 -> same s1 s3.
Proof.
  intros (A1 & B1 & C1 & D1) (A2 & B2 & C2 & D2). split_and!; [congruence|congruence| |].
  - intros n H1 H2. by rewrite C2, C1.
  - intros n. by rewrite D2, D1.
Qed.

(** *** What keeps every property that these changes keep *)

Section Frame.
Context (P : pstate -> Prop) (HP : closed P).
#[local] Abbreviation kp := (keeps P).

Lemma kp_put l o s : free_loc l -> P s -> P (put l o s).
Proof. intros Hl. apply HP. by apply free_put. Qed.

Lemma kp_change l o : free_loc l -> kp (change fault l o).
Proof.
  intros Hl. apply keeps_bind; [apply keeps_read|]. intros [|]; [|apply keeps_throw]. apply keeps_effect. intros s. by apply kp_put.
Qed.
Lemma kp_unlink l : free_loc l -> kp (unlink fault l).
Proof. intros Hl. apply keeps_effect. intros s. by apply kp_put. Qed.
Lemma kp_rewriting l o : free_loc l -> kp (rewriting fault partial l o).
Proof. intros Hl s n Hs. unfold rewriting. simpl. destruct (fault n); by apply kp_put. Qed.
Lemma kp_rewrite_or_fail l o c : free_loc l -> kp (rewrite_or_fail fault partial l o c).
Proof. intros Hl. destruct o; [by apply kp_rewriting|]. intros s n Hs. by apply kp_put. Qed.
Lemma kp_rmtree l : free_loc l -> kp (rmtree fault partial l).
Proof. intros Hl. apply keeps_bind; [apply keeps_read|]. intros o. destruct (is_dir o); [by apply kp_rewriting|apply keeps_throw]. Qed.
Lemma kp_rename src dst : free_loc src -> free_loc dst -> kp (rename fault src dst).
Proof.
  intros Hs Hd. do 3 (apply keeps_bind; [apply keeps_read|]; intros ?). case_match; [|apply keeps_throw].
  case_match; [|apply keeps_throw]. apply keeps_effect. intros s Hp. by apply kp_put, kp_put.
Qed.
Lemma kp_trusted o owners : kp (_trusted_directory o owners).
Proof. destruct o as [[]|]; [apply keeps_fail|apply keeps_guard|apply keeps_fail|apply keeps_fail|apply keeps_throw]. Qed.
Lemma kp_raise_left {A} (r : fexc + A) : kp (raise_left r).
Proof. destruct r; [apply keeps_throw|apply keeps_ret]. Qed.
Lemma kp_same_digest b x y c : kp (same_digest sha256 tree_sha256 b x y c).
Proof. unfold same_digest. repeat case_match; auto with helios. Qed.
Lemma kp_when b m : kp m -> kp (when b m).
Proof. intros Hm. destruct b; [done|apply keeps_ret]. Qed.

(** Exceptions that a guard turned into refusals. *)
Lemma kp_publication a body : kp body -> kp (_publication decide_ a body).
Proof.
  intros Hb. apply keeps_bind; [apply keeps_oracle|]. intros d.
  assert (H : kp (fexcept (body ;; match d with RefuseExit => fail "publication lock is unavailable" | _ => mret tt end)
           (fun x => match x with SafeF _ | OsF => fthrow refused | _ => fthrow x end))).
  { apply keeps_except; [|intros []; apply keeps_throw]. apply keeps_bind; [done|]. intros _. destruct d; auto with helios. }
  destruct d; [done|apply keeps_throw|done].
Qed.

Lemma kp_record c : kp (write_record fault partial c).
Proof. intros s n Hs. unfold write_record. simpl. destruct (fault n); (apply (HP s); [by split_and!|done]). Qed.
Lemma kp_report d : kp (_publish_report fault partial encode_record cx d).
Proof. apply keeps_bind; [apply kp_record|]. intros _. apply keeps_bind; auto with helios. Qed.
End Frame.

(** Steps of computations made of these. *)
Ltac kp_step :=
  lazymatch goal with
  | |- keeps _ (_ ≫= _) => apply keeps_bind; [|intros ?]
  | |- keeps _ (if _ then _ else _) => case_match
  | |- keeps _ (match _ with _ => _ end) => case_match
  | |- keeps _ (ffinally _ _) => apply keeps_finally
  | |- keeps _ (ffor _ _) => apply keeps_for; intros ?
  | |- keeps _ (when _ _) => apply kp_when
  | |- keeps _ (_publication _ _ _) => apply kp_publication
  | |- keeps _ (change _ _ _) => apply kp_change; [done|]
  | |- keeps _ (unlink _ _) => apply kp_unlink; [done|]
  | |- keeps _ (rewriting _ _ _ _) => apply kp_rewriting; [done|]
  | |- keeps _ (rewrite_or_fail _ _ _ _ _) => apply kp_rewrite_or_fail; [done|]
  | |- keeps _ (rmtree _ _ _) => apply kp_rmtree; [done|]
  | |- keeps _ (rename _ _ _) => apply kp_rename; [done|..]
  | |- keeps _ (_trusted_directory _ _) => apply kp_trusted
  | |- keeps _ (raise_left _) => apply kp_raise_left
  | |- keeps _ (same_digest _ _ _ _ _ _) => apply kp_same_digest
  | |- keeps _ (_publish_report _ _ _ _ _) => apply kp_report; [done|]
  | |- keeps _ _ => solve [auto with helios]
  | |- free_loc _ => solve [simpl; auto | done]
  end.
Ltac kp := repeat kp_step.

Section Frame2.
Context (P : pstate -> Prop) (HP : closed P).
#[local] Abbreviation kp := (keeps P).

Lemma kp_bind_links d : kp (_bind_candidate_links fault partial cx d).
Proof. unfold _bind_candidate_links. kp. Qed.
Lemma kp_write_metadata b d a own : b = BState \/ b = BProduction -> kp (_write_metadata fault decide_ encode_record cx inp b d a own).
Proof. intros [-> | ->]; unfold _write_metadata, publish_metadata; kp. Qed.
Lemma kp_prepare p own : kp (_prepare_state_ownership fault partial (BState, p) own).
Proof. unfold _prepare_state_ownership. kp. Qed.
Lemma kp_normalize p : kp (_normalize_release_permissions fault partial (BRuntime, p)).
Proof. unfold _normalize_release_permissions. kp. Qed.
Lemma kp_verify_release l : kp (_verify_release_ownership l).
Proof. unfold _verify_release_ownership. kp. Qed.
Lemma kp_candidate_matches d b : kp (_candidate_matches_existing_state sha256 tree_sha256 follows cx d b).
Proof. unfold _candidate_matches_existing_state, check_stable. kp. Qed.
Lemma kp_verify_version l d own : kp (_verify_version_state_tree l d own).
Proof. unfold _verify_version_state_tree. kp. Qed.
Lemma kp_verify_fresh b d own : kp (_verify_fresh_state_tree parse_document decode_record cx b d own).
Proof. unfold _verify_fresh_state_tree. kp. Qed.
Lemma kp_drop_runtime d c : kp (drop_runtime fault partial sha256 tree_sha256 cx d c).
Proof. unfold drop_runtime. kp. apply kp_bind_links. Qed.
Lemma kp_drop_state d own : kp (drop_state fault partial sha256 tree_sha256 follows cx d own).
Proof. unfold drop_state. kp. apply kp_candidate_matches. Qed.
Lemma kp_backup own : kp (_metadata_backup decode_record own).
Proof. unfold _metadata_backup, backup_one. kp. Qed.
Lemma kp_restore_metadata backup : kp (_restore_metadata fault decide_ backup).
Proof. unfold _restore_metadata, temporary, metadata. kp. Qed.
Lemma kp_copytree : kp (copytree fault partial cx).
Proof.
  apply keeps_bind; [apply keeps_read|]. intros run. apply keeps_bind; [apply keeps_read|]. intros stg.
  destruct run as [[]|], stg; try solve [apply keeps_throw]. case_match; [apply kp_rewriting; [done|by left]|].
  intros s n Hs. apply (kp_put P HP (stage_loc cx)); [by left|done].
Qed.
Lemma kp_clear_stage : kp (clear_stage fault partial follows cx).
Proof. unfold clear_stage. kp. Qed.
Lemma kp_stage_release : kp (stage_release fault partial cx).
Proof. unfold stage_release. kp. apply kp_copytree. apply kp_verify_release. Qed.
End Frame2.

(** *** While the new release is not active, it can change too *)

Definition sameV (s s' : pstate) : Prop :=
  p_active s' = p_active s /\
  (forall n, n <> c_stage cx -> n <> c_rollback cx -> n <> V -> is_dir (get (BRelease n, []) s') = is_dir (get (BRelease n, []) s)) /\
  (forall n, n <> V -> is_dir (get (BProduction, [VERSIONS; n]) s') = is_dir (get (BProduction, [VERSIONS; n]) s)).

Lemma away_sameV s s' : sameV s s' -> away s -> away s'.
Proof.
  intros (Ha & Hr & Hv) [(H1 & H2 & H3) H4]. assert (H4' : ~ points s' V) by by rewrite (points_same s).
  split; [|done]. split_and!; [| |done].
  - intros n. rewrite (points_same s) by done. apply H1.
  - intros n Hn Hne. destruct (H2 n Hn Hne) as [Hw1 Hw2]. unfold whole. rewrite Hr, Hv; [done|done|..]; try done.
    + intros ->. by apply (proj2 Hstage).
    + intros ->. by apply (proj2 Hrollback).
Qed.

(** Before anything was active everything can change. *)
Lemma away_fresh s s' : prior = None -> p_active s' = p_active s -> away s -> away s'.
Proof.
  intros Hn Ha [(H1 & H2 & H3) H4]. split; [|by rewrite (points_same s)]. split_and!.
  - intros n. rewrite (points_same s) by done. apply H1.
  - intros n. by rewrite Hn.
  - by rewrite (points_same s).
Qed.

Definition loc_V (l : loc) : Prop := free_loc l \/ l = release_loc cx \/ l = version_loc cx BProduction.

Lemma sameV_trans s1 s2 s3 : sameV s1 s2 -> sameV s2 s3 -> sameV s1 s3.
Proof.
  intros (A1 & C1 & D1) (A2 & C2 & D2). split_and!; [congruence| |].
  - intros n H1 H2 H3. by rewrite C2, C1.
  - intros n H1. by rewrite D2, D1.
Qed.

Lemma same_sameV s s' : same s s' -> sameV s s'.
Proof. intros (Ha & _ & Hr & Hv). split_and!; auto. Qed.

Lemma locV_put l o s : loc_V l -> sameV s (put l o s).
Proof.
  intros [Hl|[-> | ->]]; [by apply same_sameV, free_put| |].
  - split_and!; [done| |done]. intros n _ _ Hn. unfold get, put. simpl. f_equal. by apply lookup_partial_alter_ne.
  - split_and!; [done|done|]. intros n Hn. unfold get, put. cbn [fst snd version_loc get_base put_base p_production]. f_equal.
    by apply lookup_put_sibling.
Qed.

Lemma away_rename src dst : loc_V src -> loc_V dst -> keeps away (rename fault src dst).
Proof.
  intros Hs Hd. do 3 (apply keeps_bind; [apply keeps_read|]; intros ?). case_match; [|apply keeps_throw].
  case_match; [|apply keeps_throw]. apply keeps_effect. intros s. apply away_sameV.
  eapply sameV_trans; apply locV_put; done.
Qed.

Lemma away_replace a src dst pre : keeps away pre -> loc_V src -> loc_V dst -> keeps away (_guarded_replace fault decide_ a src dst pre).
Proof.
  intros Hp Hs Hd. apply kp_publication. apply keeps_bind; [done|]. intros _. apply keeps_bind; [by apply away_rename|]. intros _.
  apply keeps_step.
Qed.

Lemma away_mark f : keeps away (mark f).
Proof. apply keeps_modify. intros s. apply away_sameV. by split_and!. Qed.

Lemma away_reset : keeps away (modify (set_locals no_locals)).
Proof. apply keeps_modify. intros s. apply away_sameV. by split_and!. Qed.

(** *** Activation *)

Hypothesis Hother : forall n, fault n <> Some OtherF.

Lemma step_ends (s1 : pstate) : ftri (fun s => s = s1) (step fault) (fun _ s => s = s1) (fun x s => s = s1 /\ x <> OtherF).
Proof. apply ftri_effect_fault; [done|]. intros x n s Hf ->. split; [done|]. intros ->. by apply (Hother n). Qed.

Definition linked (n : string) (s : pstate) : pstate := set_active (Some (ALink (relpath n))) s.

Lemma activate_ends n exp s1 :
  ftri (fun s => s = s1) (activate_release fault relpath n exp)
    (fun _ s => s = linked n s1 /\ is_dir (get (BRelease n, []) s1) = true)
    (fun x s => (s = s1 \/ (s = linked n s1 /\ is_dir (get (BRelease n, []) s1) = true)) /\ x <> OtherF).
Proof.
  assert (Hg : forall b c, ftri (fun s => s = s1) (guard b c) (fun _ s => s = s1 /\ b = true)
    (fun x s => (s = s1 \/ (s = linked n s1 /\ is_dir (get (BRelease n, []) s1) = true)) /\ x <> OtherF)).
  { intros [] c s m ->; simpl; [done|]. split; [by left|done]. }
  assert (Hst : ftri (fun s => s = s1) (step fault) (fun _ s => s = s1)
    (fun x s => (s = s1 \/ (s = linked n s1 /\ is_dir (get (BRelease n, []) s1) = true)) /\ x <> OtherF)).
  { eapply ftri_conseq; [apply (step_ends s1)|done|done|]. intros x s [-> ?]. split; [by left|done]. }
  apply ftri_read_at. eapply ftri_seq; [apply Hg|]. apply ftri_pure. intros Hd.
  apply ftri_read_at. eapply ftri_seq; [apply Hg|]. apply ftri_pure. intros _. eapply ftri_seq; [apply Hg|]. apply ftri_pure. intros _.
  eapply ftri_seq; [apply Hst|]. eapply ftri_seq; [apply Hst|].
  apply (ftri_seq _ _ _ (fun s => s = linked n s1)).
  { apply ftri_effect_fault; [by intros s ->|]. intros x k s Hf ->. split; [by left|]. intros ->. by apply (Hother k). }
  apply (ftri_except _ _ _ _ _ (fun x s => s = linked n s1 /\ x <> OtherF)).
  - eapply ftri_conseq; [apply (step_ends (linked n s1))|done| |done]. by intros a s ->.
  - intros x _. apply ftri_pure. intros Hx. apply (ftri_seq _ _ _ (fun s => s = s1)).
    + apply ftri_effect_fault.
      * intros s ->. unfold linked, set_active. simpl. by destruct s1.
      * intros y k s Hf ->. split; [right; done|]. intros ->. by apply (Hother k).
    + eapply ftri_seq; [apply Hst|]. apply ftri_throw. intros s ->. split; [by left|done].
  - intros x s _ [-> Hx]. split; [by right|done].
Qed.

(** A publication ends with its action, a refusal, or the process. *)
Lemma publication_ends a body (P Q : pstate -> Prop) E' :
  ftri P body (fun _ => Q) E' -> (forall x s, E' x s -> x <> OtherF) ->
  ftri P (_publication decide_ a body) (fun _ => Q)
    (fun x s => (P s \/ Q s \/ exists y, E' y s) /\ (x = refused \/ x = CrashF)).
Proof.
  intros Hb Hx. eapply ftri_bind; [apply ftri_oracle|]. intros d. simpl.
  assert (H : ftri P (fexcept (body ;; match d with RefuseExit => fail "publication lock is unavailable" | _ => mret tt end)
           (fun x => match x with SafeF _ | OsF => fthrow refused | _ => fthrow x end)) (fun _ => Q)
    (fun x s => (P s \/ Q s \/ exists y, E' y s) /\ (x = refused \/ x = CrashF))).
  { apply (ftri_except _ _ _ _ _ (fun x s => (Q s \/ E' x s) /\ x <> OtherF)).
    - eapply ftri_seq.
      + eapply ftri_conseq; [exact Hb|done|intros ? s Hs; exact Hs|]. intros x s Hs. split; [by right|by eapply Hx].
      + destruct d; [by apply ftri_ret..|apply ftri_throw]. intros s Hs. split; [by left|done].
    - intros x Hend. destruct x; try done; apply ftri_throw; intros s [Hs Hne]; (split; [destruct Hs; eauto|]); try by left.
    - intros x s Hend [Hs Hne]. destruct x; try done. split; [destruct Hs; eauto|by right]. }
  destruct d; [exact H| |exact H]. apply ftri_throw. intros s Hs. split; [by left|by left].
Qed.

Lemma linked_points n s m : points (linked n s) m <-> m = n.
Proof.
  unfold points, linked. simpl. split.
  - intros (t & Et & Hr). injection Et as <-. rewrite Hrelpath in Hr. by injection Hr.
  - intros ->. eauto.
Qed.

Lemma linked_safe n s : n = V \/ prior = Some n -> is_dir (get (BRelease n, []) s) = true ->
  is_dir (get (BProduction, [VERSIONS; n]) s) = true -> safe s -> safe (linked n s).
Proof.
  intros Hn Hr Hv (H1 & H2 & H3). split_and!.
  - intros m ->%linked_points. done.
  - intros m Hm Hne. by apply H2.
  - intros ->%linked_points. done.
Qed.

(** A precondition only reads. *)
Definition reads {A} (m : FM pstate A) : Prop :=
  forall s1, ftri (fun s => s = s1) m (fun _ s => s = s1) (fun x s => s = s1 /\ x <> OtherF).

Lemma reads_ret {A} (a : A) : reads (mret a).
Proof. intros s1. by apply ftri_ret. Qed.
Lemma reads_nothing : reads no_precondition.
Proof. apply reads_ret. Qed.
Lemma reads_bind {A B} (m : FM pstate A) (k : A -> FM pstate B) : reads m -> (forall a, reads (k a)) -> reads (m ≫= k).
Proof. intros Hm Hk s1. eapply ftri_bind; [apply Hm|]. intros a. apply Hk. Qed.
Lemma reads_guard b c : reads (guard b c).
Proof. intros s1. by apply ftri_guard. Qed.
Lemma reads_fail {A} c : reads (fail c : FM pstate A).
Proof. intros s1. by apply ftri_throw. Qed.
Lemma reads_read {A} (f : pstate -> A) : reads (read f).
Proof. intros s1 s n ->. done. Qed.
Hint Resolve reads_ret reads_guard reads_fail reads_read : core.

Lemma reads_fresh b d own : reads (_verify_fresh_state_tree parse_document decode_record cx b d own).
Proof. apply reads_bind; [auto|]. intros o. apply reads_bind; [auto|]. intros _. destruct o; auto. Qed.
Lemma reads_identity b i : reads (_require_path_identity b i).
Proof. apply reads_bind; [auto|]. intros [o|]; auto. Qed.
Lemma reads_absent f : reads (_require_path_absent f).
Proof. apply reads_bind; auto. Qed.
Hint Resolve reads_fresh reads_identity reads_absent : core.

Lemma reads_state_move i : reads (_assert_fresh_state_move i).
Proof. apply reads_bind; auto. Qed.
Lemma reads_fresh_activation i d own : reads (_assert_fresh_activation parse_document decode_record cx i d own).
Proof. repeat (apply reads_bind; [auto|]; intros ?). auto. Qed.

Lemma reads_keeps {A} (m : FM pstate A) P : reads m -> keeps P m.
Proof.
  intros Hm s n Hs. specialize (Hm s s n eq_refl). destruct (m (s, n)) as [[x|a] [s' n']]; [by destruct Hm as [-> _]|by subst].
Qed.

Lemma guarded_activate_ends a n exp pre s1 :
  reads pre -> n = V \/ prior = Some n -> is_dir (get (BProduction, [VERSIONS; n]) s1) = true -> safe s1 ->
  ftri (fun s => s = s1) (_guarded_activate fault decide_ relpath a n exp pre)
    (fun _ s => s = linked n s1 /\ safe s)
    (fun x s => (s = s1 \/ s = linked n s1) /\ safe s /\ (x = refused \/ x = CrashF)).
Proof.
  intros Hpre Hn Hv Hs. eapply ftri_conseq; [apply publication_ends|..].
  - eapply ftri_seq; [eapply ftri_conseq; [apply Hpre|done..|]|apply activate_ends].
    intros x s [-> Hx]. split; [by left|done].
  - by intros x s [_ Hx].
  - done.
  - intros _ s [-> Hr]. split; [done|]. by apply linked_safe.
  - intros x s [H Hx]. destruct H as [-> | [[-> Hr] | (y & [[-> | [-> Hr]] _])]].
    + split_and!; [by left|done|done].
    + split_and!; [by right|by apply linked_safe|done].
    + split_and!; [by left|done|done].
    + split_and!; [by right|by apply linked_safe|done].
Qed.

(** ** The parts of a promotion *)

Definition committed (s : pstate) : Prop := safe s /\ points s V.

Lemma committed_closed : closed committed.
Proof. intros s s' Hs [H1 H2]. split; [by eapply safe_closed|]. pose proof Hs as (Ha & _). by rewrite (points_same s). Qed.

Lemma away_safe s : away s -> safe s.
Proof. by intros [? _]. Qed.
Lemma committed_safe s : committed s -> safe s.
Proof. by intros [? _]. Qed.
Hint Resolve away_safe committed_safe safe_closed away_closed committed_closed : core.

Definition version_there (s : pstate) : Prop := is_dir (get (BProduction, [VERSIONS; V]) s) = true.

Lemma activate_new exp pre : reads pre ->
  ftri (fun s => away s /\ version_there s) (_guarded_activate fault decide_ relpath ACTIVE_LINK V exp pre)
    (fun _ => committed) (fun x s => safe s /\ (x = refused \/ x = CrashF)).
Proof.
  intros Hpre s n [[Hs Hv] Hd].
  pose proof (guarded_activate_ends ACTIVE_LINK V exp pre s Hpre (or_introl eq_refl) Hd Hs s n eq_refl) as H.
  destruct (_guarded_activate _ _ _ _ _ _ _ (s, n)) as [[x|[]] [s' n']].
  - destruct H as (_ & H1 & H2). done.
  - destruct H as [-> H]. split; [done|]. by apply linked_points.
Qed.

Lemma verify_version_there d own :
  ftri away (_verify_production_version_state cx d own) (fun _ s => away s /\ version_there s) (fun _ => away).
Proof.
  intros s n Hs. unfold _verify_production_version_state, _verify_version_state_tree, mbind, FM_bind. simpl.
  fold (VERSIONS). destruct (get (version_loc cx BProduction) s) as [[]|] eqn:E; simpl; try done.
  destruct (_ && _); simpl; [|done]. split; [done|]. unfold version_there. by unfold version_loc in E; rewrite E.
Qed.

(** From a state known to be safe to one that is, with the commitment when it returned. *)
Definition part (s1 : pstate) {A} (m : FM pstate (option A)) : Prop :=
  ftri (fun s => s = s1) m (fun r s => match r with Some _ => committed s | None => s = s1 end) (fun _ => safe).

Lemma ftri_from {A} (P : pstate -> Prop) s1 (m : FM pstate A) Q E : ftri P m Q E -> P s1 -> ftri (fun s => s = s1) m Q E.
Proof. intros H HP. eapply ftri_pre; [exact H|]. by intros s ->. Qed.

Lemma keeps_ftri {A} (P : pstate -> Prop) (m : FM pstate A) (E : fexc -> pstate -> Prop) : keeps P m -> (forall x s, P s -> E x s) -> ftri P m (fun _ => P) E.
Proof. intros H HE. by eapply ftri_conseq. Qed.

Lemma active_release_points s n : active_release resolved s = Some n -> points s n.
Proof. unfold active_release, points. intros H. repeat case_match; simplify_eq. eauto. Qed.

Lemma points_active_release s : safe s -> points s V -> active_release resolved s = Some V.
Proof.
  intros (_ & _ & H3) Hp. destruct (H3 Hp) as [Hr _]. destruct Hp as (t & Et & Hres). unfold active_release. by rewrite Et, Hres, Hr.
Qed.

Lemma already_promoted_part s1 d own : safe s1 ->
  part s1 (_already_promoted fault partial decide_ encode_record decode_record sha256 tree_sha256 resolved follows cx inp d own).
Proof.
  intros Hs. apply ftri_read_at. case_bool_decide as Ha; [|by apply ftri_ret].
  assert (Hc : committed s1) by (split; [done|by apply active_release_points]).
  eapply ftri_from; [|exact Hc]. set (Q := fun (r : option (gmap string jval)) s => match r with Some _ => committed s | None => s = s1 end).
  assert (Hk : forall {A} (m : FM pstate A) k, keeps committed m -> (forall a, ftri committed (k a) Q (fun _ => safe)) -> ftri committed (m ≫= k) Q (fun _ => safe)).
  { intros A m k Hm Hkk. eapply ftri_bind; [apply keeps_ftri; [exact Hm|auto]|exact Hkk]. }
  do 4 (apply Hk; [first [apply keeps_read|apply kp_trusted]|intros ?]).
  apply Hk; [by apply kp_drop_runtime|intros _]. apply Hk; [by apply kp_drop_state|intros _].
  apply Hk; [apply keeps_read|intros ?]. apply Hk; [case_match; [apply keeps_ret|apply kp_write_metadata; auto]|intros _].
  apply Hk; [apply keeps_read|intros [r|]].
  - apply Hk; [apply kp_raise_left|intros ?]. apply Hk; [apply keeps_guard|intros _]. by apply ftri_ret.
  - apply Hk; [by apply kp_report|intros ?]. by apply ftri_ret.
Qed.

(** *** A fresh installation *)

Lemma put_active l o s : p_active (put l o s) = p_active s.
Proof. by destruct l as [[] p]. Qed.

Lemma fresh_replace a src dst pre : prior = None -> reads pre -> keeps away (_guarded_replace fault decide_ a src dst pre).
Proof.
  intros Hn Hpre. apply kp_publication. apply keeps_bind; [by apply reads_keeps|]. intros _.
  apply keeps_bind; [|intros _; apply keeps_step]. do 3 (apply keeps_bind; [apply keeps_read|]; intros ?).
  case_match; [|apply keeps_throw]. case_match; [|apply keeps_throw]. apply keeps_effect. intros s. apply away_fresh; [done|].
  by rewrite !put_active.
Qed.

Lemma verify_fresh_there d own :
  ftri away (_verify_fresh_state_tree parse_document decode_record cx BProduction d own) (fun _ s => away s /\ version_there s) (fun _ => away).
Proof.
  intros s n Hs. unfold _verify_fresh_state_tree, mbind, FM_bind. simpl.
  destruct (fresh_tree_ok _ _ _ _ _ (p_production s)) eqn:E; simpl; [|done].
  destruct (p_production s) as [[|a l| |]|] eqn:Ep; try done. simpl. split; [done|]. unfold version_there, get. simpl. rewrite Ep.
  unfold fresh_tree_ok in E. apply andb_true_iff in E as [E _]. apply andb_true_iff in E as [_ E]. simpl in E |- *.
  destruct (assoc VERSIONS l) as [[|b m| |]|]; try done. apply andb_true_iff in E as [_ E]. simpl.
  unfold version_tree_ok in E. by destruct (assoc V m) as [[]|].
Qed.

Lemma away_bind {A B} (m : FM pstate A) (k : A -> FM pstate B) Q : keeps away m -> (forall a, ftri away (k a) Q (fun _ => safe)) ->
  ftri away (m ≫= k) Q (fun _ => safe).
Proof. intros Hm Hk. eapply ftri_bind; [apply keeps_ftri; [exact Hm|auto]|exact Hk]. Qed.

Lemma committed_bind {A B} (m : FM pstate A) (k : A -> FM pstate B) Q : keeps committed m -> (forall a, ftri committed (k a) Q (fun _ => safe)) ->
  ftri committed (m ≫= k) Q (fun _ => safe).
Proof. intros Hm Hk. eapply ftri_bind; [apply keeps_ftri; [exact Hm|auto]|exact Hk]. Qed.

Lemma fresh_activate_tail {B} d own i (k : FM pstate B) Q : ftri committed k Q (fun _ => safe) ->
  ftri (fun s => away s /\ version_there s)
    (_guarded_activate fault decide_ relpath ACTIVE_LINK V None (_assert_fresh_activation parse_document decode_record cx i d own) ;; k) Q (fun _ => safe).
Proof.
  intros Hk. eapply ftri_bind; [eapply ftri_conseq; [apply activate_new, reads_fresh_activation|done|done|]|intros []; exact Hk].
  by intros x s [? _].
Qed.

Lemma no_link_away s1 : safe s1 -> p_active s1 = None -> away s1.
Proof. intros Hs Hn. split; [done|]. intros (t & Et & _). congruence. Qed.

Lemma resume_published_part s1 d own : safe s1 -> (p_active s1 = None -> prior = None) ->
  part s1 (_resume_published_release fault partial decide_ parse_document encode_record decode_record sha256 tree_sha256 relpath cx d own).
Proof.
  intros Hs Hp. do 3 apply ftri_read_at. match goal with |- ftri _ (if ?b then _ else _) _ _ => destruct b eqn:Eb end; [|by apply ftri_ret].
  apply andb_true_iff in Eb as [_ Ea]. apply bool_decide_eq_true in Ea. specialize (Hp Ea).
  eapply ftri_from; [|by apply no_link_away].
  apply away_bind; [apply keeps_read|intros cand]. apply away_bind; [apply keeps_read|intros prod].
  apply away_bind; [apply keeps_guard|intros ?]. apply away_bind; [apply kp_verify_release|intros ?].
  apply away_bind; [by apply kp_bind_links|intros ?]. apply away_bind; [apply keeps_read|intros run].
  apply away_bind; [apply keeps_read|intros rel]. apply away_bind; [apply kp_same_digest|intros ?].
  apply (ftri_bind _ _ _ (fun _ s => away s /\ version_there s)).
  - assert (Hv : ftri away (_verify_fresh_state_tree parse_document decode_record cx BProduction d own) (fun _ s => away s /\ version_there s) (fun _ => safe)).
    { eapply ftri_conseq; [apply verify_fresh_there|done|done|]. auto. }
    destruct cand.
    + apply away_bind; [apply kp_verify_fresh|intros i]. apply away_bind; [|intros _; exact Hv].
      apply fresh_replace; [done|apply reads_state_move].
    + destruct prod; [exact Hv|]. apply ftri_throw. auto.
  - intros i. apply fresh_activate_tail. apply committed_bind; [by apply kp_rmtree|intros ?].
    apply committed_bind; [apply keeps_step|intros ?]. apply committed_bind; [by apply kp_report|intros x]. by apply ftri_ret.
Qed.

(** *** An upgrade *)

Lemma reads_trusted o owners : reads (_trusted_directory o owners).
Proof. destruct o as [[]|]; simpl; auto. intros s1. by apply ftri_throw. Qed.
Lemma reads_verify_release l : reads (_verify_release_ownership l).
Proof. apply reads_bind; [auto|]. intros [o|]; [auto|]. intros s1. by apply ftri_throw. Qed.

Lemma ftri_reads {A B} s1 (m : FM pstate A) (k : A -> FM pstate B) Q :
  safe s1 -> reads m -> (forall a, ftri (fun s => s = s1) (k a) Q (fun _ => safe)) -> ftri (fun s => s = s1) (m ≫= k) Q (fun _ => safe).
Proof.
  intros Hs Hm Hk. eapply ftri_bind; [|exact Hk]. eapply ftri_conseq; [apply (Hm s1)|done|done|]. by intros x s [-> _].
Qed.

Lemma move_version_keeps : keeps away (move_version_state fault decide_ cx).
Proof. apply away_replace; [apply keeps_ret|by left|by right; right]. Qed.

Lemma resume_upgrade_part s1 d own : safe s1 ->
  part s1 (_resume_upgrade_publication fault partial decide_ encode_record sha256 tree_sha256 resolved relpath follows cx inp d own).
Proof.
  intros Hs. do 3 apply ftri_read_at. match goal with |- ftri _ (if ?b then _ else _) _ _ => destruct b eqn:Eb end; [|by apply ftri_ret].
  apply ftri_reads; [done|apply reads_trusted|intros ?]. apply ftri_reads; [done|apply reads_verify_release|intros ?].
  do 3 apply ftri_read_at. apply ftri_reads; [done|apply reads_trusted|intros ?]. do 2 apply ftri_read_at.
  set (Q := fun (r : option (gmap string jval)) s => match r with Some _ => committed s | None => s = s1 end).
  apply (ftri_seq _ _ _ committed).
  - case_bool_decide as Ha.
    + assert (Hc : committed s1) by (split; [done|by apply active_release_points]). eapply ftri_from; [|exact Hc].
      apply committed_bind; [apply keeps_guard|intros ?]. apply committed_bind; [apply keeps_guard|intros ?].
      apply committed_bind; [apply kp_verify_version|intros ?]. apply committed_bind; [apply kp_write_metadata; auto|intros ?].
      apply committed_bind; [by apply kp_drop_runtime|intros ?]. apply keeps_ftri; [by apply kp_drop_state|auto].
    + assert (Hw : away s1) by (split; [done|]; intros Hp; apply Ha; by apply points_active_release). eapply ftri_from; [|exact Hw].
      apply away_bind; [apply keeps_guard|intros ?].
      assert (Hv : ftri away (_verify_production_version_state cx d own) (fun _ s => away s /\ version_there s) (fun _ => safe)).
      { eapply ftri_conseq; [apply verify_version_there|done|done|]. auto. }
      apply (ftri_seq _ _ _ (fun s => away s /\ version_there s)).
      * match goal with |- ftri _ (if ?b then _ else _) _ _ => destruct b end.
        -- apply away_bind; [apply keeps_guard|intros ?]. apply away_bind; [apply keeps_read|intros ?].
           apply away_bind; [|intros ?; exact Hv]. case_match; [|apply keeps_ret]. apply keeps_bind; [apply kp_candidate_matches|].
           intros ?. apply keeps_ret.
        -- apply away_bind; [apply keeps_read|intros ?]. apply away_bind; [apply keeps_guard|intros ?].
           apply away_bind; [apply kp_candidate_matches|intros ?]. apply away_bind; [by apply kp_prepare|intros ?].
           apply away_bind; [apply move_version_keeps|intros ?]. exact Hv.
      * eapply ftri_bind; [eapply ftri_conseq; [apply activate_new, reads_nothing|done|done|by intros x s [? _]]|intros []].
        apply committed_bind; [apply kp_write_metadata; auto|intros ?].
        apply committed_bind; [by apply kp_drop_runtime|intros ?]. apply keeps_ftri; [by apply kp_drop_state|auto].
  - apply committed_bind; [apply keeps_step|intros ?]. apply committed_bind; [by apply kp_report|intros x]. by apply ftri_ret.
Qed.

Lemma ftri_at {A} (P : pstate -> Prop) (m : FM pstate A) Q E : (forall s1, P s1 -> ftri (fun s => s = s1) m Q E) -> ftri P m Q E.
Proof. intros H s n Hs. by apply (H s). Qed.

Lemma withdraw_keeps : keeps away (withdraw_release fault partial decide_ follows cx).
Proof.
  apply keeps_bind; [apply keeps_read|intros ?]. apply keeps_bind; [apply keeps_read|intros ?]. apply keeps_bind.
  - apply kp_when. apply keeps_bind; [apply keeps_read|intros ?]. apply keeps_bind; [apply keeps_guard|intros ?].
    apply keeps_bind; [apply away_replace; [apply keeps_ret|by right; left|left; by right]|intros ?].
    apply kp_rmtree; [auto|by right].
  - intros ?. apply keeps_bind; [apply keeps_read|intros ?]. apply kp_when, kp_rmtree; [auto|by left].
Qed.

(** What the handler of an upgrade starts from. *)
Definition undoable (s : pstate) : Prop := safe s /\ (away s \/ l_activated (p_locals s) = true).

Lemma undo_upgrade_safe pr backup : prior = Some pr -> pr <> V ->
  ftri undoable (undo_upgrade fault partial decide_ relpath follows cx pr backup) (fun _ => safe) (fun _ => safe).
Proof.
  intros Hpr Hne. apply ftri_at. intros s2 [Hs Hu]. do 3 apply ftri_read_at.
  apply (ftri_seq _ _ _ away).
  - unfold when. match goal with |- ftri _ (if ?b then _ else _) _ _ => destruct b eqn:Eb end.
    + destruct Hs as (H1 & H2 & H3). destruct (H2 pr Hpr Hne) as [_ Hv].
      eapply ftri_conseq; [apply guarded_activate_ends; [apply reads_nothing|by right|exact Hv|by split_and!]|done| |].
      * intros _ s [-> Hs]. split; [done|]. intros E%linked_points. congruence.
      * by intros x s (_ & ? & _).
    + apply ftri_ret. intros s ->. apply andb_false_iff in Eb as [Eb|Eb].
      * destruct Hu as [Hu|Hu]; [done|congruence].
      * split; [done|]. intros (t & Et & _). unfold is_symlink in Eb. by rewrite Et in Eb.
  - apply away_bind; [apply kp_when, kp_restore_metadata; auto|intros ?].
    do 2 (apply away_bind; [apply keeps_read|intros ?]).
    apply away_bind; [apply kp_when, away_replace; [apply keeps_ret|by right; right|by left]|intros ?].
    eapply ftri_conseq; [apply withdraw_keeps|..]; auto.
Qed.

Definition activated (s : pstate) : Prop := committed s /\ l_activated (p_locals s) = true.
Lemma activated_closed : closed activated.
Proof. intros s s' Hs [H1 H2]. split; [by eapply committed_closed|]. pose proof Hs as (_ & Hl & _). by rewrite Hl. Qed.

Definition interrupted (x : fexc) (s : pstate) : Prop := safe s /\ (x = refused \/ x = CrashF \/ undoable s).

Lemma away_interrupted x s : away s -> interrupted x s.
Proof. intros Hs. split; [auto|]. right. right. split; [auto|by left]. Qed.

Lemma or_undo_safe {A} P (m : FM pstate A) undo Q :
  ftri P m Q interrupted -> ftri undoable undo (fun _ => safe) (fun _ => safe) -> ftri P (or_undo m undo) Q (fun _ => safe).
Proof.
  intros Hm Hu. eapply ftri_except; [exact Hm| |by intros x s _ [? _]]. intros x Hx. simpl. case_bool_decide as Er.
  - apply ftri_throw. by intros s [? _].
  - eapply ftri_seq; [|by apply ftri_throw]. eapply ftri_pre; [exact Hu|]. intros s [_ [?|[-> |?]]]; done.
Qed.

Lemma upgrade_block d own exp :
  ftri away (
    stage_release fault partial cx ;;
    _prepare_state_ownership fault partial (version_loc cx BState) own ;;
    _guarded_replace fault decide_ RELEASE (stage_loc cx) (release_loc cx) no_precondition ;;
    mark mark_released ;;
    move_version_state fault decide_ cx ;;
    mark mark_moved ;;
    _verify_production_version_state cx d own ;;
    _guarded_activate fault decide_ relpath ACTIVE_LINK V exp no_precondition ;;
    mark mark_activated ;;
    mark mark_attempted ;;
    _write_metadata fault decide_ encode_record cx inp BProduction d (Some METADATA) (Some own))
    (fun _ => committed) interrupted.
Proof.
  assert (Hb : forall (m : FM pstate unit) (k : unit -> FM pstate unit), keeps away m -> (forall a, ftri away (k a) (fun _ => committed) interrupted) ->
    ftri away (m ≫= k) (fun _ => committed) interrupted).
  { intros m k Hm Hk. eapply ftri_bind; [apply keeps_ftri; [exact Hm|apply away_interrupted]|exact Hk]. }
  apply Hb; [by apply kp_stage_release|intros ?]. apply Hb; [by apply kp_prepare|intros ?].
  apply Hb; [apply away_replace; [apply keeps_ret|left; by left|by right; left]|intros ?]. apply Hb; [apply away_mark|intros ?].
  apply Hb; [apply move_version_keeps|intros ?]. apply Hb; [apply away_mark|intros ?].
  eapply ftri_bind; [eapply ftri_conseq; [apply verify_version_there|done|intros ? s Hs; exact Hs|intros; by apply away_interrupted]|intros ?].
  eapply ftri_bind; [eapply ftri_conseq; [apply activate_new, reads_nothing|done|intros ? s Hs; exact Hs|]|intros ?].
  { intros x s [Hs Hx]. split; [done|]. destruct Hx; auto. }
  apply (ftri_bind _ _ _ (fun _ => activated)); [apply ftri_modify|intros ?].
  { intros s Hs. split; [|done]. destruct Hs as [(H1 & H2 & H3) H4]. split; [|done]. by split_and!. }
  apply (ftri_bind _ _ _ (fun _ => activated)); [apply ftri_modify|intros ?].
  { intros s [Hs Hl]. split; [|done]. destruct Hs as [(H1 & H2 & H3) H4]. split; [|done]. by split_and!. }
  eapply ftri_conseq; [apply (kp_write_metadata activated activated_closed); auto|done|by intros ? s [? _]|].
  intros x s [[Hs Hp] Hl]. split; [done|]. right. right. split; [done|by right].
Qed.

Lemma promote_upgrade_safe s1 d own : safe s1 ->
  ftri (fun s => s = s1) (_promote_upgrade fault partial decide_ encode_record decode_record sha256 tree_sha256 resolved relpath follows cx inp d own)
    (fun _ => committed) (fun _ => safe).
Proof.
  intros Hs. apply ftri_read_at. apply ftri_reads; [done|apply reads_trusted|intros ?]. do 2 apply ftri_read_at.
  apply ftri_guard_then; [by intros s ->|]. intros Hg. apply andb_true_iff in Hg as [_ Hg]. do 2 apply ftri_read_at.
  destruct (active_release resolved s1) as [pr|] eqn:Ea; [|apply ftri_throw; by intros s ->].
  assert (Hw : away s1).
  { split; [done|]. intros Hp. destruct Hs as (_ & _ & H3). destruct (H3 Hp) as [Hr _]. unfold release_loc in Hg.
    by destruct (get (BRelease V, []) s1). }
  assert (Hpr : prior = Some pr /\ pr <> V).
  { apply active_release_points in Ea. destruct Hw as [(H1 & _) H4]. assert (pr <> V) by (intros ->; done).
    destruct (H1 pr Ea); [done|]. done. }
  destruct Hpr as [Hpr Hne]. eapply ftri_from; [|exact Hw].
  apply away_bind; [apply kp_candidate_matches|intros ?]. apply away_bind; [apply keeps_read|intros ?].
  apply away_bind; [apply kp_trusted|intros ?]. apply away_bind; [apply keeps_read|intros ?].
  apply away_bind; [apply keeps_guard|intros ?]. apply away_bind; [apply keeps_guard|intros ?].
  apply away_bind; [by apply kp_bind_links|intros ?]. apply away_bind; [by apply kp_normalize|intros ?].
  apply away_bind; [apply kp_verify_release|intros ?]. apply away_bind; [apply kp_backup|intros backup].
  apply away_bind; [apply away_reset|intros ?]. apply away_bind; [by apply kp_clear_stage|intros ?].
  eapply ftri_bind; [apply or_undo_safe; [apply upgrade_block|by apply undo_upgrade_safe]|intros ?].
  apply committed_bind; [by apply kp_rmtree|intros ?]. apply committed_bind; [by apply kp_rmtree|intros ?].
  apply committed_bind; [apply keeps_step|intros ?]. apply keeps_ftri; [by apply kp_report|auto].
Qed.

(** *** A fresh installation from the start *)

Lemma undo_fresh_safe : prior = None ->
  ftri undoable (undo_fresh fault partial decide_ follows cx) (fun _ => safe) (fun _ => safe).
Proof.
  intros Hn. apply ftri_at. intros s2 [Hs Hu]. apply ftri_read_at. apply (ftri_seq _ _ _ away).
  - unfold when. destruct (is_symlink s2) eqn:El.
    + assert (Hc : away (set_active None s2)).
      { split; [|by intros (t & Et & _)]. split_and!; [by intros n (t & Et & _)|by rewrite Hn|by intros (t & Et & _)]. }
      eapply ftri_conseq; [apply (publication_ends _ _ (fun s => s = s2) (fun s => s = set_active None s2)
        (fun x s => (s = s2 \/ s = set_active None s2) /\ x <> OtherF))|..].
      * apply (ftri_seq _ _ _ (fun s => s = set_active None s2)).
        -- apply ftri_effect_fault; [by intros s ->|]. intros x k s Hf ->. split; [by left|]. intros ->. by apply (Hother k).
        -- eapply ftri_conseq; [apply (step_ends (set_active None s2))|done|done|]. intros x s [-> ?]. split; [by right|done].
      * by intros x s [_ ?].
      * done.
      * by intros _ s ->.
      * intros x s [[-> | [-> | (y & [-> | ->] & _)]] _]; auto.
    + apply ftri_ret. intros s ->. split; [done|]. intros (t & Et & _). unfold is_symlink in El. by rewrite Et in El.
  - apply away_bind; [apply withdraw_keeps|intros ?]. do 3 (apply away_bind; [apply keeps_read|intros ?]).
    eapply ftri_conseq; [apply kp_when, (fresh_replace ROLLBACK_STATE); [done|apply reads_nothing]|..]; auto.
Qed.

Lemma fresh_block d own : prior = None ->
  ftri away (
    stage_release fault partial cx ;;
    _guarded_replace fault decide_ RELEASE (stage_loc cx) (release_loc cx) no_precondition ;;
    mark mark_released ;;
    i ← _verify_fresh_state_tree parse_document decode_record cx BState d own;
    _guarded_replace fault decide_ STATE (BState, []) (BProduction, []) (_assert_fresh_state_move i) ;;
    mark mark_moved ;;
    i ← _verify_fresh_state_tree parse_document decode_record cx BProduction d own;
    _guarded_activate fault decide_ relpath ACTIVE_LINK V None (_assert_fresh_activation parse_document decode_record cx i d own))
    (fun _ => committed) interrupted.
Proof.
  intros Hn.
  assert (Hb : forall A (m : FM pstate A) (k : A -> FM pstate unit), keeps away m -> (forall a, ftri away (k a) (fun _ => committed) interrupted) ->
    ftri away (m ≫= k) (fun _ => committed) interrupted).
  { intros A m k Hm Hk. eapply ftri_bind; [apply keeps_ftri; [exact Hm|apply away_interrupted]|exact Hk]. }
  apply Hb; [by apply kp_stage_release|intros ?].
  apply Hb; [apply away_replace; [apply keeps_ret|left; by left|by right; left]|intros ?]. apply Hb; [apply away_mark|intros ?].
  apply Hb; [apply kp_verify_fresh|intros i]. apply Hb; [apply fresh_replace; [done|apply reads_state_move]|intros ?].
  apply Hb; [apply away_mark|intros ?].
  eapply ftri_bind; [eapply ftri_conseq; [apply verify_fresh_there|done|intros ? s Hs; exact Hs|intros; by apply away_interrupted]|intros j].
  eapply ftri_conseq; [apply activate_new, reads_fresh_activation|done|done|].
  intros x s [Hs Hx]. split; [done|]. destruct Hx; auto.
Qed.

Lemma promote_fresh_safe s1 d own : safe s1 -> (p_active s1 = None -> prior = None) ->
  ftri (fun s => s = s1) (promote_fresh fault partial decide_ parse_document encode_record decode_record relpath follows cx inp d own)
    (fun _ => committed) (fun _ => safe).
Proof.
  intros Hs Hp. apply ftri_read_at. apply ftri_guard_then; [by intros s ->|]. intros Hg. apply negb_true_iff, orb_false_iff in Hg as [_ Hg].
  unfold has_active in Hg. apply bool_decide_eq_false in Hg. assert (Ha : p_active s1 = None) by (destruct (p_active s1); naive_solver).
  specialize (Hp Ha). eapply ftri_from; [|by apply no_link_away].
  apply away_bind; [apply keeps_guard|intros ?]. apply away_bind; [by apply kp_bind_links|intros ?].
  apply away_bind; [by apply kp_normalize|intros ?]. apply away_bind; [apply kp_write_metadata; auto|intros ?].
  apply away_bind; [by apply kp_prepare|intros ?]. apply away_bind; [apply kp_verify_release|intros ?].
  apply away_bind; [apply away_reset|intros ?]. apply away_bind; [by apply kp_clear_stage|intros ?].
  eapply ftri_bind; [apply or_undo_safe; [by apply fresh_block|by apply undo_fresh_safe]|intros ?].
  apply committed_bind; [by apply kp_rmtree|intros ?].
  apply committed_bind; [apply keeps_step|intros ?]. apply keeps_ftri; [by apply kp_report|auto].
Qed.

Lemma promote_safe s1 : safe s1 -> (p_active s1 = None -> prior = None) ->
  ftri (fun s => s = s1)
    (_promote fault partial decide_ parse_document document_sha256 encode_record decode_record sha256 tree_sha256 resolved relpath follows cx inp)
    (fun _ => committed) (fun _ => safe).
Proof.
  intros Hs Hp.
  assert (Hr : forall A B (m : FM pstate A) (k : A -> FM pstate B) Q, keeps (fun s => s = s1) m ->
    (forall a, ftri (fun s => s = s1) (k a) Q (fun _ => safe)) -> ftri (fun s => s = s1) (m ≫= k) Q (fun _ => safe)).
  { intros A B m k Q Hm Hk. eapply ftri_bind; [eapply ftri_conseq; [exact Hm|done|intros ? s Hss; exact Hss|by intros x s ->]|exact Hk]. }
  do 2 (apply Hr; [apply keeps_guard|intros ?]). apply Hr.
  { apply keeps_bind; [apply kp_raise_left|intros ?]. apply keeps_bind; auto with helios. }
  intros d. apply Hr; [apply kp_trusted|intros ?]. apply Hr; [apply kp_raise_left|intros ?]. apply Hr; [apply keeps_guard|intros ?].
  do 3 (apply Hr; [apply kp_trusted|intros ?]). destruct (i_account inp) as [own|]; [|apply ftri_throw; by intros s ->].
  eapply ftri_bind; [by apply already_promoted_part|intros [r|]]; [by apply ftri_ret|].
  apply Hr; [apply keeps_read|intros ?]. apply Hr; [apply kp_trusted|intros ?].
  eapply ftri_bind; [by apply resume_published_part|intros [r|]]; [by apply ftri_ret|].
  eapply ftri_bind; [by apply resume_upgrade_part|intros [r|]]; [by apply ftri_ret|].
  apply Hr; [apply keeps_read|intros ?]. apply Hr; [apply kp_trusted|intros ?]. apply ftri_read_at.
  match goal with |- ftri _ (if ?b then _ else _) _ _ => destruct b end; [by apply promote_upgrade_safe|by apply promote_fresh_safe].
Qed.
End Safety.
