(* ===== verification/PromoteTheorems.v ===== *)
(** What a promotion guarantees about the active release, and promotions on a concrete
    deployment. *)
From S2P Require Import Prelude Fault Tree Promote PromoteFacts.

(** The active link denotes a release that is there with its version state. *)
Definition coherent (resolved : string -> option string) (s : pstate) : Prop :=
  forall n, points resolved s n -> whole s n.

Section Active.
Context (fault : nat -> option fexc) (partial : nat -> option node) (decide_ : PublicationAction -> nat -> decision).
Context (parse_document : string -> option document) (document_sha256 : document -> string).
Context (encode_record : gmap string jval -> string) (decode_record : string -> option (gmap string jval)).
Context (sha256 : string -> string) (tree_sha256 : list (Z * string * option Z * string) -> string).
Context (resolved : string -> option string) (relpath : string -> string) (follows : string -> bool).
Context (cx : PromotionContext) (inp : inputs).

End Active.

(** ** A deployment *)

Definition root_attr (m : Z) : attr := Attr 1 1 0 0 m 1.
Definition game_attr (m : Z) : attr := Attr 1 1 7 7 m 1.

Definition sunlit : document :=
  Document PROFILE "v2" "h" "a" ["world"]%string ["server.properties"]%string ["config"]%string ["logs"]%string ["world"]%string
    [("libraries", "/lib")]%string.
Definition upgrade_context : PromotionContext :=
  Context_ "v2" None "/staging" "/state" "/releases/v2" "/current" "/lib" ".v2.promote.9" ".v2.rollback.9".

Definition candidate_record : gmap string jval :=
  <["active" := JvBool false]> (<["version" := JvStr "v2"]> {["manifest_sha256" := JvStr "h"]}).
Definition known_records : list (string * gmap string jval) :=
  [("C", candidate_record); ("R", release_record upgrade_context sunlit); ("P", _report upgrade_context sunlit)]%string.
Definition decode_known (c : string) : option (gmap string jval) := assoc c known_records.
Definition encode_known (r : gmap string jval) : string :=
  match List.find (fun x => bool_decide (snd x = r)) known_records with Some x => fst x | None => "?" end.
Definition parse_known (c : string) : option document := if String.eqb c "M" then Some sunlit else None.

Definition join_hash (l : list (Z * string * option Z * string)) : string :=
  foldr (fun x acc => (x.1.1.2 ++ ":" ++ x.2 ++ ";" ++ acc)%string) EmptyString l.
Definition rel_link (n : string) : string := ("r/" ++ n)%string.
Definition resolve_link (t : string) : option string :=
  match t with
  | String a (String b n) => if Ascii.eqb a (Ascii.ascii_of_nat 114) && Ascii.eqb b (Ascii.ascii_of_nat 47) then Some n else None
  | _ => None
  end.

Definition staged_runtime : node :=
  Dir (root_attr 493)
    [("server.jar", File (root_attr 420) "jar"); ("world", Link (root_attr 511) "/staging/state/world");
     ("server.properties", Link (root_attr 511) "/staging/state/server.properties");
     ("config", Link (root_attr 511) "/staging/state/.versions/v2/config");
     ("logs", Link (root_attr 511) "/staging/state/.versions/v2/logs"); ("libraries", Link (root_attr 511) "/lib")]%string.
Definition stable_members (f : Z -> attr) : list (string * node) :=
  [("world", Dir (f 488) [("level.dat", File (f 416) "w")]); ("server.properties", File (f 416) "p")]%string.
Definition staged_state : node :=
  Dir (root_attr 493) (stable_members root_attr ++
    [(VERSIONS, Dir (root_attr 493) [("v2", Dir (root_attr 493) [("config", Dir (root_attr 493) [("a.toml", File (root_attr 420) "c")]); ("logs", Dir (root_attr 493) [])]%string)]%string)]).
Definition deployed_state : node :=
  Dir (game_attr 488) (stable_members game_attr ++
    [(VERSIONS, Dir (game_attr 488) [("v1"%string, Dir (game_attr 488) [])])]).

Definition deployed : pstate :=
  PState (Some staged_runtime) (Some staged_state) (Some deployed_state) {["v1"%string := Dir (root_attr 493) []]}
    (Some (ALink "r/v1")) None no_locals.
Definition plain : inputs :=
  let d := Some (Dir (root_attr 493) []) in
  Inputs true true (Some (File (root_attr 384) "M")) d (Some (File (root_attr 384) "C")) d d d (Some (7, 7)) true.

Definition promote_deployed (fault : nat -> option fexc) (decide_ : PublicationAction -> nat -> decision) (s : pstate)
  : (fexc + gmap string jval) * (pstate * nat) :=
  _promote fault (fun _ => None) decide_ parse_known d_sha256 encode_known decode_known (fun c => c) join_hash resolve_link rel_link
    (fun _ => false) upgrade_context plain (s, O).

Definition always_admit : PublicationAction -> nat -> decision := fun _ _ => Admit.


(** ** Two defects *)

Definition at_ (l : list (nat * fexc)) (n : nat) : option fexc :=
  match List.find (fun x => Nat.eqb (fst x) n) l with Some x => Some (snd x) | None => None end.
Definition result (x : (fexc + gmap string jval) * (pstate * nat)) : option fexc :=
  match fst x with inl e => Some e | inr _ => None end.
Definition after (x : (fexc + gmap string jval) * (pstate * nat)) : pstate := fst (snd x).

(** One failed write blocks the version for good: when the second temporary file of
    the metadata cannot be written, the promotion rolls the release back and leaves
    the first temporary file in the production metadata; every later attempt then
    activates the release, finds the unexpected file and rolls back again. *)
Theorem failed_metadata_blocks_promotion :
  let s1 := after (promote_deployed (at_ [(18%nat, OsF)]) always_admit deployed) in
  let again s := promote_deployed (fun _ => None) always_admit s in
  let blocked := Some (SafeF "candidate metadata directory contains unexpected files") in
  result (promote_deployed (at_ [(18%nat, OsF)]) always_admit deployed) = Some OsF /\
  p_active s1 = Some (ALink "r/v1") /\
  result (again s1) = blocked /\ result (again (after (again s1))) = blocked /\ p_active (after (again s1)) = Some (ALink "r/v1").
Proof. vm_compute. done. Qed.

(** The handler of an upgrade trusts its own flag and not the link: when the
    activation is interrupted after the swap and so is its undoing (an interrupt is
    no [OSError]), the handler takes the flag for false and removes the release and
    the version state the link denotes.  The handler of a fresh installation looks
    at the link. *)
Theorem interrupted_activation_dangles :
  let s1 := after (promote_deployed (at_ [(15%nat, OtherF); (16%nat, OtherF)]) always_admit deployed) in
  p_active s1 = Some (ALink "r/v2") /\ get (BRelease "v2", []) s1 = None /\ get (BProduction, [VERSIONS; "v2"%string]) s1 = None.
Proof. vm_compute. done. Qed.
