(* ===== verification/PromoteTrees.v ===== *)
(** The trees of a promotion: what the checks prove survives the changes the promotion
    itself makes, and making them again changes nothing. *)
From S2P Require Import Prelude Tree Promote.

(** *** Shapes *)

(** A change of attributes keeps what is not an attribute. *)
Lemma traverse_shape f n n' : traverse f n = Some n' ->
  match n, n' with
  | File _ c, File _ c' => c' = c
  | Link _ t, Link _ t' => t' = t
  | Special _, Special _ => True
  | Dir _ l, Dir _ l' => traverse_list f l = Some l'
  | _, _ => False
  end /\ f n = Some (node_attr n').
Proof.
  destruct n as [a c|a l|a t|a]; [|rewrite traverse_dir|..]; with_strategy transparent [traverse] simpl; intros E; repeat case_match; simplify_eq; done.
Qed.

Lemma traverse_list_elem f l l' : traverse_list f l = Some l' ->
  Forall2 (fun x y => fst y = fst x /\ traverse f (snd x) = Some (snd y)) l l'.
Proof.
  revert l'. induction l as [|[k x] l IH]; intros l' E; simplify_eq/=; [constructor|].
  destruct (traverse f x) as [x'|] eqn:Ex; [|done]. destruct (traverse_list f l) as [r|]; [|done]. simplify_eq/=.
  constructor; [done|by apply IH].
Qed.

(** *** Digests *)

Lemma subtree_dir p a l : subtree p (Dir a l) = (p, Dir a l) :: concat (map (fun x => subtree (p ++ [fst x]) (snd x)) l).
Proof. simpl. f_equal. induction l as [|[k x] l IH]; [done|]. simpl. by rewrite IH. Qed.

Lemma traverse_entries sha256 b f n n' p :
  (forall n a, f n = Some a -> a_mode a = a_mode (node_attr n)) ->
  traverse f n = Some n' -> map (entry sha256 b) (subtree p n') = map (entry sha256 b) (subtree p n).
Proof.
  intros Hf. revert n' p. induction n as [a c|a t|a|a l IH] using node_rect'; intros n' p E.
  1, 2, 3: apply traverse_shape in E as [Es Ea]; destruct n'; try done; subst; simpl in *; unfold entry; simpl; by rewrite (Hf _ _ Ea).
  apply traverse_shape in E as [Es Ea]. destruct n' as [|a' l'| |]; try done. rewrite !subtree_dir. simpl. f_equal.
  { unfold entry. simpl in *. by rewrite (Hf _ _ Ea). }
  apply traverse_list_elem in Es. clear Ea. induction Es as [|[k x] [k' x'] l l' [Hk Hx] _ IHl]; [done|]. simpl in *. subst k'.
  inversion IH as [|? ? Hn IH']; subst. rewrite !map_app. f_equal; [by apply Hn|by apply IHl].
Qed.

(** Checks of the kinds of the nodes. *)
Definition kind (n : node) : Z := match n with File _ _ => 0 | Dir _ _ => 1 | Link _ _ => 2 | Special _ => 3 end.

Lemma traverse_kind f n n' : traverse f n = Some n' -> kind n' = kind n.
Proof. intros [E _]%traverse_shape. by destruct n, n'. Qed.

Lemma traverse_kinds f (g : Z -> bool) n n' :
  traverse f n = Some n' -> tforall (fun x => g (kind x)) n' = tforall (fun x => g (kind x)) n.
Proof.
  revert n'. induction n as [a c|a t|a|a l IH] using node_rect'; intros n' E; apply traverse_shape in E as [Es _]; destruct n'; try done.
  rewrite !tforall_dir. simpl. f_equal. apply traverse_list_elem in Es.
  induction Es as [|[k x] [k' x'] l l' [Hk Hx] _ IHl]; [done|]. simpl in *.
  inversion IH as [|? ? Hn IH']; subst. by rewrite (Hn x'), IHl.
Qed.

Lemma tforall_ext f g n : (forall n, f n = g n) -> tforall f n = tforall g n.
Proof.
  intros H. induction n as [a c|a t|a|a l IH] using node_rect'; try (simpl; by rewrite H).
  rewrite !tforall_dir, H. f_equal. induction IH as [|x l Hx _ IHl]; [done|]. simpl. by rewrite Hx, IHl.
Qed.

Lemma traverse_not_special f n n' :
  traverse f n = Some n' -> tforall (fun x => negb (is_special x)) n' = tforall (fun x => negb (is_special x)) n.
Proof.
  intros E. rewrite !(tforall_ext (fun x => negb (is_special x)) (fun x => negb (kind x =? 3))) by by intros [].
  by apply (traverse_kinds f (fun k => negb (k =? 3))).
Qed.

Lemma traverse_not_link f n n' : traverse f n = Some n' -> tforall not_link n' = tforall not_link n.
Proof.
  intros E. rewrite !(tforall_ext not_link (fun x => negb (kind x =? 2))) by by intros [].
  by apply (traverse_kinds f (fun k => negb (k =? 2))).
Qed.

Lemma copy_mode n a : copy_attr n = Some a -> a_mode a = a_mode (node_attr n).
Proof. destruct n; simpl; intros; by simplify_eq/=. Qed.

Lemma copy_digest sha256 tree_sha256 b n n' : traverse copy_attr n = Some n' ->
  _tree_digest sha256 tree_sha256 b n' = _tree_digest sha256 tree_sha256 b n.
Proof.
  intros E. unfold _tree_digest. rewrite (traverse_not_special _ _ _ E), (traverse_entries _ _ _ _ _ _ copy_mode E). done.
Qed.

Lemma tforall_impl (f g : node -> bool) n : (forall n, f n = true -> g n = true) -> tforall f n = true -> tforall g n = true.
Proof.
  intros H. induction n as [a c|a t|a|a l IH] using node_rect'; try (simpl; rewrite !andb_true_r; apply H).
  rewrite !tforall_dir, !andb_true_iff, !forallb_forall. intros [H1 H2]. split; [by apply H|]. intros x Hx.
  eapply Forall_forall in IH; [|by apply list_elem_of_In]. by apply IH, H2.
Qed.

(** *** Permissions of a release *)

Definition root_owned (n : node) : bool :=
  match n with
  | Link _ _ => true
  | File a _ | Dir a _ => bool_decide (owner a = ROOT)
  | Special _ => false
  end.

Definition normal (n : node) : bool :=
  match n with
  | Link _ _ => true
  | Dir a _ => bool_decide (owner a = ROOT) && (a_mode a =? 493)
  | File a _ => bool_decide (owner a = ROOT) && ((a_mode a =? 420) || (a_mode a =? 493))
  | Special _ => false
  end.

Lemma normalize_ok n : tforall root_owned n = true -> exists n', traverse normal_attr n = Some n' /\ tforall normal n' = true.
Proof.
  apply traverse_forall.
  - intros [] H; simpl in *; rewrite ?H; try done; eauto.
  - intros a c a' H E. simpl in *. rewrite H in E. simplify_eq/=. apply andb_true_iff. split; [done|]. simpl. by destruct (_ =? 0).
  - done.
  - done.
  - intros a l a' l' H E _. simpl in *. rewrite H in E. simplify_eq/=. by rewrite andb_true_r.
Qed.

Lemma normal_again n : tforall normal n = true -> traverse normal_attr n = Some n.
Proof.
  apply traverse_id. intros [a c|a l|a t|a] H; simpl in *; try done; apply andb_true_iff in H as [-> H].
  - destruct a as [? ? ? ? mo ?]; simpl in *. apply orb_true_iff in H as [->%Z.eqb_eq | ->%Z.eqb_eq]; done.
  - destruct a as [? ? ? ? mo ?]; simpl in *. by apply Z.eqb_eq in H as ->.
Qed.

Lemma normal_release_ok n : normal n = true -> release_node_ok n = true.
Proof.
  destruct n as [a c|a l|a t|a]; simpl; try done; intros [-> H]%andb_true_iff; unfold writable_by_others.
  - by apply orb_true_iff in H as [->%Z.eqb_eq | ->%Z.eqb_eq].
  - by apply Z.eqb_eq in H as ->.
Qed.

Lemma copy_ok n : tforall normal n = true -> exists n', traverse copy_attr n = Some n' /\ tforall normal n' = true.
Proof.
  apply traverse_forall.
  - intros [] H; simpl in *; try done; eauto.
  - intros a c a' H E. simpl in *. simplify_eq/=. by apply andb_true_iff in H as [_ ->].
  - done.
  - done.
  - intros a l a' l' H E _. simpl in *. simplify_eq/=. by apply andb_true_iff in H as [_ ->].
Qed.

(** *** Ownership of a state *)

Definition plain_member (n : node) : bool :=
  match n with File a _ => a_nlink a =? 1 | Dir _ _ => true | _ => false end.

Lemma prepare_ok u g n : tforall plain_member n = true ->
  exists n', traverse (prepare_attr u g) n = Some n' /\ tforall (state_node_ok (u, g)) n' = true.
Proof.
  apply traverse_forall.
  - intros [] H; simpl in *; try done; eauto.
  - intros a c a' H E. simpl in *. simplify_eq/=. rewrite bool_decide_eq_true_2 by done. by rewrite H.
  - done.
  - done.
  - intros a l a' l' H E _. simpl in *. simplify_eq/=. by rewrite bool_decide_eq_true_2.
Qed.

Lemma prepare_again u g n : tforall (state_node_ok (u, g)) n = true -> traverse (prepare_attr u g) n = Some n.
Proof.
  apply traverse_id. intros [a c|a l|a t|a] H; simpl in *; try done; destruct a as [? ? ? ? mo ?]; simpl in *; unfold owner in H; simpl in H.
  - apply andb_true_iff in H as [[H1 _]%andb_true_iff H2]. apply bool_decide_eq_true in H1. apply Z.eqb_eq in H2. by simplify_eq.
  - apply andb_true_iff in H as [H1 H2]. apply bool_decide_eq_true in H1. apply Z.eqb_eq in H2. by simplify_eq.
Qed.

(** *** Links *)

Lemma links_of_elem l k t : (k, t) ∈ links_of l <-> exists a, (k, Link a t) ∈ l.
Proof.
  unfold links_of. rewrite list_elem_of_omap. split.
  - intros ([k' x] & Hin & E). simpl in E. destruct x; simplify_eq. eauto.
  - intros [a Hin]. exists (k, Link a t). split; [done|done].
Qed.

Lemma links_of_cons k x l : links_of ((k, x) :: l) = match x with Link _ t => (k, t) :: links_of l | _ => links_of l end.
Proof. by destruct x. Qed.

Lemma traverse_links f l l' : traverse_list f l = Some l' -> links_of l' = links_of l.
Proof.
  intros E%traverse_list_elem. induction E as [|[k x] [k' x'] l l' [Hk Hx] _ IH]; [done|]. simpl in *. subst k'.
  unfold links_of in *. simpl. apply traverse_shape in Hx as [Hx _]. destruct x, x'; simpl in *; try done. subst. by rewrite IH.
Qed.

Lemma assoc_elem {A} k (v : A) l : assoc k l = Some v -> (k, v) ∈ l.
Proof.
  induction l as [|[j w] l IH]; [done|]. simpl. destruct (String.eqb_spec k j) as [->|]; intros E; simplify_eq; [left|right; auto].
Qed.
Lemma assoc_nodup {A} k (v : A) l : NoDup (map fst l) -> (k, v) ∈ l -> assoc k l = Some v.
Proof.
  induction l as [|[j w] l IH]; simpl; [by intros _ ?%elem_of_nil|]. intros [Hn Hd]%NoDup_cons [E|Hin]%elem_of_cons.
  - simplify_eq. by rewrite String.eqb_refl.
  - destruct (String.eqb_spec k j) as [->|]; [|by apply IH]. destruct Hn. apply list_elem_of_In, in_map_iff. exists (j, v). split; [done|].
    by apply list_elem_of_In.
Qed.
Lemma assoc_member {A} k (l : list (string * A)) : k ∈ map fst l -> exists v, assoc k l = Some v.
Proof.
  induction l as [|[j w] l IH]; simpl; [by intros ?%elem_of_nil|]. destruct (String.eqb_spec k j) as [->|]; [eauto|].
  intros [->|H]%elem_of_cons; [done|auto].
Qed.

Section Bind.
Context (cx : PromotionContext) (expected : list (string * string)) (Hnd : NoDup (map fst expected)).

Lemma bound_links l k t : as_set (map fst (links_of l)) = as_set (map fst expected) ->
  (k, t) ∈ links_of (map (bind_child expected) l) -> assoc k expected = Some t.
Proof.
  intros Hset (a & Hin)%links_of_elem. apply list_elem_of_In, in_map_iff in Hin as ([j x] & E & Hin). apply list_elem_of_In in Hin.
  unfold bind_child in E. simpl in E. destruct x as [| |la lt|]; try (by simplify_eq).
  assert (Hj : j ∈ map fst expected).
  { assert (j ∈ as_set (map fst (links_of l))) as Hj.
    { unfold as_set. apply elem_of_list_to_set, list_elem_of_In, in_map_iff. exists (j, lt). split; [done|].
      apply list_elem_of_In, links_of_elem. eauto. }
    rewrite Hset in Hj. by apply elem_of_list_to_set in Hj. }
  destruct (assoc_member _ _ Hj) as [t' Et]. rewrite Et in E. destruct (String.eqb_spec lt t'); simplify_eq; done.
Qed.

Lemma bind_names l : map fst (links_of (map (bind_child expected) l)) = map fst (links_of l).
Proof.
  induction l as [|[k x] l IH]; [done|]. cbn [map]. unfold bind_child at 1. cbn [fst snd]. rewrite (links_of_cons k x l).
  destruct x as [| |a t|]; try (rewrite links_of_cons; done). destruct (assoc k expected) as [t'|]; [destruct (String.eqb t t')|];
    rewrite links_of_cons; simpl; by rewrite IH.
Qed.

(** Binding the links of a bound and normalised runtime changes nothing. *)
Lemma bind_again rt rt1 rt2 : bind_links cx expected rt = Some rt1 -> traverse normal_attr rt1 = Some rt2 ->
  bind_links cx expected rt2 = Some rt2.
Proof.
  intros Hb Hn. destruct rt as [|a l| |]; try done. simpl in Hb. destruct (_ && _ && _) eqn:Ec; [|done]. injection Hb as <-.
  apply andb_true_iff in Ec as [[C1 C2]%andb_true_iff _]. apply bool_decide_eq_true in C2.
  apply traverse_shape in Hn as [Hn _]. destruct rt2 as [|a2 l2| |]; try done. pose proof (traverse_links _ _ _ Hn) as Hlinks.
  assert (HE : forall k t, (k, t) ∈ links_of l2 -> assoc k expected = Some t) by (rewrite Hlinks; intros k t; by apply bound_links).
  assert (D2 : as_set (map fst (links_of l2)) = as_set (map fst expected)) by by rewrite Hlinks, bind_names.
  simpl. rewrite (bool_decide_eq_true_2 _ D2), andb_true_r.
  assert (D1 : forallb (fun x => negb (not_link (snd x)) || tforall not_link (snd x)) l2 = true).
  { apply forallb_forall. intros [k x'] Hin. simpl. apply list_elem_of_In in Hin. apply traverse_list_elem in Hn.
    destruct (list_elem_of_lookup_1 _ _ Hin) as [i Hi].
    destruct (Forall2_lookup_r _ _ _ _ _ Hn Hi) as ([j x] & Hx & _ & Ht). simpl in Ht.
    rewrite (traverse_not_link _ _ _ Ht). apply list_elem_of_lookup_2, list_elem_of_In, in_map_iff in Hx as ([j' x0] & E & Hx).
    rewrite forallb_forall in C1. specialize (C1 _ Hx). simpl in C1. unfold bind_child in E. simpl in E.
    assert (Hk : not_link x' = not_link x) by (pose proof (traverse_kind _ _ _ Ht); by destruct x, x').
    rewrite Hk. destruct x0 as [| |la lt|]; simplify_eq; try done.
    destruct (assoc j' expected); [destruct (String.eqb lt s)|]; by simplify_eq. }
  rewrite D1. simpl.
  assert (D3 : forallb (link_ok cx (links_of l2)) expected = true).
  { apply forallb_forall. intros [k t] Hin. apply list_elem_of_In in Hin. unfold link_ok. simpl.
    assert (Hk : k ∈ map fst (links_of l2)).
    { assert (k ∈ as_set (map fst expected)) as Hk by (apply elem_of_list_to_set, list_elem_of_In, in_map_iff; exists (k, t); split; [done|]; by apply list_elem_of_In).
      rewrite <- D2 in Hk. by apply elem_of_list_to_set in Hk. }
    destruct (assoc_member _ _ Hk) as [t' Et]. rewrite Et. apply assoc_elem, HE in Et. rewrite (assoc_nodup k t) in Et by done.
    injection Et as <-. rewrite String.eqb_refl. by destruct (String.eqb k "libraries"). }
  rewrite D3. do 2 f_equal. clear D1 D2 D3 Hlinks Hn. induction l2 as [|[k x] l2 IH]; [done|]. simpl. f_equal.
  - unfold bind_child. simpl. destruct x as [| |la lt|]; try done. rewrite (HE k lt) by (apply links_of_elem; exists la; left).
    by rewrite String.eqb_refl.
  - apply IH. intros j t (b & Hin)%links_of_elem. apply HE, links_of_elem. exists b. by right.
Qed.
End Bind.
