(* ===== verification/PromoteResume.v ===== *)
(** Publications that were refused are resumed: after any number of upgrade attempts
    whose guards refused at any point, an attempt whose guards admit completes the
    upgrade. *)
From S2P Require Import Prelude Fault Tree Promote PromoteTrees.

Section Steps.
Context {S A B : Type}.
Implicit Types P : S -> Prop.

(** Reading what is known. *)
Lemma read_known P (f : S -> A) a (k : A -> FM S B) Q E :
  (forall s, P s -> f s = a) -> ftri P (k a) Q E -> ftri P (read f ≫= k) Q E.
Proof. intros Hf Hk s n Hs. unfold mbind, FM_bind, read. simpl. rewrite (Hf s Hs). by apply Hk. Qed.

Lemma guard_known P b code (k : FM S B) Q E : b = true -> ftri P k Q E -> ftri P (guard b code ;; k) Q E.
Proof. intros -> Hk s n Hs. by apply Hk. Qed.

Lemma sure_bind P (m : FM S A) (k : A -> FM S B) R Q E :
  ftri P m R (fun _ _ => False) -> (forall a, ftri (R a) (k a) Q E) -> ftri P (m ≫= k) Q E.
Proof. intros Hm Hk. eapply ftri_bind; [eapply ftri_conseq; [exact Hm|done|done|done]|done]. Qed.
End Steps.

Lemma ftri_at' {S A} (P : S -> Prop) (m : FM S A) Q E : (forall s1, P s1 -> ftri (fun s => s = s1) m Q E) -> ftri P m Q E.
Proof. intros H s n Hs. by apply (H s). Qed.

Definition quiet_storage : nat -> option fexc := fun _ => None.

Definition trusted (o : option node) (owners : list (Z * Z)) : bool :=
  match o with Some (Dir a _) => bool_decide (owner a ∈ owners) && negb (writable_by_others a) | _ => false end.

Lemma trusted_known {B} P o owners (k : FM pstate B) Q E : trusted o owners = true -> ftri P k Q E -> ftri P (_trusted_directory o owners ;; k) Q E.
Proof. destruct o as [[]|]; try done. apply guard_known. Qed.

Section Resume.
Context (partial : nat -> option node) (decide_ : PublicationAction -> nat -> decision).
Context (parse_document : string -> option document) (document_sha256 : document -> string).
Context (encode_record : gmap string jval -> string) (decode_record : string -> option (gmap string jval)).
Context (sha256 : string -> string) (tree_sha256 : list (Z * string * option Z * string) -> string).
Context (resolved : string -> option string) (relpath : string -> string) (follows : string -> bool).
Context (cx : PromotionContext) (inp : inputs).
#[local] Abbreviation V := (c_version cx).
#[local] Abbreviation quiet := quiet_storage.

(** The manifest, the account, the links; the old release and its link; the stable
    members of the candidate and of production. *)
Context (d : document) (own : Z * Z) (expected : list (string * string)).
Context (old old_link : string) (cs ps : string -> option node).
(** The runtime as it is published, its copy, the version state as it is published,
    the old metadata directory, the names of private copies. *)
Context (rt rel vs : node) (hz : option node) (stages : string -> Prop).

Hypothesis Hexpected : _expected_links cx d = Some expected.
Hypothesis Hrt : bind_links cx expected rt = Some rt /\ tforall normal rt = true /\ trusted (Some rt) [ROOT] = true.
Hypothesis Hrel : traverse copy_attr rt = Some rel.
Hypothesis Hvs : version_tree_ok d own (Some vs) = true /\ traverse (prepare_attr (fst own) (snd own)) vs = Some vs.
Hypothesis Hold : resolved old_link = Some old /\ old <> V /\ (forall n, resolved (relpath n) = Some n).
Hypothesis Hstages : stages (c_stage cx) /\ ~ stages V /\ ~ stages old.
Hypothesis Hcodec : forall r, r = release_record cx d \/ r = _report cx d ->
  decode_record (encode_record r) = Some r /\ Z.of_nat (String.length (encode_record r)) <= MAX_RECORD.
Hypothesis Hfilesystem : i_one_filesystem inp = true.

(** The stable members of the candidate are those of production. *)
Definition stable_same (r : string) : Prop :=
  safe_name r = true /\ r <> VERSIONS /\ r <> ".horizon"%string /\ exists_at follows (cs r) = exists_at follows (ps r) /\
  (exists_at follows (cs r) = true -> is_link (cs r) = false /\ is_link (ps r) = false /\
     exists x y h, cs r = Some x /\ ps r = Some y /\ _tree_digest sha256 tree_sha256 false x = Some h /\ _tree_digest sha256 tree_sha256 false y = Some h).
Hypothesis Hstable : forall r, r ∈ stable d -> stable_same r.

(** *** The parts of a state *)

(** The candidate state, with its version state or without. *)
Definition cand (v : option node) (s : pstate) : Prop := exists sa sl va,
  p_state s = Some (Dir sa sl) /\ trusted (Some (Dir sa sl)) [ROOT; own] = true /\
  as_set (map fst sl) = as_set (VERSIONS :: List.filter (fun r => exists_at follows (ps r)) (stable d)) /\
  assoc VERSIONS sl = Some (Dir va (match v with Some n => [(V, n)] | None => [] end)) /\
  (forall r, r ∈ stable d -> assoc r sl = cs r).

Definition prod_base (s : pstate) : Prop := exists pa pl va vl,
  p_production s = Some (Dir pa pl) /\ trusted (Some (Dir pa pl)) [own] = true /\
  assoc VERSIONS pl = Some (Dir va vl) /\ trusted (Some (Dir va vl)) [own] = true /\
  (forall r, r ∈ stable d -> assoc r pl = ps r).

Definition stages_ok (s : pstate) : Prop := forall n, stages n -> get (BRelease n, []) s = None \/ get (BRelease n, []) s = Some rel.

(** A metadata directory that can be written. *)
Definition files_in (X : gset string) (l : list (string * node)) : Prop :=
  as_set (map fst l) ⊆ X /\ forall k n, assoc k l = Some n -> exists a c, n = File a c.
Definition META : gset string := as_set metadata_names.
Definition meta_fine (s : pstate) : Prop :=
  let h := get (BProduction, [".horizon"%string]) s in h = None \/ exists a l, h = Some (Dir a l) /\ files_in META l.

(** *** The check of the candidate *)

Lemma prod_lookup s r : prod_base s -> r ∈ stable d -> lookup_path [r] (p_production s) = ps r.
Proof. intros (pa & pl & va & vl & Hp & _ & _ & _ & Hr) Hin. rewrite Hp. simpl. by apply Hr. Qed.

Lemma check_stable_known P r : r ∈ stable d -> (forall s, P s -> get (BState, [r]) s = cs r /\ get (BProduction, [r]) s = ps r) ->
  ftri P (check_stable sha256 tree_sha256 follows r) (fun _ => P) (fun _ _ => False).
Proof.
  intros Hin HP. destruct (Hstable r Hin) as (H1 & _ & _ & H2 & H3). apply guard_known; [done|].
  apply (read_known _ _ (cs r)); [by intros s [? _]%HP|]. apply (read_known _ _ (ps r)); [by intros s [_ ?]%HP|].
  apply guard_known; [rewrite H2; by apply eqb_true_iff|]. destruct (exists_at follows (cs r)) eqn:E; [|by apply ftri_ret].
  destruct (H3 eq_refl) as (-> & -> & x & y & h & -> & -> & Hx & Hy). apply guard_known; [done|].
  unfold same_digest. rewrite Hx, Hy, String.eqb_refl. by apply ftri_ret.
Qed.

Lemma filter_ps s : prod_base s ->
  List.filter (fun r => exists_at follows (lookup_path [r] (p_production s))) (stable d) = List.filter (fun r => exists_at follows (ps r)) (stable d).
Proof. intros Hp. apply filter_ext_in. intros r Hr. rewrite prod_lookup; [done|done|by apply list_elem_of_In]. Qed.

Lemma matches_known v allow s1 : cand v s1 -> prod_base s1 -> (forall n, v = Some n -> is_dir v = true) -> (v = None -> allow = true) ->
  ftri (fun s => s = s1) (_candidate_matches_existing_state sha256 tree_sha256 follows cx d allow)
    (fun b s => s = s1 /\ b = match v with Some _ => true | None => false end) (fun _ _ => False).
Proof.
  intros (sa & sl & va & Hs & _ & Hn & Hv & Hr) Hp Hd Ha. do 2 apply ftri_read_at. rewrite Hs, filter_ps by done.
  apply guard_known; [by apply bool_decide_eq_true_2|].
  apply (ftri_seq _ _ _ (fun s => s = s1)).
  - apply (ftri_for (fun _ s => s = s1)). intros pre r post E. apply check_stable_known; [rewrite E; set_solver|].
    intros s ->. assert (Hin : r ∈ stable d) by (rewrite E; set_solver). split.
    + unfold get. simpl. rewrite Hs. simpl. by apply Hr.
    + unfold get. simpl. by apply prod_lookup.
  - rewrite Hv. destruct v as [v|].
    + specialize (Hd v eq_refl). destruct v; try done. apply guard_known; [apply String.eqb_refl|]. by apply ftri_ret.
    + rewrite Ha by done. by apply ftri_ret.
Qed.

(** *** Publications *)

Definition admits : Prop := forall a n, decide_ a n = Admit.
Definition only_refused (E0 : pstate -> Prop) (x : fexc) (s : pstate) : Prop := x = refused /\ E0 s /\ ~ admits.

Lemma publish_known a body (P Q E0 : pstate -> Prop) :
  ftri P body (fun _ => Q) (fun _ _ => False) -> (forall s, P s -> E0 s) -> (forall s, Q s -> E0 s) ->
  ftri P (_publication decide_ a body) (fun _ => Q) (only_refused E0).
Proof.
  intros Hb HP HQ s n Hs. specialize (Hb s (S n) Hs). unfold _publication, mbind, FM_bind, oracle. simpl.
  destruct (decide_ a n) eqn:Ed; simpl.
  - unfold fexcept, mbind, FM_bind. by destruct (body (s, S n)) as [[x|[]] [s' n']].
  - split_and!; [done|auto|]. intros Ha. specialize (Ha a n). congruence.
  - unfold fexcept, mbind, FM_bind. destruct (body (s, S n)) as [[x|[]] [s' n']]; [done|]. simpl.
    split_and!; [done|auto|]. intros Ha. specialize (Ha a n). congruence.
Qed.

Lemma sure_effect (f : pstate -> pstate) (P Q : pstate -> Prop) E : (forall s, P s -> Q (f s)) -> ftri P (feffect quiet f) (fun _ => Q) E.
Proof. intros H. by apply ftri_effect_sure. Qed.
Lemma sure_step (P : pstate -> Prop) E : ftri P (step quiet) (fun _ => P) E.
Proof. by apply ftri_effect_sure. Qed.
Lemma sure_rewriting l o (P Q : pstate -> Prop) E : (forall s, P s -> Q (put l o s)) -> ftri P (rewriting quiet partial l o) (fun _ => Q) E.
Proof. intros H s n Hs. by apply H. Qed.
Lemma sure_change l o (P Q : pstate -> Prop) E : (forall s, P s -> parent_ok l s = true) -> (forall s, P s -> Q (put l o s)) ->
  ftri P (change quiet l o) (fun _ => Q) E.
Proof. intros H1 H2. apply (read_known _ _ true); [done|]. by apply sure_effect. Qed.
Lemma sure_rename src dst n (P Q : pstate -> Prop) E :
  (forall s, P s -> get src s = Some n /\ replaceable n (get dst s) = true /\ parent_ok dst s = true) ->
  (forall s, P s -> Q (put dst (Some n) (put src None s))) -> ftri P (rename quiet src dst) (fun _ => Q) E.
Proof.
  intros H1 H2 s k Hs. destruct (H1 s Hs) as (E1 & E2 & E3). unfold rename, mbind, FM_bind, read. simpl. rewrite E1, E2, E3. simpl. by apply H2.
Qed.
Lemma sure_rmtree l (P Q : pstate -> Prop) E : (forall s, P s -> is_dir (get l s) = true) -> (forall s, P s -> Q (put l None s)) ->
  ftri P (rmtree quiet partial l) (fun _ => Q) E.
Proof. intros H1 H2 s k Hs. unfold rmtree, mbind, FM_bind, read. simpl. rewrite (H1 s Hs). by apply H2. Qed.

(** ** The checkpoints of an upgrade *)

(** Before the version state is moved: whether the release is published, the runtime,
    the version state in the candidate. *)
Record up (published : bool) (r v : node) (s : pstate) : Prop := {
  up_runtime : p_runtime s = Some r;
  up_cand : cand (Some v) s;
  up_prod : prod_base s;
  up_version : get (version_loc cx BProduction) s = None;
  up_meta : get (BProduction, [".horizon"%string]) s = hz;
  up_active : p_active s = Some (ALink old_link);
  up_release : p_releases s !! V = if published then Some rel else None;
  up_old : is_dir (p_releases s !! old) = true;
  up_stages : stages_ok s;
  up_record : p_record s = None;
}.

(** The version state is moved. *)
Record moved (s : pstate) : Prop := {
  mv_runtime : p_runtime s = Some rt;
  mv_cand : cand None s;
  mv_prod : prod_base s;
  mv_version : get (version_loc cx BProduction) s = Some vs;
  mv_meta : meta_fine s;
  mv_active : p_active s = Some (ALink old_link);
  mv_release : p_releases s !! V = Some rel;
  mv_old : is_dir (p_releases s !! old) = true;
  mv_stages : stages_ok s;
  mv_record : p_record s = None;
}.

Definition report_node : node := File (new_attr 0 0 384) (encode_record (_report cx d)).

(** The release is active; what is left is cleaning up. *)
Record live0 (s : pstate) : Prop := {
  lv_runtime : p_runtime s = None \/ p_runtime s = Some rt;
  lv_cand : p_state s = None \/ cand None s;
  lv_prod : prod_base s;
  lv_version : get (version_loc cx BProduction) s = Some vs;
  lv_active : p_active s = Some (ALink (relpath V));
  lv_release : p_releases s !! V = Some rel;
  lv_stages : stages_ok s;
  lv_record : p_record s = None \/ p_record s = Some report_node;
}.
Definition live (s : pstate) : Prop := live0 s /\ meta_fine s.

(** A runtime that is published as [rt], a version state that is published as [vs]. *)
Definition bindable (r : node) : Prop :=
  trusted (Some r) [ROOT] = true /\ exists r1, bind_links cx expected r = Some r1 /\ traverse normal_attr r1 = Some rt.
Definition preparable (v : node) : Prop :=
  is_dir (Some v) = true /\ traverse (prepare_attr (fst own) (snd own)) v = Some vs.

Definition checkpoint (s : pstate) : Prop :=
  (exists r v, bindable r /\ preparable v /\ up false r v s) \/ (exists v, preparable v /\ up true rt v s) \/ moved s \/ live s.

Lemma rt_bindable : bindable rt.
Proof. destruct Hrt as (H1 & H2 & H3). split; [done|]. exists rt. split; [done|]. by apply normal_again. Qed.
Lemma vs_dir : exists a l, vs = Dir a l.
Proof. destruct Hvs as [H _]. destruct vs; try done. eauto. Qed.
Lemma vs_preparable : preparable vs.
Proof. destruct vs_dir as (a & l & E). split; [by rewrite E|]. apply Hvs. Qed.
Lemma rel_dir : exists a l, rel = Dir a l /\ trusted (Some rel) [ROOT] = true.
Proof.
  destruct Hrt as (_ & H2 & H3). destruct rt as [|a l| |] eqn:E; try done. pose proof Hrel as H. rewrite traverse_dir in H. simpl in H.
  destruct (traverse_list copy_attr l) as [l'|]; [|done]. injection H as <-. eexists _, _. split; [done|].
  cbn [trusted] in H3 |- *. apply andb_true_iff in H3 as [_ H3]. apply andb_true_iff. split; [|done]. apply bool_decide_eq_true_2. left.
Qed.
Lemma rel_ok : tforall release_node_ok rel = true.
Proof.
  destruct Hrt as (_ & H2 & _). destruct (copy_ok rt H2) as (n' & E & Hn). rewrite Hrel in E. injection E as <-.
  eapply tforall_impl; [|exact Hn]. apply normal_release_ok.
Qed.
Lemma rt_ok : tforall release_node_ok rt = true.
Proof. destruct Hrt as (_ & H2 & _). eapply tforall_impl; [|exact H2]. apply normal_release_ok. Qed.

(** *** Steps between checkpoints *)

Lemma names_del k l : as_set (map fst (del_child k l)) = as_set (map fst l) ∖ {[k]}.
Proof.
  unfold as_set. induction l as [|[j n] l IH]; [set_solver|]. simpl. destruct (String.eqb_spec k j) as [->|Hne]; simpl; rewrite IH; set_solver.
Qed.
Lemma names_set k n l : as_set (map fst (set_child k n l)) = {[k]} ∪ as_set (map fst l).
Proof.
  unfold as_set. induction l as [|[j m] l IH]; [set_solver|]. simpl. destruct (String.eqb_spec k j) as [->|Hne]; simpl.
  - fold (as_set (map fst (del_child j l))). rewrite names_del. unfold as_set. apply set_eq. intros x. destruct (decide (x = j)); set_solver.
  - rewrite IH. set_solver.
Qed.

Lemma up_put_runtime p r r' v s : up p r v s -> up p r' v (put (BRuntime, []) (Some r') s).
Proof. intros [H1 H2 H3 H4 H5 H6 H7 H8 H9 H10]. by split. Qed.

Lemma cand_put v v' s : cand (Some v) s -> cand v' (put (version_loc cx BState) v' s).
Proof.
  intros (sa & sl & va & Hs & Ht & Hn & Hv & Hr). unfold put, version_loc. cbn [fst snd get_base put_base]. rewrite Hs. cbn [put_path]. rewrite Hv.
  exists sa, (set_child VERSIONS (Dir va (put_child V v' [(V, v)])) sl), va. split_and!; [done|done| | |].
  - rewrite names_set, Hn. unfold as_set. simpl. set_solver.
  - rewrite assoc_set_eq. do 2 f_equal. destruct v'; simpl; by rewrite String.eqb_refl.
  - intros r Hin. rewrite assoc_set_ne; [by apply Hr|]. by destruct (Hstable r Hin) as (_ & ? & _).
Qed.

Lemma up_prepare p r v s : up p r v s -> up p r vs (put (version_loc cx BState) (Some vs) s).
Proof. intros [H1 H2 H3 H4 H5 H6 H7 H8 H9 H10]. split; try done. by apply (cand_put v). Qed.

Lemma stages_put n o s : ~ stages n \/ o = None \/ o = Some rel -> stages_ok s -> stages_ok (put (BRelease n, []) o s).
Proof.
  intros Hn Hs m Hm. unfold get, put. simpl. destruct (decide (n = m)) as [->|Hne].
  - rewrite lookup_partial_alter_eq. destruct Hn as [?|[-> | ->]]; auto. done.
  - rewrite lookup_partial_alter_ne by done. by apply Hs.
Qed.

Lemma stage_old : c_stage cx <> old /\ c_stage cx <> V.
Proof. destruct Hstages as (H1 & H2 & H3). split; intros E; rewrite E in H1; done. Qed.

Lemma up_stage p r v o s : o = None \/ o = Some rel -> up p r v s -> up p r v (put (stage_loc cx) o s).
Proof.
  intros Ho [H1 H2 H3 H4 H5 H6 H7 H8 H9 H10]. destruct stage_old as [Hs1 Hs2]. split; try done.
  - unfold put. simpl. by rewrite lookup_partial_alter_ne.
  - unfold put. simpl. by rewrite lookup_partial_alter_ne.
  - by apply stages_put; [right|].
Qed.

Lemma up_release_in r v s : up false r v s -> up true r v (put (release_loc cx) (Some rel) (put (stage_loc cx) None s)).
Proof.
  intros H. apply (up_stage _ _ _ None) in H; [|by left]. destruct H as [H1 H2 H3 H4 H5 H6 H7 H8 H9 H10].
  destruct Hold as (_ & Hne & _). split; try done.
  - unfold put at 1. simpl. apply lookup_partial_alter_eq.
  - unfold put at 1. simpl. by rewrite lookup_partial_alter_ne.
  - apply stages_put; [|done]. left. apply Hstages.
Qed.

(** The metadata directory saved and found fine. *)
Hypothesis Hhz : hz = None \/ exists a l, hz = Some (Dir a l) /\ trusted hz [ROOT; own] = true /\ files_in META l /\
  forall k n, assoc k l = Some n -> exists r, _regular_json decode_record (Some n) MAX_MANIFEST [ROOT; own] = inr r.

Lemma hz_fine s : get (BProduction, [".horizon"%string]) s = hz -> meta_fine s.
Proof. intros E. unfold meta_fine. rewrite E. destruct Hhz as [->|(a & l & -> & _ & Hf & _)]; [by left|right; eauto]. Qed.

Lemma move_in v s : up true rt v s -> moved (put (version_loc cx BProduction) (Some vs) (put (version_loc cx BState) None s)).
Proof.
  intros [H1 H2 H3 H4 H5 H6 H7 H8 H9 H10]. destruct H3 as (pa & pl & va & vl & Hp & Ht & Hv & Htv & Hr).
  set (s1 := put (version_loc cx BState) None s). assert (Hp1 : p_production s1 = Some (Dir pa pl)) by done.
  assert (Hpath : put_path [VERSIONS; V] (Some vs) (p_production s1) = Some (Dir pa (set_child VERSIONS (Dir va (set_child V vs vl)) pl)))
    by (rewrite Hp1; cbn [put_path]; by rewrite Hv).
  split; try done.
  - exact (cand_put v None s H2).
  - exists pa, (set_child VERSIONS (Dir va (set_child V vs vl)) pl), va, (set_child V vs vl). split_and!; [|done|apply assoc_set_eq|done|].
    + unfold put at 1, version_loc. cbn [fst snd get_base put_base p_production]. exact Hpath.
    + intros r Hin. rewrite assoc_set_ne; [by apply Hr|]. by destruct (Hstable r Hin) as (_ & ? & _).
  - unfold get, put at 1, version_loc. cbn [fst snd get_base put_base p_production]. rewrite Hpath. simpl. rewrite assoc_set_eq. apply assoc_set_eq.
  - apply hz_fine. rewrite <- H5. unfold get, put at 1, version_loc. cbn [fst snd get_base put_base p_production].
    by apply lookup_put_other.
Qed.

Lemma moved_live s : moved s -> live (set_active (Some (ALink (relpath V))) s).
Proof. intros [H1 H2 H3 H4 H5 H6 H7 H8 H9 H10]. split; [|done]. split; try done; auto. Qed.

(** *** Writing the metadata of the active release *)

Lemma put_path_children k p o a l : exists l', put_path (k :: p) o (Some (Dir a l)) = Some (Dir a l') /\ forall j, j <> k -> assoc j l' = assoc j l.
Proof.
  cbn [put_path]. destruct p as [|j p].
  - eexists. split; [done|]. intros i Hi. by apply assoc_put_ne.
  - destruct (assoc k l) as [c|]; [|by exists l]. eexists. split; [done|]. intros i Hi. by apply assoc_put_ne.
Qed.

(** The metadata directory has these members. *)
Definition hzis (l : list (string * node)) (s : pstate) : Prop :=
  live0 s /\ exists a, get (BProduction, [".horizon"%string]) s = Some (Dir a l).

Lemma prod_base_put k p o s : k <> VERSIONS -> k ∉ stable d -> prod_base s -> prod_base (put (BProduction, k :: p) o s).
Proof.
  intros Hk Hn (pa & pl & va & vl & Hp & Ht & Hv & Htv & Hr). destruct (put_path_children k p o pa pl) as (pl' & E & Hl).
  exists pa, pl', va, vl. split_and!; [|done| |done|].
  - unfold put. cbn [fst snd get_base put_base p_production]. by rewrite Hp.
  - by rewrite Hl.
  - intros r Hin. rewrite Hl; [by apply Hr|]. intros ->. done.
Qed.

Lemma horizon_fresh : ".horizon"%string ∉ stable d.
Proof. intros H. by destruct (Hstable _ H) as (_ & _ & ? & _). Qed.

Lemma live_put p o s : live0 s -> live0 (put (metadata BProduction p) o s).
Proof.
  intros [H1 H2 H3 H4 H5 H6 H7 H8]. split; try done.
  - by apply prod_base_put; [|apply horizon_fresh|].
  - rewrite <- H4. unfold get, put, metadata, version_loc. cbn [fst snd get_base put_base p_production]. by apply lookup_put_other.
Qed.

Lemma prod_dir s : live0 s -> exists a l, p_production s = Some (Dir a l).
Proof. intros [_ _ (pa & pl & va & vl & Hp & _) _ _ _ _ _]. eauto. Qed.

Lemma live_parent s : live0 s -> parent_ok (metadata BProduction []) s = true.
Proof. intros (a & l & E)%prod_dir. unfold parent_ok, get, metadata. simpl. by rewrite E. Qed.

Lemma hz_root a l s : live0 s -> hzis l (put (metadata BProduction []) (Some (Dir a l)) s).
Proof.
  intros H. split; [by apply live_put|]. exists a. destruct (prod_dir s H) as (pa & pl & Hp).
  unfold get, put, metadata. cbn [fst snd get_base put_base p_production]. rewrite Hp. simpl. apply assoc_set_eq.
Qed.

Lemma hz_put f o l s : hzis l s -> hzis (put_child f o l) (put (metadata BProduction [f]) o s).
Proof.
  intros [H (a & Ha)]. split; [by apply live_put|]. exists a. destruct (prod_dir s H) as (pa & pl & Hp).
  unfold get, put, metadata in *. cbn [fst snd get_base put_base p_production] in *. rewrite Hp in Ha |- *. simpl in Ha. cbn [put_path].
  rewrite Ha. cbn [put_path lookup_path put_child]. by rewrite assoc_set_eq.
Qed.

Lemma hz_get f l s : hzis l s -> get (metadata BProduction [f]) s = assoc f l.
Proof.
  intros [H (a & Ha)]. destruct (prod_dir s H) as (pa & pl & Hp). unfold get, metadata in *. cbn [fst snd get_base] in *.
  rewrite Hp in Ha |- *. simpl in Ha |- *. by rewrite Ha.
Qed.

Lemma hz_parent f l s : hzis l s -> parent_ok (metadata BProduction [f]) s = true.
Proof. intros [_ (a & Ha)]. unfold parent_ok, metadata. cbn [snd fst removelast]. by rewrite Ha. Qed.

Lemma hz_live l s : hzis l s -> files_in META l -> live s.
Proof. intros [H (a & Ha)] Hf. split; [done|]. right. eauto. Qed.

Lemma files_in_put X k n l : files_in X l -> (exists a c, n = File a c) -> files_in ({[k]} ∪ X) (put_child k (Some n) l).
Proof.
  intros [H1 H2] Hn. split; [simpl; rewrite names_set; set_solver|]. intros j m Hj. destruct (decide (j = k)) as [->|Hne].
  - rewrite assoc_put_eq in Hj. by simplify_eq.
  - rewrite assoc_put_ne in Hj by done. by eapply H2.
Qed.
Lemma files_in_del X k l : files_in X l -> files_in (X ∖ {[k]}) (put_child k None l).
Proof.
  intros [H1 H2]. split; [simpl; rewrite names_del; set_solver|]. intros j m Hj. destruct (decide (j = k)) as [->|Hne].
  - by rewrite assoc_put_eq in Hj.
  - rewrite assoc_put_ne in Hj by done. by eapply H2.
Qed.
Lemma files_in_mono X Y l : X ⊆ Y -> files_in X l -> files_in Y l.
Proof. intros H [H1 H2]. split; [set_solver|done]. Qed.

#[local] Abbreviation tm := (".manifest.json.promote"%string).
#[local] Abbreviation tr := (".release.json.promote"%string).
#[local] Abbreviation fm := (metadata_file (Some own) (manifest_content inp)).
#[local] Abbreviation fr := (metadata_file (Some own) (encode_record (release_record cx d))).
Definition SCRATCH : gset string := {[tm; tr]} ∪ META.

(** The members while the files are staged, after the publication, and at the end. *)
Definition staged (l : list (string * node)) : list (string * node) := put_child tr (Some fr) (put_child tm (Some fm) l).
Definition swapped (l : list (string * node)) : list (string * node) :=
  put_child "release.json" (Some fr) (put_child tr None (put_child "manifest.json" (Some fm) (put_child tm None l))).
Definition cleaned (l : list (string * node)) : list (string * node) := put_child tr None (put_child tm None l).

Lemma file_fm : exists a c, fm = File a c.
Proof. destruct own. simpl. eauto. Qed.
Lemma file_fr : exists a c, fr = File a c.
Proof. destruct own. simpl. eauto. Qed.

Lemma staged_files l : files_in META l -> files_in SCRATCH (staged l).
Proof.
  intros H. eapply files_in_mono; [|apply files_in_put; [apply files_in_put; [exact H|apply file_fm]|apply file_fr]]. set_solver.
Qed.
Lemma swapped_files l : files_in SCRATCH l -> files_in SCRATCH (swapped l).
Proof.
  intros H. eapply files_in_mono; [|apply files_in_put; [apply files_in_del, files_in_put; [by apply files_in_del|apply file_fm]|apply file_fr]].
  unfold SCRATCH, META, as_set, metadata_names. set_solver.
Qed.
Lemma cleaned_files l : files_in SCRATCH l -> files_in META (cleaned l).
Proof. intros H. eapply files_in_mono; [|apply files_in_del, files_in_del; exact H]. unfold SCRATCH, META, as_set, metadata_names. set_solver. Qed.

Lemma replaceable_file a c o : (forall n, o = Some n -> exists a c, n = File a c) -> replaceable (File a c) o = true.
Proof. intros H. destruct o as [n|]; [|done]. by destruct (H n eq_refl) as (a' & c' & ->). Qed.

Lemma hz_rename src dst n l : assoc src l = Some n -> (exists a c, n = File a c) -> files_in SCRATCH l ->
  ftri (hzis l) (rename quiet (metadata BProduction [src]) (metadata BProduction [dst]))
    (fun _ => hzis (put_child dst (Some n) (put_child src None l))) (fun _ _ => False).
Proof.
  intros Hs (a & c & ->) [_ Hf]. apply (sure_rename _ _ (File a c)).
  - intros s H. rewrite !(hz_get _ l) by done. split_and!; [done|apply replaceable_file; intros n Hn; by eapply Hf|by apply (hz_parent _ l)].
  - intros s H. by apply hz_put, hz_put.
Qed.

Lemma publish_metadata_known l : files_in META l ->
  ftri (hzis (staged l)) (publish_metadata quiet BProduction (Some own)) (fun _ => hzis (swapped (staged l))) (fun _ _ => False).
Proof.
  intros Hl. pose proof (staged_files l Hl) as Hs.
  eapply ftri_seq; [apply (hz_rename tm "manifest.json" fm); [|apply file_fm|done]|].
  { unfold staged. rewrite assoc_put_ne by done. apply assoc_put_eq. }
  eapply ftri_seq; [apply (hz_rename tr "release.json" fr); [|apply file_fr|]|].
  { rewrite !assoc_put_ne by done. unfold staged. apply assoc_put_eq. }
  { eapply files_in_mono; [|apply files_in_put; [by apply files_in_del|apply file_fm]]. unfold SCRATCH, META, as_set, metadata_names. set_solver. }
  fold (swapped (staged l)). eapply ftri_seq; [|apply sure_step]. destruct own as [u g] eqn:Eo.
  apply ftri_at'. intros s1 H1. apply ftri_read_at. destruct H1 as [H1 (a & Ha)]. fold (metadata BProduction []). 
  change (get (metadata BProduction []) s1) with (get (BProduction, [".horizon"%string]) s1). rewrite Ha.
  apply sure_change; [intros s ->; by apply live_parent|]. intros s ->. by apply hz_root.
Qed.

(** The metadata of production is that of the new release. *)
Definition current (p : option node) : Prop :=
  metadata_current cx d (_regular_json decode_record (lookup_path [".horizon"; "release.json"]%string p) MAX_RECORD [ROOT; own]) = true.

Lemma fr_current : metadata_current cx d (_regular_json decode_record (Some fr) MAX_RECORD [ROOT; own]) = true.
Proof.
  destruct (Hcodec (release_record cx d)) as [H1 H2]; [by left|]. destruct own as [u g].
  unfold _regular_json, regular, metadata_file, new_attr. cbn [a_nlink a_mode].
  rewrite (bool_decide_eq_true_2 (owner _ ∈ _)) by set_solver. rewrite (proj2 (Z.leb_le _ _) H2). simpl. rewrite H1. simpl.
  unfold release_record. rewrite !andb_true_iff, !bool_decide_eq_true. split_and!; by simplify_map_eq.
Qed.

Lemma cleaned_current l s : hzis (cleaned (swapped l)) s -> current (p_production s).
Proof.
  intros H. pose proof (hz_get "release.json" _ _ H) as E. unfold current. unfold get, metadata in E. cbn [fst snd get_base] in E. rewrite E.
  unfold cleaned, swapped. rewrite !assoc_put_ne, assoc_put_eq by done. apply fr_current.
Qed.

Lemma sure_unlink f l : ftri (hzis l) (unlink quiet (metadata BProduction [f])) (fun _ => hzis (put_child f None l)) (only_refused live).
Proof. apply sure_effect. intros s H. by apply (hz_put f None). Qed.

Lemma write_files_known l : files_in META l ->
  ftri (hzis l)
    (change quiet (metadata BProduction [tm]) (Some fm) ;; change quiet (metadata BProduction [tr]) (Some fr) ;; step quiet ;;
     ffinally (_publication decide_ METADATA (publish_metadata quiet BProduction (Some own)))
       (unlink quiet (metadata BProduction [tm]) ;; unlink quiet (metadata BProduction [tr])))
    (fun _ s => live s /\ current (p_production s)) (only_refused live).
Proof.
  intros Hl. pose proof (staged_files l Hl) as Hs.
  eapply ftri_seq; [apply (sure_change _ _ _ (hzis (put_child tm (Some fm) l))); [apply hz_parent|intros s H; by apply hz_put]|].
  eapply ftri_seq; [apply (sure_change _ _ _ (hzis (staged l))); [apply hz_parent|intros s H; by apply hz_put]|].
  eapply ftri_seq; [apply sure_step|].
  eapply ftri_finally.
  - eapply (publish_known _ _ _ _ (fun s => exists l', files_in SCRATCH l' /\ hzis l' s)); [by apply publish_metadata_known| |].
    + intros s H. by exists (staged l).
    + intros s H. exists (swapped (staged l)). split; [by apply swapped_files|done].
  - intros []. eapply ftri_seq; [apply sure_unlink|]. eapply ftri_conseq; [apply sure_unlink|done| |done]. simpl. intros _ s H.
    fold (cleaned (swapped (staged l))) in H. split; [|by eapply cleaned_current]. eapply hz_live; [exact H|]. by apply cleaned_files, swapped_files.
  - intros x _. apply ftri_at'. intros s1 (-> & (l' & Hl' & H) & Ha). apply (ftri_pre _ (hzis l')); [|by intros s ->].
    eapply ftri_seq; [apply sure_unlink|]. eapply ftri_conseq; [apply sure_unlink|done| |done]. simpl. intros _ s H'.
    split_and!; [done| |done]. eapply hz_live; [exact H'|]. by apply cleaned_files.
  - by intros s [? _].
Qed.

Lemma write_metadata_known :
  ftri live (_write_metadata quiet decide_ encode_record cx inp BProduction d (Some METADATA) (Some own))
    (fun _ s => live s /\ current (p_production s)) (only_refused live).
Proof.
  apply ftri_at'. intros s1 [H1 Hm]. apply ftri_read_at. unfold meta_fine in Hm. change (get (metadata BProduction []) s1) with (get (BProduction, [".horizon"%string]) s1).
  apply (ftri_seq _ _ _ (fun s => exists l, files_in META l /\ hzis l s)).
  - destruct Hm as [-> |(a & l & E & Hl)].
    + apply sure_change; [intros s ->; by apply live_parent|]. intros s ->. exists []. split; [|by apply hz_root]. split; [set_solver|done].
    + rewrite E. destruct Hl as [Hl Hl']. intros s n ->. unfold guard. rewrite bool_decide_eq_true_2 by exact Hl. exists l. split; [done|]. split; [done|]. eauto.
  - apply ftri_at'. intros s2 (l & Hl & H2). eapply ftri_pre; [by apply write_files_known|]. by intros s ->.
Qed.

(** Writing the metadata does not touch the candidate. *)
Definition held (a b : option node) (s : pstate) : Prop := p_runtime s = a /\ p_state s = b.

Lemma held_put a b p o s : held a b s -> held a b (put (BProduction, p) o s).
Proof. done. Qed.
Lemma held_change a b p o : keeps (held a b) (change quiet (BProduction, p) o).
Proof. apply keeps_bind; [apply keeps_read|]. intros []; [|apply keeps_throw]. by apply keeps_effect. Qed.
Lemma held_rename a b p q : keeps (held a b) (rename quiet (BProduction, p) (BProduction, q)).
Proof.
  do 3 (apply keeps_bind; [apply keeps_read|intros ?]). case_match; [|apply keeps_throw]. case_match; [|apply keeps_throw]. by apply keeps_effect.
Qed.
Lemma held_publication a b act body : keeps (held a b) body -> keeps (held a b) (_publication decide_ act body).
Proof.
  intros Hb. apply keeps_bind; [apply keeps_oracle|]. intros dec.
  assert (H : keeps (held a b) (fexcept (body ;; match dec with RefuseExit => fail "publication lock is unavailable" | _ => mret tt end)
    (fun x => match x with SafeF _ | OsF => fthrow refused | _ => fthrow x end))).
  { apply keeps_except; [apply keeps_bind; [done|intros []; destruct dec; auto with helios]|intros []; auto with helios]. }
  destruct dec; [exact H|apply keeps_throw|exact H].
Qed.
Lemma held_metadata a b : keeps (held a b) (_write_metadata quiet decide_ encode_record cx inp BProduction d (Some METADATA) (Some own)).
Proof.
  apply keeps_bind; [apply keeps_read|]. intros o. apply keeps_bind; [destruct o as [[]|]; auto with helios; apply held_change|intros []].
  do 2 (apply keeps_bind; [apply held_change|intros []]). apply keeps_bind; [apply keeps_step|intros []].
  apply keeps_finally; [apply held_publication|apply keeps_bind; [by apply keeps_effect|intros []; by apply keeps_effect]].
  do 2 (apply keeps_bind; [apply held_rename|intros []]). apply keeps_bind; [|intros []; apply keeps_step].
  destruct own as [u g]. apply keeps_bind; [apply keeps_read|]. intros x. apply held_change.
Qed.

Lemma write_metadata_held a b :
  ftri (fun s => live s /\ held a b s) (_write_metadata quiet decide_ encode_record cx inp BProduction d (Some METADATA) (Some own))
    (fun _ s => (live s /\ current (p_production s)) /\ held a b s) (only_refused live).
Proof. eapply ftri_conseq; [apply ftri_and; [apply write_metadata_known|apply (held_metadata a b)]|done|done|]. by intros x s [? _]. Qed.

(** *** Removing what is left of the candidate *)

Lemma rt_digest : exists h, _tree_digest sha256 tree_sha256 true rt = Some h /\ _tree_digest sha256 tree_sha256 true rel = Some h.
Proof.
  rewrite (copy_digest _ _ _ _ _ Hrel). unfold _tree_digest. destruct Hrt as (_ & H & _). rewrite (tforall_impl normal); [eauto| |done].
  by intros [].
Qed.

Lemma rt_dir : is_dir (Some rt) = true.
Proof. destruct Hrt as (_ & _ & H). by destruct rt. Qed.

Lemma live_runtime o s : o = None \/ o = Some rt -> live s -> live (put (BRuntime, []) o s).
Proof. intros Ho [[H1 H2 H3 H4 H5 H6 H7 H8] Hm]. split; [|done]. by split. Qed.
Lemma live_state s : live s -> live (put (BState, []) None s).
Proof. intros [[H1 H2 H3 H4 H5 H6 H7 H8] Hm]. split; [|done]. split; try done. by left. Qed.

Section Drop.
Context (C : option node -> Prop).

Lemma remove_runtime : ftri (fun s => (live s /\ C (p_production s)) /\ p_runtime s = Some rt) (rmtree quiet partial (BRuntime, []))
  (fun _ s => (live s /\ C (p_production s)) /\ p_runtime s = None) (fun _ _ => False).
Proof.
  apply sure_rmtree; [intros s [_ E]; unfold get; simpl; rewrite E; apply rt_dir|].
  intros s [[H HC] _]. split; [|done]. split; [apply live_runtime; [by left|done]|done].
Qed.

Lemma remove_state : ftri (fun s => ((live s /\ C (p_production s)) /\ p_runtime s = None) /\ is_dir (p_state s) = true) (rmtree quiet partial (BState, []))
  (fun _ s => ((live s /\ C (p_production s)) /\ p_runtime s = None) /\ p_state s = None) (fun _ _ => False).
Proof.
  apply sure_rmtree; [by intros s [_ E]|]. intros s [[[H HC] Hr] _]. split; [|done]. split; [|done]. split; [by apply live_state|done].
Qed.

Lemma drop_runtime_known message :
  ftri (fun s => live s /\ C (p_production s)) (drop_runtime quiet partial sha256 tree_sha256 cx d message)
    (fun _ s => (live s /\ C (p_production s)) /\ p_runtime s = None) (fun _ _ => False).
Proof.
  apply ftri_at'. intros s1 [H HC]. apply ftri_read_at. destruct (lv_runtime s1 (proj1 H)) as [E|E]; rewrite E.
  { apply ftri_ret. by intros s ->. }
  destruct Hrt as (Hb & Hn & Ht). apply trusted_known; [done|]. unfold _bind_candidate_links. rewrite Hexpected.
  eapply ftri_seq; [apply ftri_read_at; rewrite E, Hb; simpl;
    apply (sure_rewriting _ _ _ (fun s => (live s /\ C (p_production s)) /\ p_runtime s = Some rt)); intros s ->; split; [split; [apply live_runtime; [by right|done]|done]|done]|].
  apply (read_known _ _ (Some rt)); [by intros s [_ ?]|]. apply (read_known _ _ (Some rel)).
  { intros s [[[H' _] _] _]. exact (lv_release s H'). }
  destruct rt_digest as (h & E1 & E2). unfold same_digest. rewrite E1, E2. apply guard_known; [apply String.eqb_refl|]. apply remove_runtime.
Qed.

Lemma drop_state_known :
  ftri (fun s => (live s /\ C (p_production s)) /\ p_runtime s = None) (drop_state quiet partial sha256 tree_sha256 follows cx d own)
    (fun _ s => ((live s /\ C (p_production s)) /\ p_runtime s = None) /\ p_state s = None) (fun _ _ => False).
Proof.
  apply ftri_at'. intros s1 H. apply ftri_read_at. pose proof (lv_cand s1 (proj1 (proj1 (proj1 H)))) as [E|Hc].
  { rewrite E. apply ftri_ret. by intros s ->. }
  destruct Hc as (sa & sl & va & E & Ht & Hc). rewrite E. apply trusted_known; [done|].
  eapply ftri_bind; [apply (matches_known None); [by exists sa, sl, va|apply H|done|done]|]. intros b.
  eapply ftri_pre; [apply remove_state|]. intros s [-> _]. split; [done|by rewrite E].
Qed.
End Drop.

(** *** The end *)

Definition finished (s : pstate) : Prop :=
  (((live s /\ current (p_production s)) /\ p_runtime s = None) /\ p_state s = None) /\ p_record s = Some report_node.

Lemma publish_report_known :
  ftri (fun s => ((live s /\ current (p_production s)) /\ p_runtime s = None) /\ p_state s = None) (_publish_report quiet partial encode_record cx d)
    (fun _ => finished) (only_refused live).
Proof.
  apply (ftri_seq _ _ _ finished).
  - intros s n H. simpl. destruct H as [[[[[H1 H2 H3 H4 H5 H6 H7 H8] Hm] HC] Hr] Hs]. split; [|done]. split; [|done]. split; [|done]. split; [|done].
    split; [|done]. split; try done. by right.
  - eapply ftri_seq; [apply sure_step|]. by apply ftri_ret.
Qed.

Lemma report_read : _regular_json decode_record (Some report_node) MAX_RECORD [ROOT] = inr (_report cx d).
Proof.
  destruct (Hcodec (_report cx d)) as [H1 H2]; [by right|]. unfold report_node, _regular_json, regular, new_attr. cbn [a_nlink a_mode].
  rewrite (bool_decide_eq_true_2 (owner _ ∈ _)) by set_solver. rewrite (proj2 (Z.leb_le _ _) H2). simpl. by rewrite H1.
Qed.

Lemma live_active s : live s -> active_release resolved s = Some V.
Proof.
  intros [H _]. unfold active_release. rewrite (lv_active s H), (proj2 (proj2 Hold)). unfold get. simpl. rewrite (lv_release s H).
  by destruct rel_dir as (a & l & -> & _).
Qed.

Definition emptied (s : pstate) : Prop := ((live s /\ current (p_production s)) /\ p_runtime s = None) /\ p_state s = None.

(** The metadata is written when it is not current, the report when there is none. *)
Lemma refresh_metadata s1 : ((live s1 /\ True) /\ p_runtime s1 = None) /\ p_state s1 = None ->
  ftri (fun s => s = s1)
    (if metadata_current cx d (_regular_json decode_record (get (metadata BProduction ["release.json"%string]) s1) MAX_RECORD [ROOT; own]) then mret tt
     else _write_metadata quiet decide_ encode_record cx inp BProduction d (Some METADATA) (Some own))
    (fun _ => emptied) (only_refused live).
Proof.
  intros [[[H _] Hr] Hs]. destruct (metadata_current _ _ _) eqn:E.
  - apply ftri_ret. by intros s ->.
  - eapply ftri_conseq; [apply (write_metadata_held None None)|by intros s ->| |done]. by intros [] s [[? ?] [? ?]].
Qed.

Lemma finish_report :
  ftri emptied
    (rec ← read p_record;
     match rec with
     | None => x ← _publish_report quiet partial encode_record cx d; mret (Some x)
     | Some _ =>
         r ← raise_left (_regular_json decode_record rec MAX_RECORD [ROOT]);
         guard (bool_decide (r = _report cx d)) "active promotion record mismatch" ;;
         mret (Some r)
     end)
    (fun r s => is_Some r /\ finished s) (only_refused live).
Proof.
  apply ftri_at'. intros s1 H. apply ftri_read_at. destruct (lv_record s1 (proj1 (proj1 (proj1 (proj1 H))))) as [E|E]; rewrite E.
  - eapply ftri_bind; [eapply ftri_pre; [apply publish_report_known|by intros s ->]|]. intros x. apply ftri_ret. intros s Hf. by split.
  - rewrite report_read. intros s n ->. simpl. unfold mbind, FM_bind, mret, FM_ret. unfold guard. rewrite bool_decide_eq_true_2 by done. simpl. by split.
Qed.

Lemma already_promoted_live :
  ftri live (_already_promoted quiet partial decide_ encode_record decode_record sha256 tree_sha256 resolved follows cx inp d own)
    (fun r s => is_Some r /\ finished s) (only_refused live).
Proof.
  apply (read_known _ _ (Some V)); [apply live_active|]. rewrite bool_decide_eq_true_2 by done.
  apply (read_known _ _ (Some rel)); [intros s [H _]; apply (lv_release s H)|].
  apply trusted_known; [destruct rel_dir as (a & l & E & ?); by rewrite E in *|].
  apply ftri_at'. intros s1 H1. apply ftri_read_at. destruct (lv_prod s1 (proj1 H1)) as (pa & pl & va & vl & Hp & Ht & _). apply trusted_known; [by rewrite Hp|].
  apply (sure_bind _ _ _ (fun _ s => (live s /\ True) /\ p_runtime s = None)).
  { eapply ftri_pre; [apply (drop_runtime_known (fun _ => True))|]. by intros s ->. }
  intros _. eapply sure_bind; [apply (drop_state_known (fun _ => True))|]. intros ?.
  apply ftri_at'. intros s2 H2. apply ftri_read_at. eapply ftri_seq; [by apply refresh_metadata|]. apply finish_report.
Qed.

(** *** The steps of a publication *)

Lemma activate_known :
  ftri moved (_guarded_activate quiet decide_ relpath ACTIVE_LINK V (Some old_link) no_precondition) (fun _ => live) (only_refused checkpoint).
Proof.
  apply publish_known; [|intros s H; by do 2 right; left|intros s H; by do 3 right].
  apply (ftri_seq _ _ _ moved); [by apply ftri_ret|].
  apply (read_known _ _ (Some rel)); [intros s H; apply (mv_release s H)|].
  apply guard_known; [by destruct rel_dir as (a & l & -> & _)|].
  apply (read_known _ _ (Some (ALink old_link))); [intros s H; apply (mv_active s H)|].
  apply guard_known; [by rewrite bool_decide_eq_false_2|]. apply guard_known; [by apply bool_decide_eq_true_2|]. do 2 (eapply ftri_seq; [apply sure_step|]).
  eapply ftri_seq; [apply (sure_effect _ _ live), moved_live|]. intros s n H. exact H.
Qed.

Lemma version_dir b s : (match b with BState => exists v, cand (Some v) s | _ => prod_base s end) -> b = BState \/ b = BProduction ->
  parent_ok (version_loc cx b) s = true.
Proof.
  intros H [-> | ->]; unfold parent_ok, version_loc, get; simpl.
  - destruct H as (v & sa & sl & va & E & _ & _ & Hv & _). rewrite E. simpl. by rewrite Hv.
  - destruct H as (pa & pl & va & vl & E & _ & Hv & _). rewrite E. simpl. by rewrite Hv.
Qed.

Lemma cand_version v s : cand v s -> get (version_loc cx BState) s = v.
Proof.
  intros (sa & sl & va & E & _ & _ & Hv & _). unfold get, version_loc. simpl. rewrite E. simpl. rewrite Hv. destruct v; simpl; [by rewrite String.eqb_refl|done].
Qed.

Lemma move_known :
  ftri (up true rt vs) (move_version_state quiet decide_ cx) (fun _ => moved) (only_refused checkpoint).
Proof.
  apply publish_known.
  - apply (ftri_seq _ _ _ (up true rt vs)); [by apply ftri_ret|]. eapply ftri_seq; [|apply sure_step].
    apply (sure_rename _ _ vs).
    + intros s H. split_and!; [apply cand_version, H|rewrite (up_version _ _ _ _ H)|apply version_dir; [apply H|by right]]. by destruct vs.
    + intros s H. by apply (move_in vs).
  - intros s H. right. left. exists vs. split; [apply vs_preparable|done].
  - intros s H. by do 2 right; left.
Qed.

Lemma verify_version_known :
  ftri moved (_verify_production_version_state cx d own) (fun _ => moved) (only_refused checkpoint).
Proof.
  apply (read_known _ _ (Some vs)); [intros s H; apply (mv_version s H)|]. intros s n H. unfold guard. by rewrite (proj1 Hvs).
Qed.

Lemma prepare_known p r v : preparable v ->
  ftri (up p r v) (_prepare_state_ownership quiet partial (version_loc cx BState) own) (fun _ => up p r vs) (only_refused checkpoint).
Proof.
  intros [_ Hv]. apply (read_known _ _ (Some v)); [intros s H; apply cand_version, H|]. rewrite Hv. apply sure_rewriting.
  intros s H. by apply (up_prepare _ _ v).
Qed.

(** The end of a resumed upgrade: the metadata, the candidate, the report. *)
Lemma live_tail message :
  ftri live (_write_metadata quiet decide_ encode_record cx inp BProduction d (Some METADATA) (Some own) ;;
             drop_runtime quiet partial sha256 tree_sha256 cx d message ;; drop_state quiet partial sha256 tree_sha256 follows cx d own)
    (fun _ => emptied) (only_refused checkpoint).
Proof.
  eapply ftri_seq; [eapply ftri_conseq; [apply write_metadata_known|done|intros a s H; exact H|]|].
  { intros x s (H1 & H2 & H3). split_and!; [done|by do 3 right|done]. }
  eapply sure_bind; [apply (drop_runtime_known current)|]. intros ?. eapply ftri_conseq; [apply (drop_state_known current)|done|by intros ? s H|done].
Qed.

Lemma report_tail : ftri emptied (step quiet ;; x ← _publish_report quiet partial encode_record cx d; mret (Some x))
  (fun r s => is_Some r /\ finished s) (only_refused checkpoint).
Proof.
  eapply ftri_seq; [apply sure_step|]. eapply ftri_bind; [eapply ftri_conseq; [apply publish_report_known|done|intros a s H; exact H|]|].
  - intros x s (H1 & H2 & H3). split_and!; [done|by do 3 right|done].
  - intros x. apply ftri_ret. intros s H. by split.
Qed.

Lemma moved_tail message :
  ftri moved (_verify_production_version_state cx d own ;;
              _guarded_activate quiet decide_ relpath ACTIVE_LINK V (Some old_link) no_precondition ;;
              _write_metadata quiet decide_ encode_record cx inp BProduction d (Some METADATA) (Some own) ;;
              drop_runtime quiet partial sha256 tree_sha256 cx d message ;; drop_state quiet partial sha256 tree_sha256 follows cx d own)
    (fun _ => emptied) (only_refused checkpoint).
Proof. eapply ftri_seq; [apply verify_version_known|]. eapply ftri_seq; [apply activate_known|]. apply live_tail. Qed.

(** *** The attempts *)

(** Before the activation the link denotes the old release. *)
Lemma active_old s : p_active s = Some (ALink old_link) -> is_dir (p_releases s !! old) = true -> active_release resolved s = Some old.
Proof. intros E H. unfold active_release. rewrite E, (proj1 Hold). unfold get. simpl. by rewrite H. Qed.

Lemma not_already s1 : active_release resolved s1 = Some old ->
  ftri (fun s => s = s1) (_already_promoted quiet partial decide_ encode_record decode_record sha256 tree_sha256 resolved follows cx inp d own)
    (fun r s => r = None /\ s = s1) (only_refused checkpoint).
Proof.
  intros E. apply ftri_read_at. rewrite E, bool_decide_eq_false_2; [by apply ftri_ret|]. destruct Hold as (_ & H & _). congruence.
Qed.

Lemma not_published s1 : p_active s1 = Some (ALink old_link) ->
  ftri (fun s => s = s1) (_resume_published_release quiet partial decide_ parse_document encode_record decode_record sha256 tree_sha256 relpath cx d own)
    (fun r s => r = None /\ s = s1) (only_refused checkpoint).
Proof.
  intros E. do 3 apply ftri_read_at. rewrite E, (bool_decide_eq_false_2 _) by done. rewrite andb_false_r. by apply ftri_ret.
Qed.

(** What the attempts read of production. *)
Lemma prod_known s : prod_base s -> exists pn vn, p_production s = Some pn /\ is_dir (Some pn) = true /\ trusted (Some pn) [own] = true /\
  get (BProduction, [VERSIONS]) s = Some vn /\ trusted (Some vn) [own] = true.
Proof.
  intros (pa & pl & va & vl & Ep & Ht & Ev & Htv & _). exists (Dir pa pl), (Dir va vl). split_and!; try done. unfold get. simpl. rewrite Ep. exact Ev.
Qed.

Lemma resume_head s1 :
  prod_base s1 -> p_active s1 = Some (ALink old_link) -> p_releases s1 !! V = Some rel -> is_dir (p_releases s1 !! old) = true ->
  ftri (fun s => s = s1)
    (if present (get (version_loc cx BProduction) s1) then
       guard (negb (present (get (version_loc cx BState) s1))) "candidate and production version state collide" ;;
       st ← read p_state;
       (if present st then _candidate_matches_existing_state sha256 tree_sha256 follows cx d true ;; mret tt else mret tt) ;;
       _verify_production_version_state cx d own
     else
       st ← read p_state;
       guard (is_dir st) "upgrade version state is unavailable for resume" ;;
       _candidate_matches_existing_state sha256 tree_sha256 follows cx d false ;;
       _prepare_state_ownership quiet partial (version_loc cx BState) own ;;
       move_version_state quiet decide_ cx ;;
       _verify_production_version_state cx d own) (fun _ => moved) (only_refused checkpoint) ->
  ftri (fun s => s = s1)
    (_resume_upgrade_publication quiet partial decide_ encode_record sha256 tree_sha256 resolved relpath follows cx inp d own)
    (fun r s => is_Some r /\ finished s) (only_refused checkpoint).
Proof.
  intros Hp Ha Hr Ho Hmiddle. destruct (prod_known s1 Hp) as (pn & vn & Ep & Hd & Ht & Ev & Htv). destruct rel_dir as (ra & rl & Er & _).
  do 3 apply ftri_read_at. rewrite Ep, Hd. unfold is_symlink. rewrite Ha. change (get (release_loc cx) s1) with (p_releases s1 !! V). rewrite Hr.
  rewrite Er. cbn [is_dir andb]. apply trusted_known; [done|].
  apply (ftri_seq _ _ _ (fun s => s = s1)).
  { apply ftri_read_at. change (get (release_loc cx) s1) with (p_releases s1 !! V). rewrite Hr. intros s n ->. unfold guard. by rewrite rel_ok. }
  do 3 apply ftri_read_at. rewrite (active_old s1), Ha, Ev by done. apply trusted_known; [done|]. do 2 apply ftri_read_at.
  destruct Hold as (_ & Hne & _). rewrite (bool_decide_eq_false_2 (Some old = Some V)) by congruence.
  eapply ftri_seq; [|apply report_tail]. apply guard_known; [by apply bool_decide_eq_true_2|].
  eapply ftri_seq; [exact Hmiddle|]. eapply ftri_seq; [apply activate_known|]. apply live_tail.
Qed.

Lemma resume_moved :
  ftri moved (_resume_upgrade_publication quiet partial decide_ encode_record sha256 tree_sha256 resolved relpath follows cx inp d own)
    (fun r s => is_Some r /\ finished s) (only_refused checkpoint).
Proof.
  apply ftri_at'. intros s1 H. pose proof H as [H1 H2 H3 H4 H5 H6 H7 H8 H9 H10]. apply resume_head; try done.
  rewrite H4, (cand_version None) by done. cbn [present]. apply guard_known; [done|]. apply ftri_read_at.
  pose proof H2 as (sa & sl & va & Es & _). rewrite Es. cbn [present].
  eapply ftri_seq; [|eapply ftri_pre; [apply verify_version_known|intros s H'; exact H']].
  eapply sure_bind; [by apply (matches_known None)|]. intros b. apply ftri_ret. by intros s [-> _].
Qed.

Lemma resume_published v : preparable v ->
  ftri (up true rt v) (_resume_upgrade_publication quiet partial decide_ encode_record sha256 tree_sha256 resolved relpath follows cx inp d own)
    (fun r s => is_Some r /\ finished s) (only_refused checkpoint).
Proof.
  intros Hv. apply ftri_at'. intros s1 H. pose proof H as [H1 H2 H3 H4 H5 H6 H7 H8 H9 H10]. apply resume_head; try done.
  rewrite H4. cbn [present]. apply ftri_read_at. pose proof H2 as (sa & sl & va & Es & _). rewrite Es. apply guard_known; [done|].
  eapply sure_bind; [apply (matches_known (Some v)); [done|done|intros n [= <-]; apply Hv|done]|]. intros b.
  eapply ftri_seq; [eapply ftri_pre; [by apply (prepare_known true rt v)|by intros s [-> _]]|].
  eapply ftri_seq; [apply move_known|]. apply verify_version_known.
Qed.

Lemma not_resumed r v :
  ftri (up false r v) (_resume_upgrade_publication quiet partial decide_ encode_record sha256 tree_sha256 resolved relpath follows cx inp d own)
    (fun r' s => r' = None /\ up false r v s) (only_refused checkpoint).
Proof.
  apply ftri_at'. intros s1 H. do 3 apply ftri_read_at. change (get (release_loc cx) s1) with (p_releases s1 !! V).
  rewrite (up_release _ _ _ _ H), andb_false_r. apply ftri_ret. by intros s ->.
Qed.

(** *** The upgrade *)

Lemma up_locals p r v f s : up p r v s -> up p r v (set_locals f s).
Proof. by intros []. Qed.
Lemma moved_locals f s : moved s -> moved (set_locals f s).
Proof. by intros []. Qed.
Lemma live_locals f s : live s -> live (set_locals f s).
Proof. intros [[] Hm]. by split. Qed.

Lemma mark_known (P : pstate -> Prop) f E : (forall l s, P s -> P (set_locals l s)) -> ftri P (mark f) (fun _ => P) E.
Proof. intros H s n Hs. by apply H. Qed.

(** The links are bound and the permissions made normal. *)
Lemma bind_known {B} r v (k : FM pstate B) Q E : bindable r ->
  ftri (up false rt v) k Q E ->
  ftri (up false r v)
    (_bind_candidate_links quiet partial cx d ;; _normalize_release_permissions quiet partial (BRuntime, []) ;;
     _verify_release_ownership (BRuntime, []) ;; k) Q E.
Proof.
  intros (_ & r1 & Hb & Hn) Hk. unfold _bind_candidate_links. rewrite Hexpected.
  eapply ftri_seq; [apply (read_known _ _ (Some r)); [intros s H; apply H|]; rewrite Hb; apply (sure_rewriting _ _ _ (up false r1 v)); intros s H; by apply (up_put_runtime _ r)|].
  eapply ftri_seq; [apply (read_known _ _ (Some r1)); [intros s H; apply H|]; rewrite Hn; apply (sure_rewriting _ _ _ (up false rt v)); intros s H; by apply (up_put_runtime _ r1)|].
  eapply ftri_seq; [|exact Hk]. apply (read_known _ _ (Some rt)); [intros s H; apply H|]. intros s n H. unfold guard. by rewrite rt_ok.
Qed.

Lemma backup_known {B} P (k : list (string * option node) -> FM pstate B) Q E :
  (forall s, P s -> get (BProduction, [".horizon"%string]) s = hz) -> (forall b, ftri P (k b) Q E) ->
  ftri P (_metadata_backup decode_record own ≫= k) Q E.
Proof.
  intros Hm Hk. eapply ftri_bind; [|exact Hk]. apply (read_known _ _ hz); [exact Hm|].
  assert (Hget : forall s f, P s -> get (metadata BProduction [f]) s = match hz with Some (Dir _ l) => assoc f l | _ => None end).
  { intros s f Hs. rewrite <- (Hm s Hs). unfold get, metadata. simpl. destruct (p_production s) as [[]|]; try done. }
  assert (Hone : forall f, ftri P (backup_one decode_record own f) (fun _ => P) E).
  { intros f s n Hs. unfold backup_one, mbind, FM_bind, read. simpl. rewrite (Hget s f Hs). destruct Hhz as [-> |(a & l & -> & _ & _ & Hr)]; [done|].
    destruct (assoc f l) as [x|] eqn:Ex; [|done]. destruct (Hr f x Ex) as [j Ej]. by rewrite Ej. }
  apply (ftri_seq _ _ _ P).
  { destruct Hhz as [-> |(a & l & -> & Ht & _)]; [by apply ftri_ret|]. intros s n Hs. unfold _trusted_directory, guard. cbn [trusted] in Ht. by rewrite Ht. }
  eapply ftri_bind; [apply Hone|]. intros m. eapply ftri_bind; [apply Hone|]. intros m'. by apply ftri_ret.
Qed.

(** A copy that was left is removed, and made again. *)
Definition unstaged (v : node) (s : pstate) : Prop := up false rt v s /\ get (stage_loc cx) s = None.
Definition copied (v : node) (s : pstate) : Prop := up false rt v s /\ get (stage_loc cx) s = Some rel.

Lemma clear_stage_known v E : ftri (up false rt v) (clear_stage quiet partial follows cx) (fun _ => unstaged v) E.
Proof.
  apply ftri_at'. intros s1 H. apply ftri_read_at. destruct (up_stages _ _ _ _ H (c_stage cx)) as [Es|Es]; [apply Hstages| |].
  - change (get (stage_loc cx) s1) with (get (BRelease (c_stage cx), []) s1). rewrite Es. apply ftri_ret. by intros s ->.
  - change (get (stage_loc cx) s1) with (get (BRelease (c_stage cx), []) s1). rewrite Es. apply ftri_read_at.
    change (get (release_loc cx) s1) with (p_releases s1 !! V). rewrite (up_release _ _ _ _ H). destruct rel_dir as (a & l & Er & Ht).
    apply guard_known; [by rewrite Er|]. apply trusted_known; [done|]. apply sure_rmtree.
    + intros s ->. change (get (stage_loc cx) s1) with (get (BRelease (c_stage cx), []) s1). by rewrite Es, Er.
    + intros s ->. split; [apply up_stage; [by left|done]|]. unfold get, put, stage_loc. simpl. apply lookup_partial_alter_eq.
Qed.

Lemma copytree_known n n' s k : p_runtime s = Some n -> is_dir (Some n) = true -> get (stage_loc cx) s = None -> traverse copy_attr n = Some n' ->
  copytree quiet partial cx (s, k) = rewriting quiet partial (stage_loc cx) (Some n') (s, k).
Proof.
  intros E1 E2 E3 E4. unfold copytree, mbind, FM_bind, read. cbn [fst snd]. rewrite E1, E3. destruct n; try done. by rewrite E4.
Qed.

Lemma stage_known v E : ftri (unstaged v) (stage_release quiet partial cx) (fun _ => copied v) E.
Proof.
  apply (ftri_seq _ _ _ (copied v)).
  - intros s n [H Hs]. rewrite (copytree_known rt rel); [|apply H|apply rt_dir|done|done]. simpl.
    split; [apply up_stage; [by right|done]|]. unfold get, put, stage_loc. simpl. apply lookup_partial_alter_eq.
  - eapply ftri_seq; [|apply sure_step]. apply (read_known _ _ (Some rel)); [by intros s [_ ?]|]. intros s n H. unfold guard. by rewrite rel_ok.
Qed.

Lemma prepare_copied v E : preparable v ->
  ftri (copied v) (_prepare_state_ownership quiet partial (version_loc cx BState) own) (fun _ => copied vs) E.
Proof.
  intros [_ Hv]. apply (read_known _ _ (Some v)); [intros s [H _]; apply cand_version, H|]. rewrite Hv. apply sure_rewriting.
  intros s [H Hs]. split; [by apply (up_prepare _ _ v)|done].
Qed.

Lemma release_known : ftri (copied vs) (_guarded_replace quiet decide_ RELEASE (stage_loc cx) (release_loc cx) no_precondition)
  (fun _ => up true rt vs) (only_refused checkpoint).
Proof.
  apply publish_known.
  - apply (ftri_seq _ _ _ (copied vs)); [by apply ftri_ret|]. eapply ftri_seq; [|apply sure_step]. apply (sure_rename _ _ rel).
    + intros s [H Hs]. change (get (release_loc cx) s) with (p_releases s !! V). rewrite (up_release _ _ _ _ H). split_and!; [done|by destruct rel|done].
    + intros s [H _]. by apply up_release_in.
  - intros s [H _]. left. exists rt, vs. split_and!; [apply rt_bindable|apply vs_preparable|done].
  - intros s H. right. left. exists vs. split; [apply vs_preparable|done].
Qed.

Lemma held_activate a b n o : keeps (held a b) (_guarded_activate quiet decide_ relpath ACTIVE_LINK n o no_precondition).
Proof.
  apply held_publication. apply keeps_bind; [apply keeps_ret|intros []]. apply keeps_bind; [apply keeps_read|intros x].
  apply keeps_bind; [apply keeps_guard|intros []]. apply keeps_bind; [apply keeps_read|intros y].
  do 2 (apply keeps_bind; [apply keeps_guard|intros []]). do 2 (apply keeps_bind; [apply keeps_step|intros []]).
  apply keeps_bind; [by apply keeps_effect|intros []]. apply keeps_except; [apply keeps_step|]. intros e.
  apply keeps_bind; [by apply keeps_effect|intros []]. apply keeps_bind; [apply keeps_step|intros []; apply keeps_throw].
Qed.

Lemma or_undo_known {A} P (m : FM pstate A) undo Q : ftri P m Q (only_refused checkpoint) -> ftri P (or_undo m undo) Q (only_refused checkpoint).
Proof.
  intros Hm. eapply ftri_except; [exact Hm| |by intros x s _ ?]. intros x _ s n (-> & H). rewrite bool_decide_eq_true_2 by done. by split.
Qed.

Lemma live_refusal x s : only_refused live x s -> only_refused checkpoint x s.
Proof. intros (H1 & H2 & H3). split_and!; [done|by do 3 right|done]. Qed.

(** The candidate as the activation leaves it. *)
Definition retained (s : pstate) : Prop := p_runtime s = Some rt /\ is_dir (p_state s) = true.

Lemma moved_retained s : moved s -> retained s.
Proof. intros H. split; [apply H|]. destruct (mv_cand s H) as (sa & sl & va & E & _). by rewrite E. Qed.

Lemma upgrade_block_known v : preparable v ->
  ftri (unstaged v)
    (stage_release quiet partial cx ;;
     _prepare_state_ownership quiet partial (version_loc cx BState) own ;;
     _guarded_replace quiet decide_ RELEASE (stage_loc cx) (release_loc cx) no_precondition ;;
     mark mark_released ;;
     move_version_state quiet decide_ cx ;;
     mark mark_moved ;;
     _verify_production_version_state cx d own ;;
     _guarded_activate quiet decide_ relpath ACTIVE_LINK V (Some old_link) no_precondition ;;
     mark mark_activated ;;
     mark mark_attempted ;;
     _write_metadata quiet decide_ encode_record cx inp BProduction d (Some METADATA) (Some own))
    (fun _ s => (live s /\ current (p_production s)) /\ retained s) (only_refused checkpoint).
Proof.
  intros Hv. eapply ftri_seq; [apply stage_known|]. eapply ftri_seq; [by apply prepare_copied|]. eapply ftri_seq; [apply release_known|].
  eapply ftri_seq; [apply mark_known; intros l s; apply up_locals|]. eapply ftri_seq; [apply move_known|].
  eapply ftri_seq; [apply mark_known; intros l s; apply moved_locals|]. eapply ftri_seq; [apply verify_version_known|].
  apply ftri_at'. intros s1 H1. destruct (moved_retained s1 H1) as [Hr Hs].
  apply (ftri_seq _ _ _ (fun s => live s /\ held (Some rt) (p_state s1) s)).
  { eapply ftri_conseq; [apply ftri_and; [apply activate_known|apply (held_activate (Some rt) (p_state s1))]|by intros s ->|done|by intros x s [? _]]. }
  do 2 (eapply ftri_seq; [apply mark_known; intros l s [? ?]; split; [by apply live_locals|done]|]).
  eapply ftri_conseq; [apply (write_metadata_held (Some rt) (p_state s1))|done| |apply live_refusal]. intros [] s [H [E1 E2]]. split; [done|]. split; [done|]. by rewrite E2.
Qed.

Lemma upgrade_known r v : bindable r -> preparable v ->
  ftri (up false r v)
    (_promote_upgrade quiet partial decide_ encode_record decode_record sha256 tree_sha256 resolved relpath follows cx inp d own)
    (fun _ => finished) (only_refused checkpoint).
Proof.
  intros Hr Hv. apply ftri_at'. intros s1 H. pose proof H as [H1 H2 H3 H4 H5 H6 H7 H8 H9 H10].
  destruct (prod_known s1 H3) as (pn & vn & Ep & Hd & Ht & Ev & Htv).
  apply ftri_read_at. rewrite Ep. apply trusted_known; [done|]. do 2 apply ftri_read_at. unfold is_symlink. rewrite H6.
  change (get (release_loc cx) s1) with (p_releases s1 !! V). rewrite H7. apply guard_known; [done|]. do 2 apply ftri_read_at.
  rewrite (active_old s1), H6 by done.
  eapply sure_bind; [apply (matches_known (Some v)); [done|done|intros n [= <-]; apply Hv|done]|]. intros b.
  apply (ftri_pre _ (fun s => s = s1)); [|by intros s [-> _]]. apply ftri_read_at. rewrite Ev. apply trusted_known; [done|].
  apply ftri_read_at. rewrite H4. apply guard_known; [done|]. apply guard_known; [done|].
  apply (ftri_pre _ (up false r v)); [|by intros s ->]. apply bind_known; [done|]. apply backup_known; [intros s H'; apply H'|]. intros backup.
  eapply ftri_seq; [apply (ftri_modify _ _ (up false rt v)); intros s; apply up_locals|]. eapply ftri_seq; [apply clear_stage_known|].
  eapply ftri_seq; [apply or_undo_known; by apply upgrade_block_known|].
  apply (sure_bind _ _ _ (fun _ s => ((live s /\ current (p_production s)) /\ p_runtime s = None) /\ is_dir (p_state s) = true)).
  { apply sure_rmtree.
    - intros s [_ [E _]]. unfold get. simpl. rewrite E. apply rt_dir.
    - intros s [[H' HC] [_ Hs]]. split; [|done]. split; [|done]. split; [apply live_runtime; [by left|done]|done]. }
  intros ?. eapply sure_bind; [apply (remove_state current)|]. intros ?. eapply ftri_seq; [apply sure_step|].
  eapply ftri_conseq; [apply publish_report_known|done|done|apply live_refusal].
Qed.

(** *** A promotion *)

(** What the promotion only reads is as it must be. *)
Record inputs_ok : Prop := {
  in_root : i_root inp = true;
  in_inactive : i_inactive inp = true;
  in_manifest : read_document parse_document (i_manifest inp) [ROOT] = inr d;
  in_identity : d_sha256 d = document_sha256 d /\ match c_manifest_sha256 cx with Some h => d_sha256 d = h | None => True end /\
    d_profile d = PROFILE /\ d_version d = V;
  in_candidate : trusted (i_candidate inp) [ROOT] = true;
  in_record : exists c, _regular_json decode_record (i_candidate_json inp) MAX_RECORD [ROOT] = inr c /\ candidate_record_ok cx d c = true;
  in_directories : trusted (i_release_root inp) [ROOT] = true /\ trusted (i_state_parent inp) [ROOT] = true /\ trusted (i_link_parent inp) [ROOT] = true;
  in_account : i_account inp = Some own;
}.
Hypothesis Hinputs : inputs_ok.

#[local] Abbreviation promote := (_promote quiet partial decide_ parse_document document_sha256 encode_record decode_record sha256
  tree_sha256 resolved relpath follows cx inp).

Lemma manifest_known {B} P (k : document -> FM pstate B) Q E : ftri P (k d) Q E ->
  ftri P (_manifest parse_document document_sha256 cx inp ≫= k) Q E.
Proof.
  intros Hk s n Hs. destruct Hinputs as [_ _ Hm (I1 & I2 & I3 & I4) _ _ _ _]. unfold _manifest, mbind, FM_bind. rewrite Hm. simpl. unfold guard.
  rewrite I1, I3, I4, !String.eqb_refl. destruct (c_manifest_sha256 cx) as [h|]; [rewrite <- I1, I2, String.eqb_refl|]; simpl; by apply Hk.
Qed.

(** The attempt past the inputs, and past the check of an earlier activation. *)
Definition resume_or_publish : FM pstate (gmap string jval) :=
  r2 ← _resume_upgrade_publication quiet partial decide_ encode_record sha256 tree_sha256 resolved relpath follows cx inp d own;
  match r2 with
  | Some r => mret r
  | None =>
      st ← read p_state;
      _trusted_directory st [ROOT; own] ;;
      up ← read (fun s => exists_at follows (p_production s) && is_symlink s);
      if (up : bool)
      then _promote_upgrade quiet partial decide_ encode_record decode_record sha256 tree_sha256 resolved relpath follows cx inp d own
      else promote_fresh quiet partial decide_ parse_document encode_record decode_record relpath follows cx inp d own
  end.
Definition past_inputs : FM pstate (gmap string jval) :=
  done_ ← _already_promoted quiet partial decide_ encode_record decode_record sha256 tree_sha256 resolved follows cx inp d own;
  match done_ with
  | Some r => mret r
  | None =>
      run ← read p_runtime;
      _trusted_directory run [ROOT] ;;
      r1 ← _resume_published_release quiet partial decide_ parse_document encode_record decode_record sha256 tree_sha256 relpath cx d own;
      match r1 with
      | Some r => mret r
      | None => resume_or_publish
      end
  end.

Lemma inputs_known P Q E : ftri P past_inputs Q E -> ftri P promote Q E.
Proof.
  intros H. pose proof Hinputs as [I1 I2 _ _ I5 (c & I6 & I6') (I7 & I8 & I9) I10]. unfold _promote.
  apply guard_known; [done|]. apply guard_known; [done|]. apply manifest_known. apply trusted_known; [done|]. rewrite I6.
  eapply ftri_bind; [apply (ftri_ret c _ (fun a s => P s /\ a = c)); by intros s|]. intros c'. apply ftri_pure. intros ->.
  apply guard_known; [done|]. do 3 (apply trusted_known; [done|]). rewrite I10. exact H.
Qed.

Lemma unactivated s1 r Q : p_active s1 = Some (ALink old_link) -> is_dir (p_releases s1 !! old) = true ->
  p_runtime s1 = Some r -> trusted (Some r) [ROOT] = true ->
  ftri (fun s => s = s1) resume_or_publish Q (only_refused checkpoint) -> ftri (fun s => s = s1) past_inputs Q (only_refused checkpoint).
Proof.
  intros Ha Ho Er Ht H. eapply ftri_bind; [by apply not_already, active_old|]. intros x. apply ftri_at'. intros s2 [-> ->].
  apply ftri_read_at. rewrite Er. apply trusted_known; [done|]. eapply ftri_bind; [by apply not_published|].
  intros x. apply ftri_at'. intros s2 [-> ->]. exact H.
Qed.

Lemma resumed s1 P : P s1 ->
  ftri P (_resume_upgrade_publication quiet partial decide_ encode_record sha256 tree_sha256 resolved relpath follows cx inp d own)
    (fun r s => is_Some r /\ finished s) (only_refused checkpoint) ->
  ftri (fun s => s = s1) resume_or_publish (fun _ => finished) (only_refused checkpoint).
Proof.
  intros HP H. eapply ftri_bind; [eapply ftri_pre; [exact H|by intros s ->]|].
  intros [x|]; [apply ftri_ret; by intros s [_ ?]|apply ftri_false; by intros s [[? ?] _]].
Qed.

Lemma published s1 r v : bindable r -> preparable v -> up false r v s1 ->
  ftri (fun s => s = s1) resume_or_publish (fun _ => finished) (only_refused checkpoint).
Proof.
  intros Hr Hv H. eapply ftri_bind; [eapply ftri_pre; [apply (not_resumed r v)|by intros s ->]|].
  intros x. apply ftri_at'. intros s2 [-> H2]. apply ftri_read_at. pose proof (up_cand _ _ _ _ H2) as (sa & sl & va & Es & Ht & _). rewrite Es.
  apply trusted_known; [done|]. apply ftri_read_at. destruct (prod_known s2 (up_prod _ _ _ _ H2)) as (pn & vn & Ep & Hd & _).
  unfold is_symlink. rewrite Ep, (up_active _ _ _ _ H2). assert (exists_at follows (Some pn) = true) as -> by by destruct pn.
  eapply ftri_pre; [by apply (upgrade_known r v)|]. by intros s ->.
Qed.

Lemma promote_known : ftri checkpoint promote (fun _ => finished) (only_refused checkpoint).
Proof.
  apply inputs_known. apply ftri_at'. intros s1 [(r & v & Hr & Hv & H)|[(v & Hv & H)|[H|H]]].
  - eapply unactivated; [apply H|apply H|apply H|apply Hr|by apply (published s1 r v)].
  - eapply unactivated; [apply H|apply H|apply H|apply Hrt|]. by eapply resumed; [|apply (resume_published v)].
  - eapply unactivated; [apply H|apply H|apply H|apply Hrt|]. by eapply resumed; [|apply resume_moved].
  - eapply ftri_bind; [eapply ftri_conseq; [apply already_promoted_live|by intros s ->|intros a s Ha; exact Ha|apply live_refusal]|].
    intros [x|]; [apply ftri_ret; by intros s [_ ?]|apply ftri_false; by intros s [[? ?] _]].
Qed.
End Resume.
