(* ===== verification/PromoteAttempts.v ===== *)
(** An upgrade whose publications are refused at any point, in any number of attempts,
    is completed by an attempt whose publications are admitted. *)
From S2P Require Import Prelude Fault Tree Promote PromoteTrees PromoteResume PromoteTheorems.

(** ** Facts about the manifest's links and the trees *)

Lemma add_links_nodup cx d l e e' : add_links cx d l e = Some e' -> NoDup (map fst e) -> NoDup (map fst e').
Proof.
  revert e. induction l as [|r l IH]; intros e; simpl; [by intros [= <-]|]. destruct (safe_name r); [|done]. simpl.
  destruct (bool_decide (is_Some (assoc r e))) eqn:Ei; [done|]. intros E Hnd. eapply IH; [exact E|]. rewrite map_app. simpl.
  apply NoDup_app. split_and!; [done| |apply NoDup_singleton]. intros x Hx ->%list_elem_of_singleton. apply bool_decide_eq_false in Ei.
  destruct Ei. destruct (assoc_member _ _ Hx) as [w ->]. eauto.
Qed.
Lemma add_fixed_nodup cx l e e' : add_fixed cx l e = Some e' -> NoDup (map fst e) -> NoDup (map fst e').
Proof.
  revert e. induction l as [|[r t] l IH]; intros e; simpl; [by intros [= <-]|].
  destruct (bool_decide (is_Some (assoc r e))) eqn:Ei; [done|]. simpl. destruct (_ && _); [|done]. intros E Hnd. eapply IH; [exact E|]. rewrite map_app. simpl.
  apply NoDup_app. split_and!; [done| |apply NoDup_singleton]. intros x Hx ->%list_elem_of_singleton. apply bool_decide_eq_false in Ei.
  destruct Ei. destruct (assoc_member _ _ Hx) as [w ->]. eauto.
Qed.
Lemma expected_nodup cx d e : _expected_links cx d = Some e -> NoDup (map fst e).
Proof.
  unfold _expected_links. destruct (add_links cx d _ []) as [e1|] eqn:E1; [|done]. intros E. eapply add_fixed_nodup; [exact E|].
  eapply add_links_nodup; [exact E1|]. constructor.
Qed.

Lemma bind_root_owned cx e r r1 : bind_links cx e r = Some r1 -> tforall root_owned r = true -> tforall root_owned r1 = true.
Proof.
  destruct r as [|a l| |]; try done. simpl bind_links. destruct (_ && _ && _); [|done]. intros [= <-]. rewrite !tforall_dir.
  rewrite !andb_true_iff, !forallb_forall. intros [H1 H2]. split; [done|]. intros x Hx. apply in_map_iff in Hx as (y & <- & Hy).
  specialize (H2 y Hy). unfold bind_child. destruct y as [k []]; simpl in *; try done. destruct (assoc k e); [|done]. by destruct (String.eqb _ _).
Qed.

Lemma normal_trusted rt : is_dir (Some rt) = true -> tforall normal rt = true -> trusted (Some rt) [ROOT] = true.
Proof.
  destruct rt as [|a l| |]; try done. intros _ H. rewrite tforall_dir in H. apply andb_true_iff in H as [H _]. simpl in *.
  apply andb_true_iff in H as [H1%bool_decide_eq_true H2%Z.eqb_eq]. rewrite bool_decide_eq_true_2 by (rewrite H1; left).
  unfold writable_by_others. by rewrite H2.
Qed.

(** The runtime as it is published, its copy. *)
Lemma runtime_published cx d e r r1 : _expected_links cx d = Some e -> bind_links cx e r = Some r1 -> tforall root_owned r = true ->
  exists rt rel, traverse normal_attr r1 = Some rt /\ traverse copy_attr rt = Some rel /\
    bind_links cx e rt = Some rt /\ tforall normal rt = true /\ trusted (Some rt) [ROOT] = true.
Proof.
  intros He Hb Hr. destruct (normalize_ok r1) as (rt & Hn & Hrt); [by eapply bind_root_owned|]. destruct (copy_ok rt Hrt) as (rel & Hc & _).
  exists rt, rel. split_and!; try done; [eapply bind_again; [by eapply expected_nodup|done|done]|]. apply normal_trusted; [|done].
  destruct r as [|a l| |]; try done. simpl in Hb. destruct (_ && _ && _); [|done]. injection Hb as <-. apply traverse_shape in Hn as [Hn _]. by destruct rt.
Qed.

(** The version state as it is published. *)
Lemma version_published d own a l : as_set (map fst l) = as_set (versioned d) -> forallb safe_name (versioned d) = true ->
  tforall plain_member (Dir a l) = true ->
  exists vs, traverse (prepare_attr (fst own) (snd own)) (Dir a l) = Some vs /\
    version_tree_ok d own (Some vs) = true /\ traverse (prepare_attr (fst own) (snd own)) vs = Some vs.
Proof.
  intros Hn Hs Hp. destruct own as [u g]. destruct (prepare_ok u g _ Hp) as (vs & Hv & Hok). exists vs. split_and!; [done| |by apply prepare_again].
  apply traverse_shape in Hv as [Hv _]. destruct vs as [|a' l'| |]; try done. rewrite tforall_dir in Hok. apply andb_true_iff in Hok as [Hok Hl].
  unfold version_tree_ok. simpl in Hok. apply andb_true_iff in Hok as [-> ->]. rewrite (traverse_list_names _ _ _ Hv), Hn, Hs, Hl.
  by rewrite bool_decide_eq_true_2.
Qed.

(** ** Attempts *)

(** The same promotion in another process. *)
Definition in_process (cx : PromotionContext) (stage rollback : string) : PromotionContext :=
  Context_ (c_version cx) (c_manifest_sha256 cx) (c_candidate cx) (c_state_root cx) (c_release cx) (c_active_link cx) (c_libraries cx) stage rollback.

(** What the guards do in an attempt, and its private names. *)
Record attempt := Attempt {
  t_decide : PublicationAction -> nat -> decision;
  t_stage : string;
  t_rollback : string;
}.

Section Attempts.
Context (partial : nat -> option node).
Context (parse_document : string -> option document) (document_sha256 : document -> string).
Context (encode_record : gmap string jval -> string) (decode_record : string -> option (gmap string jval)).
Context (sha256 : string -> string) (tree_sha256 : list (Z * string * option Z * string) -> string).
Context (resolved : string -> option string) (relpath : string -> string) (follows : string -> bool).
Context (cx : PromotionContext) (inp : inputs).
#[local] Abbreviation V := (c_version cx).

Definition promote_once (t : attempt) (s : pstate) : (fexc + gmap string jval) * (pstate * nat) :=
  _promote quiet_storage partial (t_decide t) parse_document document_sha256 encode_record decode_record sha256 tree_sha256 resolved relpath
    follows (in_process cx (t_stage t) (t_rollback t)) inp (s, O).

Definition promote_all (l : list attempt) (s : pstate) : pstate := fold_left (fun s t => fst (snd (promote_once t s))) l s.

(** A deployment with a candidate that can be promoted: the inputs are as they must be,
    the candidate's runtime is root's with the expected links, its version state holds
    plain members, its stable members are those of production, production runs an old
    release, and no private copy is left. *)
Record upgradable (l : list attempt) (d : document) (own : Z * Z) (expected : list (string * string)) (r r1 : node) (va : attr)
    (vl : list (string * node)) (old old_link : string) (s : pstate) : Prop := {
  u_inputs : inputs_ok parse_document document_sha256 decode_record cx inp d own;
  u_filesystem : i_one_filesystem inp = true;
  u_codec : forall x, x = release_record cx d \/ x = _report cx d ->
    decode_record (encode_record x) = Some x /\ Z.of_nat (String.length (encode_record x)) <= MAX_RECORD;
  u_relpath : forall n, resolved (relpath n) = Some n;
  u_links : _expected_links cx d = Some expected;
  u_runtime : p_runtime s = Some r /\ trusted (Some r) [ROOT] = true /\ tforall root_owned r = true /\ bind_links cx expected r = Some r1;
  u_version : as_set (map fst vl) = as_set (versioned d) /\ forallb safe_name (versioned d) = true /\ tforall plain_member (Dir va vl) = true;
  u_candidate : cand follows cx d own (fun x => get (BState, [x]) s) (fun x => get (BProduction, [x]) s) (Some (Dir va vl)) s;
  u_production : prod_base d own (fun x => get (BProduction, [x]) s) s /\ get (version_loc cx BProduction) s = None;
  u_stable : forall x, x ∈ stable d ->
    stable_same sha256 tree_sha256 follows (fun x => get (BState, [x]) s) (fun x => get (BProduction, [x]) s) x;
  u_metadata : let hz := get (BProduction, [".horizon"%string]) s in
    hz = None \/ exists a m, hz = Some (Dir a m) /\ trusted hz [ROOT; own] = true /\ files_in META m /\
      forall k n, assoc k m = Some n -> exists j, _regular_json decode_record (Some n) MAX_MANIFEST [ROOT; own] = inr j;
  u_active : p_active s = Some (ALink old_link) /\ resolved old_link = Some old /\ old <> V /\ is_dir (p_releases s !! old) = true;
  u_release : p_releases s !! V = None;
  u_stages : forall t, t ∈ l -> t_stage t <> V /\ t_stage t <> old /\ p_releases s !! t_stage t = None;
  u_record : p_record s = None;
}.

Section Known.
Context (d : document) (own : Z * Z) (expected : list (string * string)) (old old_link : string) (cs ps : string -> option node).
Context (rt rel vs : node) (hz : option node) (stages : string -> Prop).
#[local] Abbreviation at_checkpoint c := (checkpoint encode_record relpath follows c d own expected old old_link cs ps rt rel vs hz stages).
#[local] Abbreviation at_end c := (finished encode_record decode_record relpath follows c d own cs ps rt rel vs stages).

(** The checkpoints do not depend on the process. *)
Lemma live_process st rb s : live encode_record relpath follows (in_process cx st rb) d own cs ps rt rel vs stages s <->
  live encode_record relpath follows cx d own cs ps rt rel vs stages s.
Proof. split; intros [[] Hm]; split; try done; by split. Qed.
Lemma up_process st rb p r v s : up follows (in_process cx st rb) d own old old_link cs ps rel hz stages p r v s <->
  up follows cx d own old old_link cs ps rel hz stages p r v s.
Proof. split; intros []; by split. Qed.
Lemma moved_process st rb s : moved follows (in_process cx st rb) d own old old_link cs ps rt rel vs stages s <->
  moved follows cx d own old old_link cs ps rt rel vs stages s.
Proof. split; intros []; by split. Qed.

Lemma checkpoint_process st rb s : at_checkpoint (in_process cx st rb) s <-> at_checkpoint cx s.
Proof.
  unfold checkpoint. rewrite live_process, moved_process. setoid_rewrite up_process. done.
Qed.
Lemma finished_process st rb s : at_end (in_process cx st rb) s <-> at_end cx s.
Proof. unfold finished. by rewrite live_process. Qed.

Context (Hexpected : _expected_links cx d = Some expected).
Context (Hrt : bind_links cx expected rt = Some rt /\ tforall normal rt = true /\ trusted (Some rt) [ROOT] = true).
Context (Hrel : traverse copy_attr rt = Some rel).
Context (Hvs : version_tree_ok d own (Some vs) = true /\ traverse (prepare_attr (fst own) (snd own)) vs = Some vs).
Context (Hold : resolved old_link = Some old /\ old <> V /\ (forall n, resolved (relpath n) = Some n)).
Context (Hnames : ~ stages V /\ ~ stages old).
Context (Hcodec : forall x, x = release_record cx d \/ x = _report cx d ->
  decode_record (encode_record x) = Some x /\ Z.of_nat (String.length (encode_record x)) <= MAX_RECORD).
Context (Hfilesystem : i_one_filesystem inp = true).
Context (Hstable : forall x, x ∈ stable d -> stable_same sha256 tree_sha256 follows cs ps x).
Context (Hhz : hz = None \/ exists a m, hz = Some (Dir a m) /\ trusted hz [ROOT; own] = true /\ files_in META m /\
  forall k n, assoc k m = Some n -> exists j, _regular_json decode_record (Some n) MAX_MANIFEST [ROOT; own] = inr j).
Context (Hinputs : inputs_ok parse_document document_sha256 decode_record cx inp d own).

Lemma inputs_process st rb : inputs_ok parse_document document_sha256 decode_record (in_process cx st rb) inp d own.
Proof. destruct Hinputs. by split. Qed.

Lemma once t s : stages (t_stage t) -> at_checkpoint cx s ->
  match promote_once t s with
  | (inr _, (s', _)) => at_end cx s'
  | (inl x, (s', _)) => at_checkpoint cx s' /\ ~ admits (t_decide t)
  end.
Proof.
  intros Hst Hs. pose proof (promote_known partial (t_decide t) parse_document document_sha256 encode_record decode_record sha256 tree_sha256
    resolved relpath follows (in_process cx (t_stage t) (t_rollback t)) inp d own expected old old_link cs ps rt rel vs hz stages) as H.
  specialize (H Hexpected Hrt Hrel Hvs Hold (conj Hst Hnames) Hcodec Hfilesystem Hstable Hhz (inputs_process _ _) s O).
  rewrite checkpoint_process in H. specialize (H Hs). fold (promote_once t s) in H. destruct (promote_once t s) as [[x|a] [s' n']].
  - destruct H as (_ & H & Ha). by rewrite checkpoint_process in H.
  - by rewrite finished_process in H.
Qed.

Lemma once_checkpoint t s : stages (t_stage t) -> at_checkpoint cx s -> at_checkpoint cx (fst (snd (promote_once t s))).
Proof.
  intros Hst Hs. pose proof (once t s Hst Hs) as H. destruct (promote_once t s) as [[x|a] [s' n']]; simpl; [apply H|].
  do 3 right. apply H.
Qed.

Lemma all_checkpoint l s : (forall t, t ∈ l -> stages (t_stage t)) -> at_checkpoint cx s -> at_checkpoint cx (promote_all l s).
Proof.
  revert s. induction l as [|t l IH]; intros s Hl Hs; [done|]. simpl. apply IH; [set_solver|]. apply once_checkpoint; [set_solver|done].
Qed.
End Known.

(** C36.  A refused upgrade is never lost.  Take a deployment with a candidate that can be
    promoted, and any list of attempts, each in a process of its own, in which the
    guard of every publication (release, version state, active link, metadata) admits
    it or refuses it before or after its action.  Whatever these attempts left, one
    more attempt whose guards admit returns, and then the active link denotes the new
    release, which is the copy of the candidate's runtime with bound links and normal
    permissions; its version state is the candidate's under the account's ownership;
    the metadata of production is that of the release; the candidate is gone, and its
    report is written. *)
Theorem refused_promotion_resumes l t d own expected r r1 va vl old old_link s :
  upgradable (t :: l) d own expected r r1 va vl old old_link s -> (forall a n, t_decide t a n = Admit) ->
  exists rt rel vs, traverse normal_attr r1 = Some rt /\ traverse copy_attr rt = Some rel /\
    traverse (prepare_attr (fst own) (snd own)) (Dir va vl) = Some vs /\
    match promote_once t (promote_all l s) with
    | (inr _, (s', _)) =>
        p_active s' = Some (ALink (relpath V)) /\ p_releases s' !! V = Some rel /\ get (version_loc cx BProduction) s' = Some vs /\
        metadata_current cx d (_regular_json decode_record (get (metadata BProduction ["release.json"%string]) s') MAX_RECORD [ROOT; own]) = true /\
        p_runtime s' = None /\ p_state s' = None /\ p_record s' = Some (report_node encode_record cx d)
    | _ => False
    end.
Proof.
  intros [] Ht. destruct u_runtime0 as (Er & Htr & Hro & Hb), u_version0 as (Hn & Hsafe & Hp), u_production0 as (Hprod & Hnov), u_active0 as (Ea & Eo & Hne & Hd).
  destruct (runtime_published cx d expected r r1) as (rt & rel & Hnorm & Hcopy & Hrt); [done|done|done|].
  destruct (version_published d own va vl) as (vs & Hv & Hvs); [done|done|done|]. exists rt, rel, vs. split_and!; [done|done|done|].
  set (cs := fun x => get (BState, [x]) s) in *. set (ps := fun x => get (BProduction, [x]) s) in *.
  set (stages := fun n => exists t', t' ∈ t :: l /\ t_stage t' = n).
  assert (Hnames : ~ stages V /\ ~ stages old) by (split; intros (t' & Hin & E); by destruct (u_stages0 t' Hin) as (? & ? & ?)).
  assert (Hs : checkpoint encode_record relpath follows cx d own expected old old_link cs ps rt rel vs (get (BProduction, [".horizon"%string]) s) stages s).
  { left. exists r, (Dir va vl). split_and!; [split; [done|by exists r1]|by split|]. split; try done.
    intros n (t' & Hin & <-). left. apply (u_stages0 t' Hin). }
  assert (Hall : checkpoint encode_record relpath follows cx d own expected old old_link cs ps rt rel vs (get (BProduction, [".horizon"%string]) s) stages (promote_all l s)).
  { eapply all_checkpoint; try done. intros t' Hin. exists t'. split; [by right|done]. }
  pose proof (once d own expected old old_link cs ps rt rel vs _ stages u_links0 Hrt Hcopy Hvs (conj Eo (conj Hne u_relpath0)) Hnames u_codec0
    u_filesystem0 u_stable0 u_metadata0 u_inputs0 t _ ltac:(exists t; split; [left|done]) Hall) as H.
  destruct (promote_once t (promote_all l s)) as [[x|a] [s' n']]; [by apply H|]. destruct H as [[[[[H1 Hm] HC] Hr] Hst] Hrec].
  split_and!; try done; apply H1.
Qed.
End Attempts.

(** ** The deployment of the witness, with two refused attempts *)

Definition refuse (act : PublicationAction) (dec : decision) (a : PublicationAction) (_ : nat) : decision :=
  match act, a with
  | ACTIVE_LINK, ACTIVE_LINK | METADATA, METADATA | RELEASE, RELEASE | VERSION_STATE, VERSION_STATE => dec
  | _, _ => Admit
  end.
Definition refused_attempts : list attempt :=
  [Attempt (refuse RELEASE RefuseEnter) ".v2.promote.1" ".v2.rollback.1"; Attempt (refuse VERSION_STATE RefuseExit) ".v2.promote.2" ".v2.rollback.2";
   Attempt (refuse METADATA RefuseExit) ".v2.promote.3" ".v2.rollback.3"].
Definition last_attempt : attempt := Attempt always_admit ".v2.promote.4" ".v2.rollback.4".
Definition bound_runtime : node :=
  match _expected_links upgrade_context sunlit with
  | Some e => match bind_links upgrade_context e staged_runtime with Some n => n | None => staged_runtime end
  | None => staged_runtime
  end.
Definition expected_links : list (string * string) := match _expected_links upgrade_context sunlit with Some e => e | None => [] end.
Definition version_members : list (string * node) :=
  [("config", Dir (root_attr 493) [("a.toml", File (root_attr 420) "c")]); ("logs", Dir (root_attr 493) [])]%string.

Lemma deployed_upgradable :
  upgradable parse_known d_sha256 encode_known decode_known (fun c => c) join_hash resolve_link rel_link (fun _ => false) upgrade_context plain
    (last_attempt :: refused_attempts) sunlit (7, 7) expected_links staged_runtime bound_runtime (root_attr 493) version_members "v1" "r/v1" deployed.
Proof.
  split.
  - split; try done. exists candidate_record. split; [by unfold _regular_json|vm_compute; reflexivity].
  - done.
  - intros x [-> | ->]; (split; [apply (bool_decide_eq_true_1 _)|apply Z.leb_le]; vm_compute; reflexivity).
  - done.
  - done.
  - split_and!; try (vm_compute; reflexivity).
  - split_and!; vm_compute; reflexivity.
  - do 3 eexists. split; [reflexivity|]. split_and!; try (vm_compute; reflexivity).
  - split; [|done]. do 4 eexists. split; [reflexivity|]. split_and!; try (vm_compute; reflexivity).
  - intros x Hx. assert (x = "world"%string \/ x = "server.properties"%string) as [-> | ->] by (cbn in Hx; set_solver).
    all: split_and!; try done. all: intros _; split_and!; try done. all: do 3 eexists; split_and!; vm_compute; reflexivity.
  - by left.
  - split_and!; try done; vm_compute; reflexivity.
  - vm_compute; reflexivity.
  - intros x Hx. repeat (apply elem_of_cons in Hx as [-> |Hx]; [split_and!; [done|done|vm_compute; reflexivity]|]). by apply elem_of_nil in Hx.
  - done.
Qed.

Lemma refused_promotion_resumes_witness :
  let '(x, (s', _)) := promote_once (fun _ => None) parse_known d_sha256 encode_known decode_known (fun c => c) join_hash resolve_link rel_link
    (fun _ => false) upgrade_context plain last_attempt
    (promote_all (fun _ => None) parse_known d_sha256 encode_known decode_known (fun c => c) join_hash resolve_link rel_link
      (fun _ => false) upgrade_context plain refused_attempts deployed) in
  (exists report, x = inr report) /\ p_active s' = Some (ALink "r/v2") /\ p_runtime s' = None /\ p_state s' = None.
Proof.
  destruct (refused_promotion_resumes (fun _ => None) _ _ _ _ _ _ _ _ _ _ _ _ _ _ _ _ _ _ _ _ _ _ _ deployed_upgradable) as (rt & rel & vs & _ & _ & _ & H);
    [done|].
  destruct (promote_once _ _ _ _ _ _ _ _ _ _ _ _ _ _) as [[x|report] [s' n']]; [done|]. destruct H as (H1 & _ & _ & _ & H2 & H3 & _).
  split_and!; try done. by exists report.
Defined.
