(* ===== verification/Reconcile.v ===== *)
(** [backup_reconcile.py]: the plan that reconciles the catalog and the protection rows
    with the archives at B2, from captured evidence, and its two modes.

    Refusals are collected as the code adds them and sorted without repetition at the
    end.  A dict of dicts is a map from the profile to an association list in the
    order of insertion.  A row of [ProtectionGeneration] has the fields of a
    [ProtectionRecord]. *)
From stdpp Require Import pretty.
From S2P Require Import Prelude Fault Backups.

(** ** Data *)

Definition RETAINED_PROFILE_IDS : list string := ["minecraft-sunlit-cobblemon"; "terraria-vanilla"; "terraria-tmod"]%string.
Definition RETENTION : nat := 2.
Definition MAX_REMOTE_ORPHANS_PER_PROFILE : nat := 1.
Definition MAX_STAGED_BYTES : Z := 8 * 1024 * 1024 * 1024.
Definition MAX_MANIFEST_BYTES : Z := 8 * 1024 * 1024.

Definition GENERATION_RE (s : string) : bool :=
  bool_decide ((s ← take_class 8 is_digit s; s ← strip_prefix "T" s; s ← take_class 12 is_digit s;
                s ← strip_prefix "Z-" s; take_class 12 is_hex s) = Some EmptyString).
Definition SHA256_RE (s : string) : bool := bool_decide (take_class 64 is_hex s = Some EmptyString).

Record CatalogGeneration := Catalog {
  cg_backup : string;
  cg_profile : string;
  cg_size : Z;
  cg_sha256 : string;
  cg_verified : bool;
  cg_protected : bool;
  cg_archive_size : option Z;
  cg_path : option string;
}.

#[local] Abbreviation ProtectionGeneration := ProtectionRecord.

Record RemoteGeneration := Remote {
  rg_profile : string;
  rg_backup : string;
  rg_size : Z;
  rg_sha256 : string;
  rg_key : string;
  rg_manifest_profile : option string;
  rg_manifest_backup : option string;
  rg_manifest_verified : bool;
  rg_downloaded : option Z;
  rg_method : string;
}.

Record ImportProtection := Import {
  im_profile : string;
  im_backup : string;
  im_size : Z;
  im_sha256 : string;
  im_key : string;
}.
Record ProtectedFlagCorrection := Correction {
  co_profile : string;
  co_backup : string;
  co_protected : bool;
}.
Record PruneCandidate := Prune {
  pc_profile : string;
  pc_backup : string;
  pc_size : Z;
  pc_sha256 : string;
  pc_orphan : bool;
  pc_key : string;
}.
Record ReplacementCandidate := Replacement {
  rc_profile : string;
  rc_backup : string;
  rc_size : Z;
  rc_sha256 : string;
  rc_path : option string;
}.
Record RemoteOrphan := Orphan {
  or_profile : string;
  or_backup : string;
  or_size : Z;
  or_sha256 : string;
  or_key : string;
}.
Record PrunedProtectionCorrection := Pruned {
  pp_profile : string;
  pp_backup : string;
  pp_key : string;
  pp_sha256 : string;
}.

Record ReconciliationPlan := Plan {
  classification : string;
  profile_summary : list (string * nat * nat * nat);
  imports : list ImportProtection;
  protected_flag_corrections : list ProtectedFlagCorrection;
  prune_candidates : list PruneCandidate;
  refusals : list string;
  remote_evidence : list RemoteGeneration;
  replacement_candidates : list ReplacementCandidate;
  remote_orphans : list RemoteOrphan;
  pruned_protection_corrections : list PrunedProtectionCorrection;
}.

Definition ready (p : ReconciliationPlan) : bool := match refusals p with [] => true | _ => false end.

(** ** Helpers *)

Definition _remote_key (profile id : string) : string := remote_key profile id.
Definition _archive_size (c : CatalogGeneration) : Z := match cg_archive_size c with Some n => n | None => cg_size c end.

(** [_generation_sort_key]: the generation, then the id. *)
Definition gen_leb (a b : string) : bool :=
  if String.eqb (_backup_generation a) (_backup_generation b) then str_leb a b
  else str_leb (_backup_generation a) (_backup_generation b).
Definition gen_le (a b : string) : Prop := gen_leb a b = true.
Definition gen_ge (a b : string) : Prop := gen_leb b a = true.
#[export] Instance gen_le_dec a b : Decision (gen_le a b).
Proof. unfold gen_le. apply _. Defined.
#[export] Instance gen_ge_dec a b : Decision (gen_ge a b).
Proof. unfold gen_ge. apply _. Defined.

Definition oldest_first (l : list string) : list string := merge_sort gen_le l.
Definition newest_first (l : list string) : list string := merge_sort gen_ge l.

Fixpoint index_of (x : string) (l : list string) : nat :=
  match l with
  | [] => 0
  | y :: l' => if String.eqb x y then 0 else S (index_of x l')
  end.
Definition _profile_order (profile : string) : nat := index_of profile RETAINED_PROFILE_IDS.

(** Sorting by profile, then by id or by generation. *)
Definition by_backup {A} (profile id : A -> string) (a b : A) : Prop :=
  let m := _profile_order (profile a) in let n := _profile_order (profile b) in
  (m < n)%nat \/ (m = n /\ str_le (id a) (id b)).
#[export] Instance by_backup_dec {A} (profile id : A -> string) a b : Decision (by_backup profile id a b).
Proof. unfold by_backup. apply _. Defined.
Definition sorted_by {A} (profile id : A -> string) (l : list A) : list A := merge_sort (by_backup profile id) l.

Definition by_generation (a b : RemoteGeneration) : Prop :=
  let m := _profile_order (rg_profile a) in let n := _profile_order (rg_profile b) in
  (m < n)%nat \/ (m = n /\ gen_le (rg_backup a) (rg_backup b)).
#[export] Instance by_generation_dec a b : Decision (by_generation a b).
Proof. unfold by_generation. apply _. Defined.

(** [tuple(sorted(refusals))] of a set. *)
Definition sorted_set (l : list string) : list string := merge_sort str_le (remove_dups l).

Definition refuse (b : bool) (message : string) : list string := if b then [message] else [].

(** *** Indexes *)

#[local] Abbreviation index A := (gmap string (list (string * A))).
Definition no_rows {A} : index A := list_to_map (map (fun p => (p, [])) RETAINED_PROFILE_IDS).
Definition rows_of {A} (m : index A) (profile : string) : list (string * A) := default [] (m !! profile).
Definition ids {A} (l : list (string * A)) : list string := map fst l.

Definition index_row {A} (profile id : A -> string) (skip : A -> bool) (unknown invalid duplicate : string)
    (acc : index A * list string) (item : A) : index A * list string :=
  let '(result, refused) := acc in
  match result !! profile item with
  | None => (result, refused ++ [unknown])
  | Some rows =>
      if negb (GENERATION_RE (id item)) then (result, refused ++ [invalid])
      else if skip item then (result, refused)
      else if bool_decide (is_Some (assoc (id item) rows)) then (result, refused ++ [duplicate])
      else (<[profile item := rows ++ [(id item, item)]]> result, refused)
  end.

Definition is_deleted (p : ProtectionGeneration) : bool := String.eqb (pr_prune p) "deleted".

Definition _index_catalog (rows : list CatalogGeneration) : index CatalogGeneration * list string :=
  foldl (index_row cg_profile cg_backup (fun _ => false) "unknown catalog profile" "catalog generation ID is invalid" "duplicate catalog generation")
    (no_rows, []) rows.
Definition _index_protections (rows : list ProtectionGeneration) : index ProtectionGeneration * list string :=
  foldl (index_row pr_profile pr_backup is_deleted "unknown protection profile" "protection generation ID is invalid" "duplicate protection row")
    (no_rows, []) rows.
Definition _index_remote (rows : list RemoteGeneration) : index RemoteGeneration * list string :=
  foldl (index_row rg_profile rg_backup (fun _ => false) "unknown remote profile" "remote generation ID is invalid" "duplicate remote generation")
    (no_rows, []) rows.

(** The deleted protection rows, one per profile and id. *)
Definition find_deleted (profile id : string) (l : list ProtectionGeneration) : option ProtectionGeneration :=
  List.find (fun p => String.eqb (pr_profile p) profile && String.eqb (pr_backup p) id) l.
Definition deleted_row (acc : list ProtectionGeneration * list string) (item : ProtectionGeneration) : list ProtectionGeneration * list string :=
  let '(deleted, refused) := acc in
  if negb (is_deleted item) then acc
  else if bool_decide (is_Some (find_deleted (pr_profile item) (pr_backup item) deleted)) then (deleted, refused ++ ["duplicate deleted protection row"%string])
  else (deleted ++ [item], refused).
Definition deleted_protections (rows : list ProtectionGeneration) : list ProtectionGeneration * list string :=
  foldl deleted_row ([], []) rows.

(** *** Proofs *)

Definition manifest_method (m : string) : bool := String.eqb m "manifest" || String.eqb m "manifest+cryptcheck".
Definition cryptcheck_method (m : string) : bool := String.eqb m "cryptcheck" || String.eqb m "manifest+cryptcheck".

Definition _manifest_proves_orphan (item : RemoteGeneration) (profile id : string) : bool :=
  rg_manifest_verified item
  && bool_decide (rg_manifest_profile item = Some profile)
  && bool_decide (rg_manifest_backup item = Some id)
  && bool_decide (rg_downloaded item = Some (rg_size item))
  && SHA256_RE (rg_sha256 item)
  && manifest_method (rg_method item).

(** The row records a copy that was uploaded and verified. *)
Definition verification_proven (p : ProtectionGeneration) : bool :=
  pr_local p && pr_verified p && String.eqb (pr_comparison p) "verified" && String.eqb (pr_upload p) "succeeded"
  && (String.eqb (pr_prune p) "not_started" || String.eqb (pr_prune p) "succeeded")
  && bool_decide (pr_error p = None).

Definition _protection_proves_cryptcheck (protection : option ProtectionGeneration) (c : CatalogGeneration) (remote : option RemoteGeneration) : bool :=
  match protection, remote with
  | Some p, Some r =>
      String.eqb (pr_key p) (_remote_key (cg_profile c) (cg_backup c))
      && String.eqb (pr_sha256 p) (cg_sha256 c)
      && verification_proven p
      && String.eqb (rg_key r) (_remote_key (cg_profile c) (cg_backup c))
      && (rg_size r =? _archive_size c)
      && String.eqb (rg_sha256 r) (cg_sha256 c)
      && cryptcheck_method (rg_method r)
  | _, _ => false
  end.

Definition _deleted_protection_proves_prune (p : ProtectionGeneration) (c : CatalogGeneration) : bool :=
  String.eqb (pr_profile p) (cg_profile c) && String.eqb (pr_backup p) (cg_backup c)
  && String.eqb (pr_key p) (_remote_key (cg_profile c) (cg_backup c))
  && String.eqb (pr_sha256 p) (cg_sha256 c)
  && pr_local p && pr_verified p && String.eqb (pr_comparison p) "verified" && String.eqb (pr_upload p) "succeeded"
  && is_deleted p && bool_decide (pr_error p = None).

(** ** The checks common to both modes *)

Definition check_catalog (c : CatalogGeneration) : list string :=
  refuse (match cg_archive_size c with Some n => negb (n =? cg_size c) | None => false end) "local archive size differs from catalog"
  ++ refuse ((cg_size c <? 0) || negb (SHA256_RE (cg_sha256 c))) "local archive metadata is invalid"
  ++ refuse (negb (cg_verified c)) "unverified catalog generation is in scope".

(** An archive without a catalog row can be an orphan; others must match the catalog. *)
Definition check_remote (replacement_mode : bool) (profile : string) (local : list (string * CatalogGeneration))
    (x : string * RemoteGeneration) : list RemoteOrphan * list string :=
  let '(id, item) := x in
  match assoc id local with
  | None =>
      if replacement_mode && String.eqb (rg_key item) (_remote_key profile id)
         && (0 <=? rg_size item) && (rg_size item <=? MAX_STAGED_BYTES) && _manifest_proves_orphan item profile id
      then ([Orphan profile id (rg_size item) (rg_sha256 item) (rg_key item)], [])
      else ([], ["unknown remote generation"%string])
  | Some expected =>
      ([], refuse (negb (String.eqb (rg_key item) (_remote_key profile id)) || (rg_size item <? 0) || negb (rg_size item =? _archive_size expected)
                   || negb (String.eqb (rg_sha256 item) (cg_sha256 expected)) || negb (SHA256_RE (rg_sha256 item))
                   || negb (String.eqb (rg_method item) "cryptcheck" || manifest_method (rg_method item))
                   || (rg_manifest_verified item && negb (_manifest_proves_orphan item profile id)))
             "remote archive does not match verified catalog")
  end.

(** A row whose archive is not remote: remembered in replacement mode, refused in the other. *)
Definition check_protection (replacement_mode : bool) (profile : string) (local : list (string * CatalogGeneration)) (remote : list (string * RemoteGeneration))
    (x : string * ProtectionGeneration) : list (string * string * ProtectionGeneration * CatalogGeneration) * list string :=
  let '(id, item) := x in
  match assoc id local with
  | None => ([], ["unknown protection row"%string])
  | Some expected =>
      let absent := negb (bool_decide (is_Some (assoc id remote))) in
      let resumed := absent && replacement_mode && verification_proven item in
      (if resumed then [(profile, id, item, expected)] else [],
       refuse (negb (String.eqb (pr_key item) (_remote_key profile id))) "protection destination is not canonical"
       ++ refuse (negb (String.eqb (pr_sha256 item) (cg_sha256 expected))) "protection checksum differs from catalog"
       ++ refuse (negb (verification_proven item)) "protection verification state is not proven"
       ++ refuse (absent && negb resumed) "protection row has no matching remote generation")
  end.

(** [profiles] loop: everything a check returns, profile by profile. *)
Definition over_profiles {A B} (m : index A) (check : string -> string * A -> list B * list string) : list B * list string :=
  foldl (fun acc profile =>
    foldl (fun acc x => let '(l, r) := check profile x in (fst acc ++ l, snd acc ++ r)) acc (rows_of m profile))
    ([], []) RETAINED_PROFILE_IDS.

(** What the plans are built from. *)
Record evidence := Evidence {
  e_catalogs : index CatalogGeneration;
  e_protections : index ProtectionGeneration;
  e_remotes : index RemoteGeneration;
  e_deleted : list ProtectionGeneration;
  e_orphans : list RemoteOrphan;
  e_missing : list (string * string * ProtectionGeneration * CatalogGeneration);
  e_refusals : list string;
}.

Definition gather (catalog : list CatalogGeneration) (protections : list ProtectionGeneration) (remote : list RemoteGeneration)
    (replacement_mode : bool) : evidence :=
  let '(deleted, r0) := deleted_protections protections in
  let '(catalogs, r1) := _index_catalog catalog in
  let '(protections_by_id, r2) := _index_protections protections in
  let '(remotes, r3) := _index_remote remote in
  let r4 := concat (map (fun p => refuse (negb (bool_decide (is_Some (assoc (pr_backup p) (rows_of catalogs (pr_profile p))))))
                                   "deleted protection row has no catalog generation") deleted) in
  let r5 := concat (map (fun p => concat (map (fun x => check_catalog (snd x)) (rows_of catalogs p))) RETAINED_PROFILE_IDS) in
  let '(orphans, r6) := over_profiles remotes (fun p => check_remote replacement_mode p (rows_of catalogs p)) in
  let '(missing, r7) := over_profiles protections_by_id (fun p => check_protection replacement_mode p (rows_of catalogs p) (rows_of remotes p)) in
  Evidence catalogs protections_by_id remotes deleted orphans missing (r0 ++ r1 ++ r2 ++ r3 ++ r4 ++ r5 ++ r6 ++ r7).

(** ** The plan under construction *)

Record draft := Draft {
  d_imports : list ImportProtection;
  d_corrections : list ProtectedFlagCorrection;
  d_candidates : list PruneCandidate;
  d_replacements : list ReplacementCandidate;
  d_pruned : list PrunedProtectionCorrection;
  d_refusals : list string;
}.

Definition add_import (x : ImportProtection) (a : draft) : draft :=
  Draft (d_imports a ++ [x]) (d_corrections a) (d_candidates a) (d_replacements a) (d_pruned a) (d_refusals a).
Definition add_correction (x : ProtectedFlagCorrection) (a : draft) : draft :=
  Draft (d_imports a) (d_corrections a ++ [x]) (d_candidates a) (d_replacements a) (d_pruned a) (d_refusals a).
Definition add_candidate (x : PruneCandidate) (a : draft) : draft :=
  Draft (d_imports a) (d_corrections a) (d_candidates a ++ [x]) (d_replacements a) (d_pruned a) (d_refusals a).
Definition add_replacement (x : ReplacementCandidate) (a : draft) : draft :=
  Draft (d_imports a) (d_corrections a) (d_candidates a) (d_replacements a ++ [x]) (d_pruned a) (d_refusals a).
Definition add_pruned (x : PrunedProtectionCorrection) (a : draft) : draft :=
  Draft (d_imports a) (d_corrections a) (d_candidates a) (d_replacements a) (d_pruned a ++ [x]) (d_refusals a).
Definition add_refusal (b : bool) (message : string) (a : draft) : draft :=
  Draft (d_imports a) (d_corrections a) (d_candidates a) (d_replacements a) (d_pruned a) (d_refusals a ++ refuse b message).

Definition counts (e : evidence) : list nat := map (fun p => length (rows_of (e_remotes e) p)) RETAINED_PROFILE_IDS.
Definition classify (e : evidence) : string :=
  ("remote_counts_" ++ String.concat "/" (map pretty (counts e)))%string.
Definition summarize (e : evidence) : list (string * nat * nat * nat) :=
  map (fun p => (p, length (rows_of (e_catalogs e) p), length (rows_of (e_protections e) p), length (rows_of (e_remotes e) p))) RETAINED_PROFILE_IDS.

(** The plan of a draft: nothing but refusals when there are any. *)
Definition finish (e : evidence) (remote : list RemoteGeneration) (a : draft) : ReconciliationPlan :=
  let held := Plan (classify e) (summarize e) [] [] [] (sorted_set (d_refusals a)) (merge_sort by_generation remote) []
                (sorted_by or_profile or_backup (e_orphans e)) [] in
  match d_refusals a with
  | [] => Plan (classify e) (summarize e) (sorted_by im_profile im_backup (d_imports a)) (sorted_by co_profile co_backup (d_corrections a))
            (sorted_by pc_profile pc_backup (d_candidates a)) [] (merge_sort by_generation remote)
            (sorted_by rc_profile rc_backup (d_replacements a)) (sorted_by or_profile or_backup (e_orphans e))
            (sorted_by pp_profile pp_backup (d_pruned a))
  | _ => held
  end.

(** ** Replacement mode *)

Section Replacement.
Context (e : evidence).

Definition orphan_step (profile oldest : string) (a : draft) (o : RemoteOrphan) : draft :=
  if gen_leb oldest (or_backup o) then add_refusal true "remote orphan recency is ambiguous" a
  else add_candidate (Prune profile (or_backup o) (or_size o) (or_sha256 o) true (or_key o)) a.

(** A generation to keep: a copy that is there must be proven, a missing one is
    uploaded from a protected local archive. *)
Definition retained_step (profile : string) (a : draft) (x : string * CatalogGeneration) : draft :=
  let '(id, item) := x in
  let protection := assoc id (rows_of (e_protections e) profile) in
  let deleted := find_deleted profile id (e_deleted e) in
  match assoc id (rows_of (e_remotes e) profile) with
  | Some r =>
      let proven := _protection_proves_cryptcheck protection item (Some r) in
      let a := match protection, deleted with
               | Some _, _ => add_refusal (negb proven) "retained generation lacks canonical cryptcheck proof" a
               | None, Some _ => add_refusal true "deleted protection has matching remote generation" a
               | None, None => add_import (Import profile id (_archive_size item) (cg_sha256 item) (rg_key r)) a
               end in
      if cg_protected item then a
      else if proven then add_correction (Correction profile id true) a
      else add_refusal true "unprotected retained generation lacks canonical cryptcheck proof" a
  | None =>
      match deleted with
      | Some _ => add_refusal true "deleted retained generation cannot be replacement" a
      | None =>
          if negb (cg_protected item) then add_refusal true "unprotected local generation cannot be replacement" a
          else if match cg_archive_size item with Some n => n <? 0 | None => true end || negb (nonempty (cg_sha256 item))
          then add_refusal true "replacement archive is unavailable" a
          else add_replacement (Replacement profile id (_archive_size item) (cg_sha256 item) (cg_path item)) a
      end
  end.

(** An older generation that is remote is pruned when its copy is proven. *)
Definition older_step (profile : string) (a : draft) (x : string * CatalogGeneration) : draft :=
  let '(id, item) := x in
  match assoc id (rows_of (e_remotes e) profile) with
  | None => a
  | Some r =>
      match find_deleted profile id (e_deleted e) with
      | Some _ => add_refusal true "deleted protection has matching remote generation" a
      | None =>
          if negb (_protection_proves_cryptcheck (assoc id (rows_of (e_protections e) profile)) item (Some r))
          then add_refusal true "older remote generation lacks active protection" a
          else
            let a := add_candidate (Prune profile id (_archive_size item) (cg_sha256 item) false (rg_key r)) a in
            if cg_protected item then add_correction (Correction profile id false) a else a
      end
  end.

(** An older generation that is not remote: its row is closed, its flag cleared. *)
Definition absent_step (profile : string) (a : draft) (x : string * CatalogGeneration) : draft :=
  let '(id, item) := x in
  if bool_decide (is_Some (assoc id (rows_of (e_remotes e) profile))) then a
  else
    let a := match assoc id (rows_of (e_protections e) profile), find_deleted profile id (e_deleted e) with
             | Some p, _ => add_pruned (Pruned profile id (pr_key p) (cg_sha256 item)) a
             | None, Some p => add_refusal (negb (_deleted_protection_proves_prune p item)) "deleted protection state is not proven" a
             | None, None => a
             end in
    if cg_protected item then add_correction (Correction profile id false) a else a.

Definition string_set (l : list string) : gset string := list_to_set l.

(** The archives the plan leaves are the retained ones. *)
Definition exact_step (profile : string) (local : list (string * CatalogGeneration)) (retained : list string) (a : draft) : draft :=
  let of_profile {A} (f : A -> string) (l : list A) := List.filter (fun x => String.eqb (f x) profile) l in
  let replaced := string_set (map rc_backup (of_profile rc_profile (d_replacements a))) in
  let pruned := string_set (map pc_backup (of_profile pc_profile (d_candidates a))) in
  let final := (string_set (ids (rows_of (e_remotes e) profile)) ∪ replaced) ∖ pruned in
  add_refusal (negb (bool_decide (final = string_set retained)) || negb (Nat.eqb (size final) (Nat.min RETENTION (length local))))
    "canonical retention result is not exact" a.

(** Rows of a table by id. *)
Definition select {A} (l : list (string * A)) (keys : list string) : list (string * A) :=
  omap (fun k => option_map (fun v => (k, v)) (assoc k l)) keys.

Definition replacement_profile (a : draft) (profile : string) : draft :=
  let local := rows_of (e_catalogs e) profile in
  let orphans := List.filter (fun o => String.eqb (or_profile o) profile) (e_orphans e) in
  if (MAX_REMOTE_ORPHANS_PER_PROFILE <? length orphans)%nat then add_refusal true "remote orphan count exceeds bound" a
  else
    let retained := take RETENTION (newest_first (ids local)) in
    match last retained with
    | None => add_refusal (negb (bool_decide (rows_of (e_remotes e) profile = []))) "remote inventory has no catalog retention set" a
    | Some oldest =>
        let older := oldest_first (List.filter (fun id => negb (bool_decide (id ∈ retained))) (ids local)) in
        let a := foldl (orphan_step profile oldest) a orphans in
        let a := foldl (retained_step profile) a (select local retained) in
        let a := foldl (older_step profile) a (select local older) in
        let a := foldl (absent_step profile) a (select local older) in
        exact_step profile local retained a
    end.

Definition _reconcile_replacement_mode : draft :=
  let unproven := concat (map (fun p =>
    refuse (match assoc (pr_backup p) (rows_of (e_catalogs e) (pr_profile p)) with
            | Some c => negb (_deleted_protection_proves_prune p c)
            | None => true
            end) "deleted protection state is not proven") (e_deleted e)) in
  foldl replacement_profile (Draft [] [] [] [] [] (e_refusals e ++ unproven)) RETAINED_PROFILE_IDS.
End Replacement.

(** ** The other mode *)

Section Standard.
Context (e : evidence) (replacement_mode : bool).

(** Rows whose archive was pruned before the row was closed. *)
Definition already_pruned_profile (acc : list PruneCandidate * list string) (profile : string) : list PruneCandidate * list string :=
  let missing := List.filter (fun x => String.eqb x.1.1.1 profile) (e_missing e) in
  match missing with
  | [] => acc
  | _ =>
      let remote_ids := string_set (ids (rows_of (e_remotes e) profile)) in
      let newest := string_set (take RETENTION (newest_first (ids (rows_of (e_catalogs e) profile)))) in
      if negb (Nat.eqb (size remote_ids) RETENTION) || negb (bool_decide (remote_ids = newest))
         || existsb (fun x => bool_decide (x.1.1.2 ∈ newest)) missing
      then (fst acc, snd acc ++ ["partial prune state is not exact"%string])
      else (fst acc ++ map (fun x => let '(_, id, row, c) := x in
                        Prune profile id (_archive_size c) (cg_sha256 c) false (pr_key row)) missing, snd acc)
  end.
Definition already_pruned : list PruneCandidate * list string := foldl already_pruned_profile ([], []) RETAINED_PROFILE_IDS.

Definition import_step (profile : string) (a : draft) (x : string * RemoteGeneration) : draft :=
  let '(id, r) := x in
  match assoc id (rows_of (e_protections e) profile), assoc id (rows_of (e_catalogs e) profile) with
  | None, Some item =>
      match find_deleted profile id (e_deleted e) with
      | Some _ => add_refusal true "deleted protection has matching remote generation" a
      | None => add_import (Import profile id (_archive_size item) (cg_sha256 item) (rg_key r)) a
      end
  | _, _ => a
  end.

Definition local_step (pruned : list PruneCandidate) (profile : string) (a : draft) (x : string * CatalogGeneration) : draft :=
  let '(id, item) := x in
  let clear a := if cg_protected item then add_correction (Correction profile id false) a else a in
  if bool_decide (is_Some (assoc id (rows_of (e_remotes e) profile))) then a
  else match assoc id (rows_of (e_protections e) profile) with
  | Some _ =>
      if existsb (fun c => String.eqb (pc_profile c) profile && String.eqb (pc_backup c) id) pruned then clear a
      else add_refusal true "protected catalog row has stale protection" a
  | None =>
      match find_deleted profile id (e_deleted e) with
      | Some p => if _deleted_protection_proves_prune p item then clear a else add_refusal true "deleted protection state is not proven" a
      | None =>
          if replacement_mode then
            if cg_protected item then add_replacement (Replacement profile id (_archive_size item) (cg_sha256 item) (cg_path item)) a
            else add_refusal true "unprotected local generation cannot be replacement" a
          else clear a
      end
  end.

Definition keep_step (profile : string) (a : draft) (id : string) : draft :=
  match assoc id (rows_of (e_catalogs e) profile) with
  | None => a
  | Some item =>
      if cg_protected item then a
      else if _protection_proves_cryptcheck (assoc id (rows_of (e_protections e) profile)) item (assoc id (rows_of (e_remotes e) profile))
      then add_correction (Correction profile id true) a
      else add_refusal true "unprotected retained generation lacks canonical cryptcheck proof" a
  end.

Definition drop_step (profile : string) (a : draft) (id : string) : draft :=
  let remote_item := assoc id (rows_of (e_remotes e) profile) in
  let key := match remote_item with Some r => rg_key r | None => EmptyString end in
  match assoc id (rows_of (e_catalogs e) profile), remote_item with
  | None, None => add_refusal true "replacement generation set is inconsistent" a
  | None, Some _ =>
      match List.find (fun o => String.eqb (or_profile o) profile && String.eqb (or_backup o) id) (e_orphans e) with
      | None => add_refusal true "remote generation has no proven source" a
      | Some o => add_candidate (Prune profile id (or_size o) (or_sha256 o) true (or_key o)) a
      end
  | Some item, _ =>
      let a := add_candidate (Prune profile id (_archive_size item) (cg_sha256 item) false key) a in
      if replacement_mode && cg_protected item then add_correction (Correction profile id false) a else a
  end.

Definition standard_profile (pruned : list PruneCandidate) (a : draft) (profile : string) : draft :=
  let local := rows_of (e_catalogs e) profile in
  let remote := rows_of (e_remotes e) profile in
  let a := foldl (import_step profile) a (select remote (oldest_first (ids remote))) in
  let a := foldl (local_step pruned profile) a local in
  let replaced := map rc_backup (List.filter (fun x => String.eqb (rc_profile x) profile) (d_replacements a)) in
  let newest := newest_first (elements (string_set (ids remote) ∪ string_set replaced)) in
  let a := foldl (keep_step profile) a (take RETENTION newest) in
  foldl (drop_step profile) a (drop RETENTION newest).

Definition standard_mode : draft :=
  let '(pruned, r) := already_pruned in
  match e_refusals e ++ r with
  | [] => foldl (standard_profile pruned) (Draft [] [] pruned [] [] []) RETAINED_PROFILE_IDS
  | refused => Draft [] [] [] [] [] refused
  end.
End Standard.

Definition reconcile (catalog : list CatalogGeneration) (protections : list ProtectionGeneration) (remote : list RemoteGeneration)
    (replacement_mode : bool) : ReconciliationPlan :=
  let e := gather catalog protections remote replacement_mode in
  finish e remote (if replacement_mode then _reconcile_replacement_mode e else standard_mode e replacement_mode).
