(* ===== verification/ReconcileApply.v ===== *)
(** [backup_reconcile.py]: capturing the evidence ([build_fixed_plan]) and applying a
    plan: uploads, the check of the inventory, deletions and one database transaction.

    The state is the catalog and protection rows of the database, the archives at B2,
    the local archives and the staged evidence (regular files by their path).  The
    remote is used through an interface with its laws; SHA-256, the reader of tar
    archives and JSON are parameters.  A transaction is one effect. *)
From S2P Require Import Prelude Fault Backups Reconcile.

#[export] Instance protection_eq_dec : EqDecision ProtectionRecord.
Proof. solve_decision. Defined.

(** A row of the catalog. *)
Record CatalogRow := Row {
  cr_id : string;
  cr_profile : string;
  cr_size : Z;
  cr_verified : bool;
  cr_protected : bool;
}.

Record database := Database {
  db_rows : list CatalogRow;
  db_protections : gmap string ProtectionRecord;
}.

Record rstate := RState {
  x_db : database;
  x_remote : gmap string string;
  x_files : gmap string string;
}.
Definition with_db (f : database -> database) (s : rstate) : rstate := RState (f (x_db s)) (x_remote s) (x_files s).

(** [ORDER BY profile_id, id] *)
Definition row_le (a b : CatalogRow) : Prop :=
  if String.eqb (cr_profile a) (cr_profile b) then str_le (cr_id a) (cr_id b) else str_le (cr_profile a) (cr_profile b).
#[export] Instance row_le_dec a b : Decision (row_le a b).
Proof. unfold row_le. case_match; apply _. Defined.
Definition scoped_rows (db : database) : list CatalogRow :=
  merge_sort row_le (List.filter (fun r => bool_decide (cr_profile r ∈ RETAINED_PROFILE_IDS)) (db_rows db)).

(** ** The remote *)

(** An object as it is listed. *)
Record RemoteObject := Object { ob_key : string; ob_size : Z }.

Class Transport := {
  v_list : string -> FM (gmap string string) (list RemoteObject);
  v_upload : string -> string -> FM (gmap string string) unit;
  v_verify : string -> string -> FM (gmap string string) unit;
  v_download : string -> FM (gmap string string) string;
  v_delete : string -> FM (gmap string string) unit;
}.

Definition size_of (c : string) : Z := Z.of_nat (String.length c).

(** What the commands promise: a listing that returns is complete and gives the sizes,
    an upload creates its object or does nothing, a verification or a download that
    returns has read the object, a deletion touches its object only. *)
Class TransportPromises {T : Transport} : Prop := {
  v_list_law : forall p r,
    ftri (fun r0 => r0 = r) (v_list p)
      (fun l r' => r' = r /\ forall k n, Object k n ∈ l <-> exists c, r !! k = Some c /\ n = size_of c /\ String.prefix (p ++ "/") k = true)
      (fun _ r' => r' = r);
  v_upload_law : forall c k r,
    let one := fun r' => (forall k', k' <> k -> r' !! k' = r !! k') /\ (r' !! k = r !! k \/ (r !! k = None /\ r' !! k = Some c)) in
    ftri (fun r0 => r0 = r) (v_upload c k) (fun _ => one) (fun _ => one);
  v_verify_law : forall c k r,
    ftri (fun r0 => r0 = r) (v_verify c k) (fun _ r' => r' = r /\ r !! k = Some c) (fun _ r' => r' = r);
  v_download_law : forall k r,
    ftri (fun r0 => r0 = r) (v_download k) (fun c r' => r' = r /\ r !! k = Some c) (fun _ r' => r' = r);
  v_delete_law : forall k r,
    ftri (fun r0 => r0 = r) (v_delete k) (fun _ r' => r' = delete k r) (fun _ r' => r' = r \/ r' = delete k r);
}.

Definition on_objects {A} (m : FM (gmap string string) A) : FM rstate A := fun st =>
  let '(r, (rem, n)) := m (x_remote (fst st), snd st) in (r, (RState (x_db (fst st)) rem (x_files (fst st)), n)).

Section Reconciliation.
Context {T : Transport} (fault : nat -> option fexc).
(** SHA-256 in hexadecimal, the bytes of the one [manifest.json] of an archive, JSON. *)
Context (sha256 : string -> string) (tar_manifest : string -> option string) (parse_json : string -> option json).

(** ** Local archives *)

Definition FIXED_BACKUP_ROOTS (profile : string) : string := ("/var/backups/game-servers/" ++ profile)%string.
Definition local_path (profile id : string) : string := (FIXED_BACKUP_ROOTS profile ++ "/" ++ id ++ _ARCHIVE_SUFFIX)%string.
Definition FIXED_REMOTE_STAGING_ROOT : string := "/var/tmp/horizon-g11-staging-20260806-0907".
Definition staged_path (profile id : string) : string := (FIXED_REMOTE_STAGING_ROOT ++ "/" ++ profile ++ "-" ++ id ++ _ARCHIVE_SUFFIX)%string.

Definition refuse_with {A} (message : string) : FM rstate A := fail message.

Definition metadata_of (o : option string) : Z * string :=
  match o with Some c => (size_of c, sha256 c) | None => (-1, EmptyString) end.
Definition _local_archive_metadata (path : string) : FM rstate (Z * string) :=
  step fault ;; o ← read (fun s => x_files s !! path); mret (metadata_of o).

Definition _read_manifest (content : string) : fexc + list (string * json) :=
  match tar_manifest content with
  | None => inl (SafeF "backup manifest is unreadable")
  | Some payload =>
      if MAX_MANIFEST_BYTES <? size_of payload then inl (SafeF "backup manifest exceeds bound")
      else match parse_json payload with
           | Some (JObj l) => inr l
           | _ => inl (SafeF "backup manifest is invalid")
           end
  end.

Definition is_string (o : option json) (s : string) : bool := match o with Some (JStr x) => String.eqb x s | _ => false end.
(** [manifest.get("schema") == 1]: [True] and [1.0] are equal to it. *)
Definition is_one (o : option json) : bool :=
  match o with Some (JInt n) => n =? 1 | Some (JBool b) => b | Some (JFloat (FFin f)) => f =? fl 1 | _ => false end.

Definition manifest_identity (content profile id message : string) : fexc + unit :=
  match _read_manifest content with
  | inl x => inl x
  | inr l => if is_one (assoc "schema" l) && is_string (assoc "profile_id" l) profile && is_string (assoc "backup_id" l) id
             then inr tt else inl (SafeF message)
  end.
Definition raise_on {A} (r : fexc + A) : FM rstate A := match r with inl x => fthrow x | inr a => mret a end.

Definition _validate_archive_manifest (path profile id : string) : FM rstate unit :=
  step fault ;;
  o ← read (fun s => x_files s !! path);
  match o with
  | None => refuse_with "backup manifest is unreadable"
  | Some c => raise_on (manifest_identity c profile id "local manifest identity mismatch")
  end.

(** ** Remote objects *)

Fixpoint count_slash (s : string) : nat :=
  match s with
  | EmptyString => O
  | String c r => if Ascii.eqb c (Ascii.ascii_of_nat 47) then S (count_slash r) else count_slash r
  end.
(** What precedes a suffix. *)
Fixpoint cut_suffix (suffix s : string) : option string :=
  if String.eqb s suffix then Some EmptyString
  else match s with
       | EmptyString => None
       | String c r => option_map (String c) (cut_suffix suffix r)
       end.

Definition _remote_backup_id (key prefix : string) : string :=
  match strip_prefix (prefix ++ "/") key with
  | Some name =>
      if Nat.eqb (count_slash key) (S (count_slash prefix))
      then match cut_suffix _ARCHIVE_SUFFIX name with Some id => id | None => "invalid-remote-key" end
      else "invalid-remote-key"
  | None => "invalid-remote-key"
  end.

(** [except SafeError: raise] and [except (OSError, ...): raise SafeError] around a
    block. *)
Definition as_safe {A} (m : FM rstate A) (message : string) : FM rstate A :=
  fexcept m (fun x => match x with SafeF _ | OtherF => fthrow x | _ => refuse_with message end).

Definition manifest_result : Type := string * string * string * Z.

Definition _download_and_verify_manifest (item : RemoteObject) (profile id : string) : FM rstate manifest_result :=
  guard (negb ((ob_size item <? 0) || (MAX_STAGED_BYTES <? ob_size item))) "remote archive exceeds staging bound" ;;
  as_safe (
    step fault ;;
    c ← on_objects (v_download (ob_key item));
    let '(actual_size, digest) := metadata_of (Some c) in
    guard (negb (negb (actual_size =? ob_size item) || negb (SHA256_RE digest))) "downloaded remote archive changed" ;;
    raise_on (manifest_identity c profile id "remote manifest identity mismatch") ;;
    mret (profile, id, digest, actual_size)) "remote manifest could not be verified".

Definition _verify_staged_manifest (item : RemoteObject) (profile id path : string) : FM rstate manifest_result :=
  m ← _local_archive_metadata path;
  let '(actual_size, digest) := m in
  guard (negb (negb (actual_size =? ob_size item) || negb (SHA256_RE digest))) "staged remote archive changed" ;;
  _validate_archive_manifest path profile id ;;
  as_safe (
    step fault ;;
    o ← read (fun s => x_files s !! path);
    match o with
    | None => fthrow OsF
    | Some c => on_objects (v_verify c (ob_key item))
    end) "staged remote archive could not be verified" ;;
  mret (profile, id, digest, actual_size).

Definition inventory_object (profile : string) (inventory : gmap string Z) (item : RemoteObject) : FM rstate (gmap string Z) :=
  let id := _remote_backup_id (ob_key item) (b2_prefix profile) in
  guard (GENERATION_RE id && String.eqb (ob_key item) (_remote_key profile id)) "remote inventory contains an invalid object" ;;
  guard (negb ((ob_size item <? 0) || (MAX_STAGED_BYTES <? ob_size item))) "remote inventory size is invalid" ;;
  guard (negb (bool_decide (is_Some (inventory !! ob_key item)))) "remote inventory contains a duplicate" ;;
  mret (<[ob_key item := ob_size item]> inventory).

(** Loops that carry a value. *)
Fixpoint ffold {A B} (f : B -> A -> FM rstate B) (b : B) (l : list A) : FM rstate B :=
  match l with
  | [] => mret b
  | a :: l' => b' ← f b a; ffold f b' l'
  end.

Definition _fixed_inventory : FM rstate (gmap string Z) :=
  ffold (fun inventory profile =>
    l ← on_objects (v_list (b2_prefix profile)); ffold (inventory_object profile) inventory l) ∅ RETAINED_PROFILE_IDS.

(** ** The plan of the fixed scope *)

Definition _assert_fixed_profile_scope : FM rstate unit :=
  db ← read x_db;
  let known p := bool_decide (p ∈ RETAINED_PROFILE_IDS) in
  guard (forallb (fun r => known (cr_profile r)) (db_rows db)
         && forallb (fun x => known (pr_profile (snd x))) (map_to_list (db_protections db)))
    "fixed profile scope is not exact".

Definition captured_catalog : FM rstate (list CatalogGeneration) :=
  db ← read x_db;
  ffold (fun acc r =>
    let path := local_path (cr_profile r) (cr_id r) in
    m ← _local_archive_metadata path;
    (if 0 <=? fst m then _validate_archive_manifest path (cr_profile r) (cr_id r) else mret tt) ;;
    mret (acc ++ [Catalog (cr_id r) (cr_profile r) (cr_size r) (snd m) (cr_verified r) (cr_protected r) (Some (fst m)) (Some path)])) []
    (scoped_rows db).

Definition captured_protections : FM rstate (list ProtectionRecord) :=
  db ← read x_db;
  mret (List.filter (fun p => bool_decide (pr_profile p ∈ RETAINED_PROFILE_IDS)) (map snd (map_to_list (db_protections db)))).

Definition find_catalog (profile id : string) (l : list CatalogGeneration) : option CatalogGeneration :=
  last (List.filter (fun c => String.eqb (cg_profile c) profile && String.eqb (cg_backup c) id) l).

(** A listed object, compared with the local archive, or downloaded, or compared with
    the staged copy. *)
Definition captured_object (catalog : list CatalogGeneration) (profile : string) (item : RemoteObject) : FM rstate RemoteGeneration :=
  let id := _remote_backup_id (ob_key item) (b2_prefix profile) in
  match find_catalog profile id catalog with
  | Some c =>
      digest ← (if ob_size item =? _archive_size c then
                  fexcept (
                    step fault ;;
                    o ← read (fun s => match cg_path c with Some p => x_files s !! p | None => None end);
                    (match o with None => fthrow OsF | Some content => on_objects (v_verify content (ob_key item)) end) ;;
                    mret (cg_sha256 c, "cryptcheck"%string))
                    (fun x => match x with SafeF _ => mret (EmptyString, EmptyString) | _ => fthrow x end)
                else mret (EmptyString, EmptyString));
      let '(d, method) := digest in
      mret (Remote profile id (ob_size item) d (ob_key item) None None false None (if nonempty method then method else "manifest"))
  | None =>
      staged ← read (fun s => bool_decide (is_Some (x_files s !! staged_path profile id)));
      if (staged : bool) then
        m ← _verify_staged_manifest item profile id (staged_path profile id);
        let '(p, b, d, n) := m in
        mret (Remote profile id (ob_size item) d (ob_key item) (Some p) (Some b) true (Some n) "manifest+cryptcheck")
      else
        m ← _download_and_verify_manifest item profile id;
        let '(p, b, d, n) := m in
        mret (Remote profile id (ob_size item) d (ob_key item) (Some p) (Some b) true (Some n) "manifest")
  end.

Definition captured_remote (catalog : list CatalogGeneration) : FM rstate (list RemoteGeneration) :=
  ffold (fun acc profile =>
    l ← on_objects (v_list (b2_prefix profile));
    ffold (fun acc item => r ← captured_object catalog profile item; mret (acc ++ [r])) acc l) [] RETAINED_PROFILE_IDS.

Definition build_fixed_plan : FM rstate ReconciliationPlan :=
  _assert_fixed_profile_scope ;;
  catalog ← captured_catalog;
  protections ← captured_protections;
  remote ← captured_remote catalog;
  mret (reconcile catalog protections remote true).

(** ** The database transaction *)

Definition find_row (id : string) (db : database) : option CatalogRow := List.find (fun r => String.eqb (cr_id r) id) (db_rows db).
Definition find_of (id profile : string) (db : database) : option CatalogRow :=
  List.find (fun r => String.eqb (cr_id r) id && String.eqb (cr_profile r) profile) (db_rows db).

Definition active_protection (profile id key digest state : string) : ProtectionRecord :=
  mkProtection id profile key digest true "succeeded" true "verified" state None.

Definition db_error {A} (message : string) : fexc + A := inl (SafeF message).

(** A row must have its backup in the catalog and a key of its own. *)
Definition insert_allowed (p : ProtectionRecord) (db : database) : bool :=
  bool_decide (is_Some (find_row (pr_backup p) db))
  && forallb (fun x => negb (String.eqb (pr_key (snd x)) (pr_key p))) (map_to_list (db_protections db)).

Definition _insert_protection (db : database) (i : ImportProtection) : fexc + database :=
  let made := active_protection (im_profile i) (im_backup i) (im_key i) (im_sha256 i) in
  match db_protections db !! im_backup i with
  | Some p =>
      if bool_decide (p = made "not_started"%string \/ p = made "succeeded"%string) then inr db
      else db_error "existing protection row differs from proven evidence"
  | None =>
      if insert_allowed (made "not_started"%string) db
      then inr (Database (db_rows db) (<[im_backup i := made "not_started"%string]> (db_protections db)))
      else inl OtherF
  end.

Definition set_flag (c : ProtectedFlagCorrection) (r : CatalogRow) : CatalogRow :=
  if String.eqb (cr_id r) (co_backup c) && String.eqb (cr_profile r) (co_profile c)
  then Row (cr_id r) (cr_profile r) (cr_size r) (cr_verified r) (co_protected c) else r.

Definition correct_flag (db : database) (c : ProtectedFlagCorrection) : fexc + database :=
  match find_of (co_backup c) (co_profile c) db with
  | None => db_error "catalog row changed before protected-flag correction"
  | Some r =>
      if Bool.eqb (cr_protected r) (co_protected c) then inr db
      else if negb (cr_verified r) then db_error "unverified catalog row cannot change protected state"
      else inr (Database (map (set_flag c) (db_rows db)) (db_protections db))
  end.

Definition close_row (p : ProtectionRecord) : ProtectionRecord :=
  mkProtection (pr_backup p) (pr_profile p) (pr_key p) (pr_sha256 p) (pr_local p) (pr_upload p) (pr_verified p) (pr_comparison p) "deleted" None.
Definition close_protection (id : string) (ok : ProtectionRecord -> bool) (message : string) (db : database) : fexc + database :=
  match db_protections db !! id with
  | Some p => if ok p then inr (Database (db_rows db) (<[id := close_row p]> (db_protections db))) else db_error message
  | None => db_error message
  end.

Definition close_candidate (db : database) (c : PruneCandidate) : fexc + database :=
  if pc_orphan c then inr db
  else close_protection (pc_backup c) (fun p => String.eqb (pr_profile p) (pc_profile c) && String.eqb (pr_key p) (pc_key c))
         "prune protection changed before catalog commit" db.
Definition close_pruned (db : database) (c : PrunedProtectionCorrection) : fexc + database :=
  close_protection (pp_backup c) (fun p => String.eqb (pr_profile p) (pp_profile c) && String.eqb (pr_key p) (pp_key c)
      && String.eqb (pr_sha256 p) (pp_sha256 c) && verification_proven p)
    "already-pruned protection changed before catalog commit" db.

Fixpoint each {A} (f : database -> A -> fexc + database) (l : list A) (db : database) : fexc + database :=
  match l with
  | [] => inr db
  | a :: l' => match f db a with inl x => inl x | inr db' => each f l' db' end
  end.
Definition then_do (r : fexc + database) (f : database -> fexc + database) : fexc + database :=
  match r with inl x => inl x | inr db => f db end.

Definition replacement_import (r : ReplacementCandidate) : ImportProtection :=
  Import (rc_profile r) (rc_backup r) (rc_size r) (rc_sha256 r) (_remote_key (rc_profile r) (rc_backup r)).

Definition _apply_catalog_transitions (plan : ReconciliationPlan) (include_replacements update_prunes : bool) (db : database) : fexc + database :=
  then_do (then_do (each _insert_protection (imports plan) db) (each correct_flag (protected_flag_corrections plan))) (fun db =>
  then_do (if include_replacements then each _insert_protection (map replacement_import (replacement_candidates plan)) db else inr db) (fun db =>
  if update_prunes then then_do (each close_candidate (prune_candidates plan) db) (each close_pruned (pruned_protection_corrections plan)) else inr db)).

(** [BEGIN IMMEDIATE] ... [commit], or [rollback]. *)
Definition in_transaction (f : database -> fexc + database) : FM rstate unit :=
  step fault ;;
  db ← read x_db;
  match f db with
  | inl x => fthrow x
  | inr db' => feffect fault (with_db (fun _ => db'))
  end.

Definition apply_plan (plan : ReconciliationPlan) : FM rstate unit :=
  guard (ready plan) "backup reconciliation was refused" ;;
  guard (bool_decide (pruned_protection_corrections plan = [])
         && negb (existsb (fun c => negb (co_protected c)) (protected_flag_corrections plan) && negb (bool_decide (prune_candidates plan = []))))
    "prune protected transition requires exact replacement apply" ;;
  in_transaction (_apply_catalog_transitions plan false false).

(** ** Applying a replacement plan *)

Definition check_replacement (db : database) (r : ReplacementCandidate) : bool :=
  match find_row (rc_backup r) db with
  | Some row => String.eqb (cr_profile row) (rc_profile r) && (cr_size row =? rc_size r) && cr_verified row && cr_protected row
  | None => false
  end.

Definition check_pruned (plan : ReconciliationPlan) (db : database) (c : PrunedProtectionCorrection) : bool :=
  match find_of (pp_backup c) (pp_profile c) db, db_protections db !! pp_backup c with
  | Some row, Some p =>
      (negb (cr_protected row)
       || existsb (fun x => String.eqb (co_profile x) (pp_profile c) && String.eqb (co_backup x) (pp_backup c) && negb (co_protected x))
            (protected_flag_corrections plan))
      && cr_verified row && String.eqb (pr_key p) (pp_key c) && String.eqb (pr_sha256 p) (pp_sha256 c) && verification_proven p
  | _, _ => false
  end.

Definition check_candidate (db : database) (c : PruneCandidate) : bool :=
  pc_orphan c ||
  match find_of (pc_backup c) (pc_profile c) db, db_protections db !! pc_backup c with
  | Some row, Some p =>
      cr_protected row && cr_verified row && (cr_size row =? pc_size c)
      && String.eqb (pr_key p) (pc_key c) && String.eqb (pr_sha256 p) (pc_sha256 c) && verification_proven p
  | _, _ => false
  end.

Definition expected_before (plan : ReconciliationPlan) : gmap string Z :=
  foldl (fun m r => if nonempty (rg_key r) then <[rg_key r := rg_size r]> m else m) ∅ (remote_evidence plan).

(** A missing archive is uploaded and compared. *)
Definition replace_one (before : gmap string Z) (keys : gmap string Z) (r : ReplacementCandidate) : FM rstate (gmap string Z) :=
  o ← read (fun s => match rc_path r with Some p => x_files s !! p | None => None end);
  match rc_path r, o with
  | Some path, Some content =>
      m ← _local_archive_metadata path;
      guard ((fst m =? rc_size r) && String.eqb (snd m) (rc_sha256 r)) "replacement archive changed" ;;
      _validate_archive_manifest path (rc_profile r) (rc_backup r) ;;
      let key := _remote_key (rc_profile r) (rc_backup r) in
      (match before !! key with
       | None => on_objects (v_upload content key)
       | Some n => guard (n =? rc_size r) "replacement remote size changed"
       end) ;;
      on_objects (v_verify content key) ;;
      mret (<[key := rc_size r]> keys)
  | _, _ => refuse_with "replacement archive is unavailable"
  end.

Definition prune_one (after : gmap string Z) (c : PruneCandidate) : FM rstate unit :=
  match after !! pc_key c with
  | None => refuse_with "prune candidate disappeared"
  | Some n => guard (n =? pc_size c) "prune candidate changed" ;; on_objects (v_delete (pc_key c))
  end.

Definition prune_keys (plan : ReconciliationPlan) : list string := map pc_key (prune_candidates plan).

Definition apply_replacement_plan (plan : ReconciliationPlan) : FM rstate unit :=
  guard (ready plan) "backup reconciliation was refused" ;;
  db ← read x_db;
  guard (forallb (check_replacement db) (replacement_candidates plan)) "replacement catalog row changed" ;;
  guard (forallb (check_pruned plan db) (pruned_protection_corrections plan)) "already-pruned protection changed" ;;
  guard (forallb nonempty (prune_keys plan) && bool_decide (NoDup (prune_keys plan))) "prune plan is not unique" ;;
  guard (forallb (check_candidate db) (prune_candidates plan)) "prune protection changed" ;;
  before ← _fixed_inventory;
  guard (bool_decide (before = expected_before plan)) "remote inventory changed before replacement" ;;
  replaced ← ffold (replace_one before) ∅ (replacement_candidates plan);
  after ← _fixed_inventory;
  guard (bool_decide (after = replaced ∪ expected_before plan)) "remote inventory changed after replacement" ;;
  ffor (prune_candidates plan) (prune_one after) ;;
  final ← _fixed_inventory;
  guard (bool_decide (final = filter (fun x => fst x ∉ prune_keys plan) after)) "remote prune could not be verified" ;;
  in_transaction (_apply_catalog_transitions plan true true).

(** [horizon backup reconcile], with or without [--apply], past the opening of the
    database: the plan, its application, and its report, which can fail as well. *)
Definition reconcile_command (applying : bool) : FM rstate bool :=
  plan ← build_fixed_plan;
  (if applying && ready plan then apply_replacement_plan plan else mret tt) ;;
  step fault ;;
  mret (ready plan).
End Reconciliation.
