(* ===== verification/ReconcileFacts.v ===== *)
(** What a ready replacement plan proves about its evidence. *)
From S2P Require Import Prelude Fault Backups Reconcile.

(** ** Strings *)

Lemma strip_prefix_app p s : strip_prefix p (p ++ s) = Some s.
Proof. induction p as [|c p IH]; [done|]. simpl. by rewrite Ascii.eqb_refl. Qed.

Lemma strip_prefix_some p s r : strip_prefix p s = Some r -> s = (p ++ r)%string.
Proof.
  revert s. induction p as [|c p IH]; intros s; simpl; [by intros [= ->]|]. destruct s as [|c' s]; [done|].
  destruct (Ascii.eqb_spec c c') as [->|]; [|done]. by intros ->%IH.
Qed.

Lemma str_app_assoc (a b c : string) : ((a ++ b) ++ c = a ++ (b ++ c))%string.
Proof. induction a as [|x a IH]; [done|]. change (String x ((a ++ b) ++ c) = String x (a ++ (b ++ c)))%string. by rewrite IH. Qed.

(** ** The order of generations *)

Lemma gen_le_total a b : gen_le a b \/ gen_le b a.
Proof.
  unfold gen_le, gen_leb. rewrite (String.eqb_sym (_backup_generation b)). destruct (String.eqb _ _); apply str_leb_total.
Qed.
Lemma gen_le_trans a b c : gen_le a b -> gen_le b c -> gen_le a c.
Proof.
  unfold gen_le, gen_leb. intros H1 H2.
  destruct (String.eqb_spec (_backup_generation a) (_backup_generation b)) as [E1|E1],
    (String.eqb_spec (_backup_generation b) (_backup_generation c)) as [E2|E2].
  - rewrite E1, E2, String.eqb_refl. by eapply str_leb_trans.
  - rewrite E1. destruct (String.eqb_spec (_backup_generation b) (_backup_generation c)); [done|done].
  - rewrite <- E2. destruct (String.eqb_spec (_backup_generation a) (_backup_generation b)); [done|done].
  - destruct (String.eqb_spec (_backup_generation a) (_backup_generation c)) as [E3|E3]; [|by eapply str_leb_trans].
    rewrite <- E3 in H2. destruct E1. by apply str_leb_antisym.
Qed.
#[export] Instance gen_ge_trans : Transitive gen_ge.
Proof. intros a b c H1 H2. unfold gen_ge in *. by eapply gen_le_trans. Qed.
#[export] Instance gen_ge_total : Total gen_ge.
Proof. intros a b. unfold gen_ge. destruct (gen_le_total a b); auto. Qed.

(** The generations kept are newer than the others. *)
Lemma newest_are_newest l a b : a ∈ take RETENTION (newest_first l) -> b ∈ l -> b ∉ take RETENTION (newest_first l) -> gen_leb b a = true.
Proof.
  intros Ha Hb Hnb. assert (Hs : StronglySorted gen_ge (newest_first l)) by apply (StronglySorted_merge_sort gen_ge).
  assert (Hp : b ∈ newest_first l) by (unfold newest_first; by rewrite merge_sort_Permutation).
  rewrite <- (take_drop RETENTION (newest_first l)) in Hp, Hs. apply elem_of_app in Hp as [?|Hp]; [done|].
  exact (StronglySorted_app_1_elem_of gen_ge _ _ _ _ Hs Ha Hp).
Qed.
Lemma newest_incl l a : a ∈ take RETENTION (newest_first l) -> a ∈ l.
Proof. intros H%elem_of_take. destruct H as (i & H & _). apply list_elem_of_lookup_2 in H. unfold newest_first in H. by rewrite (merge_sort_Permutation gen_ge l) in H. Qed.

(** ** Drafts are concatenated *)

Definition nothing : draft := Draft [] [] [] [] [] [].
Definition join (a b : draft) : draft :=
  Draft (d_imports a ++ d_imports b) (d_corrections a ++ d_corrections b) (d_candidates a ++ d_candidates b)
    (d_replacements a ++ d_replacements b) (d_pruned a ++ d_pruned b) (d_refusals a ++ d_refusals b).

Lemma join_assoc a b c : join a (join b c) = join (join a b) c.
Proof. unfold join. simpl. by rewrite !app_assoc. Qed.
Lemma join_nothing a : join a nothing = a.
Proof. destruct a. unfold join. simpl. by rewrite !app_nil_r. Qed.

(** A step appends what it would put on an empty draft. *)
Definition appends {A} (f : draft -> A -> draft) : Prop := forall a x, f a x = join a (f nothing x).

Lemma appends_foldl {A} (f : draft -> A -> draft) l a : appends f -> foldl f a l = join a (foldl f nothing l).
Proof.
  intros Hf. revert a. induction l as [|x l IH]; intros a; simpl; [by rewrite join_nothing|].
  rewrite (IH (f a x)), (IH (f nothing x)), (Hf a x). by rewrite join_assoc.
Qed.

Ltac join_solve := unfold join, add_import, add_correction, add_candidate, add_replacement, add_pruned, add_refusal, nothing; simpl;
  by rewrite ?app_nil_r, <- ?app_assoc.

Lemma orphan_appends p o : appends (orphan_step p o).
Proof. intros a x. unfold orphan_step. case_match; join_solve. Qed.
Lemma retained_appends e p : appends (retained_step e p).
Proof. intros a [id c]. unfold retained_step. repeat case_match; join_solve. Qed.
Lemma older_appends e p : appends (older_step e p).
Proof. intros a [id c]. unfold older_step. repeat case_match; try join_solve; by rewrite join_nothing. Qed.
Lemma absent_appends e p : appends (absent_step e p).
Proof. intros a [id c]. unfold absent_step. repeat case_match; try join_solve; by rewrite join_nothing. Qed.

(** *** Without refusals *)

Definition clean (a : draft) : Prop := d_refusals a = [].

Lemma clean_join a b : clean (join a b) <-> clean a /\ clean b.
Proof. unfold clean, join. simpl. split; [intros H; by apply app_eq_nil in H|intros [-> ->]; done]. Qed.

(** The members of a list of the draft after a loop. *)
Lemma foldl_clean {A} (f : draft -> A -> draft) l : appends f -> clean (foldl f nothing l) -> forall x, x ∈ l -> clean (f nothing x).
Proof.
  intros Hf. induction l as [|y l IH]; simpl; [by intros _ x ?%elem_of_nil|]. rewrite (appends_foldl f) by done. intros [H1 H2]%clean_join x [->|Hx]%elem_of_cons; [done|].
  by apply IH.
Qed.

Definition field {B} (g : draft -> list B) : Prop := g nothing = [] /\ forall a b, g (join a b) = g a ++ g b.
Lemma foldl_field {A B} (f : draft -> A -> draft) (g : draft -> list B) l y : appends f -> field g ->
  y ∈ g (foldl f nothing l) <-> exists x, x ∈ l /\ y ∈ g (f nothing x).
Proof.
  intros Hf [Hn Hj]. induction l as [|x l IH]; simpl.
  - rewrite Hn. split; [by intros ?%elem_of_nil|by intros (x & ?%elem_of_nil & _)].
  - rewrite (appends_foldl f) by done. rewrite Hj, elem_of_app, IH. split.
    + intros [H|(z & Hz & H)]; [exists x; split; [left|done]|exists z; split; [by right|done]].
    + intros (z & [->|Hz]%elem_of_cons & H); [by left|right; eauto].
Qed.
Lemma field_candidates : field d_candidates. Proof. done. Qed.
Lemma field_replacements : field d_replacements. Proof. done. Qed.
Lemma field_corrections : field d_corrections. Proof. done. Qed.
Lemma field_imports : field d_imports. Proof. done. Qed.
Lemma field_pruned : field d_pruned. Proof. done. Qed.
#[export] Hint Resolve field_candidates field_replacements field_corrections field_imports field_pruned
  orphan_appends retained_appends older_appends absent_appends : helios.

(** ** Indexes *)

Lemma assoc_app {A} k (l1 l2 : list (string * A)) : assoc k (l1 ++ l2) = match assoc k l1 with Some v => Some v | None => assoc k l2 end.
Proof. induction l1 as [|[j v] l1 IH]; [done|]. simpl. by destruct (String.eqb k j). Qed.
Lemma assoc_is_member {A} k (l : list (string * A)) : is_Some (assoc k l) <-> k ∈ ids l.
Proof.
  induction l as [|[j v] l IH]; simpl; [split; [by intros []|by intros ?%elem_of_nil]|]. rewrite elem_of_cons.
  destruct (String.eqb_spec k j) as [->|Hne]; [split; [by left|eauto]|]. rewrite IH. split; [by right|by intros [?|?]].
Qed.
Lemma assoc_of_member {A} k (v : A) l : assoc k l = Some v -> (k, v) ∈ l.
Proof.
  induction l as [|[j w] l IH]; [done|]. simpl. destruct (String.eqb_spec k j) as [->|]; intros E; simplify_eq; [left|right; auto].
Qed.
Lemma assoc_unique {A} k (v : A) l : NoDup (ids l) -> (k, v) ∈ l -> assoc k l = Some v.
Proof.
  induction l as [|[j w] l IH]; simpl; [by intros _ ?%elem_of_nil|]. intros [Hn Hd]%NoDup_cons [E|Hin]%elem_of_cons.
  - simplify_eq. by rewrite String.eqb_refl.
  - destruct (String.eqb_spec k j) as [->|]; [|by apply IH]. destruct Hn. apply list_elem_of_In, in_map_iff. exists (j, v). split; [done|].
    by apply list_elem_of_In.
Qed.

Section Index.
Context {A : Type} (profile id : A -> string) (skip : A -> bool) (m1 m2 m3 : string).

Definition of_profile (p : string) (x : A) : bool := String.eqb (profile x) p && negb (skip x).
Definition tagged (p : string) (l : list A) : list (string * A) := map (fun x => (id x, x)) (List.filter (of_profile p) l).

Lemma index_row_clean m x m' r r' : index_row profile id skip m1 m2 m3 (m, r) x = (m', r') -> r' = [] ->
  r = [] /\ (exists rows, m !! profile x = Some rows /\ GENERATION_RE (id x) = true /\ (skip x = false -> id x ∉ ids rows)) /\
  forall p, m' !! p = (fun l => l ++ tagged p [x]) <$> m !! p.
Proof.
  unfold index_row. destruct (m !! profile x) as [rows|] eqn:Em; [|intros [= <- <-] E; by destruct r].
  destruct (GENERATION_RE (id x)) eqn:Eg; [simpl|intros [= <- <-] E; by destruct r]. destruct (skip x) eqn:Es.
  { intros [= <- <-] ->. split_and!; [done|exists rows; split_and!; [done|done|done]|]. intros p. unfold tagged, of_profile. simpl. rewrite Es, andb_false_r. simpl.
    destruct (m !! p); [simpl; by rewrite app_nil_r|done]. }
  case_bool_decide as Hd; [intros [= <- <-] E; by destruct r|]. intros [= <- <-] ->. split_and!; [done|exists rows; split_and!; try done|].
  { intros _. by rewrite <- assoc_is_member. }
  intros p. unfold tagged, of_profile. simpl. rewrite Es, andb_true_r. destruct (String.eqb_spec (profile x) p) as [<-|Hne].
  - rewrite lookup_insert_eq, Em. done.
  - rewrite lookup_insert_ne by done. simpl. destruct (m !! p); [simpl; by rewrite app_nil_r|done].
Qed.

Lemma index_clean rows m r m' : foldl (index_row profile id skip m1 m2 m3) (m, r) rows = (m', []) ->
  (forall p, NoDup (ids (rows_of m p))) ->
  r = [] /\ (forall p, m' !! p = (fun l => l ++ tagged p rows) <$> m !! p) /\
  (forall x, x ∈ rows -> is_Some (m !! profile x) /\ GENERATION_RE (id x) = true) /\ forall p, NoDup (ids (rows_of m' p)).
Proof.
  revert m r. induction rows as [|x rows IH]; intros m r; cbn [foldl].
  - intros [= <- <-] Hnd. split_and!; try done; [|by intros x ?%elem_of_nil]. intros p. unfold tagged. simpl. destruct (m !! p); [simpl; by rewrite app_nil_r|done].
  - destruct (index_row profile id skip m1 m2 m3 (m, r) x) as [m1' r1'] eqn:E1. intros E Hnd.
    assert (r1' = []) as ->. { pose proof E as E'. destruct r1' as [|y r1']; [done|]. exfalso. clear -E'.
      assert (Hmono : forall rows m r m' r', foldl (index_row profile id skip m1 m2 m3) (m, r) rows = (m', r') -> r <> [] -> r' <> []).
      { clear. induction rows as [|x rows IH]; intros m r m' r'; cbn [foldl]; [by intros [= <- <-]|].
        destruct (index_row profile id skip m1 m2 m3 (m, r) x) as [m1' r1'] eqn:E1. intros E Hr. eapply IH; [exact E|]. unfold index_row in E1.
        repeat case_match; simplify_eq; try done; by destruct r. }
      by eapply Hmono. }
    destruct (index_row_clean _ _ _ _ _ E1 eq_refl) as (-> & (l & Hl & Hg & Hs) & Hm).
    assert (Hrows : forall p, rows_of m1' p = rows_of m p ++ match m !! p with Some _ => tagged p [x] | None => [] end).
    { intros p. unfold rows_of. rewrite Hm. by destruct (m !! p). }
    destruct (IH m1' [] E) as (_ & H1 & H2 & H3).
    { intros p. rewrite Hrows. destruct (m !! p) eqn:Ep; [|rewrite app_nil_r; apply Hnd]. unfold tagged, of_profile. simpl.
      destruct (String.eqb_spec (profile x) p) as [<-|]; [|simpl; rewrite app_nil_r; apply Hnd]. destruct (skip x); simpl; [rewrite app_nil_r; apply Hnd|].
      unfold ids. rewrite map_app. apply NoDup_app. split_and!; [apply Hnd| |apply NoDup_singleton].
      intros y Hy ->%list_elem_of_singleton. apply (Hs eq_refl). unfold ids, rows_of in Hy. by rewrite Hl in Hy. }
    split_and!; [done| | |done].
    + intros p. rewrite H1, Hm. destruct (m !! p); [|done]. simpl. rewrite <- app_assoc. do 2 f_equal. unfold tagged. simpl. by destruct (of_profile p x).
    + intros y [->|Hy]%elem_of_cons; [split; [eauto|done]|]. destruct (H2 y Hy) as [[l' Hl'] Hg']. split; [|done]. rewrite Hm in Hl'.
      destruct (m !! profile y); [eauto|done].
Qed.

Lemma no_rows_dom p : (no_rows : gmap string (list (string * A))) !! p = if bool_decide (p ∈ RETAINED_PROFILE_IDS) then Some [] else None.
Proof.
  unfold no_rows. case_bool_decide as H.
  - unfold RETAINED_PROFILE_IDS in H. repeat (apply elem_of_cons in H as [-> |H]; [done|]). by apply elem_of_nil in H.
  - apply not_elem_of_list_to_map_1. intros Hin. destruct H. by vm_compute in Hin |- *.
Qed.

(** The index of rows that were all accepted. *)
Lemma indexed rows m : foldl (index_row profile id skip m1 m2 m3) (no_rows, []) rows = (m, []) ->
  (forall p x i, assoc i (rows_of m p) = Some x <-> x ∈ rows /\ profile x = p /\ id x = i /\ skip x = false) /\
  (forall x, x ∈ rows -> profile x ∈ RETAINED_PROFILE_IDS /\ GENERATION_RE (id x) = true) /\
  (forall p, p ∈ RETAINED_PROFILE_IDS -> rows_of m p = tagged p rows) /\ (forall p, NoDup (ids (rows_of m p))).
Proof.
  intros E. destruct (index_clean _ _ _ _ E) as (_ & H1 & H2 & H3).
  { intros p. unfold rows_of. rewrite no_rows_dom. case_bool_decide; simpl; constructor. }
  assert (Hrows : forall p, p ∈ RETAINED_PROFILE_IDS -> rows_of m p = tagged p rows).
  { intros p Hp. unfold rows_of. by rewrite H1, no_rows_dom, bool_decide_eq_true_2. }
  assert (Hprof : forall x, x ∈ rows -> profile x ∈ RETAINED_PROFILE_IDS /\ GENERATION_RE (id x) = true).
  { intros x Hx. destruct (H2 x Hx) as [[l Hl] Hg]. split; [|done]. rewrite no_rows_dom in Hl. by case_bool_decide. }
  split_and!; try done. intros p x i. split.
  - intros Ha. assert (Hp : p ∈ RETAINED_PROFILE_IDS).
    { unfold rows_of in Ha. rewrite H1, no_rows_dom in Ha. by case_bool_decide. }
    rewrite Hrows in Ha by done. apply assoc_of_member, list_elem_of_In, in_map_iff in Ha as (y & E' & Hy). simplify_eq.
    apply filter_In in Hy as [Hy Hf]. unfold of_profile in Hf. to_prop. split_and!; try done. by apply list_elem_of_In.
  - intros (Hx & <- & <- & Hs). apply assoc_unique; [apply H3|]. rewrite Hrows by by apply Hprof. apply list_elem_of_In, in_map_iff. exists x. split; [done|].
    apply filter_In. split; [by apply list_elem_of_In|]. unfold of_profile. by rewrite String.eqb_refl, Hs.
Qed.
End Index.

(** ** Evidence without refusals *)

Section Profiles.
Context {A B : Type} (check : string -> string * A -> list B * list string).

Lemma over_rows p rows acc : foldl (fun acc x => let '(l, r) := check p x in (fst acc ++ l, snd acc ++ r)) acc rows =
  (fst acc ++ concat (map (fun x => fst (check p x)) rows), snd acc ++ concat (map (fun x => snd (check p x)) rows)).
Proof.
  revert acc. induction rows as [|x rows IH]; intros acc; simpl; [destruct acc; simpl; by rewrite !app_nil_r|].
  rewrite IH. destruct (check p x) as [l r]. simpl. by rewrite !app_assoc.
Qed.

Lemma over_profiles_eq (m : gmap string (list (string * A))) : over_profiles m check =
  (concat (map (fun p => concat (map (fun x => fst (check p x)) (rows_of m p))) RETAINED_PROFILE_IDS),
   concat (map (fun p => concat (map (fun x => snd (check p x)) (rows_of m p))) RETAINED_PROFILE_IDS)).
Proof.
  unfold over_profiles. generalize RETAINED_PROFILE_IDS as l. intros l.
  assert (H : forall acc, foldl (fun acc profile => foldl (fun acc x => let '(l, r) := check profile x in (fst acc ++ l, snd acc ++ r)) acc (rows_of m profile)) acc l =
    (fst acc ++ concat (map (fun p => concat (map (fun x => fst (check p x)) (rows_of m p))) l),
     snd acc ++ concat (map (fun p => concat (map (fun x => snd (check p x)) (rows_of m p))) l))).
  { induction l as [|p l IH]; intros acc; simpl; [destruct acc; simpl; by rewrite !app_nil_r|]. rewrite IH, over_rows. simpl. by rewrite !app_assoc. }
  by rewrite H.
Qed.
End Profiles.

Lemma concat_nil {A B} (f : A -> list B) l : concat (map f l) = [] <-> forall x, x ∈ l -> f x = [].
Proof.
  induction l as [|y l IH]; simpl; [split; [by intros _ x ?%elem_of_nil|done]|]. split.
  - intros [H1 H2]%app_eq_nil x [->|Hx]%elem_of_cons; [done|]. by apply IH.
  - intros H. rewrite (H y) by left. simpl. apply IH. intros x Hx. apply H. by right.
Qed.
Lemma elem_of_concat_map {A B} (f : A -> list B) l y : y ∈ concat (map f l) <-> exists x, x ∈ l /\ y ∈ f x.
Proof.
  induction l as [|z l IH]; simpl; [split; [by intros ?%elem_of_nil|by intros (x & ?%elem_of_nil & _)]|]. rewrite elem_of_app, IH. split.
  - intros [H|(x & Hx & H)]; [exists z; split; [left|done]|exists x; split; [by right|done]].
  - intros (x & [->|Hx]%elem_of_cons & H); [by left|right; eauto].
Qed.
Lemma refuse_nil b m : refuse b m = [] <-> b = false.
Proof. by destruct b. Qed.

Lemma deleted_fold rows l r l' r' : foldl deleted_row (l, r) rows = (l', r') -> forall p, p ∈ l' -> p ∈ l \/ (p ∈ rows /\ is_deleted p = true).
Proof.
  revert l r. induction rows as [|x rows IH]; intros l r; cbn [foldl]; [intros [= <- <-]; auto|].
  destruct (deleted_row (l, r) x) as [l1 r1] eqn:E1. intros E p Hp. destruct (IH _ _ E p Hp) as [H|[H1 H2]]; [|right; split; [by right|done]].
  unfold deleted_row in E1. destruct (is_deleted x) eqn:Ed; simpl in E1; [|simplify_eq; by left].
  case_bool_decide; simplify_eq; [by left|]. apply elem_of_app in H as [?| ->%list_elem_of_singleton]; [by left|right; split; [left|done]].
Qed.
Lemma deleted_complete rows l r l' : foldl deleted_row (l, r) rows = (l', []) ->
  r = [] /\ forall p, p ∈ l \/ (p ∈ rows /\ is_deleted p = true) -> p ∈ l'.
Proof.
  revert l r. induction rows as [|x rows IH]; intros l r; cbn [foldl].
  { intros [= <- <-]. split; [done|]. intros p [?|[?%elem_of_nil _]]; done. }
  destruct (deleted_row (l, r) x) as [l1 r1] eqn:E1. intros E. destruct (IH _ _ E) as [-> H]. unfold deleted_row in E1.
  destruct (is_deleted x) eqn:Ed; simpl in E1.
  - case_bool_decide; simplify_eq; [by destruct r|]. split; [done|]. intros p [Hp|[[->|Hp]%elem_of_cons Hd]]; apply H; [left; set_solver|left; set_solver|by right].
  - simplify_eq. split; [done|]. intros p [Hp|[[->|Hp]%elem_of_cons Hd]]; apply H; [by left|congruence|by right].
Qed.

(** The ids of a profile in the catalog, and those that are kept. *)
Definition catalog_ids (catalog : list CatalogGeneration) (p : string) : list string :=
  map cg_backup (List.filter (fun c => String.eqb (cg_profile c) p) catalog).
Definition newest (catalog : list CatalogGeneration) (p : string) : list string := take RETENTION (newest_first (catalog_ids catalog p)).

Section Evidence.
Context (catalog : list CatalogGeneration) (protections : list ProtectionRecord) (remote : list RemoteGeneration).
Definition in_catalog (p i : string) (c : CatalogGeneration) : Prop := c ∈ catalog /\ cg_profile c = p /\ cg_backup c = i.

Record sound_evidence (e : evidence) : Prop := {
  ev_catalog : forall p i c, assoc i (rows_of (e_catalogs e) p) = Some c <-> in_catalog p i c;
  ev_ids : forall p, p ∈ RETAINED_PROFILE_IDS -> ids (rows_of (e_catalogs e) p) = catalog_ids catalog p;
  ev_nodup : forall p, NoDup (ids (rows_of (e_catalogs e) p));
  ev_catalog_ok : forall c, c ∈ catalog -> cg_profile c ∈ RETAINED_PROFILE_IDS /\ GENERATION_RE (cg_backup c) = true /\ check_catalog c = [];
  ev_protection : forall p i x, assoc i (rows_of (e_protections e) p) = Some x <->
    x ∈ protections /\ pr_profile x = p /\ pr_backup x = i /\ is_deleted x = false;
  ev_protection_ok : forall x, x ∈ protections -> pr_profile x ∈ RETAINED_PROFILE_IDS /\ GENERATION_RE (pr_backup x) = true /\
    (is_deleted x = false -> exists c, in_catalog (pr_profile x) (pr_backup x) c /\ pr_key x = _remote_key (pr_profile x) (pr_backup x) /\
       pr_sha256 x = cg_sha256 c /\ verification_proven x = true);
  ev_remote : forall p i x, assoc i (rows_of (e_remotes e) p) = Some x <-> x ∈ remote /\ rg_profile x = p /\ rg_backup x = i;
  ev_remote_ok : forall x, x ∈ remote -> rg_profile x ∈ RETAINED_PROFILE_IDS /\ GENERATION_RE (rg_backup x) = true /\
    rg_key x = _remote_key (rg_profile x) (rg_backup x) /\
    forall c, in_catalog (rg_profile x) (rg_backup x) c -> rg_size x = _archive_size c /\ rg_sha256 x = cg_sha256 c /\ SHA256_RE (rg_sha256 x) = true;
  ev_orphan : forall o, o ∈ e_orphans e -> exists x, x ∈ remote /\ rg_profile x = or_profile o /\ rg_backup x = or_backup o /\ rg_key x = or_key o /\
    rg_size x = or_size o /\ forall c, ~ in_catalog (or_profile o) (or_backup o) c;
  ev_deleted : forall x, x ∈ e_deleted e <-> x ∈ protections /\ is_deleted x = true;
}.

Lemma tagged_ids {A} (profile id : A -> string) p l :
  ids (tagged profile id (fun _ => false) p l) = map id (List.filter (fun x => String.eqb (profile x) p) l).
Proof.
  unfold ids, tagged. rewrite map_map. simpl. f_equal. apply filter_ext. intros x. unfold of_profile. by rewrite andb_true_r.
Qed.

Lemma gathered : let e := gather catalog protections remote true in e_refusals e = [] -> sound_evidence e.
Proof.
  cbv zeta. unfold gather. destruct (deleted_protections protections) as [deleted r0] eqn:E0, (_index_catalog catalog) as [cats r1] eqn:E1,
    (_index_protections protections) as [prots r2] eqn:E2, (_index_remote remote) as [rems r3] eqn:E3.
  rewrite !over_profiles_eq. cbn [e_refusals]. intros H.
  do 7 (apply app_eq_nil in H as [? H]). subst r0 r1 r2 r3. rename H into Hprot, H6 into Hrem, H5 into Hcat.
  rewrite concat_nil in Hcat, Hrem, Hprot. unfold _index_catalog, _index_protections, _index_remote, deleted_protections in *.
  destruct (indexed _ _ _ _ _ _ _ _ E1) as (C1 & C2 & C3 & C4), (indexed _ _ _ _ _ _ _ _ E2) as (P1 & P2 & P3 & P4), (indexed _ _ _ _ _ _ _ _ E3) as (R1 & R2 & R3 & R4).
  assert (Hin : forall p i c, assoc i (rows_of cats p) = Some c <-> in_catalog p i c) by (intros p i c; rewrite C1; unfold in_catalog; naive_solver).
  split; cbn [e_catalogs e_protections e_remotes e_orphans e_deleted].
  - exact Hin.
  - intros p Hp. rewrite C3 by done. apply tagged_ids.
  - exact C4.
  - intros c Hc. destruct (C2 c Hc) as [Hp Hg]. split_and!; try done. specialize (Hcat _ Hp). rewrite concat_nil in Hcat.
    apply (Hcat (cg_backup c, c)). apply assoc_of_member, Hin. by split_and!.
  - intros p i x. rewrite P1. naive_solver.
  - intros x Hx. destruct (P2 x Hx) as [Hp Hg]. split_and!; try done. intros Hd. specialize (Hprot _ Hp). rewrite concat_nil in Hprot.
    specialize (Hprot (pr_backup x, x)). unfold check_protection in Hprot.
    destruct (assoc (pr_backup x) (rows_of cats (pr_profile x))) as [c|] eqn:Ec; simpl in Hprot.
    + exists c. split; [by apply Hin|]. assert (H' : (pr_backup x, x) ∈ rows_of prots (pr_profile x)) by (apply assoc_of_member, P1; by split_and!).
      specialize (Hprot H'). repeat (apply app_eq_nil in Hprot as [?%refuse_nil Hprot]). to_prop. done.
    + exfalso. specialize (Hprot ltac:(apply assoc_of_member, P1; by split_and!)). done.
  - intros p i x. rewrite R1. naive_solver.
  - intros x Hx. destruct (R2 x Hx) as [Hp Hg]. specialize (Hrem _ Hp). rewrite concat_nil in Hrem. specialize (Hrem (rg_backup x, x)).
    specialize (Hrem ltac:(apply assoc_of_member, R1; by split_and!)). unfold check_remote in Hrem.
    destruct (assoc (rg_backup x) (rows_of cats (rg_profile x))) as [c|] eqn:Ec; simpl in Hrem.
    + apply refuse_nil in Hrem. to_prop. split_and!; try done. intros c' Hc'. apply Hin in Hc'. by simplify_eq.
    + destruct (_ && _) eqn:Eo in Hrem; [|done]. to_prop. split_and!; try done. intros c Hc%Hin. congruence.
  - intros o. rewrite elem_of_concat_map. intros (p & Hp & Ho). apply elem_of_concat_map in Ho as ([i x] & Hx & Ho).
    unfold check_remote in Ho. simpl in Ho. destruct (assoc i (rows_of cats p)) as [c|] eqn:Ec; [by apply elem_of_nil in Ho|].
    destruct (_ && _) eqn:Eo in Ho; [|by apply elem_of_nil in Ho]. apply list_elem_of_singleton in Ho as ->. apply assoc_unique in Hx; [|done].
    apply R1 in Hx as (Hx & <- & <- & _). exists x. split_and!; try done. intros c Hc%Hin. simpl in Hc. congruence.
  - intros x. destruct (deleted_complete _ _ _ _ E0) as [_ Hd]. split; [|naive_solver].
    intros Hx. destruct (deleted_fold _ _ _ _ _ E0 _ Hx) as [?%elem_of_nil|?]; done.
Qed.
End Evidence.

(** ** The replacement plan without refusals *)

Section Plan.
Context (e : evidence).

Definition kept (p : string) : list string := take RETENTION (newest_first (ids (rows_of (e_catalogs e) p))).
Definition others (p : string) : list string :=
  oldest_first (List.filter (fun id => negb (bool_decide (id ∈ kept p))) (ids (rows_of (e_catalogs e) p))).
Definition orphans_of (p : string) : list RemoteOrphan := List.filter (fun o => String.eqb (or_profile o) p) (e_orphans e).

(** What a profile adds to the draft. *)
Definition profile_part (p : string) : draft :=
  match last (kept p) with
  | None => nothing
  | Some oldest =>
      join (join (join (foldl (orphan_step p oldest) nothing (orphans_of p))
                       (foldl (retained_step e p) nothing (select (rows_of (e_catalogs e) p) (kept p))))
                 (foldl (older_step e p) nothing (select (rows_of (e_catalogs e) p) (others p))))
           (foldl (absent_step e p) nothing (select (rows_of (e_catalogs e) p) (others p)))
  end.

(** What the check of the retention shows. *)
Definition exact_for (p : string) (D : draft) : Prop :=
  (forall i, i ∈ ids (rows_of (e_remotes e) p) -> i ∈ kept p \/ exists c, c ∈ d_candidates D /\ pc_profile c = p /\ pc_backup c = i) /\
  (forall i, i ∈ kept p -> i ∈ ids (rows_of (e_remotes e) p) \/ exists c, c ∈ d_replacements D /\ rc_profile c = p /\ rc_backup c = i).

Lemma exact_for_more p D a : exact_for p D -> exact_for p (join D a).
Proof.
  intros [H1 H2]. split; intros i Hi.
  - destruct (H1 i Hi) as [?|(c & Hc & ?)]; [by left|right; exists c; split; [|done]]. simpl. set_solver.
  - destruct (H2 i Hi) as [?|(c & Hc & ?)]; [by left|right; exists c; split; [|done]]. simpl. set_solver.
Qed.

Lemma elem_of_string_set {A} (f : A -> string) (g : A -> bool) l i :
  i ∈ string_set (map f (List.filter g l)) <-> exists x, x ∈ l /\ g x = true /\ f x = i.
Proof.
  unfold string_set. rewrite elem_of_list_to_set, list_elem_of_In, in_map_iff. split.
  - intros (x & <- & [Hx Hg]%filter_In). exists x. split_and!; [by apply list_elem_of_In|done|done].
  - intros (x & Hx & Hg & <-). exists x. split; [done|]. apply filter_In. split; [by apply list_elem_of_In|done].
Qed.

Lemma exact_step_clean p local a : clean (exact_step e p local (kept p) a) -> clean a /\ exact_step e p local (kept p) a = a /\ exact_for p a.
Proof.
  unfold exact_step, clean, add_refusal. simpl. intros [H1 H2%refuse_nil]%app_eq_nil. split; [done|]. rewrite H2. to_prop.
  split; [destruct a; simpl in *; by rewrite H1|]. split; intros i Hi.
  - destruct (decide (i ∈ string_set (map pc_backup (List.filter (fun x => String.eqb (pc_profile x) p) (d_candidates a))))) as [Hc|Hc].
    + right. apply elem_of_string_set in Hc as (c & Hc & Hp%String.eqb_eq & <-). eauto.
    + left. assert (Hs : i ∈ string_set (kept p)) by (rewrite <- H; unfold string_set at 1; set_solver). unfold string_set in Hs. set_solver.
  - assert (Hs : i ∈ string_set (kept p)) by (unfold string_set; set_solver). rewrite <- H in Hs.
    apply elem_of_difference in Hs as [[Hs|Hs]%elem_of_union _]; [left; unfold string_set in Hs; set_solver|right].
    apply elem_of_string_set in Hs as (c & Hc & Hp%String.eqb_eq & <-). eauto.
Qed.

Lemma profile_clean a p : clean (replacement_profile e a p) ->
  clean a /\ replacement_profile e a p = join a (profile_part p) /\ clean (profile_part p) /\
  (length (orphans_of p) <= MAX_REMOTE_ORPHANS_PER_PROFILE)%nat /\ exact_for p (join a (profile_part p)).
Proof.
  unfold replacement_profile, profile_part. fold (orphans_of p). fold (kept p). fold (others p).
  destruct (MAX_REMOTE_ORPHANS_PER_PROFILE <? length (orphans_of p))%nat eqn:Eo.
  { unfold clean, add_refusal. simpl. intros H. by destruct (d_refusals a). }
  apply Nat.ltb_ge in Eo. destruct (last (kept p)) as [oldest|] eqn:El.
  - set (O := orphans_of p). set (K := select _ (kept p)). set (L := select _ (others p)).
    assert (E : foldl (absent_step e p) (foldl (older_step e p) (foldl (retained_step e p) (foldl (orphan_step p oldest) a O) K) L) L =
      join a (join (join (join (foldl (orphan_step p oldest) nothing O) (foldl (retained_step e p) nothing K)) (foldl (older_step e p) nothing L))
        (foldl (absent_step e p) nothing L))).
    { rewrite (appends_foldl _ O a), (appends_foldl _ K (join _ _)), (appends_foldl _ L (join (join _ _) _)), (appends_foldl (absent_step e p) L (join _ _)) by auto with helios.
      by rewrite !join_assoc. }
    rewrite E. intros [Hc [-> Hx]]%exact_step_clean. apply clean_join in Hc as [Ha Hc]. by split_and!.
  - intros H. unfold add_refusal, clean in H. simpl in H. apply app_eq_nil in H as [H1 H2%refuse_nil]. apply negb_false_iff, bool_decide_eq_true in H2.
    split_and!; [done| |done|done|].
    + rewrite join_nothing, H2. unfold add_refusal. destruct a; simpl in *. by rewrite app_nil_r.
    + apply last_None in El. split; intros i Hi; [rewrite H2 in Hi; by apply elem_of_nil in Hi|rewrite El in Hi; by apply elem_of_nil in Hi].
Qed.

Lemma profiles_clean l a : clean (foldl (replacement_profile e) a l) ->
  clean a /\ (forall p, p ∈ l -> clean (profile_part p) /\ exact_for p (foldl (replacement_profile e) a l)) /\
  forall {B} (g : draft -> list B) y, field g -> y ∈ g (foldl (replacement_profile e) a l) <-> y ∈ g a \/ exists p, p ∈ l /\ y ∈ g (profile_part p).
Proof.
  revert a. induction l as [|p l IH]; intros a; cbn [foldl].
  - intros Ha. split_and!; [done|by intros p ?%elem_of_nil|]. intros B g y _. split; [by left|]. by intros [?|(p & ?%elem_of_nil & _)].
  - intros Hc. destruct (IH _ Hc) as (H1 & H2 & H3). destruct (profile_clean _ _ H1) as (Ha & E & Hp & _ & Hx). split_and!; [done| |].
    + intros q [->|Hq]%elem_of_cons; [|by apply H2]. split; [done|].
      destruct Hx as [X1 X2]. split; intros i Hi.
      * destruct (X1 i Hi) as [?|(c & Hc' & ?)]; [by left|right]. exists c. split; [|done]. apply (H3 _ d_candidates); [apply field_candidates|left; by rewrite E].
      * destruct (X2 i Hi) as [?|(c & Hc' & ?)]; [by left|right]. exists c. split; [|done]. apply (H3 _ d_replacements); [apply field_replacements|left; by rewrite E].
    + intros B g y Hg. rewrite (H3 B g y Hg), E. destruct Hg as [Hn Hj]. rewrite Hj, elem_of_app. split.
      * intros [[?|?]|(q & Hq & ?)]; [by left|right; exists p; split; [left|done]|right; exists q; split; [by right|done]].
      * intros [?|(q & [->|Hq]%elem_of_cons & ?)]; [left; by left|left; by right|right; eauto].
Qed.
End Plan.
