(* ===== verification/ReconcilePlan.v ===== *)
(** What a ready replacement plan orders: what is kept, uploaded, pruned and recorded. *)
From S2P Require Import Prelude Fault Backups Reconcile ReconcileFacts.

Lemma select_elem {A} (l : list (string * A)) ks i c : (i, c) ∈ select l ks <-> i ∈ ks /\ assoc i l = Some c.
Proof.
  unfold select. rewrite list_elem_of_omap. split.
  - intros (k & Hk & E). destruct (assoc k l) eqn:Ea; [|done]. simpl in E. by simplify_eq.
  - intros [Hk E]. exists i. split; [done|]. by rewrite E.
Qed.

Lemma sorted_set_nil l : sorted_set l = [] -> l = [].
Proof.
  intros H. destruct l as [|x l]; [done|]. exfalso. assert (Hx : x ∈ sorted_set (x :: l)); [|rewrite H in Hx; by apply elem_of_nil in Hx].
  unfold sorted_set. rewrite merge_sort_Permutation. apply elem_of_remove_dups. left.
Qed.

Section Part.
Context (e : evidence) (p oldest : string) (Hlast : last (kept e p) = Some oldest).
#[local] Abbreviation K := (select (rows_of (e_catalogs e) p) (kept e p)).
#[local] Abbreviation L := (select (rows_of (e_catalogs e) p) (others e p)).

(** The members of a part, and what its cleanness means. *)
Lemma part_field {B} (g : draft -> list B) y : field g ->
  y ∈ g (profile_part e p) <->
  (exists o, o ∈ orphans_of e p /\ y ∈ g (orphan_step p oldest nothing o)) \/ (exists x, x ∈ K /\ y ∈ g (retained_step e p nothing x)) \/
  (exists x, x ∈ L /\ y ∈ g (older_step e p nothing x)) \/ (exists x, x ∈ L /\ y ∈ g (absent_step e p nothing x)).
Proof.
  intros Hg. unfold profile_part. rewrite Hlast. destruct Hg as [Hn Hj]. rewrite !Hj, !elem_of_app.
  rewrite !(foldl_field _ g) by (try split; auto with helios). tauto.
Qed.

Lemma part_clean : clean (profile_part e p) ->
  (forall o, o ∈ orphans_of e p -> clean (orphan_step p oldest nothing o)) /\ (forall x, x ∈ K -> clean (retained_step e p nothing x)) /\
  (forall x, x ∈ L -> clean (older_step e p nothing x)) /\ (forall x, x ∈ L -> clean (absent_step e p nothing x)).
Proof.
  unfold profile_part. rewrite Hlast, !clean_join. intros [[[H1 H2] H3] H4].
  split_and!; intros x Hx; [eapply foldl_clean in H1|eapply foldl_clean in H2|eapply foldl_clean in H3|eapply foldl_clean in H4]; eauto with helios.
Qed.
End Part.

Lemma others_elem e p i : i ∈ others e p <-> i ∈ ids (rows_of (e_catalogs e) p) /\ i ∉ kept e p.
Proof.
  unfold others, oldest_first. rewrite merge_sort_Permutation, list_elem_of_In, filter_In, <- list_elem_of_In. split.
  - intros [H1 H2]. to_prop. done.
  - intros [H1 H2]. split; [done|]. by rewrite bool_decide_eq_false_2.
Qed.

Section Ready.
Context (catalog : list CatalogGeneration) (protections : list ProtectionRecord) (remote : list RemoteGeneration).
#[local] Abbreviation plan := (reconcile catalog protections remote true).
#[local] Abbreviation e := (gather catalog protections remote true).
#[local] Abbreviation D := (_reconcile_replacement_mode e).
Hypothesis Hready : ready plan = true.

Lemma ready_clean : clean D.
Proof.
  unfold ready, reconcile, finish in Hready. unfold clean. destruct (d_refusals D) as [|x l] eqn:E; [done|]. cbn [refusals] in Hready.
  destruct (sorted_set (x :: l)) eqn:Es; [|done]. by apply sorted_set_nil in Es.
Qed.

Lemma ready_plan : plan = Plan (classify e) (summarize e) (sorted_by im_profile im_backup (d_imports D)) (sorted_by co_profile co_backup (d_corrections D))
  (sorted_by pc_profile pc_backup (d_candidates D)) [] (merge_sort by_generation remote)
  (sorted_by rc_profile rc_backup (d_replacements D)) (sorted_by or_profile or_backup (e_orphans e)) (sorted_by pp_profile pp_backup (d_pruned D)).
Proof. pose proof ready_clean as H. unfold clean in H. unfold reconcile, finish. by rewrite H. Qed.

Lemma plan_fields : (forall y, y ∈ imports plan <-> y ∈ d_imports D) /\ (forall y, y ∈ protected_flag_corrections plan <-> y ∈ d_corrections D) /\
  (forall y, y ∈ prune_candidates plan <-> y ∈ d_candidates D) /\ (forall y, y ∈ replacement_candidates plan <-> y ∈ d_replacements D) /\
  (forall y, y ∈ pruned_protection_corrections plan <-> y ∈ d_pruned D) /\ (forall y, y ∈ remote_evidence plan <-> y ∈ remote).
Proof. rewrite ready_plan. simpl. unfold sorted_by. split_and!; intros y; by rewrite merge_sort_Permutation. Qed.

(** *** The evidence and the parts *)

Lemma plan_parts : e_refusals e = [] /\ (forall x, x ∈ e_deleted e -> exists c, in_catalog catalog (pr_profile x) (pr_backup x) c) /\
  (forall p, p ∈ RETAINED_PROFILE_IDS -> clean (profile_part e p) /\ exact_for e p D) /\
  (forall B (g : draft -> list B) y, field g -> y ∈ g D <-> exists p, p ∈ RETAINED_PROFILE_IDS /\ y ∈ g (profile_part e p)).
Proof.
  destruct (profiles_clean _ _ _ ready_clean) as (H1 & H2 & H3). unfold clean in H1. simpl in H1. apply app_eq_nil in H1 as [H1 H1'].
  split_and!; [done| |exact H2|].
  - intros x Hx. rewrite concat_nil in H1'. specialize (H1' x Hx). apply refuse_nil in H1'. destruct (assoc _ _) as [c|] eqn:Ea; [|done].
    exists c. by apply (ev_catalog _ _ _ _ (gathered _ _ _ H1)).
  - intros B g y Hg. unfold _reconcile_replacement_mode. rewrite (H3 B g y Hg), H1, H1'. destruct Hg as [Hn _]. change (Draft [] [] [] [] [] ([] ++ [])) with nothing.
    rewrite Hn. split; [by intros [?%elem_of_nil|?]|by right].
Qed.

Lemma evidence_sound : sound_evidence catalog protections remote e.
Proof. apply gathered, plan_parts. Qed.

Lemma kept_newest p : p ∈ RETAINED_PROFILE_IDS -> kept e p = newest catalog p.
Proof. intros Hp. unfold kept. by rewrite (ev_ids _ _ _ _ evidence_sound). Qed.

Lemma local_elem p ks i c : (i, c) ∈ select (rows_of (e_catalogs e) p) ks <-> i ∈ ks /\ in_catalog catalog p i c.
Proof. by rewrite select_elem, (ev_catalog _ _ _ _ evidence_sound). Qed.

Lemma last_of_kept p i : i ∈ kept e p -> exists oldest, last (kept e p) = Some oldest.
Proof. intros H. destruct (last (kept e p)) as [o|] eqn:E; [eauto|]. apply last_None in E. rewrite E in H. by apply elem_of_nil in H. Qed.

Lemma catalog_has_kept p i c : in_catalog catalog p i c -> exists oldest, last (kept e p) = Some oldest.
Proof.
  intros Hc%(ev_catalog _ _ _ _ evidence_sound). destruct (last (kept e p)) as [o|] eqn:E; [eauto|]. apply last_None in E. exfalso.
  assert (Hi : i ∈ newest_first (ids (rows_of (e_catalogs e) p))).
  { unfold newest_first. rewrite merge_sort_Permutation. apply assoc_is_member. eauto. }
  unfold kept in E. destruct (newest_first (ids (rows_of (e_catalogs e) p))); [by apply elem_of_nil in Hi|done].
Qed.

(** *** Pruned archives *)

Lemma candidate_spec c : c ∈ prune_candidates plan ->
  pc_profile c ∈ RETAINED_PROFILE_IDS /\ pc_backup c ∉ newest catalog (pc_profile c) /\
  (exists r, r ∈ remote /\ rg_profile r = pc_profile c /\ rg_backup r = pc_backup c /\ rg_key r = pc_key c /\ rg_size r = pc_size c) /\
  (pc_orphan c = false -> exists g x, in_catalog catalog (pc_profile c) (pc_backup c) g /\ x ∈ protections /\ is_deleted x = false /\
     pr_profile x = pc_profile c /\ pr_backup x = pc_backup c).
Proof.
  intros Hc. apply plan_fields in Hc. destruct plan_parts as (_ & _ & Hclean & Hf). apply (Hf _ d_candidates) in Hc as (p & Hp & Hc); [|done].
  destruct (last (kept e p)) as [oldest|] eqn:El; [|unfold profile_part in Hc; rewrite El in Hc; by apply elem_of_nil in Hc].
  apply (part_field e p oldest El d_candidates) in Hc; [|done]. destruct Hc as [(o & Ho & Hc)|[([i g] & Hx & Hc)|[([i g] & Hx & Hc)|([i g] & Hx & Hc)]]].
  - apply list_elem_of_In, filter_In in Ho as [Ho Hop%String.eqb_eq]. apply list_elem_of_In in Ho. unfold orphan_step in Hc.
    destruct (gen_leb _ _); [by apply elem_of_nil in Hc|]. apply list_elem_of_singleton in Hc as ->. simpl. subst p.
    destruct (ev_orphan _ _ _ _ evidence_sound o Ho) as (r & Hr & E1 & E2 & E3 & E4 & Hno). split_and!; [done| |exists r; by split_and!|done].
    intros Hin. rewrite <- kept_newest in Hin by done. apply newest_incl in Hin.
    apply assoc_is_member in Hin as [g Hg]. apply (ev_catalog _ _ _ _ evidence_sound) in Hg. by apply (Hno g).
  - unfold retained_step in Hc. repeat case_match; by apply elem_of_nil in Hc.
  - apply local_elem in Hx as [[Hi Hnk]%others_elem Hg]. unfold older_step in Hc.
    destruct (assoc i (rows_of (e_remotes e) p)) as [r|] eqn:Er; [|by apply elem_of_nil in Hc].
    destruct (find_deleted _ _ _); [by apply elem_of_nil in Hc|]. destruct (_protection_proves_cryptcheck _ _ _) eqn:Epr; [|by apply elem_of_nil in Hc].
    assert (Hc' : c = Prune p i (_archive_size g) (cg_sha256 g) false (rg_key r)).
    { cbn [negb] in Hc. destruct (cg_protected g); simpl in Hc; by apply list_elem_of_singleton in Hc. }
    subst c. simpl. apply (ev_remote _ _ _ _ evidence_sound) in Er as (Hr & E1 & E2).
    destruct (ev_remote_ok _ _ _ _ evidence_sound r Hr) as (_ & _ & Hkey & Hok). rewrite E1, E2 in Hok. destruct (Hok g Hg) as (Hsz & _).
    split_and!; [done|by rewrite <- kept_newest|exists r; by split_and!|]. intros _.
    destruct (assoc i (rows_of (e_protections e) p)) as [x|] eqn:Ex; [|done].
    apply (ev_protection _ _ _ _ evidence_sound) in Ex as (Hx & E3 & E4 & Hd). exists g, x. by split_and!.
  - unfold absent_step in Hc. repeat case_match; by apply elem_of_nil in Hc.
Qed.

(** An archive that is pruned as an orphan has no catalog row. *)
Lemma orphan_candidate c g : c ∈ prune_candidates plan -> pc_orphan c = true -> ~ in_catalog catalog (pc_profile c) (pc_backup c) g.
Proof.
  intros Hc Eo. apply plan_fields in Hc. destruct plan_parts as (_ & _ & _ & Hf). apply (Hf _ d_candidates) in Hc as (p & Hp & Hc); [|done].
  destruct (last (kept e p)) as [oldest|] eqn:El; [|unfold profile_part in Hc; rewrite El in Hc; by apply elem_of_nil in Hc].
  apply (part_field e p oldest El d_candidates) in Hc; [|done]. destruct Hc as [(o & Ho & Hc)|[([i h] & _ & Hc)|[([i h] & _ & Hc)|([i h] & _ & Hc)]]].
  - apply list_elem_of_In, filter_In in Ho as [Ho Hop%String.eqb_eq]. apply list_elem_of_In in Ho. unfold orphan_step in Hc.
    destruct (gen_leb _ _); [by apply elem_of_nil in Hc|]. apply list_elem_of_singleton in Hc as ->. simpl. subst p.
    destruct (ev_orphan _ _ _ _ evidence_sound o Ho) as (r & _ & _ & _ & _ & _ & Hno). apply Hno.
  - unfold retained_step in Hc. repeat case_match; by apply elem_of_nil in Hc.
  - unfold older_step in Hc. repeat case_match; first [by apply elem_of_nil in Hc|apply list_elem_of_singleton in Hc; by subst c].
  - unfold absent_step in Hc. repeat case_match; by apply elem_of_nil in Hc.
Qed.

(** *** Kept archives *)

Lemma kept_spec p i : p ∈ RETAINED_PROFILE_IDS -> i ∈ newest catalog p ->
  (exists r, r ∈ remote /\ rg_profile r = p /\ rg_backup r = i) \/
  (exists x, x ∈ replacement_candidates plan /\ rc_profile x = p /\ rc_backup x = i).
Proof.
  intros Hp Hi. rewrite <- kept_newest in Hi by done. destruct plan_parts as (_ & _ & Hclean & _). destruct (Hclean p Hp) as [_ [_ Hx]].
  destruct (Hx i Hi) as [Hr|(x & Hx' & ?)].
  - left. apply assoc_is_member in Hr as [r Hr]. apply (ev_remote _ _ _ _ evidence_sound) in Hr. eauto.
  - right. exists x. split; [by apply plan_fields|done].
Qed.

Lemma remote_spec r : r ∈ remote ->
  rg_backup r ∈ newest catalog (rg_profile r) \/
  exists c, c ∈ prune_candidates plan /\ pc_profile c = rg_profile r /\ pc_backup c = rg_backup r.
Proof.
  intros Hr. destruct (ev_remote_ok _ _ _ _ evidence_sound r Hr) as (Hp & _). destruct plan_parts as (_ & _ & Hclean & _).
  destruct (Hclean _ Hp) as [_ [Hx _]]. rewrite <- kept_newest by done. destruct (Hx (rg_backup r)) as [?|(c & Hc & ?)]; [|by left|].
  - apply assoc_is_member. exists r. by apply (ev_remote _ _ _ _ evidence_sound).
  - right. exists c. split; [by apply plan_fields|done].
Qed.

Lemma replacement_spec x : x ∈ replacement_candidates plan -> exists c, in_catalog catalog (rc_profile x) (rc_backup x) c /\
  rc_profile x ∈ RETAINED_PROFILE_IDS /\ rc_backup x ∈ newest catalog (rc_profile x) /\
  rc_size x = _archive_size c /\ rc_sha256 x = cg_sha256 c /\ rc_path x = cg_path c /\ cg_protected c = true.
Proof.
  intros Hx. apply plan_fields in Hx. destruct plan_parts as (_ & _ & Hclean & Hf). apply (Hf _ d_replacements) in Hx as (p & Hp & Hx); [|done].
  destruct (last (kept e p)) as [oldest|] eqn:El; [|unfold profile_part in Hx; rewrite El in Hx; by apply elem_of_nil in Hx].
  apply (part_field e p oldest El d_replacements) in Hx; [|done]. destruct Hx as [(o & Ho & Hx)|[([i g] & Hk & Hx)|[([i g] & Hk & Hx)|([i g] & Hk & Hx)]]].
  - unfold orphan_step in Hx. case_match; by apply elem_of_nil in Hx.
  - apply local_elem in Hk as [Hi Hg]. unfold retained_step in Hx. destruct (assoc i (rows_of (e_remotes e) p)) as [r|].
    { repeat case_match; by apply elem_of_nil in Hx. }
    destruct (find_deleted _ _ _); [by apply elem_of_nil in Hx|]. destruct (cg_protected g) eqn:Ep; [|by apply elem_of_nil in Hx].
    cbn [negb] in Hx. destruct (_ || _); [by apply elem_of_nil in Hx|]. apply list_elem_of_singleton in Hx as ->. exists g. simpl. split_and!; try done.
    by rewrite <- kept_newest.
  - unfold older_step in Hx. repeat case_match; by apply elem_of_nil in Hx.
  - unfold absent_step in Hx. repeat case_match; by apply elem_of_nil in Hx.
Qed.

(** *** Flags and rows *)

Lemma correction_spec k : k ∈ protected_flag_corrections plan ->
  (exists c, in_catalog catalog (co_profile k) (co_backup k) c) /\ co_protected k = bool_decide (co_backup k ∈ newest catalog (co_profile k)).
Proof.
  intros Hk. apply plan_fields in Hk. destruct plan_parts as (_ & _ & Hclean & Hf). apply (Hf _ d_corrections) in Hk as (p & Hp & Hk); [|done].
  destruct (last (kept e p)) as [oldest|] eqn:El; [|unfold profile_part in Hk; rewrite El in Hk; by apply elem_of_nil in Hk].
  apply (part_field e p oldest El d_corrections) in Hk; [|done]. destruct Hk as [(o & Ho & Hk)|[([i g] & Hx & Hk)|[([i g] & Hx & Hk)|([i g] & Hx & Hk)]]].
  - unfold orphan_step in Hk. case_match; by apply elem_of_nil in Hk.
  - apply local_elem in Hx as [Hi Hg]. rewrite kept_newest in Hi by done.
    assert (k = Correction p i true) as ->.
    { unfold retained_step in Hk. repeat case_match; simpl in Hk; try (by apply elem_of_nil in Hk); by apply list_elem_of_singleton in Hk. }
    simpl. split; [eauto|]. by rewrite bool_decide_eq_true_2.
  - apply local_elem in Hx as [[_ Hi]%others_elem Hg]. rewrite kept_newest in Hi by done. assert (k = Correction p i false) as ->.
    { unfold older_step in Hk. repeat case_match; simpl in Hk; try (by apply elem_of_nil in Hk); by apply list_elem_of_singleton in Hk. }
    simpl. split; [eauto|]. by rewrite bool_decide_eq_false_2.
  - apply local_elem in Hx as [[_ Hi]%others_elem Hg]. rewrite kept_newest in Hi by done. assert (k = Correction p i false) as ->.
    { unfold absent_step in Hk. repeat case_match; simpl in Hk; try (by apply elem_of_nil in Hk); by apply list_elem_of_singleton in Hk. }
    simpl. split; [eauto|]. by rewrite bool_decide_eq_false_2.
Qed.

(** What the steps of a catalog row show when nothing was refused. *)
Lemma kept_step p i c : p ∈ RETAINED_PROFILE_IDS -> in_catalog catalog p i c -> i ∈ newest catalog p ->
  clean (retained_step e p nothing (i, c)) /\
  forall B (g : draft -> list B) y, field g -> y ∈ g (retained_step e p nothing (i, c)) -> y ∈ g D.
Proof.
  intros Hp Hc Hi. destruct plan_parts as (_ & _ & Hclean & Hf). destruct (catalog_has_kept p i c Hc) as [oldest El].
  assert (Hx : (i, c) ∈ select (rows_of (e_catalogs e) p) (kept e p)) by (apply local_elem; by rewrite kept_newest).
  split; [by apply (part_clean e p oldest El (proj1 (Hclean p Hp)))|]. intros B g y Hg Hy. apply (Hf _ g y Hg). exists p. split; [done|].
  apply (part_field e p oldest El g y Hg). right. left. eauto.
Qed.
Lemma other_step p i c : p ∈ RETAINED_PROFILE_IDS -> in_catalog catalog p i c -> i ∉ newest catalog p ->
  clean (older_step e p nothing (i, c)) /\ clean (absent_step e p nothing (i, c)) /\
  forall B (g : draft -> list B) y, field g -> y ∈ g (older_step e p nothing (i, c)) \/ y ∈ g (absent_step e p nothing (i, c)) -> y ∈ g D.
Proof.
  intros Hp Hc Hi. destruct plan_parts as (_ & _ & Hclean & Hf). destruct (catalog_has_kept p i c Hc) as [oldest El].
  assert (Hx : (i, c) ∈ select (rows_of (e_catalogs e) p) (others e p)).
  { apply local_elem. split; [|done]. apply others_elem. rewrite kept_newest by done. split; [|done]. apply assoc_is_member. exists c.
    by apply (ev_catalog _ _ _ _ evidence_sound). }
  destruct (part_clean e p oldest El (proj1 (Hclean p Hp))) as (_ & _ & H1 & H2).
  split_and!; [by apply H1|by apply H2|]. intros B g y Hg Hy. apply (Hf _ g y Hg). exists p. split; [done|].
  apply (part_field e p oldest El g y Hg). right. right. destruct Hy; [left|right]; eauto.
Qed.

Lemma correction_complete p i c : p ∈ RETAINED_PROFILE_IDS -> in_catalog catalog p i c ->
  cg_protected c <> bool_decide (i ∈ newest catalog p) -> Correction p i (bool_decide (i ∈ newest catalog p)) ∈ protected_flag_corrections plan.
Proof.
  intros Hp Hc Hne. apply plan_fields. case_bool_decide as Hi.
  - destruct (kept_step p i c Hp Hc Hi) as [Hcl Hin]. apply (Hin _ d_corrections); [done|]. unfold retained_step, clean in *.
    destruct (cg_protected c); [done|]. repeat case_match; simpl in *; try done; left.
  - destruct (other_step p i c Hp Hc Hi) as (Hc1 & Hc2 & Hin). apply (Hin _ d_corrections); [done|]. unfold older_step, absent_step, clean in *.
    destruct (cg_protected c); [|done]. destruct (assoc i (rows_of (e_remotes e) p)); simpl in *; [left|right].
    + repeat case_match; simpl in *; try done; left.
    + repeat case_match; simpl in *; try done; left.
Qed.

Lemma import_spec k : k ∈ imports plan -> exists c, in_catalog catalog (im_profile k) (im_backup k) c /\
  im_profile k ∈ RETAINED_PROFILE_IDS /\ im_backup k ∈ newest catalog (im_profile k) /\
  im_key k = _remote_key (im_profile k) (im_backup k) /\ im_sha256 k = cg_sha256 c.
Proof.
  intros Hk. apply plan_fields in Hk. destruct plan_parts as (_ & _ & Hclean & Hf). apply (Hf _ d_imports) in Hk as (p & Hp & Hk); [|done].
  destruct (last (kept e p)) as [oldest|] eqn:El; [|unfold profile_part in Hk; rewrite El in Hk; by apply elem_of_nil in Hk].
  apply (part_field e p oldest El d_imports) in Hk; [|done]. destruct Hk as [(o & Ho & Hk)|[([i g] & Hx & Hk)|[([i g] & Hx & Hk)|([i g] & Hx & Hk)]]].
  - unfold orphan_step in Hk. case_match; by apply elem_of_nil in Hk.
  - apply local_elem in Hx as [Hi Hg]. rewrite kept_newest in Hi by done. unfold retained_step in Hk.
    destruct (assoc i (rows_of (e_remotes e) p)) as [r|] eqn:Er; [|repeat case_match; by apply elem_of_nil in Hk].
    assert (k = Import p i (_archive_size g) (cg_sha256 g) (rg_key r)) as ->.
    { repeat case_match; simpl in Hk; try (by apply elem_of_nil in Hk); by apply list_elem_of_singleton in Hk. }
    apply (ev_remote _ _ _ _ evidence_sound) in Er as (Hr & E1 & E2). destruct (ev_remote_ok _ _ _ _ evidence_sound r Hr) as (_ & _ & Hkey & _).
    exists g. simpl. split_and!; try done. by rewrite Hkey, E1, E2.
  - unfold older_step in Hk. repeat case_match; by apply elem_of_nil in Hk.
  - unfold absent_step in Hk. repeat case_match; by apply elem_of_nil in Hk.
Qed.

(** A kept generation has its row or gets it. *)
Lemma kept_row_spec p i c : p ∈ RETAINED_PROFILE_IDS -> in_catalog catalog p i c -> i ∈ newest catalog p ->
  (exists x, x ∈ protections /\ is_deleted x = false /\ pr_profile x = p /\ pr_backup x = i) \/
  (exists k, k ∈ imports plan /\ im_profile k = p /\ im_backup k = i) \/
  (exists x, x ∈ replacement_candidates plan /\ rc_profile x = p /\ rc_backup x = i).
Proof.
  intros Hp Hc Hi. destruct (kept_step p i c Hp Hc Hi) as [Hcl Hin]. unfold retained_step, clean in *.
  destruct (assoc i (rows_of (e_remotes e) p)) as [r|] eqn:Er.
  - destruct (assoc i (rows_of (e_protections e) p)) as [x|] eqn:Ex.
    + left. apply (ev_protection _ _ _ _ evidence_sound) in Ex as (? & ? & ? & ?). eauto 6.
    + right. left. destruct (find_deleted _ _ _) eqn:Ed; [repeat case_match; done|].
      exists (Import p i (_archive_size c) (cg_sha256 c) (rg_key r)). split; [|done]. apply plan_fields. apply (Hin _ d_imports); [done|].
      repeat case_match; simpl; left.
  - right. right. exists (Replacement p i (_archive_size c) (cg_sha256 c) (cg_path c)). split; [|done]. apply plan_fields. apply (Hin _ d_replacements); [done|].
    repeat case_match; simpl in *; try done; left.
Qed.

Lemma pruned_spec k : k ∈ pruned_protection_corrections plan -> exists c x, in_catalog catalog (pp_profile k) (pp_backup k) c /\
  pp_profile k ∈ RETAINED_PROFILE_IDS /\ pp_backup k ∉ newest catalog (pp_profile k) /\ x ∈ protections /\ is_deleted x = false /\
  pr_profile x = pp_profile k /\ pr_backup x = pp_backup k /\ pr_key x = pp_key k /\ pp_sha256 k = cg_sha256 c /\
  (forall r, r ∈ remote -> ~ (rg_profile r = pp_profile k /\ rg_backup r = pp_backup k)).
Proof.
  intros Hk. apply plan_fields in Hk. destruct plan_parts as (_ & _ & Hclean & Hf). apply (Hf _ d_pruned) in Hk as (p & Hp & Hk); [|done].
  destruct (last (kept e p)) as [oldest|] eqn:El; [|unfold profile_part in Hk; rewrite El in Hk; by apply elem_of_nil in Hk].
  apply (part_field e p oldest El d_pruned) in Hk; [|done]. destruct Hk as [(o & Ho & Hk)|[([i g] & Hx & Hk)|[([i g] & Hx & Hk)|([i g] & Hx & Hk)]]].
  - unfold orphan_step in Hk. case_match; by apply elem_of_nil in Hk.
  - unfold retained_step in Hk. repeat case_match; by apply elem_of_nil in Hk.
  - unfold older_step in Hk. repeat case_match; by apply elem_of_nil in Hk.
  - apply local_elem in Hx as [[_ Hi]%others_elem Hg]. rewrite kept_newest in Hi by done. unfold absent_step in Hk.
    case_bool_decide as Hr; [by apply elem_of_nil in Hk|]. destruct (assoc i (rows_of (e_protections e) p)) as [x|] eqn:Ex.
    2: { repeat case_match; by apply elem_of_nil in Hk. }
    assert (k = Pruned p i (pr_key x) (cg_sha256 g)) as -> by (case_match; by apply list_elem_of_singleton in Hk). simpl.
    apply (ev_protection _ _ _ _ evidence_sound) in Ex as (Hx & E1 & E2 & Hd). exists g, x. split_and!; try done.
    intros r Hr' [E3 E4]. destruct Hr. exists r. by apply (ev_remote _ _ _ _ evidence_sound).
Qed.

(** A row of a generation that is not kept is closed. *)
Lemma other_row_spec x : x ∈ protections -> is_deleted x = false -> pr_backup x ∉ newest catalog (pr_profile x) ->
  (exists c, c ∈ prune_candidates plan /\ pc_orphan c = false /\ pc_profile c = pr_profile x /\ pc_backup c = pr_backup x) \/
  (exists k, k ∈ pruned_protection_corrections plan /\ pp_profile k = pr_profile x /\ pp_backup k = pr_backup x).
Proof.
  intros Hx Hd Hi. destruct (ev_protection_ok _ _ _ _ evidence_sound x Hx) as (Hp & _ & Hok). destruct (Hok Hd) as (c & Hc & _).
  destruct (other_step _ _ c Hp Hc Hi) as (Hc1 & Hc2 & Hin). unfold older_step, absent_step, clean in *.
  assert (Ex : assoc (pr_backup x) (rows_of (e_protections e) (pr_profile x)) = Some x) by (apply (ev_protection _ _ _ _ evidence_sound); by split_and!).
  rewrite Ex in *. destruct (assoc (pr_backup x) (rows_of (e_remotes e) (pr_profile x))) as [r|] eqn:Er.
  - left. exists (Prune (pr_profile x) (pr_backup x) (_archive_size c) (cg_sha256 c) false (rg_key r)). split; [|done]. apply plan_fields.
    apply (Hin _ d_candidates); [done|]. left. repeat case_match; simpl in *; try done; left.
  - right. exists (Pruned (pr_profile x) (pr_backup x) (pr_key x) (cg_sha256 c)). split; [|done]. apply plan_fields.
    apply (Hin _ d_pruned); [done|]. right. simpl. destruct (cg_protected c); simpl; left.
Qed.

(** A closed row is not one of a kept generation. *)
Lemma deleted_not_kept x : x ∈ protections -> is_deleted x = true -> (forall y, y ∈ protections -> pr_backup y = pr_backup x -> y = x) ->
  pr_backup x ∉ newest catalog (pr_profile x).
Proof.
  intros Hx Hd Hu Hi. destruct plan_parts as (_ & Hdel & _). assert (He : x ∈ e_deleted e) by by apply (ev_deleted _ _ _ _ evidence_sound).
  destruct (Hdel x He) as [c Hc]. destruct (ev_protection_ok _ _ _ _ evidence_sound x Hx) as (Hp & _ & _).
  destruct (kept_step _ _ c Hp Hc Hi) as [Hcl _]. unfold retained_step, clean in Hcl.
  destruct (assoc (pr_backup x) (rows_of (e_protections e) (pr_profile x))) as [y|] eqn:Ey.
  { apply (ev_protection _ _ _ _ evidence_sound) in Ey as (Hy & _ & E & Hyd). apply (Hu y Hy) in E as ->. congruence. }
  destruct (find_deleted (pr_profile x) (pr_backup x) (e_deleted e)) as [z|] eqn:Ez.
  - repeat case_match; simpl in Hcl; try done.
  - unfold find_deleted in Ez. eapply find_none in Ez; [|by apply list_elem_of_In]. by rewrite !String.eqb_refl in Ez.
Qed.
End Ready.
