(* ===== verification/ReconcileSteps.v ===== *)
(** The steps of a reconciliation: what a capture learns, and what the uploads, the
    deletions and the transaction change. *)
From S2P Require Import Prelude Fault Backups Reconcile ReconcileApply ReconcileFacts ReconcilePlan.

(** ** Keys *)

Lemma append_suffix_inj (a b s : string) : (a ++ s = b ++ s)%string -> a = b.
Proof.
  assert (Hlen : forall x y, String.length (x ++ y)%string = (String.length x + String.length y)%nat).
  { induction x as [|c x IH]; intros y; [done|]. change (S (String.length (x ++ y)) = S (String.length x + String.length y))%nat. by rewrite IH. }
  revert b. induction a as [|c a IH]; intros [|c' b] E; [done| | |].
  - apply (f_equal String.length) in E. rewrite !Hlen in E. simpl in E. lia.
  - apply (f_equal String.length) in E. rewrite !Hlen in E. simpl in E. lia.
  - change (String c (a ++ s) = String c' (b ++ s))%string in E. injection E as -> E. f_equal. by apply IH.
Qed.

Lemma key_inj p i q j : p ∈ RETAINED_PROFILE_IDS -> q ∈ RETAINED_PROFILE_IDS -> _remote_key p i = _remote_key q j -> p = q /\ i = j.
Proof.
  intros Hp Hq E. assert (p = q) as ->.
  { unfold RETAINED_PROFILE_IDS in Hp, Hq. repeat (apply elem_of_cons in Hp as [-> |Hp]); try (by apply elem_of_nil in Hp);
      repeat (apply elem_of_cons in Hq as [-> |Hq]); try (by apply elem_of_nil in Hq); try done; by vm_compute in E. }
  split; [done|]. unfold _remote_key, remote_key in E. apply String.app_inj in E. apply String.app_inj in E. by eapply append_suffix_inj.
Qed.

(** ** Loops and lifted calls *)

Lemma ftri_ffold {A B} (I : list A -> B -> rstate -> Prop) (f : B -> A -> FM rstate B) l b E :
  (forall pre a post b, l = pre ++ a :: post -> ftri (I pre b) (f b a) (fun b' => I (pre ++ [a]) b') E) ->
  ftri (I [] b) (ffold f b l) (fun b' => I l b') E.
Proof.
  assert (H : forall post pre b, l = pre ++ post ->
    (forall pre a post b, l = pre ++ a :: post -> ftri (I pre b) (f b a) (fun b' => I (pre ++ [a]) b') E) ->
    ftri (I pre b) (ffold f b post) (fun b' => I l b') E); [|intros Hf; by apply (H l [])].
  induction post as [|a post IH]; intros pre b0 -> Hf; simpl.
  - apply ftri_ret. intros s. by rewrite app_nil_r.
  - eapply ftri_bind; [by eapply Hf|]. intros b'. apply IH; [by rewrite <- app_assoc|done].
Qed.

Definition at_remote (r : gmap string string) (s : rstate) : rstate := RState (x_db s) r (x_files s).

Lemma on_objects_at {A} (m : FM (gmap string string) A) s1 Q E :
  ftri (fun r => r = x_remote s1) m Q E ->
  ftri (fun s => s = s1) (on_objects m) (fun a s => exists r, s = at_remote r s1 /\ Q a r) (fun x s => exists r, s = at_remote r s1 /\ E x r).
Proof.
  intros H s n ->. specialize (H (x_remote s1) n eq_refl). unfold on_objects. simpl. destruct (m (x_remote s1, n)) as [[x|a] [r k]]; eexists; by split.
Qed.
Lemma at_remote_self s : at_remote (x_remote s) s = s.
Proof. by destruct s. Qed.

(** A computation that only reads. *)
Definition only_reads {A} (m : FM rstate A) : Prop := forall s1, ftri (fun s => s = s1) m (fun _ s => s = s1) (fun _ s => s = s1).

Lemma only_reads_bind {A B} (m : FM rstate A) (k : A -> FM rstate B) : only_reads m -> (forall a, only_reads (k a)) -> only_reads (m ≫= k).
Proof. intros Hm Hk s1. eapply ftri_bind; [apply Hm|]. intros a. apply Hk. Qed.

Section Steps.
Context {T : Transport} {TL : TransportPromises} (fault : nat -> option fexc).
Context (sha256 : string -> string) (tar_manifest : string -> option string) (parse_json : string -> option json).

Lemma list_at p s1 : ftri (fun s => s = s1) (on_objects (v_list p))
  (fun l s => s = s1 /\ forall k n, Object k n ∈ l <-> exists c, x_remote s1 !! k = Some c /\ n = size_of c /\ String.prefix (p ++ "/") k = true)
  (fun _ s => s = s1).
Proof.
  eapply ftri_conseq; [apply (on_objects_at _ s1), v_list_law|done| |]; simpl.
  - intros l s (r & -> & -> & H). split; [apply at_remote_self|done].
  - intros x s (r & -> & ->). apply at_remote_self.
Qed.
Lemma verify_at c k s1 : ftri (fun s => s = s1) (on_objects (v_verify c k)) (fun _ s => s = s1 /\ x_remote s1 !! k = Some c) (fun _ s => s = s1).
Proof.
  eapply ftri_conseq; [apply (on_objects_at _ s1), v_verify_law|done| |]; simpl.
  - intros l s (r & -> & -> & H). split; [apply at_remote_self|done].
  - intros x s (r & -> & ->). apply at_remote_self.
Qed.
Lemma download_at k s1 : ftri (fun s => s = s1) (on_objects (v_download k)) (fun c s => s = s1 /\ x_remote s1 !! k = Some c) (fun _ s => s = s1).
Proof.
  eapply ftri_conseq; [apply (on_objects_at _ s1), v_download_law|done| |]; simpl.
  - intros l s (r & -> & -> & H). split; [apply at_remote_self|done].
  - intros x s (r & -> & ->). apply at_remote_self.
Qed.

Lemma ftri_guard_at b code s1 : ftri (fun s : rstate => s = s1) (guard b code) (fun _ s => s = s1 /\ b = true) (fun _ s => s = s1).
Proof. destruct b; [by apply ftri_ret|by apply ftri_throw]. Qed.
Lemma guard_then {B} b code s1 (k : FM rstate B) Q (E : fexc -> rstate -> Prop) : (forall x, E x s1) ->
  (b = true -> ftri (fun s => s = s1) k Q E) -> ftri (fun s => s = s1) (guard b code ;; k) Q E.
Proof. intros HE Hk. apply ftri_guard_then; [by intros s ->|done]. Qed.
Lemma step_then {B} s1 (k : FM rstate B) Q (E : fexc -> rstate -> Prop) : (forall x, E x s1) ->
  ftri (fun s => s = s1) k Q E -> ftri (fun s => s = s1) (step fault ;; k) Q E.
Proof. intros HE Hk. eapply ftri_seq; [apply ftri_step; by intros x s ->|done]. Qed.

Lemma reads_step : only_reads (step fault).
Proof. intros s1. apply ftri_step. by intros x s ->. Qed.
Lemma only_reads_guard b c : only_reads (guard b c).
Proof. intros s1. apply ftri_guard. by intros s ->. Qed.
Lemma reads_raise {A} (r : fexc + A) : only_reads (raise_on r).
Proof. intros s1. destruct r; [by apply ftri_throw|by apply ftri_ret]. Qed.
Lemma reads_throw {A} x : only_reads (fthrow x : FM rstate A).
Proof. intros s1. by apply ftri_throw. Qed.
Lemma reads_refuse {A} m : only_reads (refuse_with m : FM rstate A).
Proof. apply reads_throw. Qed.
Lemma only_reads_ret {A} (a : A) : only_reads (mret a).
Proof. intros s1. by apply ftri_ret. Qed.
Lemma only_reads_read {A} (f : rstate -> A) : only_reads (read f).
Proof. intros s1 s n ->. done. Qed.
Lemma reads_verify c k : only_reads (on_objects (v_verify c k)).
Proof. intros s1. eapply ftri_conseq; [apply (verify_at _ _ s1)|done|by intros a s [? _]|done]. Qed.
Lemma reads_download k : only_reads (on_objects (v_download k)).
Proof. intros s1. eapply ftri_conseq; [apply (download_at _ s1)|done|by intros a s [? _]|done]. Qed.
Lemma reads_except {A} (m : FM rstate A) h : only_reads m -> (forall x, only_reads (h x)) -> only_reads (fexcept m h).
Proof. intros Hm Hh s1. eapply ftri_except; [apply Hm|intros x _; apply Hh|done]. Qed.
#[local] Hint Resolve reads_step only_reads_guard reads_raise reads_throw reads_refuse only_reads_ret only_reads_read reads_verify reads_download : reads.

Ltac only_reads_tac :=
  repeat first [apply only_reads_bind; [|intros ?] | apply reads_except; [|intros ?] | progress case_match | progress eauto with reads].

Lemma reads_metadata path : only_reads (_local_archive_metadata fault sha256 path).
Proof. unfold _local_archive_metadata. only_reads_tac. Qed.
Lemma reads_validate path p i : only_reads (_validate_archive_manifest fault tar_manifest parse_json path p i).
Proof. unfold _validate_archive_manifest, refuse_with, fail. only_reads_tac. Qed.
#[local] Hint Resolve reads_metadata reads_validate : reads.
Lemma reads_download_manifest o p i : only_reads (_download_and_verify_manifest fault sha256 tar_manifest parse_json o p i).
Proof. unfold _download_and_verify_manifest, as_safe, refuse_with, fail. only_reads_tac. Qed.
Lemma reads_staged o p i path : only_reads (_verify_staged_manifest fault sha256 tar_manifest parse_json o p i path).
Proof. unfold _verify_staged_manifest, as_safe, refuse_with, fail. only_reads_tac. Qed.

(** The metadata that is read. *)
Lemma metadata_at path s1 (E : fexc -> rstate -> Prop) : (forall x, E x s1) ->
  ftri (fun s => s = s1) (_local_archive_metadata fault sha256 path) (fun m s => s = s1 /\ m = metadata_of sha256 (x_files s1 !! path)) E.
Proof. intros HE. apply step_then; [done|]. apply ftri_read_at. by apply ftri_ret. Qed.

(** *** The capture *)

Definition gen_of (s : rstate) (r : CatalogRow) : CatalogGeneration :=
  let m := metadata_of sha256 (x_files s !! local_path (cr_profile r) (cr_id r)) in
  Catalog (cr_id r) (cr_profile r) (cr_size r) (snd m) (cr_verified r) (cr_protected r) (Some (fst m)) (Some (local_path (cr_profile r) (cr_id r))).

Lemma catalog_at s1 : ftri (fun s => s = s1) (captured_catalog fault sha256 tar_manifest parse_json)
  (fun l s => s = s1 /\ l = map (gen_of s1) (scoped_rows (x_db s1))) (fun _ s => s = s1).
Proof.
  apply ftri_read_at. apply (ftri_pre _ (fun s => s = s1 /\ [] = map (gen_of s1) [])); [|by intros s ->].
  apply (ftri_ffold (fun pre acc s => s = s1 /\ acc = map (gen_of s1) pre)). intros pre r post acc _. apply ftri_pure. intros ->.
  eapply ftri_bind; [by apply (metadata_at _ s1)|]. intros m. apply ftri_pure. intros ->.
  apply (ftri_seq _ _ _ (fun s => s = s1)); [case_match; [apply reads_validate|by apply ftri_ret]|].
  apply ftri_ret. intros s ->. split; [done|]. by rewrite map_app.
Qed.

(** A captured object is there; one that is in the catalog is equal to the local archive
    when it has its digest. *)
Definition captured (catalog : list CatalogGeneration) (s : rstate) (p : string) (o : RemoteObject) (g : RemoteGeneration) : Prop :=
  rg_profile g = p /\ rg_key g = ob_key o /\ rg_size g = ob_size o /\ rg_backup g = _remote_backup_id (ob_key o) (b2_prefix p) /\
  forall c, find_catalog p (rg_backup g) catalog = Some c -> rg_sha256 g <> EmptyString ->
    exists path content, cg_path c = Some path /\ x_files s !! path = Some content /\ x_remote s !! ob_key o = Some content.

Lemma object_at catalog p o s1 : ftri (fun s => s = s1) (captured_object fault sha256 tar_manifest parse_json catalog p o)
  (fun g s => s = s1 /\ captured catalog s1 p o g) (fun _ s => s = s1).
Proof.
  unfold captured_object. destruct (find_catalog p _ catalog) as [c|] eqn:Ec.
  - apply (ftri_bind _ _ _ (fun d s => s = s1 /\ (fst d <> EmptyString ->
      exists path content, cg_path c = Some path /\ x_files s1 !! path = Some content /\ x_remote s1 !! ob_key o = Some content))).
    + case_match; [|by apply ftri_ret]. eapply (ftri_except _ _ _ _ _ (fun _ s => s = s1)); [| |done].
      * apply step_then; [done|]. apply ftri_read_at. destruct (cg_path c) as [path|] eqn:Ep; [|intros s n ->; done].
        destruct (x_files s1 !! path) as [content|] eqn:Ef; [|intros s n ->; done].
        eapply ftri_bind; [apply (verify_at _ _ s1)|]. intros ?. apply ftri_ret. intros s [-> Hv]. split; [done|]. eauto.
      * intros x _. destruct x; try (by apply ftri_throw). by apply ftri_ret.
    + intros [d method]. intros s n [-> H]. split; [done|]. split_and!; try done. simpl. intros c' Hc'. simplify_eq. apply H.
  - apply ftri_read_at. case_match.
    + eapply ftri_bind; [apply (reads_staged _ _ _ _ s1)|]. intros [[[pp b] d] n]. apply ftri_ret. intros s ->. split; [done|]. split_and!; try done.
      simpl. intros c Hc. congruence.
    + eapply ftri_bind; [apply (reads_download_manifest _ _ _ s1)|]. intros [[[pp b] d] n]. apply ftri_ret. intros s ->. split; [done|]. split_and!; try done.
      simpl. intros c Hc. congruence.
Qed.

(** Every object of a fixed prefix is captured. *)
Definition captured_all (catalog : list CatalogGeneration) (s : rstate) (ps : list string) (l : list RemoteGeneration) : Prop :=
  (forall g, g ∈ l -> exists p o, p ∈ ps /\ captured catalog s p o g /\
     exists c, x_remote s !! ob_key o = Some c /\ ob_size o = size_of c) /\
  (forall p k c, p ∈ ps -> x_remote s !! k = Some c -> String.prefix (b2_prefix p ++ "/") k = true -> exists g, g ∈ l /\ rg_profile g = p /\ rg_key g = k).

Definition captured_from (catalog : list CatalogGeneration) (s : rstate) (p : string) (acc : list RemoteGeneration) (objects : list RemoteObject) (l : list RemoteGeneration) : Prop :=
  (forall g, g ∈ l -> g ∈ acc \/ exists o, o ∈ objects /\ captured catalog s p o g) /\ (forall g, g ∈ acc -> g ∈ l) /\
  forall o, o ∈ objects -> exists g, g ∈ l /\ captured catalog s p o g.

Lemma objects_at catalog p acc objects s1 : ftri (fun s => s = s1)
  (ffold (fun acc item => r ← captured_object fault sha256 tar_manifest parse_json catalog p item; mret (acc ++ [r])) acc objects)
  (fun l s => s = s1 /\ captured_from catalog s1 p acc objects l) (fun _ s => s = s1).
Proof.
  apply (ftri_pre _ (fun s => s = s1 /\ captured_from catalog s1 p acc [] acc)).
  2: { intros s ->. split; [done|]. split_and!; [by left|done|by intros o ?%elem_of_nil]. }
  apply (ftri_ffold (fun pre l s => s = s1 /\ captured_from catalog s1 p acc pre l)). intros pre o rest l _. apply ftri_pure. intros (H1 & H2 & H3).
  eapply ftri_bind; [apply (object_at catalog p o s1)|]. intros g. apply ftri_ret. intros s [-> Hg]. split; [done|]. split_and!; [|set_solver|].
  - intros h [Hh| ->%list_elem_of_singleton]%elem_of_app; [|right; exists o; split; [set_solver|done]].
    destruct (H1 h Hh) as [?|(o' & ? & ?)]; [by left|right; exists o'; split; [set_solver|done]].
  - intros o' [Ho'| ->%list_elem_of_singleton]%elem_of_app; [|exists g; split; [set_solver|done]].
    destruct (H3 o' Ho') as (h & ? & ?). exists h. split; [set_solver|done].
Qed.

Lemma captured_more catalog s p pre acc objects l : captured_all catalog s pre acc -> captured_from catalog s p acc objects l ->
  (forall k n, Object k n ∈ objects <-> exists c, x_remote s !! k = Some c /\ n = size_of c /\ String.prefix (b2_prefix p ++ "/") k = true) ->
  captured_all catalog s (pre ++ [p]) l.
Proof.
  intros [A1 A2] (H1 & H2 & H3) Hl. split.
  - intros g Hg. destruct (H1 g Hg) as [Hg'|(o & Ho & Hg')].
    + destruct (A1 g Hg') as (q & o & Hq & ?). exists q, o. split; [set_solver|done].
    + destruct o as [key size]. exists p, (Object key size). apply Hl in Ho as (c & Hc & Hs & _). split_and!; [set_solver|done|]. exists c. done.
  - intros q key c [Hq| ->%list_elem_of_singleton]%elem_of_app Hc Hpre.
    + destruct (A2 q key c Hq Hc Hpre) as (g & Hg & ?). exists g. split; [by apply H2|done].
    + destruct (H3 (Object key (size_of c))) as (g & Hg & Hcap); [apply Hl; eauto|]. destruct Hcap as (E1 & E2 & _). exists g. by split_and!.
Qed.

Lemma remote_at catalog s1 : ftri (fun s => s = s1) (captured_remote fault sha256 tar_manifest parse_json catalog)
  (fun l s => s = s1 /\ captured_all catalog s1 RETAINED_PROFILE_IDS l) (fun _ s => s = s1).
Proof.
  apply (ftri_pre _ (fun s => s = s1 /\ captured_all catalog s1 [] [])).
  2: { intros s ->. split; [done|]. split; [by intros g ?%elem_of_nil|by intros p k c ?%elem_of_nil]. }
  apply (ftri_ffold (fun pre acc s => s = s1 /\ captured_all catalog s1 pre acc)). intros pre p post acc _. apply ftri_pure. intros Hacc.
  eapply ftri_bind; [apply (list_at (b2_prefix p) s1)|]. intros objects. apply ftri_pure. intros Hl.
  eapply ftri_conseq; [apply (objects_at catalog p acc objects s1)|done| |done]. intros l s [-> Hf]. split; [done|]. by eapply captured_more.
Qed.

(** *** The plan *)

Definition protections_of (db : database) : list ProtectionRecord :=
  List.filter (fun p => bool_decide (pr_profile p ∈ RETAINED_PROFILE_IDS)) (map snd (map_to_list (db_protections db))).

Definition in_scope (db : database) : Prop :=
  (forall r, r ∈ db_rows db -> cr_profile r ∈ RETAINED_PROFILE_IDS) /\
  (forall i x, db_protections db !! i = Some x -> pr_profile x ∈ RETAINED_PROFILE_IDS).

Definition planned (s : rstate) (plan : ReconciliationPlan) : Prop := exists remote,
  let catalog := map (gen_of s) (scoped_rows (x_db s)) in
  plan = reconcile catalog (protections_of (x_db s)) remote true /\ in_scope (x_db s) /\ captured_all catalog s RETAINED_PROFILE_IDS remote.

Lemma build_at s1 : ftri (fun s => s = s1) (build_fixed_plan fault sha256 tar_manifest parse_json)
  (fun plan s => s = s1 /\ planned s1 plan) (fun _ s => s = s1).
Proof.
  apply (ftri_seq _ _ _ (fun s => s = s1 /\ in_scope (x_db s1))).
  { apply ftri_read_at. eapply ftri_conseq; [apply (ftri_guard_at _ _ s1)|done| |done]. intros ? s [-> H]. split; [done|]. to_prop.
    rewrite forallb_forall in *. split.
    - intros r Hr. specialize (H r ltac:(by apply list_elem_of_In)). simpl in H. by to_prop.
    - intros i x Hx. specialize (H0 (i, x)). simpl in H0. rewrite <- list_elem_of_In in H0. apply elem_of_map_to_list in Hx. specialize (H0 Hx). by to_prop. }
  apply ftri_pure. intros Hscope. eapply ftri_bind; [apply (catalog_at s1)|]. intros catalog. apply ftri_pure. intros ->.
  eapply ftri_bind; [apply ftri_read_at; apply (ftri_ret _ _ (fun l s => s = s1 /\ l = protections_of (x_db s1))); by intros s ->|].
  intros prots. apply ftri_pure. intros ->. eapply ftri_bind; [apply (remote_at _ s1)|]. intros remote. apply ftri_pure. intros Hr.
  apply ftri_ret. intros s ->. split; [done|]. by exists remote.
Qed.
End Steps.
