(* ===== verification/ReconcileRun.v ===== *)
(** A reconciliation that applies its plan: the archives at every point of it. *)
From S2P Require Import Prelude Fault Backups Reconcile ReconcileApply ReconcileFacts ReconcilePlan ReconcileSteps.

(** The generations of a profile the database keeps. *)
Definition newest_of (db : database) (p : string) : list string :=
  take RETENTION (newest_first (map cr_id (List.filter (fun r => String.eqb (cr_profile r) p) (db_rows db)))).

Lemma gen_ge_antisym a b : gen_ge a b -> gen_ge b a -> a = b.
Proof.
  unfold gen_ge, gen_leb. rewrite (String.eqb_sym (_backup_generation a)). destruct (String.eqb_spec (_backup_generation b) (_backup_generation a)) as [E|E]; intros H1 H2.
  - by apply str_leb_antisym.
  - destruct E. by apply str_leb_antisym.
Qed.
Lemma newest_first_perm l l' : l ≡ₚ l' -> newest_first l = newest_first l'.
Proof.
  intros H. eapply (StronglySorted_unique_strong gen_ge).
  - intros a b _ _. apply gen_ge_antisym.
  - apply (StronglySorted_merge_sort gen_ge).
  - apply (StronglySorted_merge_sort gen_ge).
  - unfold newest_first. by rewrite !merge_sort_Permutation.
Qed.

Lemma filter_perm {A} (f : A -> bool) l l' : l ≡ₚ l' -> List.filter f l ≡ₚ List.filter f l'.
Proof.
  induction 1 as [|x l l' _ IH|x y l|l l' l'' _ IH1 _ IH2]; simpl; [done|case_match; [by constructor|done]| |by etransitivity].
  repeat case_match; first [apply Permutation_swap|reflexivity].
Qed.

Section Inventory.
Context {T : Transport} {TL : TransportPromises}.

(** ** The inventory *)

Definition inventory_of (s : rstate) (ps : list string) (inv : gmap string Z) : Prop := forall k n,
  inv !! k = Some n -> exists p c, p ∈ ps /\ x_remote s !! k = Some c /\ n = size_of c /\ String.prefix (b2_prefix p ++ "/") k = true.
Definition inventory_all (s : rstate) (ps : list string) (inv : gmap string Z) : Prop := forall p k c,
  p ∈ ps -> x_remote s !! k = Some c -> String.prefix (b2_prefix p ++ "/") k = true -> inv !! k = Some (size_of c).

Lemma inventory_objects p inv objects s :
  ftri (fun s0 => s0 = s) (ffold (inventory_object p) inv objects)
    (fun inv' s0 => s0 = s /\ (forall k n, inv !! k = Some n -> inv' !! k = Some n) /\
       (forall k n, inv' !! k = Some n -> inv !! k = Some n \/ Object k n ∈ objects) /\ (forall k n, Object k n ∈ objects -> inv' !! k = Some n))
    (fun _ s0 => s0 = s).
Proof.
  apply (ftri_pre _ (fun s0 => s0 = s /\ (forall k n, inv !! k = Some n -> inv !! k = Some n) /\
       (forall k n, inv !! k = Some n -> inv !! k = Some n \/ Object k n ∈ []) /\ (forall k n, Object k n ∈ [] -> inv !! k = Some n))).
  2: { intros s0 ->. split_and!; [done|done|by left|by intros k n ?%elem_of_nil]. }
  apply (ftri_ffold (fun pre inv' s0 => s0 = s /\ (forall k n, inv !! k = Some n -> inv' !! k = Some n) /\
       (forall k n, inv' !! k = Some n -> inv !! k = Some n \/ Object k n ∈ pre) /\ (forall k n, Object k n ∈ pre -> inv' !! k = Some n))).
  intros pre o post inv' _. apply ftri_pure. intros (H1 & H2 & H3).
  do 3 (apply guard_then; [done|intros ?]). apply ftri_ret. intros s0 ->. to_prop. destruct o as [key size]. simpl in *.
  assert (Hfresh : inv' !! key = None) by (destruct (inv' !! key) eqn:Ek; [|done]; exfalso; eauto).
  split_and!; [done| | |].
  - intros k n Hk. destruct (decide (k = key)) as [->|]; [|rewrite lookup_insert_ne by done; auto]. apply H1 in Hk. congruence.
  - intros k n Hk. destruct (decide (k = key)) as [->|Hne]; [rewrite lookup_insert_eq in Hk; simplify_eq; right; set_solver|].
    rewrite lookup_insert_ne in Hk by done. destruct (H2 k n Hk); [by left|right; set_solver].
  - intros k n [Hk|Hk%list_elem_of_singleton]%elem_of_app; [|simplify_eq; apply lookup_insert_eq].
    destruct (decide (k = key)) as [->|]; [apply H3 in Hk; congruence|]. rewrite lookup_insert_ne by done. auto.
Qed.

Lemma inventory_at s : ftri (fun s0 => s0 = s) _fixed_inventory
  (fun inv s0 => s0 = s /\ inventory_of s RETAINED_PROFILE_IDS inv /\ inventory_all s RETAINED_PROFILE_IDS inv) (fun _ s0 => s0 = s).
Proof.
  apply (ftri_pre _ (fun s0 => s0 = s /\ inventory_of s [] ∅ /\ inventory_all s [] ∅)).
  2: { intros s0 ->. split_and!; [done|by intros k n|by intros p k c ?%elem_of_nil]. }
  apply (ftri_ffold (fun pre inv s0 => s0 = s /\ inventory_of s pre inv /\ inventory_all s pre inv)). intros pre p post inv _. apply ftri_pure. intros [H1 H2].
  eapply ftri_bind; [apply (list_at (b2_prefix p) s)|]. intros objects. apply ftri_pure. intros Hl.
  eapply ftri_conseq; [apply (inventory_objects p inv objects s)|done| |done]. intros inv' s0 (-> & G1 & G2 & G3). split_and!; [done| |].
  - intros k n Hk. destruct (G2 k n Hk) as [Hk'|Hk'].
    + destruct (H1 k n Hk') as (q & c & Hq & ?). exists q, c. split; [set_solver|done].
    + apply Hl in Hk' as (c & ? & ? & ?). exists p, c. split_and!; try done. set_solver.
  - intros q k c [Hq| ->%list_elem_of_singleton]%elem_of_app Hc Hpre; [by apply G1, (H2 q)|]. apply G3, Hl. eauto.
Qed.
End Inventory.

Section Run.
Context {T : Transport} {TL : TransportPromises} (fault : nat -> option fexc).
Context (sha256 : string -> string) (tar_manifest : string -> option string) (parse_json : string -> option json).
Context (s1 : rstate) (plan : ReconciliationPlan).
Hypothesis Hplan : planned sha256 s1 plan.
Hypothesis Hready : ready plan = true.
#[local] Abbreviation catalog := (map (gen_of sha256 s1) (scoped_rows (x_db s1))).
#[local] Abbreviation keep p := (newest_of (x_db s1) p).

Lemma catalog_ids_of p : catalog_ids catalog p ≡ₚ map cr_id (List.filter (fun r => String.eqb (cr_profile r) p) (db_rows (x_db s1))).
Proof.
  destruct Hplan as (remote & _ & [Hs _] & _). unfold catalog_ids. 
  assert (E : forall l, map cg_backup (List.filter (fun c => String.eqb (cg_profile c) p) (map (gen_of sha256 s1) l)) =
    map cr_id (List.filter (fun r => String.eqb (cr_profile r) p) l)).
  { induction l as [|r l IH]; [done|]. simpl. destruct (String.eqb (cr_profile r) p); simpl; by rewrite IH. }
  rewrite E. apply Permutation_map. unfold scoped_rows. 
  assert (Hf : List.filter (fun r => bool_decide (cr_profile r ∈ RETAINED_PROFILE_IDS)) (db_rows (x_db s1)) = db_rows (x_db s1)).
  { rewrite (filter_ext_in _ (fun _ => true)); [apply filter_true|]. intros r Hr. apply bool_decide_eq_true_2, Hs. by apply list_elem_of_In. }
  rewrite Hf. apply filter_perm, merge_sort_Permutation.
Qed.

Lemma newest_keep p : newest catalog p = keep p.
Proof. unfold newest, newest_of. by rewrite (newest_first_perm _ _ (catalog_ids_of p)). Qed.

Lemma row_in_catalog p i c : in_catalog catalog p i c <-> exists r, r ∈ db_rows (x_db s1) /\ cr_profile r = p /\ cr_id r = i /\ c = gen_of sha256 s1 r.
Proof.
  destruct Hplan as (remote & _ & [Hs _] & _). unfold in_catalog. rewrite list_elem_of_In, in_map_iff. split.
  - intros ((r & <- & Hr) & <- & <-). apply list_elem_of_In in Hr. unfold scoped_rows in Hr. rewrite merge_sort_Permutation in Hr.
    apply list_elem_of_In, filter_In in Hr as [Hr _]. apply list_elem_of_In in Hr. by exists r.
  - intros (r & Hr & <- & <- & ->). split; [|done]. exists r. split; [done|]. apply list_elem_of_In. unfold scoped_rows. rewrite merge_sort_Permutation.
    apply list_elem_of_In, filter_In. split; [by apply list_elem_of_In|]. by apply bool_decide_eq_true_2, Hs.
Qed.

(** A kept generation is at the remote, equal to its local archive. *)
Definition present (p i : string) (s : rstate) : Prop := exists content,
  x_files s1 !! local_path p i = Some content /\ x_remote s !! _remote_key p i = Some content.

Lemma keep_in_catalog p i : i ∈ keep p -> exists c, in_catalog catalog p i c.
Proof.
  intros Hi. apply newest_incl in Hi. apply list_elem_of_In, in_map_iff in Hi as (r & <- & Hr). apply filter_In in Hr as [Hr Hp%String.eqb_eq].
  exists (gen_of sha256 s1 r). apply row_in_catalog. exists r. split_and!; try done. by apply list_elem_of_In.
Qed.

Lemma find_catalog_some p i c : in_catalog catalog p i c -> exists c', find_catalog p i catalog = Some c' /\ in_catalog catalog p i c'.
Proof.
  intros (Hc & Hp & Hi). unfold find_catalog. set (l := List.filter _ _). assert (Hl : c ∈ l).
  { apply list_elem_of_In, filter_In. split; [by apply list_elem_of_In|]. by rewrite Hp, Hi, !String.eqb_refl. }
  destruct (last l) as [c'|] eqn:E; [|apply last_None in E; rewrite E in Hl; by apply elem_of_nil in Hl].
  exists c'. split; [done|]. apply last_Some_elem_of, list_elem_of_In, filter_In in E as [H1 H2]. to_prop. split_and!; try done. by apply list_elem_of_In.
Qed.

(** *** What the plan says of the state *)

Lemma evidence_present g : g ∈ remote_evidence plan -> rg_backup g ∈ keep (rg_profile g) -> present (rg_profile g) (rg_backup g) s1.
Proof.
  pose proof Hplan as (remote & E & _ & [Hcap _]). pose proof Hready as Hr. rewrite E in Hr. rewrite E. intros Hg Hi. apply (plan_fields _ _ _ Hr) in Hg.
  destruct (Hcap g Hg) as (p & o & Hp & (E1 & E2 & E3 & E4 & Hc) & _). destruct (keep_in_catalog _ _ Hi) as [c Hin].
  destruct (find_catalog_some _ _ _ Hin) as (c' & Hf & Hin'). destruct (ev_remote_ok _ _ _ _ (evidence_sound _ _ _ Hr) g Hg) as (_ & _ & Hkey & Hok).
  destruct (Hok c' Hin') as (_ & Hsha & Hre). subst p. destruct (Hc c' Hf) as (path & content & Hpath & Hfile & Hrem).
  { intros E'. by rewrite E' in Hre. }
  apply row_in_catalog in Hin' as (r & _ & Er1 & Er2 & ->). simpl in Hpath. injection Hpath as <-. rewrite Er1, Er2 in Hfile.
  exists content. split; [done|]. by rewrite <- Hkey, E2.
Qed.

Lemma kept_source p i : p ∈ RETAINED_PROFILE_IDS -> i ∈ keep p ->
  present p i s1 \/ exists x, x ∈ replacement_candidates plan /\ rc_profile x = p /\ rc_backup x = i.
Proof.
  intros Hp Hi. pose proof Hplan as (remote & E & _). pose proof Hready as Hr. rewrite E in Hr.
  destruct (kept_spec _ _ _ Hr p i Hp) as [(g & Hg & <- & <-)|H]; [by rewrite newest_keep| |right; by rewrite E].
  left. apply evidence_present; [|done]. rewrite E. by apply (plan_fields _ _ _ Hr).
Qed.

Lemma replacement_source x : x ∈ replacement_candidates plan -> rc_profile x ∈ RETAINED_PROFILE_IDS /\ rc_backup x ∈ keep (rc_profile x) /\
  rc_path x = Some (local_path (rc_profile x) (rc_backup x)).
Proof.
  pose proof Hplan as (remote & E & _). pose proof Hready as Hr. rewrite E in Hr. rewrite E. intros Hx.
  destruct (replacement_spec _ _ _ Hr x Hx) as (c & Hc & Hp & Hn & _ & _ & Hpath & _). rewrite newest_keep in Hn. split_and!; try done.
  apply row_in_catalog in Hc as (r & _ & E1 & E2 & ->). rewrite Hpath. simpl. by rewrite E1, E2.
Qed.

Lemma prune_key_free k : k ∈ prune_keys plan -> exists p i, p ∈ RETAINED_PROFILE_IDS /\ i ∉ keep p /\ k = _remote_key p i.
Proof.
  pose proof Hplan as (remote & E & _). pose proof Hready as Hr. rewrite E in Hr. unfold prune_keys. intros Hk.
  apply list_elem_of_In, in_map_iff in Hk as (c & <- & Hc%list_elem_of_In). rewrite E in Hc.
  destruct (candidate_spec _ _ _ Hr c Hc) as (Hp & Hn & (g & Hg & E1 & E2 & E3 & _) & _). rewrite newest_keep in Hn.
  exists (pc_profile c), (pc_backup c). split_and!; try done. rewrite <- E3. destruct (ev_remote_ok _ _ _ _ (evidence_sound _ _ _ Hr) g Hg) as (_ & _ & -> & _).
  by rewrite E1, E2.
Qed.

Lemma kept_not_pruned p i : p ∈ RETAINED_PROFILE_IDS -> i ∈ keep p -> _remote_key p i ∉ prune_keys plan.
Proof. intros Hp Hi Hk. apply prune_key_free in Hk as (q & j & Hq & Hj & E). apply key_inj in E as [<- <-]; done. Qed.

(** An archive the plan has seen is kept or pruned. *)
Lemma evidence_kept_or_pruned g : g ∈ remote_evidence plan ->
  (rg_profile g ∈ RETAINED_PROFILE_IDS /\ rg_backup g ∈ keep (rg_profile g) /\ rg_key g = _remote_key (rg_profile g) (rg_backup g)) \/ rg_key g ∈ prune_keys plan.
Proof.
  pose proof Hplan as (remote & E & _). pose proof Hready as Hr. rewrite E in Hr. rewrite E. intros Hg. apply (plan_fields _ _ _ Hr) in Hg.
  destruct (ev_remote_ok _ _ _ _ (evidence_sound _ _ _ Hr) g Hg) as (Hp & _ & Hkey & _).
  destruct (remote_spec _ _ _ Hr g Hg) as [Hn|(c & Hc & E1 & E2)].
  - left. rewrite newest_keep in Hn. by split_and!.
  - right. unfold prune_keys. apply list_elem_of_In, in_map_iff. exists c. split; [|by apply list_elem_of_In].
    destruct (candidate_spec _ _ _ Hr c Hc) as (_ & _ & (g' & Hg' & E1' & E2' & E3' & _) & _). rewrite <- E3'.
    destruct (ev_remote_ok _ _ _ _ (evidence_sound _ _ _ Hr) g' Hg') as (_ & _ & -> & _). by rewrite Hkey, E1', E2', E1, E2.
Qed.

(** ** The run *)

(** Every object comes from before or is the archive of a kept generation. *)
Definition known (s : rstate) : Prop := forall k c, x_remote s !! k = Some c ->
  x_remote s1 !! k = Some c \/ exists p i, p ∈ RETAINED_PROFILE_IDS /\ i ∈ keep p /\ k = _remote_key p i /\ x_files s1 !! local_path p i = Some c.
Definition same_store (s : rstate) : Prop := x_db s = x_db s1 /\ x_files s = x_files s1.

(** While archives are uploaded nothing disappears; while they are pruned all the kept
    ones are there. *)
Definition uploading (s : rstate) : Prop := same_store s /\ known s /\ forall k c, x_remote s1 !! k = Some c -> x_remote s !! k = Some c.
Definition all_present (s : rstate) : Prop := forall p i, p ∈ RETAINED_PROFILE_IDS -> i ∈ keep p -> present p i s.
Definition pruning (s : rstate) : Prop := same_store s /\ known s /\ all_present s /\
  forall k c, x_remote s1 !! k = Some c -> k ∉ prune_keys plan -> x_remote s !! k = Some c.

(** *** Uploads *)

Lemma upload_at c k s : ftri (fun s0 => s0 = s) (on_objects (v_upload c k))
  (fun _ s0 => exists r, s0 = at_remote r s /\ (forall k', k' <> k -> r !! k' = x_remote s !! k') /\ (r !! k = x_remote s !! k \/ (x_remote s !! k = None /\ r !! k = Some c)))
  (fun _ s0 => exists r, s0 = at_remote r s /\ (forall k', k' <> k -> r !! k' = x_remote s !! k') /\ (r !! k = x_remote s !! k \/ (x_remote s !! k = None /\ r !! k = Some c))).
Proof. apply on_objects_at. apply v_upload_law. Qed.

Lemma upload_grows c k (r : gmap string string) s : (forall k', k' <> k -> r !! k' = x_remote s !! k') -> (r !! k = x_remote s !! k \/ (x_remote s !! k = None /\ r !! k = Some c)) ->
  (forall k' c', x_remote s !! k' = Some c' -> r !! k' = Some c') /\ (forall k' c', r !! k' = Some c' -> x_remote s !! k' = Some c' \/ (k' = k /\ c' = c)).
Proof.
  intros H1 H2. split; intros k' c' H; (destruct (decide (k' = k)) as [->|Hne]; [|rewrite H1 in * by done; auto]); destruct H2 as [E|[E1 E2]]; rewrite ?E in *; auto; try congruence.
  right. split; [done|]. congruence.
Qed.

Definition replaced (pre : list ReplacementCandidate) (keys : gmap string Z) (s : rstate) : Prop :=
  uploading s /\ (forall x, x ∈ pre -> present (rc_profile x) (rc_backup x) s) /\
  (forall k, is_Some (keys !! k) -> exists x, x ∈ pre /\ k = _remote_key (rc_profile x) (rc_backup x)).

Lemma uploaded_one p i c (r : gmap string string) s : p ∈ RETAINED_PROFILE_IDS -> i ∈ keep p -> x_files s1 !! local_path p i = Some c -> uploading s ->
  (forall k', k' <> _remote_key p i -> r !! k' = x_remote s !! k') ->
  (r !! _remote_key p i = x_remote s !! _remote_key p i \/ (x_remote s !! _remote_key p i = None /\ r !! _remote_key p i = Some c)) ->
  uploading (at_remote r s) /\ forall q j, present q j s -> present q j (at_remote r s).
Proof.
  intros Hp Hi Hf (H1 & H2 & H3) R1 R2. destruct (upload_grows _ _ _ _ R1 R2) as [G1 G2]. split; [split_and!; [done| |]|].
  - intros k c' Hk. simpl in Hk. destruct (G2 k c' Hk) as [Hk'|[-> ->]]; [by apply H2|]. right. exists p, i. by split_and!.
  - intros k c' Hk. simpl. auto.
  - intros q j (content & ? & ?). exists content. split; [done|]. simpl. auto.
Qed.

Lemma replace_one_at before pre keys x s : x ∈ replacement_candidates plan -> replaced pre keys s ->
  ftri (fun s0 => s0 = s) (replace_one fault sha256 tar_manifest parse_json before keys x) (fun keys' => replaced (pre ++ [x]) keys') (fun _ => uploading).
Proof.
  intros Hx (Hu & Hpre & Hkeys). destruct (replacement_source x Hx) as (Hp & Hi & Hpath). unfold replace_one. rewrite Hpath. apply ftri_read_at.
  pose proof Hu as ((_ & Ef) & _). destruct (x_files s !! local_path _ _) as [content|] eqn:Ec; [|apply ftri_throw; by intros s0 ->].
  eapply ftri_bind; [by apply (metadata_at _ _ _ s)|]. intros m. apply ftri_pure. intros _. apply guard_then; [done|]. intros _.
  apply (ftri_seq _ _ _ (fun s0 => s0 = s)); [eapply ftri_conseq; [apply (reads_validate _ _ _ _ _ _ s)|done|done|by intros e s0 ->]|].
  assert (Hf : x_files s1 !! local_path (rc_profile x) (rc_backup x) = Some content) by by rewrite <- Ef.
  set (K := _remote_key (rc_profile x) (rc_backup x)).
  apply (ftri_seq _ _ _ (fun s0 => uploading s0 /\ forall q j, present q j s -> present q j s0)).
  { destruct (before !! K); [eapply ftri_conseq; [apply (ftri_guard_at _ _ s)|done|by intros e s0 [-> _]|by intros e s0 ->]|].
    eapply ftri_conseq; [apply (upload_at content K s)|done| |].
    - intros e s0 (r & -> & R1 & R2). by eapply uploaded_one.
    - intros e s0 (r & -> & R1 & R2). by eapply uploaded_one. }
  apply ftri_each. intros s0 (Hu' & Hpres). apply (ftri_bind _ _ _ (fun _ s2 => s2 = s0 /\ x_remote s0 !! K = Some content)).
  { eapply ftri_conseq; [apply (verify_at _ _ s0)|done|done|by intros e s2 ->]. }
  intros ?. apply ftri_ret. intros s2 [-> Hv]. split_and!; [done| |].
  - intros y [Hy| ->%list_elem_of_singleton]%elem_of_app; [by apply Hpres, Hpre|]. exists content. done.
  - intros k [v Hk]. destruct (decide (k = K)) as [->|Hne]; [exists x; split; [set_solver|done]|]. rewrite lookup_insert_ne in Hk by done.
    destruct (Hkeys k ltac:(eauto)) as (y & ? & ?). exists y. split; [set_solver|done].
Qed.

Lemma replace_all_at before s : uploading s ->
  ftri (fun s0 => s0 = s) (ffold (replace_one fault sha256 tar_manifest parse_json before) ∅ (replacement_candidates plan))
    (fun keys => replaced (replacement_candidates plan) keys) (fun _ => uploading).
Proof.
  intros Hu. apply (ftri_pre _ (replaced [] ∅)).
  2: { intros s0 ->. split_and!; [done|by intros x ?%elem_of_nil|by intros k []]. }
  apply (ftri_ffold (fun pre keys => replaced pre keys)). intros pre x post keys E. apply ftri_each. intros s0 H. apply (replace_one_at before pre keys x s0); [|done].
  rewrite E. set_solver.
Qed.

(** *** Deletions *)

Lemma delete_at k s : ftri (fun s0 => s0 = s) (on_objects (v_delete k)) (fun _ s0 => s0 = at_remote (delete k (x_remote s)) s)
  (fun _ s0 => s0 = s \/ s0 = at_remote (delete k (x_remote s)) s).
Proof.
  eapply ftri_conseq; [apply (on_objects_at _ s), v_delete_law|done| |]; simpl.
  - by intros a s0 (r & -> & ->).
  - intros a s0 (r & -> & [-> | ->]); [left; apply at_remote_self|by right].
Qed.

Lemma pruned_one k s : k ∈ prune_keys plan -> pruning s -> pruning (at_remote (delete k (x_remote s)) s).
Proof.
  intros Hk (H1 & H2 & H3 & H4). split_and!; [done| | |].
  - intros k' c Hk'. simpl in Hk'. apply lookup_delete_Some in Hk' as [_ Hk']. by apply H2.
  - intros p i Hp Hi. destruct (H3 p i Hp Hi) as (content & Hf & Hr). exists content. split; [done|]. simpl.
    rewrite lookup_delete_ne; [done|]. intros ->. by apply (kept_not_pruned p i).
  - intros k' c Hc Hn. simpl. rewrite lookup_delete_ne; [by apply H4|]. by intros ->.
Qed.

Lemma prune_all_at after : ftri pruning (ffor (prune_candidates plan) (prune_one after)) (fun _ => pruning) (fun _ => pruning).
Proof.
  apply (ftri_for (fun _ => pruning)). intros pre c post E. apply ftri_each. intros s Hs.
  assert (Hk : pc_key c ∈ prune_keys plan).
  { unfold prune_keys. apply list_elem_of_In, in_map_iff. exists c. split; [done|]. apply list_elem_of_In. rewrite E. set_solver. }
  unfold prune_one. destruct (after !! pc_key c); [|apply ftri_throw; by intros s0 ->]. apply guard_then; [done|]. intros _.
  eapply ftri_conseq; [apply (delete_at _ s)|done| |].
  - intros e s0 ->. by apply pruned_one.
  - intros e s0 [-> | ->]; [done|by apply pruned_one].
Qed.
End Run.
