(* ===== verification/ReconcileDb.v ===== *)
(** The transaction of a reconciliation. *)
From S2P Require Import Prelude Fault Backups Reconcile ReconcileApply ReconcileFacts ReconcilePlan ReconcileSteps ReconcileRun.

(** Ids are primary keys. *)
Definition db_ok (db : database) : Prop :=
  NoDup (map cr_id (db_rows db)) /\ forall i x, db_protections db !! i = Some x -> pr_backup x = i.

Definition made (k : ImportProtection) (state : string) : ProtectionRecord :=
  active_protection (im_profile k) (im_backup k) (im_key k) (im_sha256 k) state.
Definition open_state (state : string) : Prop := state = "not_started"%string \/ state = "succeeded"%string.

Lemma insert_spec db k db' : _insert_protection db k = inr db' ->
  db_rows db' = db_rows db /\ (exists st, open_state st /\ db_protections db' !! im_backup k = Some (made k st)) /\
  (forall i x, db_protections db !! i = Some x -> db_protections db' !! i = Some x) /\
  (forall i x, db_protections db' !! i = Some x -> db_protections db !! i = Some x \/ exists st, open_state st /\ im_backup k = i /\ x = made k st).
Proof.
  unfold _insert_protection. fold (made k "not_started"). fold (made k "succeeded"). destruct (db_protections db !! im_backup k) as [p|] eqn:Ep.
  - case_bool_decide as Hp; [|done]. intros [= <-]. split_and!; [done| |done|by left]. destruct Hp as [-> | ->]; eexists; (split; [|done]); [by left|by right].
  - destruct (insert_allowed _ _); [|done]. intros [= <-]. simpl. split_and!; [done|exists "not_started"%string; split; [by left|apply lookup_insert_eq]| |].
    + intros i x Hi. rewrite lookup_insert_ne; [done|]. intros <-. congruence.
    + intros i x Hi. destruct (decide (im_backup k = i)) as [<-|Hne]; [rewrite lookup_insert_eq in Hi; simplify_eq; right; exists "not_started"%string; by split_and!; [left| |]|].
      rewrite lookup_insert_ne in Hi by done. by left.
Qed.

Lemma inserts_spec l db db' : each _insert_protection l db = inr db' ->
  db_rows db' = db_rows db /\
  (forall i x, db_protections db !! i = Some x -> db_protections db' !! i = Some x) /\
  (forall k, k ∈ l -> exists st, open_state st /\ db_protections db' !! im_backup k = Some (made k st)) /\
  (forall i x, db_protections db' !! i = Some x -> db_protections db !! i = Some x \/ exists k st, k ∈ l /\ open_state st /\ im_backup k = i /\ x = made k st).
Proof.
  revert db. induction l as [|k l IH]; intros db; simpl.
  - intros [= <-]. split_and!; try done; [by intros k ?%elem_of_nil|by left].
  - destruct (_insert_protection db k) as [|db1] eqn:E1; [done|]. intros E. destruct (insert_spec _ _ _ E1) as (R1 & (st & S1 & S2) & M1 & B1).
    destruct (IH _ E) as (R2 & M2 & S3 & B2). split_and!; [congruence|auto| |].
    + intros j [->|Hj]%elem_of_cons; [exists st; auto|auto].
    + intros i x Hx. destruct (B2 i x Hx) as [Hx'|(j & st' & Hj & ?)]; [|right; exists j, st'; split; [by right|done]].
      destruct (B1 i x Hx') as [?|(st' & ? & ? & ?)]; [by left|right; exists k, st'; split_and!; [left|done|done|done]].
Qed.

(** *** Flags *)

Lemma key_unique {A B} (f : A -> B) l x y : NoDup (map f l) -> List.In x l -> List.In y l -> f x = f y -> x = y.
Proof.
  induction l as [|a l IH]; [done|]. simpl. intros [Hn Hnd]%NoDup_cons [->|Hx] [->|Hy] E; [done| | |by apply IH]; destruct Hn.
  - rewrite E. apply list_elem_of_In. by apply in_map.
  - rewrite <- E. apply list_elem_of_In. by apply in_map.
Qed.

Definition flagged (l : list ProtectedFlagCorrection) (r : CatalogRow) : CatalogRow := foldl (fun r c => set_flag c r) r l.

Lemma set_flag_fields c r : cr_id (set_flag c r) = cr_id r /\ cr_profile (set_flag c r) = cr_profile r /\
  cr_size (set_flag c r) = cr_size r /\ cr_verified (set_flag c r) = cr_verified r.
Proof. unfold set_flag. by case_match. Qed.

Lemma flagged_fields l r : cr_id (flagged l r) = cr_id r /\ cr_profile (flagged l r) = cr_profile r.
Proof.
  revert r. induction l as [|c l IH]; intros r; [done|]. cbn. fold (flagged l (set_flag c r)). destruct (IH (set_flag c r)) as [-> ->].
  destruct (set_flag_fields c r) as (? & ? & _). done.
Qed.

Lemma correct_spec c db db' : NoDup (map cr_id (db_rows db)) -> correct_flag db c = inr db' ->
  db_protections db' = db_protections db /\ db_rows db' = map (set_flag c) (db_rows db).
Proof.
  intros Hnd. unfold correct_flag. destruct (find_of (co_backup c) (co_profile c) db) as [r|] eqn:Ef; [|done].
  destruct (Bool.eqb (cr_protected r) (co_protected c)) eqn:Eb.
  - intros [= <-]. split; [done|]. apply eqb_prop in Eb. unfold find_of in Ef. apply find_some in Ef as [Hr Hm]. to_prop.
    rewrite <- (map_id (db_rows db)) at 1. apply map_ext_in. intros x Hx. unfold set_flag.
    destruct (String.eqb_spec (cr_id x) (co_backup c)) as [E1|]; [|done]. destruct (String.eqb_spec (cr_profile x) (co_profile c)); [|done]. simpl.
    assert (x = r) as ->. { eapply (key_unique cr_id); [exact Hnd|done|done|congruence]. }
    rewrite <- Eb. by destruct r.
  - destruct (cr_verified r); [|done]. by intros [= <-].
Qed.

Lemma corrections_spec l db db' : NoDup (map cr_id (db_rows db)) -> each correct_flag l db = inr db' ->
  db_protections db' = db_protections db /\ db_rows db' = map (flagged l) (db_rows db).
Proof.
  revert db. induction l as [|c l IH]; intros db Hnd; simpl.
  - intros [= <-]. split; [done|]. by rewrite map_id.
  - destruct (correct_flag db c) as [|db1] eqn:E1; [done|]. destruct (correct_spec _ _ _ Hnd E1) as [P1 R1]. intros E.
    destruct (IH db1) as [P2 R2]; [|done|].
    { rewrite R1, map_map. erewrite map_ext; [exact Hnd|]. intros r. apply set_flag_fields. }
    split; [congruence|]. rewrite R2, R1, map_map. done.
Qed.

(** A row whose corrections agree. *)
Lemma flagged_target l r t : (forall c, c ∈ l -> co_backup c = cr_id r -> co_profile c = cr_profile r -> co_protected c = t) ->
  (cr_protected r = t \/ exists c, c ∈ l /\ co_backup c = cr_id r /\ co_profile c = cr_profile r) -> cr_protected (flagged l r) = t.
Proof.
  revert r. induction l as [|c l IH]; intros r Hall Hex; [destruct Hex as [?|(c & ?%elem_of_nil & _)]; done|].
  cbn. fold (flagged l (set_flag c r)). destruct (set_flag_fields c r) as (F1 & F2 & _). apply IH.
  - rewrite F1, F2. intros c' Hc'. apply Hall. by right.
  - rewrite F1, F2. unfold set_flag. destruct (String.eqb_spec (cr_id r) (co_backup c)) as [E1|N1]; [destruct (String.eqb_spec (cr_profile r) (co_profile c)) as [E2|N2]|]; simpl.
    + left. apply Hall; [left|done|done].
    + destruct Hex as [?|(c' & [->|Hc']%elem_of_cons & ? & ?)]; [by left|congruence|right; eauto].
    + destruct Hex as [?|(c' & [->|Hc']%elem_of_cons & ? & ?)]; [by left|congruence|right; eauto].
Qed.

(** *** Closed rows *)

Lemma close_row_again p : close_row (close_row p) = close_row p.
Proof. done. Qed.

Definition closes {A} (id : A -> option string) (l : list A) (i : string) : bool := existsb (fun a => bool_decide (id a = Some i)) l.

Lemma closes_spec {A} (f : database -> A -> fexc + database) (id : A -> option string) l db db' :
  (forall db a db', f db a = inr db' -> match id a with
     | None => db' = db
     | Some i => exists p, db_protections db !! i = Some p /\ db' = Database (db_rows db) (<[i := close_row p]> (db_protections db)) end) ->
  each f l db = inr db' ->
  db_rows db' = db_rows db /\ forall i, db_protections db' !! i = if closes id l i then close_row <$> db_protections db !! i else db_protections db !! i.
Proof.
  intros Hf. revert db. induction l as [|a l IH]; intros db; simpl; [by intros [= <-]|].
  destruct (f db a) as [|db1] eqn:E1; [done|]. intros E. destruct (IH _ E) as [R1 P1]. apply Hf in E1. destruct (id a) as [j|].
  - destruct E1 as (p & Hp & ->). simpl in *. split; [done|]. intros i. rewrite P1. destruct (decide (j = i)) as [->|Hne].
    + rewrite lookup_insert_eq, Hp, (bool_decide_eq_true_2 (Some i = Some i)) by done. simpl. by case_match.
    + rewrite lookup_insert_ne by done. rewrite bool_decide_eq_false_2 by congruence. done.
  - subst db1. split; [done|]. intros i. by rewrite P1.
Qed.

Definition closed_candidate (c : PruneCandidate) : option string := if pc_orphan c then None else Some (pc_backup c).

Lemma close_protection_spec i ok m db db' : close_protection i ok m db = inr db' ->
  exists p, db_protections db !! i = Some p /\ db' = Database (db_rows db) (<[i := close_row p]> (db_protections db)).
Proof. unfold close_protection. destruct (db_protections db !! i) as [p|]; [|done]. destruct (ok p); [|done]. intros [= <-]. eauto. Qed.

Lemma closed_candidates_spec l db db' : each close_candidate l db = inr db' -> db_rows db' = db_rows db /\
  forall i, db_protections db' !! i = if closes closed_candidate l i then close_row <$> db_protections db !! i else db_protections db !! i.
Proof.
  apply closes_spec. intros db0 a db0'. unfold close_candidate, closed_candidate. destruct (pc_orphan a); [by intros [= <-]|]. apply close_protection_spec.
Qed.
Lemma pruned_rows_spec l db db' : each close_pruned l db = inr db' -> db_rows db' = db_rows db /\
  forall i, db_protections db' !! i = if closes (fun k => Some (pp_backup k)) l i then close_row <$> db_protections db !! i else db_protections db !! i.
Proof. apply closes_spec. intros db0 a db0'. apply close_protection_spec. Qed.

(** *** The whole transaction *)

Definition recorded (plan : ReconciliationPlan) : list ImportProtection := imports plan ++ map replacement_import (replacement_candidates plan).
Definition closing (plan : ReconciliationPlan) (i : string) : bool :=
  closes closed_candidate (prune_candidates plan) i || closes (fun k => Some (pp_backup k)) (pruned_protection_corrections plan) i.

Lemma transitions_spec plan db db' : NoDup (map cr_id (db_rows db)) -> _apply_catalog_transitions plan true true db = inr db' ->
  db_rows db' = map (flagged (protected_flag_corrections plan)) (db_rows db) /\
  exists db1, (forall i x, db_protections db !! i = Some x -> db_protections db1 !! i = Some x) /\
    (forall k, k ∈ recorded plan -> exists st, open_state st /\ db_protections db1 !! im_backup k = Some (made k st)) /\
    (forall i x, db_protections db1 !! i = Some x -> db_protections db !! i = Some x \/ exists k st, k ∈ recorded plan /\ open_state st /\ im_backup k = i /\ x = made k st) /\
    (forall i, db_protections db' !! i = if closing plan i then close_row <$> db_protections db1 !! i else db_protections db1 !! i).
Proof.
  intros Hnd. unfold _apply_catalog_transitions. destruct (each _insert_protection (imports plan) db) as [|d1] eqn:E1; [done|]. simpl.
  destruct (each correct_flag _ d1) as [|d2] eqn:E2; [done|]. simpl. destruct (each _insert_protection (map _ _) d2) as [|d3] eqn:E3; [done|]. simpl.
  destruct (each close_candidate _ d3) as [|d4] eqn:E4; [done|]. simpl. intros E5.
  destruct (inserts_spec _ _ _ E1) as (R1 & M1 & S1 & B1). destruct (corrections_spec _ _ _ ltac:(by rewrite R1) E2) as [P2 R2].
  destruct (inserts_spec _ _ _ E3) as (R3 & M3 & S3 & B3). destruct (closed_candidates_spec _ _ _ E4) as [R4 C4]. destruct (pruned_rows_spec _ _ _ E5) as [R5 C5].
  split; [congruence|]. exists d3. rewrite P2 in *. unfold recorded. split_and!.
  - auto.
  - intros k [Hk|Hk]%elem_of_app; [|by apply S3]. destruct (S1 k Hk) as (st & ? & ?). exists st. auto.
  - intros i x Hx. destruct (B3 i x Hx) as [Hx'|(k & st & ? & ?)]; [destruct (B1 i x Hx') as [?|(k & st & ? & ?)]; [by left|]|]; right; exists k, st; (split; [set_solver|done]).
  - intros i. rewrite C5, C4. unfold closing. destruct (closes closed_candidate _ i), (closes _ (pruned_protection_corrections plan) i); simpl; try done.
    by destruct (db_protections d3 !! i).
Qed.
