(* ===== verification/ReconcileExample.v ===== *)
(** A remote that keeps the promises of the transport, and databases, archives and
    objects on which a reconciliation runs. *)
From S2P Require Import Prelude Fault Backups Reconcile ReconcileApply ReconcileDb.

(** ** A concrete store and remote *)

Definition listed (p : string) (r : gmap string string) : list RemoteObject :=
  map (fun x => Object (fst x) (size_of (snd x))) (List.filter (fun x => String.prefix (p ++ "/") (fst x)) (map_to_list r)).
#[export] Instance plain_transport : Transport := {|
  v_list p st := (inr (listed p (fst st)), st);
  v_upload c k st := (inr tt, (match fst st !! k with None => <[k := c]> (fst st) | Some _ => fst st end, snd st));
  v_verify c k st := (if bool_decide (fst st !! k = Some c) then inr tt else inl (SafeF "mismatch"), st);
  v_download k st := (match fst st !! k with Some c => inr c | None => inl (SafeF "missing") end, st);
  v_delete k st := (inr tt, (delete k (fst st), snd st));
|}.

Lemma listed_spec p r k n : Object k n ∈ listed p r <-> exists c, r !! k = Some c /\ n = size_of c /\ String.prefix (p ++ "/") k = true.
Proof.
  unfold listed. rewrite list_elem_of_In, in_map_iff. split.
  - intros ([k' c] & [= -> <-] & H%filter_In). destruct H as [H1 H2]. apply list_elem_of_In, elem_of_map_to_list in H1. by exists c.
  - intros (c & H1 & -> & H2). exists (k, c). split; [done|]. apply filter_In. split; [|done]. by apply list_elem_of_In, elem_of_map_to_list.
Qed.

#[export] Instance plain_promises : TransportPromises.
Proof.
  split.
  - intros p r s n ->. split; [done|]. intros k m. apply listed_spec.
  - intros c k r one s n ->. simpl. unfold one. destruct (r !! k) eqn:E; [by split; [|left]|]. split; [intros k' Hk; by rewrite lookup_insert_ne|].
    right. by rewrite lookup_insert_eq.
  - intros c k r s n ->. simpl. by case_bool_decide.
  - intros k r s n ->. simpl. by destruct (r !! k) eqn:E.
  - by intros k r s n ->.
Qed.

Definition zeros : string := "0000000000000000000000000000000000000000000000000000000000000000".
Definition generation (n : string) : string := ("20260101T00000000000" ++ n ++ "Z-0123456789ab")%string.
Definition SUN : string := "minecraft-sunlit-cobblemon".
Definition TMOD : string := "terraria-tmod".
(** An archive names its profile and its generation. *)
Definition archive_of (p n : string) : string := (p ++ " " ++ n)%string.
Definition manifest_of (p n : string) : json := JObj [("schema", JInt 1); ("profile_id", JStr p); ("backup_id", JStr (generation n))]%string.
Definition archives : list (string * json) :=
  flat_map (fun p => map (fun n => (archive_of p n, manifest_of p n)) ["1"; "2"; "3"; "4"]%string) [SUN; TMOD].
Definition known_json (c : string) : option json := assoc c archives.

Definition row (p n : string) (protected : bool) : CatalogRow := Row (generation n) p (size_of (archive_of p n)) true protected.
Definition kept_row (p n : string) : string * ProtectionRecord :=
  (generation n, active_protection p (generation n) (_remote_key p (generation n)) zeros "succeeded").
Definition local (p n : string) : string * string := (local_path p (generation n), archive_of p n).
Definition object (p n : string) : string * string := (_remote_key p (generation n), archive_of p n).

(** Sunlit: generation 3 is missing at B2, 2 is there without a row, 1 is old, 4 of
    tmod is there, and an archive of tmod without a catalog row. *)
Definition store : rstate :=
  RState (Database [row SUN "1" true; row SUN "2" true; row SUN "3" true; row TMOD "4" false]
           (list_to_map [kept_row SUN "1"; kept_row TMOD "4"]))
    (list_to_map [object SUN "1"; object SUN "2"; object TMOD "4"; object TMOD "1"])
    (list_to_map [local SUN "1"; local SUN "2"; local SUN "3"; local TMOD "4"]).

(** As before, but the row of the old generation is not flagged. *)
Definition unflagged_store : rstate :=
  RState (Database [row SUN "1" false; row SUN "2" true; row SUN "3" true; row TMOD "4" false] (db_protections (x_db store))) (x_remote store) (x_files store).

Lemma store_ok : db_ok (x_db store) /\ db_ok (x_db unflagged_store).
Proof.
  assert (H : forall i x, db_protections (x_db store) !! i = Some x -> pr_backup x = i).
  { intros i x H%elem_of_list_to_map_2. repeat (apply elem_of_cons in H as [[= -> ->]|H]); [done|done|by apply elem_of_nil in H]. }
  split; (split; [apply (bool_decide_unpack _); by vm_compute|exact H]).
Qed.

Definition run (fault : nat -> option fexc) (s : rstate) : (fexc + bool) * (rstate * nat) :=
  reconcile_command fault (fun _ => zeros) Some known_json true (s, O).
