(* ===== verification/ReconcileTheorems.v ===== *)
(** A reconciliation never loses a generation that is kept, at any point where it can
    stop, and one that returns leaves the remote, the catalog and the protection rows
    in agreement. *)
From S2P Require Import Prelude Fault Backups BackupsFacts Reconcile ReconcileApply ReconcileFacts ReconcilePlan ReconcileSteps ReconcileRun ReconcileDb ReconcileExample.

Section Theorems.
Context {T : Transport} {TL : TransportPromises} (fault : nat -> option fexc).
Context (sha256 : string -> string) (tar_manifest : string -> option string) (parse_json : string -> option json).

(** The rows agree with what is kept. *)
Record agrees (s : rstate) (db : database) : Prop := {
  ag_flags : forall r, r ∈ db_rows db -> cr_protected r = bool_decide (cr_id r ∈ newest_of (x_db s) (cr_profile r));
  ag_closed : forall i x, db_protections db !! i = Some x -> is_deleted x = false -> i ∈ newest_of (x_db s) (pr_profile x);
  ag_open : forall p i, p ∈ RETAINED_PROFILE_IDS -> i ∈ newest_of (x_db s) p -> exists x,
    db_protections db !! i = Some x /\ pr_profile x = p /\ pr_key x = _remote_key p i /\ verification_proven x = true /\
    pr_sha256 x = snd (metadata_of sha256 (x_files s !! local_path p i));
}.

(** The archives of the fixed prefixes are those that are kept. *)
Definition exact_remote (s s' : rstate) : Prop :=
  (forall p k c, p ∈ RETAINED_PROFILE_IDS -> x_remote s' !! k = Some c -> String.prefix (b2_prefix p ++ "/") k = true ->
     exists q i, q ∈ RETAINED_PROFILE_IDS /\ i ∈ newest_of (x_db s) q /\ k = _remote_key q i) /\
  all_present s s'.

Section Applied.
Context (s1 : rstate) (plan : ReconciliationPlan).
Hypothesis Hplan : planned sha256 s1 plan.
Hypothesis Hready : ready plan = true.
Hypothesis Hdb : db_ok (x_db s1).
#[local] Abbreviation catalog := (map (gen_of sha256 s1) (scoped_rows (x_db s1))).
#[local] Abbreviation keep p := (newest_of (x_db s1) p).

Lemma protections_elem x : x ∈ protections_of (x_db s1) <-> db_protections (x_db s1) !! pr_backup x = Some x.
Proof.
  destruct Hplan as (_ & _ & [_ Hscope] & _). unfold protections_of. rewrite list_elem_of_In, filter_In, in_map_iff. split.
  - intros [([i y] & E & Hy) _]. simpl in E. subst y. apply list_elem_of_In, elem_of_map_to_list in Hy. by rewrite (proj2 Hdb _ _ Hy).
  - intros Hx. split; [|by eapply bool_decide_eq_true_2, Hscope]. exists (pr_backup x, x). split; [done|]. by apply list_elem_of_In, elem_of_map_to_list.
Qed.

(** An id belongs to one profile. *)
Lemma catalog_profile p q i c c' : in_catalog catalog p i c -> in_catalog catalog q i c' -> p = q.
Proof.
  intros (r & Hr & <- & Ei & _)%(row_in_catalog _ _ _ Hplan) (r' & Hr' & <- & Ei' & _)%(row_in_catalog _ _ _ Hplan).
  assert (r = r') as ->; [|done]. eapply (key_unique cr_id); [apply Hdb|by apply list_elem_of_In|by apply list_elem_of_In|congruence].
Qed.

Lemma kept_not_closed p i : p ∈ RETAINED_PROFILE_IDS -> i ∈ keep p -> closing plan i = false.
Proof.
  intros Hp Hi. pose proof Hplan as (remote & E & _). pose proof Hready as Hr. rewrite E in Hr.
  destruct (keep_in_catalog _ _ _ Hplan p i Hi) as [c Hc]. unfold closing, closes. rewrite E. apply orb_false_iff.
  split; apply not_true_is_false; intros (a & Ha%list_elem_of_In & Hid)%existsb_exists; apply bool_decide_eq_true in Hid.
  - unfold closed_candidate in Hid. destruct (pc_orphan a) eqn:Eo; [done|]. injection Hid as <-.
    destruct (candidate_spec _ _ _ Hr a Ha) as (_ & Hn & _ & Hcat). destruct (Hcat Eo) as (c' & _ & Hc' & _).
    rewrite (newest_keep _ _ _ Hplan) in Hn. rewrite (catalog_profile _ _ _ _ _ Hc' Hc) in Hn. done.
  - injection Hid as <-. destruct (pruned_spec _ _ _ Hr a Ha) as (c' & _ & Hc' & _ & Hn & _).
    rewrite (newest_keep _ _ _ Hplan) in Hn. rewrite (catalog_profile _ _ _ _ _ Hc' Hc) in Hn. done.
Qed.

(** A row that is recorded is one of a kept generation, with its digest. *)
Lemma recorded_spec k : k ∈ recorded plan -> im_profile k ∈ RETAINED_PROFILE_IDS /\ im_backup k ∈ keep (im_profile k) /\
  im_key k = _remote_key (im_profile k) (im_backup k) /\
  im_sha256 k = snd (metadata_of sha256 (x_files s1 !! local_path (im_profile k) (im_backup k))).
Proof.
  pose proof Hplan as (remote & E & _). pose proof Hready as Hr. rewrite E in Hr. unfold recorded. rewrite E. intros [Hk|Hk]%elem_of_app.
  - destruct (import_spec _ _ _ Hr k Hk) as (c & Hc & Hp & Hn & Hkey & Hsha). rewrite (newest_keep _ _ _ Hplan) in Hn. split_and!; try done.
    apply (row_in_catalog _ _ _ Hplan) in Hc as (r & _ & E1 & E2 & ->). rewrite Hsha. simpl. by rewrite E1, E2.
  - apply list_elem_of_In, in_map_iff in Hk as (x & <- & Hx%list_elem_of_In). simpl.
    destruct (replacement_spec _ _ _ Hr x Hx) as (c & Hc & Hp & Hn & _ & Hsha & _). rewrite (newest_keep _ _ _ Hplan) in Hn. split_and!; try done.
    apply (row_in_catalog _ _ _ Hplan) in Hc as (r & _ & E1 & E2 & ->). rewrite Hsha. simpl. by rewrite E1, E2.
Qed.

Lemma made_proven k st : open_state st -> verification_proven (made k st) = true.
Proof. by intros [-> | ->]. Qed.

Lemma applied_agrees db' : _apply_catalog_transitions plan true true (x_db s1) = inr db' -> agrees s1 db'.
Proof.
  intros Ht. pose proof Hplan as (remote & E & [Hscope _] & _). pose proof Hready as Hr. rewrite E in Hr.
  destruct (transitions_spec _ _ _ (proj1 Hdb) Ht) as (Hrows & db1 & Hold & Hrec & Hnew & Hclose). split.
  - rewrite Hrows. intros r' Hr'. apply list_elem_of_In, in_map_iff in Hr' as (r & <- & Hr'%list_elem_of_In).
    destruct (flagged_fields (protected_flag_corrections plan) r) as [-> ->]. rewrite <- (newest_keep _ _ _ Hplan).
    assert (Hc : in_catalog catalog (cr_profile r) (cr_id r) (gen_of sha256 s1 r)) by (apply (row_in_catalog _ _ _ Hplan); by exists r).
    apply flagged_target.
    + rewrite E. intros c Hcin E1 E2. destruct (correction_spec _ _ _ Hr c Hcin) as [_ ->]. by rewrite E1, E2.
    + destruct (decide (cr_protected r = bool_decide (cr_id r ∈ newest catalog (cr_profile r)))) as [?|Hne]; [by left|right].
      exists (Correction (cr_profile r) (cr_id r) (bool_decide (cr_id r ∈ newest catalog (cr_profile r)))). split; [|done]. rewrite E.
      apply (correction_complete _ _ _ Hr _ _ _ (Hscope r Hr') Hc). exact Hne.
  - intros i x Hx Hd. rewrite Hclose in Hx. destruct (closing plan i) eqn:Ec.
    { destruct (db_protections db1 !! i); [|done]. by simplify_eq/=. }
    destruct (Hnew i x Hx) as [Hx'|(k & st & Hk & Hst & <- & ->)]; [|destruct (recorded_spec k Hk) as (_ & ? & _); done].
    pose proof (proj2 Hdb i x Hx') as Hid. subst i. apply protections_elem in Hx'. apply dec_stable. intros Hn. rewrite <- (newest_keep _ _ _ Hplan) in Hn.
    assert (closing plan (pr_backup x) = true); [|congruence]. unfold closing, closes. rewrite E. apply orb_true_iff.
    destruct (other_row_spec _ _ _ Hr x Hx' Hd Hn) as [(c & Hc & Eo & _ & Eb)|(k & Hk & _ & Eb)]; [left|right]; apply existsb_exists.
    + exists c. split; [by apply list_elem_of_In|]. unfold closed_candidate. rewrite Eo, Eb. by apply bool_decide_eq_true_2.
    + exists k. split; [by apply list_elem_of_In|]. rewrite Eb. by apply bool_decide_eq_true_2.
  - intros p i Hp Hi. setoid_rewrite Hclose. rewrite (kept_not_closed p i Hp Hi). destruct (keep_in_catalog _ _ _ Hplan p i Hi) as [c Hc].
    rewrite <- (newest_keep _ _ _ Hplan) in Hi.
    assert (Hrecorded : forall k, k ∈ recorded plan -> im_profile k = p -> im_backup k = i -> exists x, db_protections db1 !! i = Some x /\ pr_profile x = p /\
      pr_key x = _remote_key p i /\ verification_proven x = true /\ pr_sha256 x = snd (metadata_of sha256 (x_files s1 !! local_path p i))).
    { intros k Hk <- <-. destruct (Hrec k Hk) as (st & Hst & Hx). destruct (recorded_spec k Hk) as (_ & _ & Hkey & Hsha). exists (made k st).
      split_and!; try done. by apply made_proven. }
    destruct (kept_row_spec _ _ _ Hr p i c Hp Hc Hi) as [(x & Hx & Hd & <- & <-)|[(k & Hk & E1 & E2)|(k & Hk & E1 & E2)]].
    + destruct (ev_protection_ok _ _ _ _ (evidence_sound _ _ _ Hr) x Hx) as (_ & _ & Hok). destruct (Hok Hd) as (c' & Hc' & Hkey & Hsha & Hv).
      exists x. apply protections_elem in Hx. split_and!; try done; [by apply Hold|]. rewrite Hsha.
      apply (row_in_catalog _ _ _ Hplan) in Hc' as (r & _ & E1 & E2 & ->). simpl. by rewrite E1, E2.
    + apply (Hrecorded k); [|done|done]. unfold recorded. rewrite E. set_solver.
    + apply (Hrecorded (replacement_import k)); [|done|done]. unfold recorded. rewrite E. apply elem_of_app. right.
      apply list_elem_of_In, in_map. by apply list_elem_of_In.
Qed.

(** *** The run *)

Lemma uploaded_present keys s : replaced s1 (replacement_candidates plan) keys s -> all_present s1 s.
Proof.
  intros ((_ & _ & Hgrow) & Hpres & _) p i Hp Hi. destruct (kept_source _ _ _ Hplan Hready p i Hp Hi) as [(c & Hf & Hc)|(x & Hx & <- & <-)]; [|by apply Hpres].
  exists c. split; [done|]. by apply Hgrow.
Qed.

Lemma expected_elem k : is_Some (expected_before plan !! k) -> exists g, g ∈ remote_evidence plan /\ rg_key g = k.
Proof.
  unfold expected_before. assert (H : forall l (m : gmap string Z), is_Some (foldl (fun m r => if nonempty (rg_key r) then <[rg_key r := rg_size r]> m else m) m l !! k) ->
    is_Some (m !! k) \/ exists g, g ∈ l /\ rg_key g = k).
  { induction l as [|g l IH]; intros m; simpl; [by left|]. intros Hk. destruct (IH _ Hk) as [Hk'|(g' & ? & ?)]; [|right; exists g'; split; [by right|done]].
    destruct (nonempty (rg_key g)); [|by left]. destruct (decide (rg_key g = k)) as [<-|Hne]; [right; exists g; split; [left|done]|].
    rewrite lookup_insert_ne in Hk' by done. by left. }
  intros Hk. destruct (H _ _ Hk) as [[? Hn]|?]; [|done]. by rewrite lookup_empty in Hn.
Qed.

(** What is left after the deletions. *)
Lemma left_over keys after final s : replaced s1 (replacement_candidates plan) keys s -> after = keys ∪ expected_before plan ->
  forall s', inventory_all s' RETAINED_PROFILE_IDS final -> final = filter (fun x => fst x ∉ prune_keys plan) after -> pruning s1 plan s' -> exact_remote s1 s'.
Proof.
  intros (_ & _ & Hkeys) -> s' Hinv -> (_ & _ & Hpres & _). split; [|exact Hpres]. intros p k c Hp Hk Hpre.
  specialize (Hinv p k c Hp Hk Hpre). apply map_lookup_filter_Some in Hinv as [Hin Hnot]. simpl in Hnot.
  apply lookup_union_Some_raw in Hin as [Hin|[_ Hin]].
  - destruct (Hkeys k ltac:(eauto)) as (x & Hx & ->). destruct (replacement_source _ _ _ Hplan Hready x Hx) as (H1 & H2 & _). eauto.
  - destruct (expected_elem k ltac:(eauto)) as (g & Hg & <-). destruct (evidence_kept_or_pruned _ _ _ Hplan Hready g Hg) as [(H1 & H2 & H3)|?]; [|done]. eauto.
Qed.

(** How the application can end before its commit. *)
Definition stopped (s : rstate) : Prop := uploading s1 s \/ pruning s1 plan s.

Lemma apply_at : ftri (fun s => s = s1) (apply_replacement_plan fault sha256 tar_manifest parse_json plan)
  (fun _ s => x_files s = x_files s1 /\ known s1 s /\ (forall k c, x_remote s1 !! k = Some c -> k ∉ prune_keys plan -> x_remote s !! k = Some c) /\
     exact_remote s1 s /\ agrees s1 (x_db s)) (fun _ => stopped).
Proof.
  assert (Hu : uploading s1 s1) by (split_and!; [done|by left|done]). assert (HE : stopped s1) by (by left).
  apply guard_then; [done|]. intros _. apply ftri_read_at. do 4 (apply guard_then; [done|intros _]).
  eapply ftri_bind; [eapply ftri_conseq; [apply (inventory_at s1)|done|intros a s H; exact H|by intros x s ->]|]. intros before. apply ftri_pure. intros _.
  apply guard_then; [done|]. intros _.
  eapply ftri_bind; [eapply ftri_conseq; [by apply (replace_all_at _ _ _ _ _ _ Hplan Hready before s1)|done|intros a s H; exact H|by left]|].
  intros keys. apply ftri_each. intros s2 H2. assert (HE2 : stopped s2) by (left; apply H2).
  eapply ftri_bind; [eapply ftri_conseq; [apply (inventory_at s2)|done|intros a s H; exact H|by intros x s ->]|]. intros after. apply ftri_pure. intros _.
  apply guard_then; [done|]. intros Hafter. apply bool_decide_eq_true in Hafter.
  assert (Hp : pruning s1 plan s2) by (pose proof H2 as ((? & ? & ?) & _); split_and!; [done|done|by eapply uploaded_present|auto]).
  eapply ftri_seq; [eapply ftri_conseq; [apply (prune_all_at _ _ _ Hplan Hready after)|intros s ->; exact Hp|intros a s H; exact H|by right]|].
  apply ftri_each. intros s3 H3. assert (HE3 : stopped s3) by by right.
  eapply ftri_bind; [eapply ftri_conseq; [apply (inventory_at s3)|done|intros a s H; exact H|by intros x s ->]|]. intros final. apply ftri_pure. intros [_ Hinv].
  apply guard_then; [done|]. intros Hfinal. apply bool_decide_eq_true in Hfinal.
  pose proof (left_over keys after final s2 H2 Hafter s3 Hinv Hfinal H3) as Hexact. pose proof H3 as ((Edb & Ef) & Hk & Hpres & Hkeep).
  apply step_then; [done|]. apply ftri_read_at. rewrite Edb. destruct (_apply_catalog_transitions plan true true (x_db s1)) as [x|db'] eqn:Et.
  { apply ftri_throw. by intros s ->. }
  apply ftri_effect; [|by intros x s ->]. intros s ->. split_and!; try done. by apply applied_agrees.
Qed.
End Applied.

(** The work of a ready plan is complete. *)
Definition applied (s s' : rstate) : Prop := exists plan, planned sha256 s plan /\ ready plan = true /\ x_files s' = x_files s /\ known s s' /\
  (forall k c, x_remote s !! k = Some c -> k ∉ prune_keys plan -> x_remote s' !! k = Some c) /\ exact_remote s s' /\ agrees s (x_db s').

Lemma applied_safe s s' : applied s s' -> x_files s' = x_files s /\ known s s' /\
  (forall k c, x_remote s !! k = Some c -> x_remote s' !! k <> Some c ->
     ~ (exists p i, p ∈ RETAINED_PROFILE_IDS /\ i ∈ newest_of (x_db s) p /\ k = _remote_key p i) /\ all_present s s') /\
  exact_remote s s' /\ agrees s (x_db s').
Proof.
  intros (plan & Hplan & Hr & Ef & Hk & Hg & Hx & Ha). split_and!; try done. intros k c Hc Hn. split; [|apply Hx].
  intros (p & i & Hp' & Hi & ->). apply Hn, Hg; [done|]. by apply (kept_not_pruned _ _ _ Hplan Hr).
Qed.

(** C37.  A reconciliation never loses a kept generation.  Run [horizon backup reconcile
    --apply] on any database with primary keys, archives and remote, where every call
    of the remote or of the storage may fail or be the last.  However it ends, local
    archives are untouched, and every remote object is one that was there or the copy
    of the local archive of one of the two newest catalogued generations of a fixed
    profile (the kept ones).  An object that is gone was not one of a kept generation,
    and then every kept generation is at the remote, equal to its local archive.  The
    database is as before, or the work is complete: the fixed prefixes hold exactly the
    kept generations, exactly their rows are flagged as protected, and exactly they have
    an open, verified protection row with the digest of the archive.  It is complete
    when the run returns ready. *)
Theorem reconciliation_is_safe s n :
  db_ok (x_db s) ->
  let keep := newest_of (x_db s) in
  let kept_key k := exists p i, p ∈ RETAINED_PROFILE_IDS /\ i ∈ keep p /\ k = _remote_key p i in
  let '(r, (s', _)) := reconcile_command fault sha256 tar_manifest parse_json true (s, n) in
  x_files s' = x_files s /\
  (forall k c, x_remote s' !! k = Some c -> x_remote s !! k = Some c \/
     exists p i, p ∈ RETAINED_PROFILE_IDS /\ i ∈ keep p /\ k = _remote_key p i /\ x_files s !! local_path p i = Some c) /\
  (forall k c, x_remote s !! k = Some c -> x_remote s' !! k <> Some c -> ~ kept_key k /\ all_present s s') /\
  match r with
  | inl _ => x_db s' = x_db s \/ (exact_remote s s' /\ agrees s (x_db s'))
  | inr false => s' = s
  | inr true => exact_remote s s' /\ agrees s (x_db s')
  end.
Proof.
  intros Hdb keep kept_key.
  assert (H : ftri (fun s0 => s0 = s) (reconcile_command fault sha256 tar_manifest parse_json true)
    (fun r s' => if r then applied s s' else s' = s)
    (fun _ s' => s' = s \/ applied s s' \/ exists plan, planned sha256 s plan /\ ready plan = true /\ stopped s plan s')).
  { eapply ftri_bind; [eapply ftri_conseq; [apply (build_at _ _ _ _ s)|done|intros a s0 H; exact H|by left]|]. intros plan. apply ftri_pure. intros Hplan.
    simpl. destruct (ready plan) eqn:Hr.
    - apply (ftri_seq _ _ _ (applied s)).
      + eapply ftri_conseq; [by apply (apply_at s plan Hplan Hr Hdb)|done|by intros [] s0 H; exists plan|]. intros x s0 H. right. right. by exists plan.
      + apply (ftri_seq _ _ _ (applied s)); [apply ftri_step; auto|by apply ftri_ret].
    - do 2 (apply (ftri_seq _ _ _ (fun s0 => s0 = s)); [first [by apply ftri_ret|apply ftri_step; auto]|]). by apply ftri_ret. }
  specialize (H s n eq_refl). destruct (reconcile_command _ _ _ _ _ _) as [[x|[|]] [s' n']].
  - destruct H as [-> |[H|(plan & Hplan & Hr & [((E1 & E2) & Hk & Hg)|((E1 & E2) & Hk & Hp & Hg)])]].
    + split_and!; try done; by left.
    + destruct (applied_safe s s' H) as (H1 & H2 & H3 & H4). split_and!; try done. by right.
    + split_and!; try done; [|by left]. intros k c Hc Hn. destruct Hn. by apply Hg.
    + split_and!; try done; [|by left]. intros k c Hc Hn. split; [|done]. intros (p & i & Hp' & Hi & ->). apply Hn, Hg; [done|]. by apply (kept_not_pruned _ _ _ Hplan Hr).
  - by apply applied_safe.
  - subst s'. split_and!; try done. by left.
Qed.
(** *** A plan that is always refused *)

(** The application checks every candidate before it changes anything. *)
Lemma unchecked_at s plan c : c ∈ prune_candidates plan -> check_candidate (x_db s) c = false ->
  ftri (fun s0 => s0 = s) (apply_replacement_plan fault sha256 tar_manifest parse_json plan) (fun _ _ => False) (fun _ s0 => s0 = s).
Proof.
  intros Hc Hn. apply guard_then; [done|]. intros _. apply ftri_read_at. do 3 (apply guard_then; [done|intros _]). apply guard_then; [done|].
  rewrite forallb_forall. intros H. specialize (H c ltac:(by apply list_elem_of_In)). congruence.
Qed.

Lemma found_row r db : db_ok db -> r ∈ db_rows db -> find_of (cr_id r) (cr_profile r) db = Some r.
Proof.
  intros [Hnd _] Hr%list_elem_of_In. unfold find_of. destruct (List.find _ _) as [r'|] eqn:E.
  - apply find_some in E as [Hr' Hm]. to_prop. f_equal. by eapply (key_unique cr_id).
  - eapply find_none in E; [|exact Hr]. by rewrite !String.eqb_refl in E.
Qed.

Lemma unflagged_candidate s plan r content : planned sha256 s plan -> ready plan = true -> db_ok (x_db s) -> r ∈ db_rows (x_db s) ->
  cr_profile r ∈ RETAINED_PROFILE_IDS -> cr_id r ∉ newest_of (x_db s) (cr_profile r) -> cr_protected r = false ->
  x_remote s !! _remote_key (cr_profile r) (cr_id r) = Some content -> exists c, c ∈ prune_candidates plan /\ check_candidate (x_db s) c = false.
Proof.
  intros Hplan Hready Hdb Hr Hp Hold Hflag Hobj. pose proof Hplan as (remote & E & _ & [_ Hall]). pose proof Hready as Hok. rewrite E in Hok.
  destruct (Hall _ _ _ Hp Hobj) as (g & Hg & Eg & Ek); [apply BackupsFacts.key_prefix|].
  destruct (ev_remote_ok _ _ _ _ (evidence_sound _ _ _ Hok) g Hg) as (Hgp & _ & Hkey & _). rewrite Ek in Hkey. apply key_inj in Hkey as [_ Eb]; [|done|done].
  destruct (remote_spec _ _ _ Hok g Hg) as [Hn|(c & Hc & E1 & E2)].
  { rewrite (newest_keep _ _ _ Hplan), <- Eb, Eg in Hn. done. }
  exists c. split; [by rewrite E|]. unfold check_candidate. destruct (pc_orphan c) eqn:Eo.
  - destruct (orphan_candidate _ _ _ Hok c (gen_of sha256 s r) Hc Eo). apply (row_in_catalog _ _ _ Hplan). exists r. split_and!; [done|congruence|congruence|done].
  - simpl. rewrite E1, E2, Eg, <- Eb, (found_row r _ Hdb Hr). by destruct (db_protections _ !! _); rewrite ?Hflag.
Qed.

(** C38.  A generation that is not flagged blocks the reconciliation.  Let a fixed profile
    have a generation older than the kept ones whose catalog row is not flagged as
    protected, and an object at its key.  Whatever else the database, the archives and
    the remote hold, [horizon backup reconcile --apply] changes nothing and does not
    succeed: the plan is refused, or it is ready, names that object as a candidate, and
    its application, which wants the flag that the planning does not ask for, always
    refuses it. *)
Theorem unflagged_generation_blocks s n r :
  db_ok (x_db s) -> r ∈ db_rows (x_db s) -> cr_profile r ∈ RETAINED_PROFILE_IDS -> cr_id r ∉ newest_of (x_db s) (cr_profile r) ->
  cr_protected r = false -> is_Some (x_remote s !! _remote_key (cr_profile r) (cr_id r)) ->
  let '(result, (s', _)) := reconcile_command fault sha256 tar_manifest parse_json true (s, n) in
  s' = s /\ (result = inr false \/ exists x, result = inl x).
Proof.
  intros Hdb Hr Hp Hold Hflag [content Hobj].
  assert (H : ftri (fun s0 => s0 = s) (reconcile_command fault sha256 tar_manifest parse_json true) (fun b s0 => s0 = s /\ b = false) (fun _ s0 => s0 = s)).
  { eapply ftri_bind; [eapply ftri_conseq; [apply (build_at _ _ _ _ s)|done|intros a s0 H; exact H|done]|]. intros plan. apply ftri_pure. intros Hplan.
    simpl. destruct (ready plan) eqn:Hready.
    2: { do 2 (apply (ftri_seq _ _ _ (fun s0 => s0 = s)); [first [by apply ftri_ret|apply ftri_step; auto]|]). by apply ftri_ret. }
    destruct (unflagged_candidate s plan r content) as (c & Hc & Hn); try done.
    eapply ftri_seq; [eapply ftri_conseq; [by apply (unchecked_at s plan c)|done|intros [] s0 H; exact H|done]|]. by intros s0 m []. }
  specialize (H s n eq_refl). destruct (reconcile_command _ _ _ _ _ _) as [[x|b] [s' n']]; [eauto|]. destruct H as [-> ->]. eauto.
Qed.
End Theorems.

(** The run at the concrete state uploads, prunes and returns ready. *)
Lemma reconciliation_is_safe_witness :
  db_ok (x_db store) /\ let '(r, (s', _)) := run (fun _ => None) store in
  r = inr true /\ exact_remote store s' /\ agrees (fun _ => zeros) store (x_db s').
Proof.
  split; [apply store_ok|]. assert (E : fst (run (fun _ => None) store) = inr true) by (vm_compute; reflexivity).
  pose proof (reconciliation_is_safe (fun _ => None) (fun _ => zeros) Some known_json store O (proj1 store_ok)) as H. cbv zeta in H.
  unfold run in *. destruct (reconcile_command _ _ _ _ _ _) as [r [s' n']]. simpl in E. subst r. split; [done|]. apply H.
Defined.

(** The plan of the concrete state is ready, and its application is refused. *)
Lemma unflagged_generation_blocks_witness :
  let '(r, (s', _)) := run (fun _ => None) unflagged_store in
  s' = unflagged_store /\ r = inl (SafeF "prune protection changed") /\
  exists plan, fst (build_fixed_plan (fun _ => None) (fun _ => zeros) Some known_json (unflagged_store, O)) = inr plan /\ ready plan = true.
Proof.
  assert (E : fst (run (fun _ => None) unflagged_store) = inl (SafeF "prune protection changed")) by (vm_compute; reflexivity).
  assert (P : exists plan, fst (build_fixed_plan (fun _ => None) (fun _ => zeros) Some known_json (unflagged_store, O)) = inr plan /\ ready plan = true)
    by (eexists; split; vm_compute; reflexivity).
  pose proof (unflagged_generation_blocks (fun _ => None) (fun _ => zeros) Some known_json unflagged_store O (row SUN "1" false) (proj2 store_ok)) as H.
  unfold run in *. destruct (reconcile_command _ _ _ _ _ _) as [r [s' n']]. split_and!; [|exact E|exact P]. apply H.
  - left.
  - apply (bool_decide_unpack _). by vm_compute.
  - apply (bool_decide_unpack _). by vm_compute.
  - reflexivity.
  - eexists. vm_compute. reflexivity.
Defined.
