(* ===== verification/ReconcileReport.v ===== *)
(** The report of a reconciliation plan ([ReconciliationPlan.to_public_dict]): it gives
    the evidence and no path or object name. *)
From S2P Require Import Prelude Fault Backups Reconcile.

Definition public_generation (profile id : string) (n : Z) (digest : string) : list (string * json) :=
  [("profile_id", JStr profile); ("backup_id", JStr id); ("size_bytes", JInt n); ("sha256", JStr digest)]%string.

Definition public_summary (x : string * nat * nat * nat) : json :=
  let '(p, catalog, protections, remote) := x in
  JObj [("profile_id", JStr p); ("catalog_count", JInt (Z.of_nat catalog)); ("protection_count", JInt (Z.of_nat protections));
        ("remote_count", JInt (Z.of_nat remote))]%string.

Definition to_public_dict (p : ReconciliationPlan) : json :=
  JObj [
    ("status", JStr (if ready p then "READY" else "HOLD"));
    ("classification", JStr (classification p));
    ("profiles", JList (map public_summary (profile_summary p)));
    ("legacy_protection_imports", JList (map (fun x => JObj (public_generation (im_profile x) (im_backup x) (im_size x) (im_sha256 x))) (imports p)));
    ("protected_flag_corrections", JList (map (fun x =>
       JObj [("profile_id", JStr (co_profile x)); ("backup_id", JStr (co_backup x)); ("target_protected", JBool (co_protected x))])
       (protected_flag_corrections p)));
    ("prune_candidates", JList (map (fun x => JObj (public_generation (pc_profile x) (pc_backup x) (pc_size x) (pc_sha256 x)
       ++ [("kind", JStr (if pc_orphan x then "orphan" else "older"))])) (prune_candidates p)));
    ("remote_verification", JList (map (fun x => JObj (public_generation (rg_profile x) (rg_backup x) (rg_size x) (rg_sha256 x)
       ++ [("method", JStr (rg_method x))])) (remote_evidence p)));
    ("replacement_upload_candidates", JList (map (fun x => JObj (public_generation (rc_profile x) (rc_backup x) (rc_size x) (rc_sha256 x))) (replacement_candidates p)));
    ("verified_remote_orphans", JList (map (fun x => JObj (public_generation (or_profile x) (or_backup x) (or_size x) (or_sha256 x))) (remote_orphans p)));
    ("already_pruned_protection_corrections", JList (map (fun x => JObj [("profile_id", JStr (pp_profile x)); ("backup_id", JStr (pp_backup x))])
       (pruned_protection_corrections p)));
    ("refusals", JList (map JStr (refusals p)))]%string.

(** A plan without what the report leaves out: object keys, paths, what the manifests
    said, and the digest of a row that is closed. *)
Definition hide (p : ReconciliationPlan) : ReconciliationPlan :=
  Plan (classification p) (profile_summary p)
    (map (fun x => Import (im_profile x) (im_backup x) (im_size x) (im_sha256 x) EmptyString) (imports p))
    (protected_flag_corrections p)
    (map (fun x => Prune (pc_profile x) (pc_backup x) (pc_size x) (pc_sha256 x) (pc_orphan x) EmptyString) (prune_candidates p))
    (refusals p)
    (map (fun x => Remote (rg_profile x) (rg_backup x) (rg_size x) (rg_sha256 x) EmptyString None None false None (rg_method x)) (remote_evidence p))
    (map (fun x => Replacement (rc_profile x) (rc_backup x) (rc_size x) (rc_sha256 x) None) (replacement_candidates p))
    (map (fun x => Orphan (or_profile x) (or_backup x) (or_size x) (or_sha256 x) EmptyString) (remote_orphans p))
    (map (fun x => Pruned (pp_profile x) (pp_backup x) EmptyString EmptyString) (pruned_protection_corrections p)).

(** Two images of a list agree when one is a function of the other. *)
Lemma map_factor {A B C} (f : A -> B) (g : A -> C) : (forall x y, f x = f y -> g x = g y) -> forall l l', map f l = map f l' -> map g l = map g l'.
Proof.
  intros H. induction l as [|x l IH]; intros [|y l'] E; [done..|]. simpl in *. injection E as E1 E2. f_equal; auto.
Qed.

Lemma report_hidden p : to_public_dict (hide p) = to_public_dict p.
Proof. unfold to_public_dict. simpl. by rewrite !map_map. Qed.

(** The report of a plan is exact and private.  Two plans have the same report if
    and only if they are the same but for object keys, local paths, the contents of the
    manifests and the digest of a protection row that is only closed: the report shows
    none of these, and everything else of the plan. *)
Theorem report_is_exact p q : to_public_dict p = to_public_dict q <-> hide p = hide q.
Proof.
  split; [|intros E; by rewrite <- (report_hidden p), E, report_hidden]. intros E.
  injection E as _ Ec Es Ei Ef Ep Er Ex Eo Ed En. unfold hide. rewrite Ec.
  f_equal.
  - rewrite <- (map_id (profile_summary p)), <- (map_id (profile_summary q)). revert Es. apply map_factor. intros [[[a b] c] d] [[[a' b'] c'] d'] [=]. 
    repeat f_equal; try done; lia.
  - revert Ei. apply map_factor. by intros [] [] [= -> -> -> ->].
  - rewrite <- (map_id (protected_flag_corrections p)), <- (map_id (protected_flag_corrections q)). revert Ef. apply map_factor. by intros [] [] [= -> -> ->].
  - revert Ep. apply map_factor. intros [????[]] [????[]]; by intros [= -> -> -> ->].
  - rewrite <- (map_id (refusals p)), <- (map_id (refusals q)). revert En. apply map_factor. by intros ?? [= ->].
  - revert Er. apply map_factor. by intros [] [] [= -> -> -> -> ->].
  - revert Ex. apply map_factor. by intros [] [] [= -> -> -> ->].
  - revert Eo. apply map_factor. by intros [] [] [= -> -> -> ->].
  - revert Ed. apply map_factor. by intros [] [] [= -> ->].
Qed.
