(* ===== verification/Updates.v ===== *)
(** [updates.py], [UpdateService]: checking and applying an update, the download and
    extraction of a release, its publication behind the [current] link, and rollback.

    A directory is its regular and special files and its subdirectories, by their
    path below it; paths are lists of components, and the install root is given
    resolved.  Every durable effect can fail or be the last.  Injected functions, the
    network, the archive readers of the standard library, SHA-256 and the rest of the
    file system are parameters; their answers are numbered by the time. *)
From stdpp Require Import pretty.
From S2P Require Import Prelude Fault Archive.

#[local] Abbreviation path := (list string).

(** ** Paths *)

(** [base / s] *)
Definition join_path (base : path) (s : string) : path := if is_absolute s then parts s else base ++ parts s.
(** The path without its parent components. *)
Definition climb (acc : path) (x : string) : path := if String.eqb x ".." then removelast acc else acc ++ [x].
Definition normal (p : path) : path := foldl climb [] p.

Fixpoint shared (a b : path) : nat :=
  match a, b with
  | x :: a', y :: b' => if String.eqb x y then S (shared a' b') else O
  | _, _ => O
  end.
(** [os.path.relpath(p, start)] *)
Definition relpath (p start : path) : path :=
  let n := shared (normal p) (normal start) in
  repeat ".."%string (length (normal start) - n) ++ drop n (normal p).

(** ** Directories *)

Inductive item := Regular (content : string) (mode : Z) | Special.

Record bundle := Bundle { b_items : gmap path item; b_dirs : gset path }.
Definition no_files : bundle := Bundle ∅ ∅.

#[export] Instance item_eq_dec : EqDecision item.
Proof. solve_decision. Defined.
#[export] Instance bundle_eq_dec : EqDecision bundle.
Proof. solve_decision. Defined.

Definition above (p : path) : list path := map (fun n => take n p) (seq 1 (length p)).
Definition make_dirs (p : path) (b : bundle) : option bundle :=
  if forallb (fun q => negb (bool_decide (is_Some (b_items b !! q)))) (above p)
  then Some (Bundle (b_items b) (list_to_set (above p) ∪ b_dirs b)) else None.
Definition put_item (p : path) (x : item) (b : bundle) : option bundle :=
  if bool_decide (p = []) || bool_decide (p ∈ b_dirs b) then None
  else option_map (fun b' => Bundle (<[p := x]> (b_items b')) (b_dirs b')) (make_dirs (removelast p) b).
(** [open(p, "wb")]: the directory above is there. *)
Definition open_file (p : path) (x : item) (b : bundle) : option bundle :=
  if bool_decide (p = []) || bool_decide (p ∈ b_dirs b) || negb (bool_decide (removelast p = []) || bool_decide (removelast p ∈ b_dirs b)) then None
  else Some (Bundle (<[p := x]> (b_items b)) (b_dirs b)).
Definition is_file (p : path) (b : bundle) : bool := match b_items b !! p with Some (Regular _ _) => true | _ => false end.

(** ** Data *)

Inductive UpdateKind := Manual | SteamcmdInPlace | ReleaseSymlink | CuratedModpack.
#[export] Instance UpdateKind_eq_dec : EqDecision UpdateKind.
Proof. solve_decision. Defined.
Definition kind_value (k : UpdateKind) : string :=
  match k with Manual => "manual" | SteamcmdInPlace => "steamcmd_in_place" | ReleaseSymlink => "release_symlink" | CuratedModpack => "curated_modpack" end.

Record UpdateSpec := Spec {
  us_profile : string;
  us_kind : UpdateKind;
  us_sha256 : option string;
  us_executable : string;
  us_command : list string;
}.

Record UpdateResult := Result {
  ur_state : string;
  ur_profile : string;
  ur_strategy : string;
  ur_prior : option string;
  ur_new : option string;
}.

(** A row of the table of updates. *)
Record UpdateRow := Recorded {
  row_profile : string;
  row_strategy : string;
  row_prior : option string;
  row_new : option string;
  row_state : string;
}.

Definition STEAMCMD_ARGV : list string :=
  ["/opt/steamcmd/steamcmd.sh"; "+force_install_dir"; "/opt/pzserver"; "+login"; "anonymous"; "+app_update"; "380870"; "-beta"; "unstable"; "validate"; "+quit"]%string.
Definition MAX_DOWNLOAD_BYTES : Z := 512 * 1024 * 1024.
Definition MAX_ARCHIVE_MEMBERS : Z := 4096.
Definition MAX_MEMBER_BYTES : Z := 256 * 1024 * 1024.
Definition MAX_EXTRACTED_BYTES : Z := 1024 * 1024 * 1024.
Definition MAX_COMPRESSION_RATIO : Z := 100.

Record ZipMember := Zipped {
  zm_name : string;
  zm_size : Z;
  zm_attr : Z;
  zm_system : Z;
  zm_data : fexc + string;
}.
Inductive tar_kind := TarFile | TarDir | TarSymlink | TarHardlink | TarOther.
Record TarMember := Tarred {
  tm_name : string;
  tm_kind : tar_kind;
  tm_size : Z;
  tm_mode : Z;
  (** Nothing: the archive ends within the member. *)
  tm_data : option string;
}.

(** What is at [current]. *)
Inductive entry := Nothing | LinkTo (target : path) | PlainFile (content : string) | PlainDir.

(** The locals that the handlers of [_apply_release] read. *)
Record frame := Frame {
  f_staging : string + path;
  f_version : option string;
  f_swapped : bool;
}.

Record ustate := UState {
  (** Directories by their path: the releases. *)
  u_dirs : gmap path bundle;
  (** Staging directories and links below the install root. *)
  u_staging : gmap string bundle;
  u_links : gmap string path;
  u_current : entry;
  u_rows : list UpdateRow;
  (** Commands given to the runner, and files written outside a staging directory. *)
  u_runs : list (list string);
  u_outside : list path;
  u_frame : frame;
}.
Definition set_dirs (x : gmap path bundle) (s : ustate) : ustate := UState x (u_staging s) (u_links s) (u_current s) (u_rows s) (u_runs s) (u_outside s) (u_frame s).
Definition set_staging (x : gmap string bundle) (s : ustate) : ustate := UState (u_dirs s) x (u_links s) (u_current s) (u_rows s) (u_runs s) (u_outside s) (u_frame s).
Definition set_links (x : gmap string path) (s : ustate) : ustate := UState (u_dirs s) (u_staging s) x (u_current s) (u_rows s) (u_runs s) (u_outside s) (u_frame s).
Definition set_current (x : entry) (s : ustate) : ustate := UState (u_dirs s) (u_staging s) (u_links s) x (u_rows s) (u_runs s) (u_outside s) (u_frame s).
Definition set_frame (f : frame -> frame) (s : ustate) : ustate := UState (u_dirs s) (u_staging s) (u_links s) (u_current s) (u_rows s) (u_runs s) (u_outside s) (f (u_frame s)).
Definition add_row (r : UpdateRow) (s : ustate) : ustate := UState (u_dirs s) (u_staging s) (u_links s) (u_current s) (u_rows s ++ [r]) (u_runs s) (u_outside s) (u_frame s).
Definition add_run (c : list string) (s : ustate) : ustate := UState (u_dirs s) (u_staging s) (u_links s) (u_current s) (u_rows s) (u_runs s ++ [c]) (u_outside s) (u_frame s).
Definition add_outside (p : path) (s : ustate) : ustate := UState (u_dirs s) (u_staging s) (u_links s) (u_current s) (u_rows s) (u_runs s) (u_outside s ++ [p]) (u_frame s).

Definition with_version (v : option string) (f : frame) : frame := Frame (f_staging f) v (f_swapped f).
Definition with_swapped (b : bool) (f : frame) : frame := Frame (f_staging f) (f_version f) b.
Definition with_staging (p : string + path) (f : frame) : frame := Frame p (f_version f) (f_swapped f).

(** ** Text *)

Definition white (c : Ascii.ascii) : bool := let n := Ascii.nat_of_ascii c in ((9 <=? n) && (n <=? 13) || (28 <=? n) && (n <=? 32))%nat.
Definition line_end (c : Ascii.ascii) : bool := let n := Ascii.nat_of_ascii c in ((10 <=? n) && (n <=? 13) || (28 <=? n) && (n <=? 30))%nat.
Fixpoint lstrip (s : string) : string :=
  match s with String c s' => if white c then lstrip s' else s | EmptyString => EmptyString end.
Fixpoint rstrip (s : string) : string :=
  match s with
  | EmptyString => EmptyString
  | String c s' => match rstrip s' with EmptyString => if white c then EmptyString else String c EmptyString | r => String c r end
  end.
Definition strip (s : string) : string := rstrip (lstrip s).
(** [s.splitlines()[0]] *)
Fixpoint first_line (s : string) : string :=
  match s with String c s' => if line_end c then EmptyString else String c (first_line s') | EmptyString => EmptyString end.
(** [sub in s] and [s.replace(sub, by)]; [skip] characters of an occurrence are left. *)
Fixpoint contains (sub s : string) : bool :=
  String.prefix sub s || match s with String _ s' => contains sub s' | EmptyString => false end.
Fixpoint replace_all (sub by_ : string) (skip : nat) (s : string) : string :=
  match s with
  | EmptyString => EmptyString
  | String c s' =>
      match skip with
      | S k => replace_all sub by_ k s'
      | O => if String.prefix sub s then (by_ ++ replace_all sub by_ (String.length sub - 1) s')%string
             else String c (replace_all sub by_ O s')
      end
  end.
Definition lower_char (c : Ascii.ascii) : Ascii.ascii :=
  let n := Ascii.nat_of_ascii c in if ((65 <=? n) && (n <=? 90))%nat then Ascii.ascii_of_nat (n + 32) else c.
Fixpoint lower (s : string) : string := match s with String c s' => String (lower_char c) (lower s') | EmptyString => EmptyString end.
Definition hex_char (c : Ascii.ascii) : bool :=
  let n := Ascii.nat_of_ascii (lower_char c) in ((48 <=? n) && (n <=? 57) || (97 <=? n) && (n <=? 102))%nat.
Fixpoint all_chars (f : Ascii.ascii -> bool) (s : string) : bool := match s with String c s' => f c && all_chars f s' | EmptyString => true end.
Definition SHA256_text (s : string) : bool := Nat.eqb (String.length s) 64 && all_chars hex_char s.
Definition bytes (s : string) : Z := Z.of_nat (String.length s).

(** ** The environment of a service *)

(** What a fetch leaves at its destination: the file an injected downloader wrote, or
    the chunks of a response and how it ended. *)
Inductive fetched := Injected (r : fexc + option string) | Streamed (chunks : list string) (ending : option fexc).

Record BackupRow := Saved {
  bk_verified : bool;
  (** No path; or the size of the file at it, if there is one. *)
  bk_file : option (option Z);
}.
(** [create] of a backup service, whether it took its first arguments, and the rows it
    lists. *)
Record BackupAnswers := Answers {
  ba_create : option (bool * (fexc + option BackupRow));
  ba_list : list BackupRow;
}.

Record environment := Environment {
  w_fault : nat -> option fexc;
  w_install : path;
  (** The rest of the file system: its directories, and what else exists. *)
  w_dir : path -> bool;
  w_exists : path -> bool;
  w_has_db : bool;
  w_lease : nat -> bool;
  w_uuid : nat -> string;
  w_clock : nat -> Z;
  w_running : nat -> fexc + bool;
  w_backup : option (nat -> BackupAnswers);
  w_stage : option (nat -> bundle * (fexc + option string));
  w_verify : option (nat -> fexc + bool);
  w_fetch : nat -> fetched;
  w_free : nat -> option Z;
  w_command : list string -> nat -> fexc + string;
  w_sha256 : string -> string;
  w_zip : string -> option (list ZipMember);
  w_tar : string -> option (list TarMember);
}.

Section Service.
Context (w : environment).
#[local] Abbreviation fault := (w_fault w).
#[local] Abbreviation install := (w_install w).
#[local] Abbreviation UM := (FM ustate).

Definition raised {A} (r : fexc + A) : UM A := match r with inl x => fthrow x | inr a => mret a end.
(** [except Exception: pass] *)
Definition ignoring (m : UM unit) : UM unit := fexcept m (fun _ => mret tt).

Definition _assert_lease : UM unit :=
  b ← oracle (w_lease w); guard b "slot_conflict".

Definition _record (p : UpdateSpec) (state : string) (prior new : option string) : UM unit :=
  if w_has_db w then ignoring (feffect fault (add_row (Recorded (us_profile p) (kind_value (us_kind p)) prior new state))) else mret tt.

(** ** Staging *)

Definition releases : path := install ++ ["releases"%string].
Definition staging_path (name : string) : path := install ++ [name].

(** The staging directory of the call. *)
Definition staged (s : ustate) : option (string * bundle) :=
  match f_staging (u_frame s) with
  | inl name => option_map (pair name) (u_staging s !! name)
  | inr _ => None
  end.
Definition change (f : bundle -> option bundle) : UM unit :=
  o ← read staged;
  match o with
  | Some (name, b) =>
      match f b with
      | Some b' => feffect fault (fun s => set_staging (<[name := b']> (u_staging s)) s)
      | None => fthrow OsF
      end
  | None => fthrow OsF
  end.
Definition write (p : path) (x : item) : UM unit := change (put_item p x).

(** ** Download *)

Definition _trusted_checksum (p : UpdateSpec) : UM string :=
  match us_sha256 p with
  | Some c => if SHA256_text c then mret (lower c) else fail "update_failed"
  | None => fail "update_failed"
  end.

Fixpoint stream_body (chunks : list string) (ending : option fexc) (total : Z) (acc : string) : fexc + string :=
  match chunks with
  | [] => match ending with Some x => inl x | None => inr acc end
  | c :: chunks' =>
      if MAX_DOWNLOAD_BYTES <? total + bytes c then inl (SafeF "update_failed")
      else stream_body chunks' ending (total + bytes c) (acc ++ c)
  end.

(** [_download]; returns what it left at the destination. *)
Definition _download (p : UpdateSpec) : UM string :=
  expected ← _trusted_checksum p;
  f ← oracle (w_fetch w);
  o ← raised (match f with
              | Injected r => r
              | Streamed chunks ending => match stream_body chunks ending 0 EmptyString with inl x => inl x | inr c => inr (Some c) end
              end);
  match o with
  | None => fail "update_failed"
  | Some content =>
      change (open_file [".download"%string] (Regular content 420)) ;;
      guard (bytes content <=? MAX_DOWNLOAD_BYTES) "update_failed" ;;
      step fault ;; step fault ;;
      guard (String.eqb (w_sha256 w content) expected) "update_failed" ;;
      mret content
  end.

(** ** Extraction *)

(** The bounds on a member, given the sizes before it. *)
Definition expands (archive_size total : Z) : bool :=
  (MAX_EXTRACTED_BYTES <? total) || (negb (archive_size =? 0) && (archive_size * MAX_COMPRESSION_RATIO <? total)).
Definition resolved (name member : string) : path := normal (join_path (staging_path name) member).
Definition within (name member : string) : bool := bool_decide (staging_path name `prefix_of` resolved name member).

(** [ZipFile.extract] leaves out empty, current and parent components. *)
Definition zip_path (member : string) : path := List.filter (fun x => negb (String.eqb x "..")) (parts member).
Definition zip_is_dir (member : string) : bool := ends_with "/" member.
Definition S_IFMT (mode : Z) : Z := Z.land mode 61440.
(** Only the execution bits of a regular file made on Unix are kept. *)
Definition zip_mode (m : ZipMember) : Z :=
  let unix := Z.shiftr (zm_attr m) 16 in
  if (zm_system m =? 3) && (S_IFMT unix =? 32768) then Z.lor 420 (Z.land unix 73) else 420.

Fixpoint zip_loop (name : string) (archive_size total : Z) (members : list ZipMember) : UM unit :=
  match members with
  | [] => mret tt
  | m :: members' =>
      guard (zm_size m <=? MAX_MEMBER_BYTES) "update_failed" ;;
      guard (negb (expands archive_size (total + zm_size m))) "update_failed" ;;
      guard (within name (zm_name m)) "update_failed" ;;
      guard (negb (S_IFMT (Z.shiftr (zm_attr m) 16) =? 40960)) "update_failed" ;;
      (if zip_is_dir (zm_name m) then change (make_dirs (zip_path (zm_name m)))
       else content ← raised (zm_data m); write (zip_path (zm_name m)) (Regular content (zip_mode m))) ;;
      zip_loop name archive_size (total + zm_size m) members'
  end.

Fixpoint tar_checks (name : string) (archive_size total : Z) (members : list TarMember) : UM unit :=
  match members with
  | [] => mret tt
  | m :: members' =>
      guard (tm_size m <=? MAX_MEMBER_BYTES) "update_failed" ;;
      guard (negb (expands archive_size (total + tm_size m))) "update_failed" ;;
      guard (within name (tm_name m)) "update_failed" ;;
      guard (match tm_kind m with TarSymlink | TarHardlink => false | _ => true end) "update_failed" ;;
      tar_checks name archive_size (total + tm_size m) members'
  end.

Definition tar_path (name member : string) : path := drop (length (staging_path name)) (resolved name member).
(** [extractall]: false when it met a damaged member. *)
Fixpoint extractall (name : string) (members : list TarMember) : UM bool :=
  match members with
  | [] => mret true
  | m :: members' =>
      let p := tar_path name (tm_name m) in
      match tm_kind m, tm_data m with
      | TarDir, _ => change (make_dirs p) ;; extractall name members'
      | TarFile, Some content => write p (Regular content (tm_mode m)) ;; extractall name members'
      | TarFile, None => mret false
      | _, _ => write p Special ;; extractall name members'
      end
  end.

Definition is_dir_at (s : ustate) (p : path) : bool :=
  bool_decide (is_Some (u_dirs s !! p)) || bool_decide (p `prefix_of` releases) || w_dir w p.
Definition exists_at (s : ustate) (p : path) : bool := is_dir_at s p || w_exists w p.
Definition check_os (b : bool) : UM unit := if b then mret tt else fthrow OsF.

(** A payload that is no archive is the executable itself. *)
Definition single_payload (name content relative : string) : UM unit :=
  let target := resolved name relative in
  (if bool_decide (staging_path name `prefix_of` target) then change (open_file (drop (length (staging_path name)) target) (Regular content 420))
   else
     s ← read id;
     check_os (is_dir_at s (removelast target) && negb (is_dir_at s target)) ;;
     feffect fault (add_outside target)) ;;
  step fault ;; step fault.

Definition _safe_extract (name content relative : string) : UM unit :=
  free ← oracle (w_free w);
  match free with
  | None => fail "update_failed"
  | Some n =>
      guard (negb (n <? MAX_EXTRACTED_BYTES + MAX_MEMBER_BYTES)) "update_failed" ;;
      match w_zip w content with
      | Some members =>
          guard (Z.of_nat (length members) <=? MAX_ARCHIVE_MEMBERS) "update_failed" ;;
          zip_loop name (bytes content) 0 members
      | None =>
          match w_tar w content with
          | Some members =>
              guard (Z.of_nat (length members) <=? MAX_ARCHIVE_MEMBERS) "update_failed" ;;
              tar_checks name (bytes content) 0 members ;;
              ok ← extractall name members;
              if (ok : bool) then mret tt else single_payload name content relative
          | None => single_payload name content relative
          end
      end
  end.

(** ** Links *)

(** [os.symlink] at a new name, then [os.replace] over [current]. *)
Definition symlink (name : string) (target : path) : UM unit :=
  links ← read u_links;
  check_os (negb (bool_decide (is_Some (links !! name)))) ;;
  feffect fault (fun s => set_links (<[name := target]> (u_links s)) s).
Definition replace_current (name : string) : UM unit :=
  links ← read u_links;
  cur ← read u_current;
  match links !! name, cur with
  | Some target, (Nothing | LinkTo _ | PlainFile _) => feffect fault (fun s => set_current (LinkTo target) (set_links (delete name (u_links s)) s))
  | _, _ => fthrow OsF
  end.
(** [current.unlink(missing_ok=True)] *)
Definition unlink_current : UM unit :=
  cur ← read u_current;
  match cur with PlainDir => fthrow OsF | _ => feffect fault (set_current Nothing) end.

Definition _rollback_link (prior : option path) : UM unit :=
  match prior with
  | None => unlink_current ;; step fault
  | Some target =>
      u ← oracle (w_uuid w);
      let temporary := (".rollback-" ++ u)%string in
      symlink temporary target ;; step fault ;;
      replace_current temporary ;; step fault
  end.

(** ** Publication *)

(** [os.replace(staging, destination)]: the directory above is there, and a directory
    at the destination is empty. *)
Definition publish (dest : path) : UM unit :=
  let p := normal dest in
  o ← read staged;
  s ← read id;
  match o with
  | Some (name, b) =>
      check_os (is_dir_at s (removelast p) && match u_dirs s !! p with Some d => bool_decide (d = no_files) | None => negb (exists_at s p) end) ;;
      feffect fault (fun s => set_dirs (<[p := b]> (u_dirs s)) (set_staging (delete name (u_staging s)) s))
  | None => fthrow OsF
  end.

(** [shutil.rmtree(staging, ignore_errors=True)] *)
Definition discard : UM unit :=
  f ← read u_frame;
  match f_staging f with
  | inl name => ignoring (feffect fault (fun s => set_staging (delete name (u_staging s)) s))
  | inr dest =>
      if String.prefix ".release-" (default EmptyString (last dest))
      then ignoring (feffect fault (fun s => set_dirs (delete (normal dest) (u_dirs s)) s))
      else mret tt
  end.

(** The version command runs the staged executable. *)
Definition version_argv (executable : string) (command : list string) : list string :=
  let l := map (fun a => if contains "{staged_executable}" a then replace_all "{staged_executable}" executable O a
                         else if contains "/current/" a then executable else a) command in
  if existsb (fun a => String.eqb a executable) l then l else l ++ [executable].

Definition absolute (p : path) : string := ("/" ++ as_posix p)%string.

(** The content of the release, staged and checked; sets the version. *)
Definition stage_content (p : UpdateSpec) (name : string) : UM unit :=
  match w_stage w with
  | Some f =>
      r ← oracle f;
      change (fun _ => Some (fst r)) ;;
      v ← raised (snd r);
      modify (set_frame (with_version (match v with Some x => if nonempty x then Some x else None | None => None end)))
  | None =>
      content ← _download p;
      _safe_extract name content (us_executable p) ;;
      step fault
  end.

Definition check_content (p : UpdateSpec) : UM unit :=
  guard (negb (has_dotdot (us_executable p))) "update_failed" ;;
  o ← read staged;
  guard (match o with Some (_, b) => is_file (parts (us_executable p)) b | None => false end) "update_failed".

(** The version that the staged executable reports, unless it is known. *)
Definition check_version (p : UpdateSpec) (name : string) : UM unit :=
  match us_command p with
  | [] => mret tt
  | command =>
      r ← oracle (w_command w (version_argv (absolute (staging_path name ++ parts (us_executable p))) command));
      out ← raised r;
      guard (nonempty (strip out)) "update_failed" ;;
      f ← read u_frame;
      match f_version f with
      | None => modify (set_frame (with_version (Some (String.substring 0 128 (first_line (strip out))))))
      | Some _ => mret tt
      end
  end.

Definition choose_version : UM string :=
  f ← read u_frame;
  match f_version f with
  | Some v => mret v
  | None =>
      t ← oracle (w_clock w);
      let v := ("release-" ++ pretty t)%string in
      modify (set_frame (with_version (Some v))) ;; mret v
  end.

Definition choose_destination (v : string) : UM path :=
  s ← read id;
  if exists_at s (normal (join_path releases v)) then
    u ← oracle (w_uuid w); mret (join_path releases (v ++ "-" ++ String.substring 0 8 u)%string)
  else mret (join_path releases v).

Definition release_body (p : UpdateSpec) (name : string) (prior : option path) (prior_version : option string) : UM UpdateResult :=
  stage_content p name ;;
  check_content p ;;
  check_version p name ;;
  v ← choose_version;
  dest ← choose_destination v;
  _assert_lease ;;
  publish dest ;;
  step fault ;;
  modify (set_frame (with_staging (inr dest))) ;;
  u ← oracle (w_uuid w);
  let temporary := (".current-" ++ u)%string in
  symlink temporary (relpath dest install) ;;
  step fault ;;
  _assert_lease ;;
  replace_current temporary ;;
  modify (set_frame (with_swapped true)) ;;
  step fault ;;
  (match w_verify w with
   | None => mret tt
   | Some f =>
       r ← oracle f;
       ok ← raised r;
       if (ok : bool) then mret tt
       else
         _record p "failed" prior_version (Some v) ;;
         _rollback_link prior ;;
         modify (set_frame (with_swapped false)) ;;
         _record p "rolled_back" (Some v) prior_version ;;
         fail "update_failed"
   end) ;;
  _record p "succeeded" prior_version (Some v) ;;
  mret (Result "succeeded" (us_profile p) "release_symlink" prior_version (Some v)).

Definition release_failed (p : UpdateSpec) (prior : option path) (prior_version : option string) (x : fexc) : UM UpdateResult :=
  f ← read u_frame;
  match x with
  | SafeF _ =>
      (if f_swapped f then _rollback_link prior else mret tt) ;;
      discard ;;
      fthrow x
  | _ =>
      (if f_swapped f then
         _rollback_link prior ;;
         _record p "failed" prior_version (f_version f) ;;
         _record p "rolled_back" (f_version f) prior_version
       else mret tt) ;;
      discard ;;
      fail "update_failed"
  end.

Definition _apply_release (p : UpdateSpec) : UM UpdateResult :=
  step fault ;;
  cur ← read u_current;
  let prior := match cur with LinkTo t => Some t | _ => None end in
  let prior_version := option_map (fun t => default EmptyString (last t)) prior in
  u ← oracle (w_uuid w);
  let name := (".release-" ++ u)%string in
  dirs ← read u_staging;
  check_os (negb (bool_decide (is_Some (dirs !! name)))) ;;
  feffect fault (fun s => set_staging (<[name := no_files]> (u_staging s)) s) ;;
  modify (set_frame (fun _ => Frame (inl name) None false)) ;;
  fexcept (release_body p name prior prior_version) (release_failed p prior prior_version).

(** ** Updates *)

Definition usable (b : BackupRow) : bool :=
  bk_verified b && match bk_file b with None => true | Some None => false | Some (Some n) => 0 <? n end.

Definition _backup : UM BackupRow :=
  match w_backup w with
  | None => fail "backup_failed"
  | Some f =>
      a ← oracle f;
      o ← raised (match ba_create a with
                  | None => inr None
                  | Some (_, inr o) => inr o
                  | Some (true, inl (OsF | OtherF)) => inl (SafeF "backup_failed")
                  | Some (_, inl x) => inl x
                  end);
      match (match o with Some b => Some b | None => List.find bk_verified (ba_list a) end) with
      | Some b => guard (usable b) "backup_failed" ;; mret b
      | None => fail "backup_failed"
      end
  end.

Definition run_steamcmd (p : UpdateSpec) : UM UpdateResult :=
  fexcept (modify (add_run STEAMCMD_ARGV) ;; step fault)
    (fun _ => _record p "failed" None None ;; fail "update_failed") ;;
  _record p "succeeded" None None ;;
  mret (Result "succeeded" (us_profile p) (kind_value (us_kind p)) None None).

Definition apply (p : UpdateSpec) : UM UpdateResult :=
  r ← oracle (w_running w);
  running ← raised r;
  guard (negb running) "profile_running" ;;
  match us_kind p with
  | Manual => mret (Result "manual_only" (us_profile p) (kind_value (us_kind p)) None None)
  | kind =>
      _ ← _backup;
      match kind with
      | SteamcmdInPlace => run_steamcmd p
      | ReleaseSymlink => _apply_release p
      | _ => fail "update_failed"
      end
  end.

Definition rollback (p : UpdateSpec) (target : option string) : UM UpdateResult :=
  match target with
  | None => fail "update_failed"
  | Some t =>
      let target_path := join_path releases t in
      s ← read id;
      guard (is_dir_at s (normal target_path)) "update_failed" ;;
      _rollback_link (Some (relpath target_path install)) ;;
      _record p "rolled_back" None (Some t) ;;
      mret (Result "rolled_back" (us_profile p) (kind_value (us_kind p)) None (Some t))
  end.
End Service.

(** ** Checks *)

Record UpdateStatus := Status {
  st_profile : string;
  st_strategy : string;
  st_installed : option string;
  st_available : option string;
  st_restart : bool;
  st_supported : bool;
  st_state : string;
}.

(** [check], given the installed and the candidate version. *)
Definition check (p : UpdateSpec) (installed candidate : option string) (manual_checker : option (fexc + UpdateStatus)) : UpdateStatus :=
  let failed := Status (us_profile p) "manual" installed None false false "failed" in
  match us_kind p, manual_checker with
  | Manual, Some (inl _) => failed
  | Manual, Some (inr r) => if String.eqb (st_profile r) (us_profile p) then r else failed
  | kind, _ =>
      let available := if bool_decide (candidate = installed) then None else candidate in
      let applies := negb (bool_decide (kind = Manual)) in
      Status (us_profile p) (kind_value kind) installed available applies applies
        (if applies then match available with None => "current" | Some _ => "available" end else "unsupported")
  end.
