(* ===== verification/UpdatesTheorems.v ===== *)
(** An update switches between whole releases and rolls back; it needs a stopped
    profile and a usable backup; an extraction is bounded. *)
From stdpp Require Import pretty.
From S2P Require Import Prelude Fault Archive Updates.

(** ** Paths *)

Lemma climb_no_parent p acc : Forall (fun x => x <> ".."%string) acc -> Forall (fun x => x <> ".."%string) (foldl climb acc p).
Proof.
  revert acc. induction p as [|x p IH]; intros acc H; [done|]. simpl. apply IH. unfold climb. destruct (String.eqb_spec x "..") as [->|Hne].
  - destruct acc as [|y acc'] using rev_ind; [done|]. rewrite removelast_last. by apply Forall_app in H as [H _].
  - apply Forall_app. by repeat constructor.
Qed.
Lemma normal_no_parent p : Forall (fun x => x <> ".."%string) (normal p).
Proof. by apply climb_no_parent. Qed.

Lemma climb_down acc p : Forall (fun x => x <> ".."%string) p -> foldl climb acc p = acc ++ p.
Proof.
  revert acc. induction p as [|x p IH]; intros acc H; [by rewrite app_nil_r|]. simpl. inversion H; subst. rewrite IH by done.
  unfold climb. destruct (String.eqb_spec x ".."); [done|]. by rewrite <- app_assoc.
Qed.
Lemma climb_up acc k : foldl climb acc (repeat ".."%string k) = take (length acc - k) acc.
Proof.
  revert acc. induction k as [|k IH]; intros acc; simpl; [rewrite Nat.sub_0_r; symmetry; apply take_ge; lia|].
  rewrite IH. unfold climb. simpl. destruct acc as [|y acc'] using rev_ind; [done|]. rewrite removelast_last, length_app, Nat.add_comm. simpl.
  rewrite take_app_le by lia. done.
Qed.
Lemma shared_take a b : take (shared a b) a = take (shared a b) b.
Proof. revert b. induction a as [|x a IH]; intros [|y b]; simpl; try done. destruct (String.eqb_spec x y) as [->|]; simpl; [by rewrite IH|done]. Qed.
Lemma shared_le a b : (shared a b <= length b)%nat.
Proof. revert b. induction a as [|x a IH]; intros [|y b]; simpl; try lia. destruct (String.eqb x y); [specialize (IH b)|]; lia. Qed.

(** A link to the relative path denotes the path. *)
Lemma relpath_denotes p start : normal start = start -> normal (start ++ relpath p start) = normal p.
Proof.
  intros Hs. unfold normal at 1. rewrite foldl_app. fold (normal start). rewrite Hs. unfold relpath. rewrite Hs. set (n := shared (normal p) start).
  rewrite foldl_app, climb_up. pose proof (shared_le (normal p) start). replace (length start - (length start - n))%nat with n by lia.
  unfold n. rewrite <- shared_take. fold n. rewrite climb_down; [apply take_drop|]. apply Forall_drop, normal_no_parent.
Qed.

(** ** The publication of a release *)

Section Release.
Context (w : environment) (p : UpdateSpec) (s0 : ustate).
#[local] Abbreviation fault := (w_fault w).
#[local] Abbreviation install := (w_install w).
#[local] Abbreviation exe := (parts (us_executable p)).

Definition prior_of (c : entry) : option (list string) := match c with LinkTo t => Some t | _ => None end.
Hypothesis Hplain : forall c, u_current s0 <> PlainFile c.
Hypothesis Hlinks : forall u, u_links s0 !! (".rollback-" ++ u)%string = None.

(** Links of an interrupted rollback are the only ones that stop a rollback. *)
Definition no_rollback (s : ustate) : Prop := forall u, u_links s !! (".rollback-" ++ u)%string = None.

(** The release is being staged: all else is as before. *)
Record staging (name : string) (s : ustate) : Prop := {
  sg_dirs : u_dirs s = u_dirs s0;
  sg_current : u_current s = u_current s0;
  sg_staging : exists b, u_staging s = <[name := b]> (u_staging s0);
  sg_links : u_links s = u_links s0;
  sg_frame : f_staging (u_frame s) = inl name /\ f_swapped (u_frame s) = false;
}.
Definition staging_ok (name : string) (s : ustate) : Prop :=
  staging name s /\ exists b, u_staging s = <[name := b]> (u_staging s0) /\ is_file exe b = true.

(** The release is in place, and [current] is as before or denotes it. *)
Record placed (name : string) (dest : list string) (s : ustate) : Prop := {
  pl_dirs : exists b, u_dirs s = <[normal dest := b]> (u_dirs s0) /\ is_file exe b = true;
  pl_free : u_dirs s0 !! normal dest = None \/ u_dirs s0 !! normal dest = Some no_files;
  pl_staging : u_staging s = u_staging s0;
  pl_frame : f_staging (u_frame s) = inl name \/ f_staging (u_frame s) = inr dest;
}.
Definition linked (dest : list string) (s : ustate) : Prop := u_current s = LinkTo (relpath dest install) /\ u_current s0 <> PlainDir.

(** *** Staging *)

Section Staging.
Context (name : string).
#[local] Abbreviation kept := (keeps (staging name)).

Lemma kept_frame f : (forall x, f_staging (f x) = f_staging x /\ f_swapped (f x) = f_swapped x) -> kept (modify (set_frame f)).
Proof. intros Hf. apply keeps_modify. intros s [H1 H2 H3 H4 [H5 H6]]. split; try done. simpl. destruct (Hf (u_frame s)) as [-> ->]. done. Qed.
Lemma kept_change f : kept (change w f).
Proof.
  intros s n H. pose proof H as [H1 H2 [b H3] H4 [H5 H6]]. unfold change, mbind, FM_bind, read, staged. simpl. rewrite H5, H3, lookup_insert_eq. simpl.
  destruct (f b) as [b'|]; [|done]. unfold feffect. simpl. destruct (fault n); [done|]. split; try done. simpl. exists b'. by rewrite H3, insert_insert_eq.
Qed.
Lemma kept_raised {A} (r : fexc + A) : kept (raised r).
Proof. destruct r; eauto with helios. Qed.
Lemma kept_outside q : kept (feffect fault (add_outside q)).
Proof. apply keeps_effect. intros s []. by split. Qed.
Lemma kept_check b : kept (check_os b).
Proof. destruct b; unfold check_os; eauto with helios. Qed.
#[local] Hint Resolve kept_change kept_raised kept_outside kept_check : helios.

#[local] Ltac keep := repeat first
  [ solve [auto 2 with helios] | apply kept_frame; done | apply keeps_bind; [|intros ?] | case_match ].

Lemma kept_lease : kept (_assert_lease w).
Proof. unfold _assert_lease. keep. Qed.
Lemma kept_zip n a t l : kept (zip_loop w n a t l).
Proof. revert t. induction l as [|m l IH]; intros t; cbn [zip_loop]; unfold write; keep. Qed.
Lemma kept_tar n a t l : kept (tar_checks w n a t l).
Proof. revert t. induction l as [|m l IH]; intros t; simpl; keep. Qed.
Lemma kept_extractall n l : kept (extractall w n l).
Proof. induction l as [|m l IH]; simpl; unfold write; keep. Qed.
#[local] Hint Resolve kept_lease kept_zip kept_tar kept_extractall : helios.
Lemma kept_extract n c r : kept (_safe_extract w n c r).
Proof. unfold _safe_extract, single_payload. keep. Qed.
Lemma kept_download : kept (_download w p).
Proof. unfold _download, _trusted_checksum. keep. Qed.
#[local] Hint Resolve kept_extract kept_download : helios.
Lemma kept_stage n : kept (stage_content w p n).
Proof. unfold stage_content. keep. Qed.

Lemma kept_ok f : (forall x, f_staging (f x) = f_staging x /\ f_swapped (f x) = f_swapped x) -> keeps (staging_ok name) (modify (set_frame f)).
Proof. intros Hf s n [H Hb]. split; [by apply (kept_frame f Hf s n H)|done]. Qed.

#[local] Ltac keep_ok := repeat first
  [ solve [auto 2 with helios] | apply kept_ok; done | apply keeps_bind; [|intros ?] | case_match ].

Lemma content_at : ftri (staging name) (check_content p) (fun _ => staging_ok name) (fun _ => staging name).
Proof.
  apply ftri_guard_then; [done|]. intros _. eapply ftri_bind; [apply ftri_read|]. intros o s n [H ->]. unfold guard.
  match goal with |- context [if ?b then _ else _] => destruct b eqn:Hf end; [|exact H].
  split; [done|]. pose proof H as [_ _ [b Hb] _ [Hs _]]. exists b. split; [done|]. unfold staged in Hf. rewrite Hs, Hb, lookup_insert_eq in Hf. done.
Qed.

Lemma checked_kept : keeps (staging_ok name) (check_version w p name).
Proof. unfold check_version, raised. keep_ok. Qed.
Lemma version_kept : keeps (staging_ok name) (choose_version w).
Proof. unfold choose_version. keep_ok. Qed.
Lemma destination_kept v : keeps (staging_ok name) (choose_destination w v).
Proof. unfold choose_destination. keep_ok. Qed.
End Staging.

(** *** The release in place *)

Definition sure : Prop := forall n, fault n = None.
Definition calm (s : ustate) : Prop := sure -> no_rollback s.

(** [current] is as before unless the call has swapped it. *)
Record bad (name : string) (dest : list string) (s : ustate) : Prop := {
  bd_placed : placed name dest s;
  bd_current : u_current s = u_current s0 \/ linked dest s;
  bd_same : f_swapped (u_frame s) = false -> u_current s = u_current s0;
  bd_dir : f_swapped (u_frame s) = true -> u_current s0 <> PlainDir;
  bd_calm : calm s;
}.
Definition before (name : string) (dest : list string) (s : ustate) : Prop := bad name dest s /\ f_swapped (u_frame s) = false.
Definition swapped (name : string) (dest : list string) (s : ustate) : Prop := bad name dest s /\ f_swapped (u_frame s) = true.

Section Placed.
Context (name : string) (dest : list string).
Hypothesis Hname : u_staging s0 !! name = None.

Lemma publish_at : ftri (staging_ok name) (publish w dest) (fun _ => before name dest) (fun _ => staging_ok name).
Proof.
  intros s n H. pose proof H as [[H1 H2 _ H4 [H5 H6]] (b & Hb & Hf)]. unfold publish, mbind, FM_bind, read, staged. simpl. rewrite H5, Hb, lookup_insert_eq. simpl.
  unfold check_os. destruct (_ && _) eqn:Ec; [|done]. unfold feffect. simpl. destruct (fault n); [done|].
  assert (Hfree : u_dirs s0 !! normal dest = None \/ u_dirs s0 !! normal dest = Some no_files).
  { apply andb_prop in Ec as [_ Ec]. rewrite H1 in Ec. destruct (u_dirs s0 !! normal dest); [right|by left]. apply bool_decide_eq_true in Ec. by subst. }
  split; [|done]. split; simpl.
  - split; simpl; [exists b; by rewrite H1|done|by rewrite Hb, delete_insert_id|by left].
  - by left.
  - done.
  - congruence.
  - intros _ u. simpl. rewrite H4. apply Hlinks.
Qed.

(** What the placed release needs of a state. *)
Lemma bad_ext s s' : bad name dest s -> u_dirs s' = u_dirs s -> u_staging s' = u_staging s -> u_links s' = u_links s -> u_current s' = u_current s ->
  u_frame s' = u_frame s -> bad name dest s'.
Proof.
  intros [[(b & H1 & H1') H2 H3 H4] H5 H6 H7 H8] E1 E2 E3 E4 E5. unfold linked, calm, no_rollback in *.
  split; [split|..]; unfold linked, calm, no_rollback; rewrite ?E1, ?E2, ?E3, ?E4, ?E5; try done. by exists b.
Qed.

Lemma record_keeps (P : ustate -> Prop) state a b : (forall r s, P s -> P (add_row r s)) -> keeps P (_record w p state a b).
Proof. intros HP. unfold _record, ignoring. destruct (w_has_db w); [|apply keeps_ret]. apply keeps_except; [by apply keeps_effect; auto|]. intros x. apply keeps_ret. Qed.

Definition complete (s : ustate) : Prop := swapped name dest s /\ linked dest s.

Lemma before_row r s : before name dest s -> before name dest (add_row r s).
Proof. intros [H1 H2]. split; [by apply (bad_ext s)|done]. Qed.
Lemma complete_row r s : complete s -> complete (add_row r s).
Proof. intros [[H1 H2] H3]. split; [split; [by apply (bad_ext s)|done]|done]. Qed.

Lemma symlink_at u t : ftri (before name dest) (symlink w (".current-" ++ u) t)
  (fun _ s => before name dest s /\ u_links s !! (".current-" ++ u)%string = Some t) (fun _ => before name dest).
Proof.
  intros s n H. unfold symlink, mbind, FM_bind, read, check_os. simpl. case_bool_decide; [done|]. simpl. unfold feffect. simpl. destruct (fault n); [done|].
  pose proof H as [[[Hd Hf Hs Hr] H5 H6 H7 H8] H9]. split; [|simpl; apply lookup_insert_eq]. split; [|done]. split; simpl; try done.
  intros Hsure v. simpl. rewrite lookup_insert_ne; [by apply H8|]. intros E. by injection E.
Qed.

Lemma swap_at tmp : ftri (fun s => before name dest s /\ u_links s !! tmp = Some (relpath dest install)) (replace_current w tmp ;; modify (set_frame (with_swapped true)))
  (fun _ => complete) (fun _ => before name dest).
Proof.
  intros s n [H Hl]. pose proof H as [[[Hd Hf Hs Hr] H5 H6 H7 H8] H9]. unfold replace_current, mbind, FM_bind, read. simpl. rewrite Hl.
  assert (Hgo : u_current s0 <> PlainDir -> match (let '(r, st) := feffect fault (fun s => set_current (LinkTo (relpath dest install)) (set_links (delete tmp (u_links s)) s)) (s, n) in
      match r with inr _ => modify (set_frame (with_swapped true)) st | inl x => (inl x, st) end) with (inr _, (s', _)) => complete s' | (inl x, (s', _)) => before name dest s' end).
  { intros Hp. unfold feffect. simpl. destruct (fault n); [done|]. simpl. split; [split; [|done]|done]. split; simpl; try done.
    - by right.
    - intros Hsure v. simpl. apply lookup_delete_None. right. by apply H8. }
  specialize (H6 H9). rewrite H6. destruct (u_current s0) eqn:Ec; [| | |done]; unfold feffect in *; simpl in *; destruct (fault n); by apply Hgo.
Qed.

(** Without a fault an effect is done. *)
Lemma effect_sure f (P Q : ustate -> Prop) : (forall s, P s -> Q (f s)) -> ftri P (feffect fault f) (fun _ => Q) (fun _ s => P s /\ ~ sure).
Proof. intros HQ. apply ftri_effect_fault; [done|]. intros x n s Hf Hs. split; [done|]. intros H. by rewrite (H n) in Hf. Qed.

Lemma swapped_set c links s : swapped name dest s -> (c = u_current s0 \/ c = u_current s) -> (no_rollback s -> no_rollback (set_links links s)) ->
  swapped name dest (set_current c (set_links links s)).
Proof.
  intros [[[Hd Hf Hs Hr] H5 H6 H7 H8] H9] Hc Hl. split; [|done]. split; simpl; try done; [| |intros Hsure; apply Hl; auto].
  - destruct Hc as [-> | ->]; [by left|]. destruct H5 as [H5|H5]; [by left|right; exact H5].
  - intros. congruence.
Qed.

Lemma rollback_at : ftri (swapped name dest) (_rollback_link w (prior_of (u_current s0)))
  (fun _ s => swapped name dest s /\ u_current s = u_current s0) (fun _ s => swapped name dest s /\ ~ sure).
Proof.
  pose (back := fun s => swapped name dest s /\ u_current s = u_current s0).
  assert (Hstep : ftri back (step fault) (fun _ => back) (fun _ s => swapped name dest s /\ ~ sure)).
  { eapply ftri_conseq; [apply (effect_sure id back back); done|done|done|]. by intros x s [[? _] ?]. }
  destruct (u_current s0) as [|t|c|] eqn:Ec; simpl.
  - eapply ftri_seq; [|exact Hstep]. intros s n H. pose proof H as [[_ H5 _ _ _] _]. unfold unlink_current, mbind, FM_bind, read. simpl.
    assert (Hn : u_current s <> PlainDir) by (destruct H5 as [H5|[H5 _]]; congruence).
    assert (E : ftri (fun s1 => s1 = s) (feffect fault (set_current Nothing)) (fun _ => back) (fun _ s1 => swapped name dest s1 /\ ~ sure)).
    { eapply ftri_conseq; [apply (effect_sure (set_current Nothing) (fun s1 => s1 = s) back)|done|done|by intros x s1 [-> ?]]. intros s1 ->. split; [|by simpl; rewrite ?Ec].
      apply (swapped_set Nothing (u_links s) s); [done|by left|done]. }
    specialize (E s n eq_refl). destruct (u_current s); [done..|congruence].
  - eapply ftri_bind; [apply (ftri_oracle _ (swapped name dest))|]. intros u. set (tmp := (".rollback-" ++ u)%string).
    pose (made := fun s => exists s1, swapped name dest s1 /\ u_links s1 !! tmp = None /\ s = set_links (<[tmp := t]> (u_links s1)) s1).
    assert (Hmade : forall s, made s -> ~ sure -> swapped name dest s).
    { intros s (s1 & [[[Hd Hf Hs Hr] H5 H6 H7 H8] H9] & _ & ->) Hn. split; [|done]. split; simpl; try done. by intros Hsure. }
    apply (ftri_seq _ _ _ made).
    { intros s n H. unfold symlink, mbind, FM_bind, read, check_os. simpl. case_bool_decide as Hl; simpl.
      - split; [done|]. intros Hsure. pose proof H as [[_ _ _ _ H8] _]. specialize (H8 Hsure u). fold tmp in H8. rewrite H8 in Hl. by destruct Hl.
      - apply eq_None_not_Some in Hl. assert (E : ftri (fun s1 => s1 = s) (feffect fault (fun s => set_links (<[tmp := t]> (u_links s)) s)) (fun _ => made)
          (fun _ s1 => swapped name dest s1 /\ ~ sure)); [|by apply (E s n eq_refl)].
        eapply ftri_conseq; [apply (effect_sure _ (fun s1 => s1 = s) made)|done|done|by intros x s1 [-> ?]]. intros s1 ->. by exists s. }
    apply (ftri_seq _ _ _ made).
    { eapply ftri_conseq; [apply (effect_sure id made made); done|done|done|]. intros x s [? ?]. auto. }
    eapply ftri_seq; [|exact Hstep]. intros s n H. pose proof H as (s1 & H1 & Hl & ->). pose proof H1 as [[_ H5 _ _ _] _].
    unfold replace_current, mbind, FM_bind, read. simpl. rewrite lookup_insert_eq.
    assert (Hn : u_current s1 <> PlainDir) by (destruct H5 as [H5|[H5 _]]; congruence).
    assert (E : ftri (fun s2 => s2 = set_links (<[tmp := t]> (u_links s1)) s1) (feffect fault (fun s => set_current (LinkTo t) (set_links (delete tmp (u_links s)) s)))
      (fun _ => back) (fun _ s2 => swapped name dest s2 /\ ~ sure)).
    { eapply ftri_conseq; [apply (effect_sure _ (fun s2 => s2 = set_links (<[tmp := t]> (u_links s1)) s1) back)|done|done|intros x s2 [-> ?]; auto].
      intros s2 ->. split; [|by simpl; rewrite ?Ec]. simpl. rewrite delete_insert_id by done. apply (swapped_set (LinkTo t) (u_links s1) s1); [done|by left|done]. }
    specialize (E _ n eq_refl). destruct (u_current s1); [done..|congruence].
  - by destruct (Hplain c).
  - apply ftri_false. intros s [[_ _ _ H7 _] H9]. by apply H7.
Qed.

Lemma verified_at state a b v x : ftri complete
  (match w_verify w with
   | None => mret tt
   | Some f =>
       r ← oracle f;
       ok ← raised r;
       if (ok : bool) then mret tt
       else
         _record w p state a b ;;
         _rollback_link w (prior_of (u_current s0)) ;;
         modify (set_frame (with_swapped false)) ;;
         _record w p v b a ;;
         fail x
   end) (fun _ => complete) (fun _ => bad name dest).
Proof.
  destruct (w_verify w) as [f|]; [|by apply ftri_ret]. eapply ftri_bind; [apply (ftri_oracle _ complete)|]. intros r.
  eapply (ftri_bind _ _ _ (fun _ => complete)); [destruct r; [apply ftri_throw; by intros s [[? _] _]|by apply ftri_ret]|]. intros [|]; [by apply ftri_ret|].
  eapply ftri_seq; [eapply ftri_conseq; [apply (record_keeps complete state a b), complete_row|done|done|by intros y s [[? _] _]]|].
  eapply ftri_seq; [eapply ftri_conseq; [apply rollback_at|by intros s [? _]|intros [] s H; exact H|by intros y s [[? _] _]]|].
  apply (ftri_seq _ _ _ (before name dest)).
  { apply ftri_modify. intros s [[[[Hd Hf Hs Hr] H5 H6 H7 H8] H9] Hc]. split; [|done]. by split; simpl; auto. }
  eapply ftri_seq; [eapply ftri_conseq; [apply (record_keeps (before name dest)), before_row|done|done|by intros y s [? _]]|].
  apply ftri_throw. by intros s [? _].
Qed.
End Placed.

(** *** The whole call *)

Definition failing (name : string) (s : ustate) : Prop := staging name s \/ exists dest, bad name dest s.
Definition finished (s : ustate) : Prop := exists name dest, complete name dest s.

Lemma body_at name : u_staging s0 !! name = None ->
  ftri (staging name) (release_body w p name (prior_of (u_current s0)) (option_map (fun t => default EmptyString (last t)) (prior_of (u_current s0))))
    (fun _ => finished) (fun _ => failing name).
Proof.
  intros Hname. assert (Hs : forall s, staging name s -> failing name s) by by left. assert (Hok : forall s, staging_ok name s -> failing name s) by (intros s [? _]; by left).
  assert (Hb : forall dest s, before name dest s -> failing name s) by (intros dest s [? _]; right; eauto).
  eapply ftri_seq; [eapply ftri_conseq; [apply (kept_stage name name)|done|intros [] s H; exact H|auto]|].
  eapply ftri_seq; [eapply ftri_conseq; [apply (content_at name)|done|intros [] s H; exact H|auto]|].
  eapply ftri_seq; [eapply ftri_conseq; [apply (checked_kept name)|done|intros [] s H; exact H|auto]|].
  eapply ftri_bind; [eapply ftri_conseq; [apply (version_kept name)|done|intros a s H; exact H|auto]|]. intros v.
  eapply ftri_bind; [eapply ftri_conseq; [apply (destination_kept name v)|done|intros a s H; exact H|auto]|]. intros dest.
  assert (Hlease : forall P : ustate -> Prop, (forall s, P s -> failing name s) -> ftri P (_assert_lease w) (fun _ => P) (fun _ => failing name)).
  { intros P HP. eapply ftri_bind; [apply (ftri_oracle _ P)|]. intros b. apply ftri_guard. auto. }
  assert (Hstep : forall P : ustate -> Prop, (forall s, P s -> failing name s) -> ftri P (step fault) (fun _ => P) (fun _ => failing name)) by (intros P HP; apply ftri_step; auto).
  eapply ftri_seq; [by apply (Hlease (staging_ok name))|].
  eapply ftri_seq; [eapply ftri_conseq; [by apply (publish_at name dest)|done|intros [] s H; exact H|auto]|].
  eapply ftri_seq; [by apply (Hstep (before name dest)), Hb|].
  apply (ftri_seq _ _ _ (before name dest)).
  { apply ftri_modify. intros s [[[Hd Hf Hg Hr] H5 H6 H7 H8] H9]. split; [|done]. split; try done. split; simpl; try done. by right. }
  eapply ftri_bind; [apply (ftri_oracle _ (before name dest))|]. intros u.
  pose (made := fun s => before name dest s /\ u_links s !! (".current-" ++ u)%string = Some (relpath dest install)).
  assert (Hm : forall s, made s -> failing name s) by (intros s [H _]; by apply (Hb dest)).
  eapply ftri_seq; [eapply ftri_conseq; [apply (symlink_at name dest)|done|intros [] s H; exact H|intros x; apply Hb]|].
  eapply ftri_seq; [by apply (Hstep made)|]. eapply ftri_seq; [by apply (Hlease made)|].
  assert (Hc : forall s, complete name dest s -> failing name s) by (intros s [[H _] _]; right; eauto).
  apply (ftri_pre _ made); [|done].
  apply ftri_bind_assoc. eapply ftri_seq; [eapply ftri_conseq; [apply (swap_at name dest)|done|intros [] s H; exact H|intros x; apply Hb]|].
  eapply ftri_seq; [by apply (Hstep (complete name dest))|].
  eapply ftri_seq; [eapply ftri_conseq; [apply (verified_at name dest)|done|intros [] s H; exact H|intros x s H; right; by exists dest]|].
  eapply ftri_seq; [eapply ftri_conseq; [apply (record_keeps (complete name dest)), complete_row|done|intros [] s H; exact H|intros x; apply Hc]|].
  apply ftri_ret. intros s H. by exists name, dest.
Qed.

(** A release with content is not touched; [current] is as before or denotes a whole
    release with its executable. *)
Hypothesis Hinstall : normal install = install.
Definition kept_dirs (s : ustate) : Prop := forall q b, u_dirs s0 !! q = Some b -> b <> no_files -> u_dirs s !! q = Some b.
Definition denotes (s : ustate) : Prop := exists t b, u_current s = LinkTo t /\ u_dirs s !! normal (install ++ t) = Some b /\ is_file exe b = true.
Definition sound (s : ustate) : Prop := kept_dirs s /\ (u_current s = u_current s0 \/ denotes s).
Definition ended (x : fexc) (s : ustate) : Prop :=
  sound s /\ (sure -> is_end x = false -> u_current s = u_current s0 /\ u_staging s = u_staging s0).

Lemma placed_kept name dest s : placed name dest s -> kept_dirs s.
Proof.
  intros [(b & Hd & _) Hf _ _] q c Hq Hc. rewrite Hd. destruct (decide (q = normal dest)) as [->|Hne]; [|by rewrite lookup_insert_ne]. destruct Hf; congruence.
Qed.
Lemma linked_denotes name dest s : placed name dest s -> linked dest s -> denotes s.
Proof. intros [(b & Hd & Hf) _ _ _] [Hc _]. exists (relpath dest install), b. rewrite Hd, relpath_denotes, lookup_insert_eq by done. done. Qed.
Lemma bad_sound name dest s : bad name dest s -> sound s.
Proof. intros [H1 H2 _ _ _]. split; [by eapply placed_kept|]. destruct H2; [by left|right]. by eapply linked_denotes. Qed.
Lemma failing_sound name s : failing name s -> sound s.
Proof. intros [[H1 H2 _ _ _]|[dest H]]; [|by eapply bad_sound]. split; [|by left]. intros q b. by rewrite H1. Qed.

Lemma ignoring_at f (P Q : ustate -> Prop) : (forall s, P s -> Q (f s)) -> ftri P (ignoring (feffect fault f)) (fun _ s => (P s \/ Q s) /\ (sure -> Q s)) (fun x s => is_end x = true /\ P s).
Proof.
  intros H s n Hs. unfold ignoring, fexcept, feffect. simpl. destruct (fault n) as [x|] eqn:Ef; simpl; [|by auto].
  destruct (is_end x) eqn:Ex; simpl; [done|]. split; [by left|]. intros Hsure. by rewrite Hsure in Ef.
Qed.

(** The end of a failed call: what it staged is removed. *)
Definition settled (s : ustate) : Prop := kept_dirs s /\ u_current s = u_current s0 /\ (sure -> u_staging s = u_staging s0).

Lemma settled_sound s : settled s -> sound s.
Proof. intros (H1 & H2 & _). by split; [|left]. Qed.

Lemma discard_at name : u_staging s0 !! name = None ->
  ftri (fun s => staging name s \/ exists dest, bad name dest s /\ u_current s = u_current s0) (discard w) (fun _ => settled) (fun x s => is_end x = true /\ sound s).
Proof.
  intros Hname s n H. assert (Hsound : sound s) by (destruct H as [H|(dest & H & _)]; eapply failing_sound; [by left|right; by exists dest]).
  unfold discard, mbind, FM_bind, read. simpl.
  assert (Hrun : forall f, kept_dirs s -> u_current s = u_current s0 -> settled (f s) ->
    match ignoring (feffect fault f) (s, n) with (inr _, (s', _)) => settled s' | (inl x, (s', _)) => is_end x = true /\ sound s' end).
  { intros f Hk Hc Hf. pose proof (ignoring_at f (fun s1 => s1 = s) settled) as Hi. specialize (Hi ltac:(by intros s1 ->) s n eq_refl).
    destruct (ignoring _ _) as [[x|a] [s' n']]; [by destruct Hi as [? ->]|]. destruct Hi as [[->|?] Hq]; [|done]. split_and!; [done|done|]. intros Hsure. by apply Hq. }
  destruct H as [[H1 H2 [b H3] H4 [H5 H6]]|(dest & [[(b & Hd & Hx) Hf Hs Hr] _ _ _ _] & Hc)].
  - rewrite H5. apply Hrun; [intros q c; by rewrite H1|done|]. split_and!; [intros q c; simpl; by rewrite H1|done|]. intros _. simpl. by rewrite H3, delete_insert_id.
  - assert (Hk : kept_dirs s) by (by eapply (placed_kept name dest); split; eauto).
    destruct Hr as [-> | ->].
    + apply Hrun; [done|done|]. split_and!; [exact Hk|done|]. intros _. simpl. rewrite Hs. by rewrite delete_id.
    + destruct (String.prefix _ _); [|simpl; by split_and!]. apply Hrun; [done|done|]. split_and!; [|done|by intros _].
      intros q c Hq Hne. simpl. rewrite Hd. destruct (decide (q = normal dest)) as [->|Hn]; [destruct Hf; congruence|]. by rewrite lookup_delete_ne, lookup_insert_ne.
Qed.

Lemma failed_at name x pv : u_staging s0 !! name = None -> is_end x = false ->
  ftri (failing name) (release_failed w p (prior_of (u_current s0)) pv x) (fun _ _ => False) ended.
Proof.
  intros Hname Hx.
  pose (clean := fun s => staging name s \/ exists dest, bad name dest s /\ u_current s = u_current s0).
  assert (Hunsure : forall y s, failing name s -> ~ sure -> ended y s) by (intros y s H Hn; split; [by eapply failing_sound|by intros ?]).
  assert (Hdiscard : forall y, ftri clean (discard w ;; (fthrow y : FM ustate UpdateResult)) (fun _ _ => False) ended).
  { intros y. eapply ftri_seq; [eapply ftri_conseq; [by apply (discard_at name)|done|intros [] s H; exact H|]|].
    - intros z s [Hz Hs]. split; [done|]. intros _ Hf. congruence.
    - apply ftri_throw. intros s H. split; [by apply settled_sound|]. intros Hsure _. destruct H as (_ & H2 & H3). auto. }
  assert (Hback : forall y (m : FM ustate unit), (forall dest, ftri (swapped name dest) m (fun _ s => swapped name dest s /\ u_current s = u_current s0) ended) ->
    forall f, ftri (fun s => failing name s /\ f = u_frame s) ((if f_swapped f then m else mret tt) ;; discard w ;; (fthrow y : FM ustate UpdateResult)) (fun _ _ => False) ended).
  { intros y m Hm f. destruct (f_swapped f) eqn:Ef; (apply (ftri_seq _ _ _ clean); [|apply (Hdiscard y)]).
    - apply ftri_each. intros s [H ->]. destruct H as [[_ _ _ _ [_ H]]|[dest H]]; [congruence|].
      eapply ftri_conseq; [apply (Hm dest)|by intros s1 ->|intros [] s1 [[? _] ?]; right; by exists dest|done].
    - apply ftri_ret. intros s [H ->]. destruct H as [H|[dest H]]; [by left|right]. exists dest. split; [done|]. by apply H. }
  assert (Hroll : forall dest, ftri (swapped name dest) (_rollback_link w (prior_of (u_current s0))) (fun _ s => swapped name dest s /\ u_current s = u_current s0) ended).
  { intros dest. eapply ftri_conseq; [apply (rollback_at name dest)|done|done|]. intros z s [[? _] ?]. apply Hunsure; [right; by exists dest|done]. }
  assert (Hrow : forall dest a b c, ftri (fun s => swapped name dest s /\ u_current s = u_current s0) (_record w p a b c) (fun _ s => swapped name dest s /\ u_current s = u_current s0) ended).
  { intros dest a b c. eapply ftri_conseq; [apply (record_keeps (fun s => swapped name dest s /\ u_current s = u_current s0))|done|done|].
    - intros r s [[H1 H2] H3]. split; [|done]. split; [by apply (bad_ext name dest s)|done].
    - intros z s [[H1 _] H2]. split; [by eapply bad_sound|]. intros _ _. split; [done|]. by destruct H1 as [[_ _ ? _] _ _ _ _]. }
  unfold release_failed. eapply ftri_bind; [apply ftri_read|]. intros f.
  destruct x as [c| | |]; [| | |done]; apply Hback; try exact Hroll; intros dest; (eapply ftri_seq; [apply Hroll|]; eapply ftri_seq; [apply Hrow|apply Hrow]).
Qed.

Lemma release_at : ftri (fun s => s = s0) (_apply_release w p) (fun _ s => finished s) ended.
Proof.
  assert (He : forall x, ended x s0) by (intros x; split; [split; [by intros q b|by left]|done]).
  apply (ftri_seq _ _ _ (fun s => s = s0)); [apply ftri_step; by intros x s ->|]. apply ftri_read_at. eapply ftri_bind; [apply (ftri_oracle _ (fun s => s = s0))|]. intros u.
  apply ftri_read_at. set (name := (".release-" ++ u)%string).
  apply (ftri_seq _ _ _ (fun s => s = s0 /\ u_staging s0 !! name = None)).
  { unfold check_os. case_bool_decide as Hn; simpl; [by apply ftri_throw; intros s ->|]. apply ftri_ret. intros s ->. split; [done|]. by apply eq_None_not_Some. }
  apply ftri_pure. intros Hname.
  apply (ftri_seq _ _ _ (fun s => s = set_staging (<[name := no_files]> (u_staging s0)) s0)).
  { apply ftri_effect; [by intros s ->|by intros x s ->]. }
  apply (ftri_seq _ _ _ (staging name)).
  { apply ftri_modify. intros s ->. split; try done. by exists no_files. }
  eapply ftri_except; [exact (body_at name Hname)|intros x Hx|].
  - eapply ftri_conseq; [exact (failed_at name x _ Hname Hx)|done|done|done].
  - intros x s Hx H. split; [exact (failing_sound name s H)|]. intros _. congruence.
Qed.
End Release.


(** ** What an update needs *)

Lemma backup_at w s n : match _backup w (s, n) with
  | (inr b, (s', _)) => s' = s /\ usable b = true /\ exists f, w_backup w = Some f /\ ((exists d, ba_create (f n) = Some (d, inr (Some b))) \/ List.In b (ba_list (f n)))
  | (inl _, (s', _)) => s' = s
  end.
Proof.
  unfold _backup. destruct (w_backup w) as [f|]; [|done]. unfold mbind, FM_bind, oracle, raised, guard, fail, fthrow, mret, FM_ret. simpl.
  destruct (ba_create (f n)) as [[[] [x|[b|]]]|] eqn:Ec; try (by destruct x); simpl;
    try (destruct (List.find _ _) as [b|] eqn:Ef; [apply find_some in Ef as [Ef _]|done]); (destruct (usable b) eqn:Eu; simpl; [|done]);
    (split_and!; [done|done|]); exists f; (split; [done|]); first [by right|left; by eexists].
Qed.

(** An update changes something only when the profile was found stopped and the backup
    service then gave a verified backup whose file, if it has one, is not empty. *)
Theorem update_needs_backup w p s n :
  let '(_, (s', _)) := apply w p (s, n) in
  s' = s \/ (w_running w n = inr false /\ exists f b, w_backup w = Some f /\ usable b = true /\
    ((exists d, ba_create (f (S n)) = Some (d, inr (Some b))) \/ List.In b (ba_list (f (S n))))).
Proof.
  assert (H : forall k : FM ustate UpdateResult, let '(_, (s', _)) := (running ← raised (inr false); guard (negb running) "profile_running" ;; _ ← _backup w; k) (s, S n) in
    s' = s \/ (@inr fexc bool false = inr false /\ exists f b, w_backup w = Some f /\ usable b = true /\
      ((exists d, ba_create (f (S n)) = Some (d, inr (Some b))) \/ List.In b (ba_list (f (S n)))))).
  { intros k. pose proof (backup_at w s (S n)) as Hb. unfold mbind, FM_bind. simpl. destruct (_backup w (s, S n)) as [[x|b] [s1 n1]]; [by left|].
    destruct Hb as (-> & Hu & f & Hf & Hrow). destruct (k (s, n1)) as [r [s' n']]. right. split; [done|]. by exists f, b. }
  unfold apply. unfold mbind at 1, FM_bind at 1, oracle. cbn [fst snd]. destruct (w_running w n) as [x|[|]] eqn:Er; [by left|by left|].
  destruct (us_kind p) eqn:Ek; [by left|apply H..].
Qed.

(** A curated modpack is reported as one whose updates can be applied, and no call of
    [apply] succeeds. *)
Theorem curated_update_never_applies w p installed candidate checker s n :
  us_kind p = CuratedModpack -> st_supported (check p installed candidate checker) = true /\ exists x, fst (apply w p (s, n)) = inl x.
Proof.
  intros Hk. split; [by unfold check; rewrite Hk|]. unfold apply, mbind, FM_bind, oracle, raised. cbn [fst snd]. rewrite Hk.
  destruct (w_running w n) as [x|[|]]; [eauto|eauto|]. simpl. destruct (_backup w (s, S n)) as [[x|b] [s1 n1]]; eauto.
Qed.

(** ** Extraction *)

Definition total (l : list Z) : Z := foldr Z.add 0 l.
(** The bounds on the sizes that the members of an archive declare. *)
Definition fits (archive : string) (sizes : list Z) : Prop :=
  Z.of_nat (length sizes) <= MAX_ARCHIVE_MEMBERS /\ Forall (fun n => n <= MAX_MEMBER_BYTES) sizes /\
  total sizes <= MAX_EXTRACTED_BYTES /\ (archive <> EmptyString -> total sizes <= bytes archive * MAX_COMPRESSION_RATIO).

Lemma seq_returns {S A B} (m : FM S A) (k : A -> FM S B) st b st' : (m ≫= k) st = (inr b, st') -> exists a st1, m st = (inr a, st1) /\ k a st1 = (inr b, st').
Proof. unfold mbind, FM_bind. destruct (m st) as [[x|a] st1]; [done|]. eauto. Qed.
Lemma guard_returns {S} b code st a (st' : S * nat) : guard b code st = (inr a, st') -> b = true /\ st' = st.
Proof. destruct b; [by intros [= _ <-]|done]. Qed.

Lemma zip_sizes w name size t l st st' : zip_loop w name size t l st = (inr tt, st') ->
  Forall (fun m => zm_size m <= MAX_MEMBER_BYTES /\ within w name (zm_name m) = true) l /\ (l = [] \/ expands size (t + total (map zm_size l)) = false).
Proof.
  revert t st. induction l as [|m l IH]; intros t st; [by split; [|left]|]. intros H. cbn [zip_loop] in H.
  apply seq_returns in H as (? & st1 & [H1 ->]%guard_returns & H). apply seq_returns in H as (? & st2 & [H2 ->]%guard_returns & H).
  apply seq_returns in H as (? & st3 & [H3 ->]%guard_returns & H). apply seq_returns in H as (? & st4 & [_ ->]%guard_returns & H).
  apply seq_returns in H as (? & st5 & _ & H). destruct (IH _ _ H) as [H4 H5]. split; [constructor; [split; [lia|done]|done]|right].
  apply negb_true_iff in H2. simpl. rewrite Z.add_assoc. destruct H5 as [->|H5]; [simpl; by rewrite Z.add_0_r|done].
Qed.

Lemma tar_sizes w name size t l st st' : tar_checks w name size t l st = (inr tt, st') ->
  Forall (fun m => tm_size m <= MAX_MEMBER_BYTES /\ within w name (tm_name m) = true /\ tm_kind m <> TarSymlink /\ tm_kind m <> TarHardlink) l /\
  (l = [] \/ expands size (t + total (map tm_size l)) = false).
Proof.
  revert t st. induction l as [|m l IH]; intros t st; [by split; [|left]|]. intros H. cbn [tar_checks] in H.
  apply seq_returns in H as (? & st1 & [H1 ->]%guard_returns & H). apply seq_returns in H as (? & st2 & [H2 ->]%guard_returns & H).
  apply seq_returns in H as (? & st3 & [H3 ->]%guard_returns & H). apply seq_returns in H as (? & st4 & [Hk ->]%guard_returns & H).
  destruct (IH _ _ H) as [H4 H5]. split; [constructor; [split_and!; [lia|done|..]; intros E; by rewrite E in Hk|done]|right].
  apply negb_true_iff in H2. simpl. rewrite Z.add_assoc. destruct H5 as [->|H5]; [simpl; by rewrite Z.add_0_r|done].
Qed.

Lemma within_fits archive sizes : Z.of_nat (length sizes) <= MAX_ARCHIVE_MEMBERS -> Forall (fun n => n <= MAX_MEMBER_BYTES) sizes ->
  (sizes = [] \/ expands (bytes archive) (0 + total sizes) = false) -> fits archive sizes.
Proof.
  intros H1 H2 H3. split_and!; [done|done|..].
  - destruct H3 as [->|H3]; [by vm_compute|]. apply orb_false_iff in H3 as [H3 _]. lia.
  - intros Hne. assert (0 < bytes archive) by (destruct archive; [done|unfold bytes; simpl; lia]). destruct H3 as [->|H3]; [unfold total, MAX_COMPRESSION_RATIO; simpl; lia|].
    apply orb_false_iff in H3 as [_ H3]. apply andb_false_iff in H3 as [H3|H3]; [apply negb_false_iff in H3|]; lia.
Qed.

(** An extraction that returns from an archive of either kind is bounded: the sizes its
    members declare fit, every member has its place below the staging directory, and a
    tar archive has no links. *)
Theorem extraction_is_bounded w name archive relative st st' :
  _safe_extract w name archive relative st = (inr tt, st') ->
  (forall l, w_zip w archive = Some l -> fits archive (map zm_size l) /\ Forall (fun m => within w name (zm_name m) = true) l) /\
  (forall l, w_zip w archive = None -> w_tar w archive = Some l -> fits archive (map tm_size l) /\
     Forall (fun m => within w name (tm_name m) = true /\ tm_kind m <> TarSymlink /\ tm_kind m <> TarHardlink) l).
Proof.
  intros H. apply seq_returns in H as (o & st1 & _ & H). destruct o as [free|]; [|done]. apply seq_returns in H as (? & st2 & _ & H). split.
  - intros l El. rewrite El in H. apply seq_returns in H as (? & st3 & [Hn _]%guard_returns & H). apply zip_sizes in H as [H1 H2]. apply Z.leb_le in Hn. split.
    + apply within_fits; [by rewrite length_map|apply Forall_map; eapply Forall_impl; [exact H1|by intros m [? _]]|]. destruct H2 as [->|H2]; [by left|by right].
    + eapply Forall_impl; [exact H1|by intros m [_ ?]].
  - intros l Ez El. rewrite Ez, El in H. apply seq_returns in H as (? & st3 & [Hn _]%guard_returns & H). apply Z.leb_le in Hn.
    apply seq_returns in H as ([] & st4 & H & _). apply tar_sizes in H as [H1 H2]. split.
    + apply within_fits; [by rewrite length_map|apply Forall_map; eapply Forall_impl; [exact H1|by intros m [? _]]|]. destruct H2 as [->|H2]; [by left|by right].
    + eapply Forall_impl; [exact H1|]. intros m (_ & ? & ? & ?). done.
Qed.

(** A file of a ZIP archive never gets a privilege bit or a bit that lets its group or
    others write. *)
Lemma zip_mode_is_plain m : Z.land (zip_mode m) 3602 = 0.
Proof.
  unfold zip_mode. destruct (_ && _); [|done]. rewrite Z.land_lor_distr_l, <- Z.land_assoc. change (Z.land 73 3602) with 0. by rewrite Z.land_0_r.
Qed.

(** ** A concrete service *)

Definition demo_digest : string := "0000000000000000000000000000000000000000000000000000000000000000".
Definition demo_env (lease : nat -> bool) (zip : string -> option (list ZipMember)) : environment :=
  Environment (fun _ => None) ["srv"; "game"]%string (fun _ => false) (fun _ => false) true lease (fun n => pretty n) (fun _ => 7)
    (fun _ => inr false) (Some (fun _ => Answers (Some (true, inr (Some (Saved true None)))) [])) None None
    (fun _ => Injected (inr (Some "payload"%string))) (fun _ => Some (2 * 1024 * 1024 * 1024)) (fun _ _ => inr EmptyString) (fun _ => demo_digest) zip (fun _ => None).
Definition demo_spec (executable : string) : UpdateSpec := Spec "terraria-vanilla" ReleaseSymlink (Some demo_digest) executable [].
Definition old_release : bundle := Bundle {[ ["server"%string] := Regular "old" 493 ]} ∅.
Definition demo_site : ustate :=
  UState {[ ["srv"; "game"; "releases"; "1.0"]%string := old_release ]} ∅ ∅ (LinkTo ["releases"; "1.0"]%string) [] [] [] (Frame (inl EmptyString) None false).

Definition demo_run (executable : string) : (fexc + UpdateResult) * (ustate * nat) :=
  apply (demo_env (fun _ => true) (fun _ => None)) (demo_spec executable) (demo_site, O).


(** A payload that is no archive is published as a file that cannot be executed, beside
    the payload itself. *)
Example payload_is_not_executable :
  let '(r, (s', _)) := demo_run "server" in
  (exists x, r = inr x) /\ u_current s' = LinkTo ["releases"; "release-7"]%string /\
  exists b, u_dirs s' !! ["srv"; "game"; "releases"; "release-7"]%string = Some b /\
    b_items b !! ["server"%string] = Some (Regular "payload" 420) /\ b_items b !! [".download"%string] = Some (Regular "payload" 420).
Proof. vm_compute. split; [by eexists|]. split; [done|]. eexists. split; [reflexivity|]. done. Qed.

(** An executable path with a parent component is refused after the payload was written
    outside the staging directory. *)
Example payload_escapes_staging :
  let '(r, (s', _)) := demo_run "../x" in r = inl (SafeF "update_failed") /\ u_outside s' = [["srv"; "game"; "x"]%string].
Proof. by vm_compute. Qed.
