(* ===== verification/Worlds.v ===== *)
(** [worlds.py], [WorldService]: the copy of a Vanilla world into the tModLoader
    profile, which never overwrites a world.

    The source can be read differently each time, a rival can create the destination at
    any time, and every effect can fail or be the last; SHA-256, the clock and the
    backup service are parameters. *)
From Stdlib Require Import Ascii.
From S2P Require Import Prelude Fault Archive.

(** ** Names *)

(** What is at a path of the source root. *)
Inductive source_kind := SourceFile | SourceLink | SourceOther.

Record worlds := Worlds {
  (** The worlds of the destination root, and its staging directories with the copy. *)
  t_worlds : gmap string string;
  t_staging : gmap string (option string);
}.

Record clone_env := CloneEnv {
  c_fault : nat -> option fexc;
  c_stopped : option (nat -> fexc + bool);
  c_kind : string -> option source_kind;
  c_read : nat -> fexc + string;
  c_backup : nat -> fexc + unit;
  c_stamp : nat -> string;
  c_uuid : nat -> string;
  c_lease : nat -> bool;
  (** The content a rival has put at the destination by then. *)
  c_rival : nat -> option string;
  c_sha256 : string -> string;
}.

Definition alnum (c : Ascii.ascii) : bool :=
  let n := Ascii.nat_of_ascii c in ((48 <=? n) && (n <=? 57) || (65 <=? n) && (n <=? 90) || (97 <=? n) && (n <=? 122))%nat.
Definition name_char (c : Ascii.ascii) : bool :=
  alnum c || existsb (Ascii.eqb c) [" "; "_"; "."; "-"]%char.
Fixpoint every_char (f : Ascii.ascii -> bool) (s : string) : bool := match s with String c s' => f c && every_char f s' | EmptyString => true end.
Definition _NAME (s : string) : bool :=
  match s with
  | String c s' => alnum c && every_char name_char s' && (String.length s' <=? 63)%nat
  | EmptyString => false
  end.

Definition approved_id (s : string) : bool :=
  nonempty s && every_char (fun c => negb (Ascii.eqb c "/"%char) && negb (Ascii.eqb c "\"%char)) s && negb (String.eqb s ".") && negb (String.eqb s "..").

(** The last dot that neither begins nor ends the name. *)
Fixpoint last_dot (i : nat) (s : string) : option nat :=
  match s with
  | EmptyString => None
  | String c s' =>
      match last_dot (S i) s' with
      | Some j => Some j
      | None => if Ascii.eqb c "."%char then Some i else None
      end
  end.
Definition dot_of (s : string) : option nat :=
  match last_dot O s with
  | Some i => if ((0 <? i) && (i <? String.length s - 1))%nat then Some i else None
  | None => None
  end.
(** [Path(s).suffix] *)
Definition suffix (s : string) : string := match dot_of s with Some i => String.substring i (String.length s - i) s | None => EmptyString end.

Section Clone.
Context (w : clone_env).
#[local] Abbreviation fault := (c_fault w).
#[local] Abbreviation WM := (FM worlds).

Definition answered {A} (r : fexc + A) : WM A := match r with inl x => fthrow x | inr a => mret a end.
Definition with_worlds (f : gmap string string -> gmap string string) (s : worlds) : worlds := Worlds (f (t_worlds s)) (t_staging s).
Definition with_staged (f : gmap string (option string) -> gmap string (option string)) (s : worlds) : worlds := Worlds (t_worlds s) (f (t_staging s)).

Definition _assert_lease : WM unit := b ← oracle (c_lease w); guard b "slot_conflict".

Definition _stopped : WM unit :=
  match c_stopped w with
  | None => fail "profile_running"
  | Some f => r ← oracle f; b ← answered r; guard b "profile_running"
  end.

Definition read_source : WM string := r ← oracle (c_read w); answered r.

(** [staging.mkdir] and [open(target, "xb")] *)
Definition make_staging (name : string) : WM unit :=
  l ← read t_staging;
  if bool_decide (is_Some (l !! name)) then fthrow OsF else feffect fault (with_staged (<[name := None]>)).
Definition _copy_readonly (name : string) : WM string :=
  content ← read_source;
  feffect fault (with_staged (<[name := Some content]>)) ;;
  step fault ;;
  mret content.

(** Something is at the destination when a rival has put it there. *)
Definition rival_acts (destination : string) : WM unit :=
  o ← oracle (c_rival w);
  match o with
  | Some c => modify (with_worlds (fun l => match l !! destination with Some _ => l | None => <[destination := c]> l end))
  | None => mret tt
  end.
(** [os.link]: exclusive. *)
Definition link_world (destination content : string) : WM unit :=
  rival_acts destination ;;
  l ← read t_worlds;
  if bool_decide (is_Some (l !! destination)) then fthrow OsF else feffect fault (with_worlds (<[destination := content]>)).

Definition remove_staging (name : string) : WM unit := fexcept (feffect fault (with_staged (delete name))) (fun _ => mret tt).

Definition clone_body (staging destination source_hash : string) : WM string :=
  make_staging staging ;;
  content ← _copy_readonly staging;
  again ← read_source;
  guard (String.eqb (c_sha256 w content) source_hash && String.eqb (c_sha256 w again) source_hash) "clone_failed" ;;
  step fault ;;
  _assert_lease ;;
  link_world destination content ;;
  feffect fault (with_staged (<[staging := None]>)) ;;
  feffect fault (with_staged (delete staging)) ;;
  mret (c_sha256 w content).

(** [clone_vanilla_to_tmod]; returns the destination and the two digests. *)
Definition clone_vanilla_to_tmod (world_id destination_name : string) : WM (string * string * string) :=
  guard (approved_id world_id) "invalid_world" ;;
  guard (_NAME destination_name) "invalid_world" ;;
  _stopped ;;
  guard (match c_kind w world_id with Some SourceFile => true | _ => false end) "world_not_found" ;;
  first ← read_source;
  let source_hash := c_sha256 w first in
  b ← oracle (c_backup w);
  _ ← answered b;
  step fault ;;
  stamp ← oracle (c_stamp w);
  u ← oracle (c_uuid w);
  let destination := (destination_name ++ "-" ++ stamp ++ "-" ++ String.substring 0 8 u ++ suffix world_id)%string in
  v ← oracle (c_uuid w);
  let staging := (".clone-" ++ v)%string in
  rival_acts destination ;;
  l ← read t_worlds;
  guard (negb (bool_decide (is_Some (l !! destination)))) "destination_exists" ;;
  h ← fexcept (clone_body staging destination source_hash)
        (fun x => match x with
                  | SafeF _ => remove_staging staging ;; fthrow x
                  | OsF => remove_staging staging ;; fail "clone_failed"
                  | _ => fthrow x
                  end);
  mret (destination, source_hash, h).
End Clone.

(** ** A clone never overwrites and never publishes half a world *)

Section Clones.
Context (w : clone_env) (s0 : worlds).
#[local] Abbreviation fault := (c_fault w).
Hypothesis Hfresh : forall v, t_staging s0 !! (".clone-" ++ v)%string = None.

Definition read_at_some_time (c : string) : Prop := exists m, c_read w m = inr c.
(** A content that was read from the source, with the digest of the readings before and
    after. *)
Definition genuine (c : string) : Prop := read_at_some_time c /\
  exists a b, read_at_some_time a /\ read_at_some_time b /\ c_sha256 w a = c_sha256 w c /\ c_sha256 w b = c_sha256 w c.
Definition of_rival (c : string) : Prop := exists m, c_rival w m = Some c.
Definition all_work : Prop := forall n, fault n = None.

Definition grown (P : string -> Prop) (s : worlds) : Prop :=
  (forall k c, t_worlds s0 !! k = Some c -> t_worlds s !! k = Some c) /\
  (forall k c, t_worlds s !! k = Some c -> t_worlds s0 !! k = Some c \/ P c).
Definition untouched_worlds (s : worlds) : Prop := grown of_rival s.
Definition published_worlds (s : worlds) : Prop := grown (fun c => of_rival c \/ genuine c) s.

Lemma untouched_published s : untouched_worlds s -> published_worlds s.
Proof. intros [H1 H2]. split; [done|]. intros k c Hk. destruct (H2 k c Hk); auto. Qed.
Lemma grown_insert (P : string -> Prop) k c s : grown P s -> t_worlds s !! k = None -> P c -> grown P (with_worlds (<[k := c]>) s).
Proof.
  intros [H1 H2] Hk Hc. split; simpl.
  - intros k' c' H. destruct (decide (k' = k)) as [->|Hne]; [apply H1 in H; congruence|]. rewrite lookup_insert_ne by done. auto.
  - intros k' c' H. destruct (decide (k' = k)) as [->|Hne]; [rewrite lookup_insert_eq in H; simplify_eq; auto|]. rewrite lookup_insert_ne in H by done. auto.
Qed.

(** The state while the copy is staged. *)
Definition staged_at (o : option (string * option string)) (s : worlds) : Prop :=
  untouched_worlds s /\ t_staging s = match o with Some (name, c) => <[name := c]> (t_staging s0) | None => t_staging s0 end.

Lemma rival_at o d : ftri (staged_at o) (rival_acts w d) (fun _ => staged_at o) (fun _ => staged_at o).
Proof.
  intros s n [H1 H2]. unfold rival_acts, mbind, FM_bind, oracle. simpl. destruct (c_rival w n) as [c|] eqn:Er; [|done]. simpl.
  destruct (t_worlds s !! d) eqn:Ed; (split; [|done]).
  - destruct s as [l st]. simpl in *. unfold with_worlds. simpl. by rewrite Ed.
  - pose proof (grown_insert of_rival d c s H1 Ed (ex_intro _ n Er)) as H. unfold with_worlds in *. simpl in *. by rewrite Ed.
Qed.

Lemma read_source_at o : ftri (staged_at o) (read_source w) (fun c s => staged_at o s /\ read_at_some_time c) (fun _ => staged_at o).
Proof. intros s n H. unfold read_source, mbind, FM_bind, oracle, answered. simpl. destruct (c_read w n) as [x|c] eqn:Er; simpl; [done|]. split; [done|by exists n]. Qed.

Lemma oracle_at {A} o (f : nat -> fexc + A) : ftri (staged_at o) (r ← oracle f; answered r) (fun _ => staged_at o) (fun _ => staged_at o).
Proof. intros s n H. unfold mbind, FM_bind, oracle, answered. simpl. by destruct (f n). Qed.

(** How the copy can stop before it is complete. *)
Definition stopped_clone (name : string) (s : worlds) : Prop :=
  (exists o, staged_at o s /\ (o = None \/ exists c, o = Some (name, c))) \/ (~ all_work /\ published_worlds s).
Definition cloned (destination h : string) (s : worlds) : Prop :=
  published_worlds s /\ t_staging s = t_staging s0 /\ exists c, t_worlds s !! destination = Some c /\ genuine c /\ c_sha256 w c = h.

Lemma body_clones name d h a : t_staging s0 !! name = None -> read_at_some_time a -> c_sha256 w a = h ->
  ftri (staged_at None) (clone_body w name d h) (fun r s => cloned d h s /\ r = h) (fun _ => stopped_clone name).
Proof.
  intros Hname Ha Hh. assert (H0 : forall s, staged_at None s -> stopped_clone name s) by (intros s H; left; exists None; auto).
  assert (H1 : forall c s, staged_at (Some (name, c)) s -> stopped_clone name s) by (intros c s H; left; exists (Some (name, c)); eauto).
  assert (Hput : forall o c, (o = None \/ exists c', o = Some (name, c')) -> forall s, staged_at o s -> staged_at (Some (name, c)) (with_staged (<[name := c]>) s)).
  { intros o c Ho s [Hu Hs]. split; [done|]. simpl. rewrite Hs. destruct Ho as [->|[c' ->]]; [done|apply insert_insert_eq]. }
  apply (ftri_seq _ _ _ (staged_at (Some (name, None)))).
  { intros s n H. unfold make_staging, mbind, FM_bind, read. simpl. pose proof H as [_ Hs]. rewrite Hs, Hname. simpl.
    unfold feffect. simpl. destruct (fault n); [by apply H0|]. by apply (Hput None None (or_introl eq_refl)). }
  apply (ftri_bind _ _ _ (fun c s => staged_at (Some (name, Some c)) s /\ read_at_some_time c)).
  { eapply ftri_bind; [eapply ftri_conseq; [apply read_source_at|done|intros c s H; exact H|intros x; apply H1]|]. intros c.
    apply (ftri_seq _ _ _ (fun s => staged_at (Some (name, Some c)) s /\ read_at_some_time c)).
    { apply ftri_effect; [|intros x s [H _]; by eapply H1]. intros s [H Hc]. split; [|done]. by apply (Hput (Some (name, None)) (Some c) (or_intror (ex_intro _ None eq_refl))). }
    eapply ftri_seq; [apply ftri_step; intros x s [H _]; by eapply H1|]. by apply ftri_ret. }
  intros c. apply ftri_pure. intros Hc.
  eapply ftri_bind; [eapply ftri_conseq; [apply read_source_at|done|intros b s H; exact H|intros x; apply H1]|]. intros b. apply ftri_pure. intros Hb.
  apply ftri_guard_then; [intros s; apply H1|]. intros Hg. apply andb_prop in Hg as [Hg1%String.eqb_eq Hg2%String.eqb_eq].
  assert (Hgen : genuine c) by (split; [done|]; exists a, b; split_and!; try done; congruence).
  eapply ftri_seq; [apply ftri_step; intros x s; apply H1|].
  apply (ftri_seq _ _ _ (staged_at (Some (name, Some c)))).
  { eapply ftri_bind; [apply (ftri_oracle _ (staged_at (Some (name, Some c))))|]. intros l. apply ftri_guard. intros s. apply H1. }
  pose (Q := fun s => published_worlds s /\ t_worlds s !! d = Some c /\ exists o, t_staging s = <[name := o]> (t_staging s0)).
  assert (Hbad : forall x n s, fault n = Some x -> Q s -> stopped_clone name s).
  { intros x n s Hf (Hp & _). right. split; [|done]. intros H. by rewrite H in Hf. }
  apply (ftri_seq _ _ _ Q).
  { eapply ftri_seq; [eapply ftri_conseq; [apply rival_at|done|intros [] s H; exact H|intros x; apply H1]|].
    intros s n H. unfold mbind, FM_bind, read. simpl. case_bool_decide as Hd; [by eapply H1|]. unfold feffect. simpl. destruct (fault n); [by eapply H1|].
    destruct H as [Hu Hs]. split_and!; [|simpl; apply lookup_insert_eq|simpl; eauto].
    apply grown_insert; [by apply untouched_published|by apply eq_None_not_Some|by right]. }
  apply (ftri_seq _ _ _ Q).
  { apply ftri_effect_fault; [|exact Hbad]. intros s (Hp & Hd & o & Hs). split_and!; try done. exists None. simpl. by rewrite Hs, insert_insert_eq. }
  apply (ftri_seq _ _ _ (fun s => cloned d h s)).
  { apply ftri_effect_fault; [|exact Hbad]. intros s (Hp & Hd & o & Hs). split_and!; [done|simpl; rewrite Hs; by apply delete_insert_id|]. exists c. done. }
  apply ftri_ret. intros s Hs. split; [done|congruence].
Qed.

Definition clone_ended (x : fexc) (s : worlds) : Prop :=
  published_worlds s /\ (all_work -> x <> CrashF -> x <> OtherF -> untouched_worlds s /\ t_staging s = t_staging s0).

Lemma staged_ended x s : staged_at None s -> clone_ended x s.
Proof. intros [H1 H2]. split; [by apply untouched_published|done]. Qed.
Lemma stopped_published name s : stopped_clone name s -> published_worlds s.
Proof. intros [(o & [H _] & _)|[_ H]]; [by apply untouched_published|done]. Qed.

Lemma cleanup_at {A} name y : t_staging s0 !! name = None ->
  ftri (stopped_clone name) (remove_staging w name ;; (fthrow y : FM worlds A)) (fun _ _ => False) clone_ended.
Proof.
  intros Hname. apply (ftri_seq _ _ _ (fun s => published_worlds s /\ (all_work -> untouched_worlds s /\ t_staging s = t_staging s0))).
  - intros s n H. unfold remove_staging, fexcept, feffect. simpl. destruct (fault n) as [x|] eqn:Ef.
    + assert (Hn : ~ all_work) by (intros Hw; by rewrite Hw in Ef). pose proof (stopped_published name s H) as Hp.
      destruct (is_end x) eqn:Ex; simpl; [|by split]. split; [done|]. intros Hw. by destruct Hn.
    + simpl. destruct H as [(o & [H1 H2] & Ho)|[Hn Hp]]; [|by split]. split; [by apply (untouched_published s)|]. intros _. split; [done|]. simpl. rewrite H2.
      destruct Ho as [->|[c ->]]; [by rewrite delete_id|by rewrite delete_insert_id].
  - apply ftri_throw. intros s [H1 H2]. split; [done|]. auto.
Qed.

Lemma clone_at world name : ftri (fun s => s = s0) (clone_vanilla_to_tmod w world name) (fun r s => cloned (fst (fst r)) (snd (fst r)) s /\ snd r = snd (fst r)) clone_ended.
Proof.
  assert (He : forall x s, staged_at None s -> clone_ended x s) by (intros; by apply staged_ended).
  apply (ftri_pre _ (staged_at None)); [|intros s ->; split; [split; [done|by left]|done]].
  apply ftri_guard_then; [intros s; apply He|]. intros _. apply ftri_guard_then; [intros s; apply He|]. intros _.
  apply (ftri_seq _ _ _ (staged_at None)).
  { unfold _stopped. destruct (c_stopped w) as [f|]; [|by apply ftri_throw; intros s; apply He]. apply ftri_bind_assoc.
    eapply ftri_bind; [eapply ftri_conseq; [apply oracle_at|done|intros b s H; exact H|intros x; apply He]|]. intros b. apply ftri_guard. intros s. apply He. }
  apply ftri_guard_then; [intros s; apply He|]. intros _.
  eapply ftri_bind; [eapply ftri_conseq; [apply read_source_at|done|intros c s H; exact H|intros x; apply He]|]. intros first. apply ftri_pure. intros Hfirst.
  apply ftri_bind_assoc. eapply ftri_bind; [eapply ftri_conseq; [apply oracle_at|done|intros b s H; exact H|intros x; apply He]|]. intros ?.
  eapply ftri_seq; [apply ftri_step; intros x s; apply He|].
  do 3 (eapply ftri_bind; [apply (ftri_oracle _ (staged_at None))|]; intros ?).
  eapply ftri_seq; [eapply ftri_conseq; [apply rival_at|done|intros [] s H; exact H|intros x; apply He]|].
  apply (ftri_bind _ _ _ (fun _ => staged_at None)); [by intros s n H|]. intros l. apply ftri_guard_then; [intros s; apply He|]. intros _.
  eapply ftri_bind; [eapply ftri_except; [exact (body_clones _ _ _ first (Hfresh _) Hfirst eq_refl)|intros x Hx|]|].
  - destruct x; simpl; [| | |done].
    + eapply ftri_conseq; [by apply cleanup_at|done|done|done].
    + eapply ftri_conseq; [by apply cleanup_at|done|done|done].
    + apply ftri_throw. intros s H. split; [exact (stopped_published _ s H)|done].
  - intros x s Hx H. split; [exact (stopped_published _ s H)|]. intros _ Hn. by destruct x.
  - intros h. apply ftri_ret. intros s [H1 H2]. done.
Qed.
End Clones.


Definition clone_demo : clone_env :=
  CloneEnv (fun _ => None) (Some (fun _ => inr true)) (fun _ => Some SourceFile) (fun _ => inr "world"%string) (fun _ => inr tt)
    (fun _ => "20260101T000000"%string) (fun n => String (Ascii.ascii_of_nat (48 + n)) EmptyString) (fun _ => true) (fun _ => None) (fun c => c).

